(* ===== verification/_CoqProject ===== *)
-Q . S2P
Prelude.v
JsNumber.v
JsOrder.v
JsRound.v
JsString.v
JsValue.v
JsJson.v
JsReprint.v
TierPricing.v
PricingModel.v
PricingSerialize.v
PricingView.v
VideoPricingJson.v
PricingEditor.v
PricingPage.v
PricingMachine.v
PricingSave.v
StatusCodes.v
BillingFormula.v
PricingFilter.v
MarketPrice.v
MarketSort.v
MarketPage.v
ParamOverride.v
ParamReload.v
ParamOverrideEditor.v
ParamMachine.v
UpstreamSync.v
UpstreamMerge.v
UpstreamSave.v
UpstreamSyncPage.v
UpstreamMachine.v
QuotaDisplay.v
QuotaShown.v
PlaygroundText.v
PlaygroundMedia.v
PlaygroundChat.v
PlaygroundActions.v
PlaygroundPage.v
PlaygroundSettings.v
