(* ===== verification/Prelude.v ===== *)
(** * TokenFactory web console: the pricing editor and its helpers

    TokenFactory is a gateway for AI model APIs: a Go backend that relays and
    bills requests, and a React console (web/src) in which an administrator
    sets what each model costs and tries models in a playground.  This
    development covers the console's own logic, first of all the pricing
    editor, which reads the stored option maps, lets the administrator edit
    prices in many forms (per token, per request, tiers, video and image
    tables, JSON) and writes the maps back.

    ** The parts and the files

    - [Prelude]: record update, exceptions ([E + A] with [x <~ e ;; k]),
      generic list lemmas.
    - [JsNumber], [JsString], [JsValue], [JsJson]: the language.  Numbers are
      binary64 values ([spec_float]) with the arithmetic written out; strings
      are lists of UTF-16 code units ([jsstr]) with decimal and shortest
      printing, [toFixed], [trim] and the like; values are the inductive
      [jsval] with coercions, property access and property order;
      [JSON.parse] and [JSON.stringify].  Case mapping outside ASCII and
      [localeCompare] are the class [Unicode] (ECMA-402 data, not in the
      repository); [t], the translation function of i18next, is a parameter.
    - [JsReprint]: the values [JSON.parse] returns, reading is local to the
      text read, trimming a text does not change its value, and printing a
      parsed value gives a text that is printed the same again.
    - [JsOrder]: rounding, product, sum and quotient are monotone, for the
      theorems that compare prices.
    - [JsRound]: the error of one rounded operation and of chains of them, as
      rationals, for the theorems on amounts; [Math.floor] and [Math.ceil].
    - [TierPricing]: pages/Setting/Ratio/utils/requestTierPricing.js.
    - [PricingModel]: the numeric helpers, stored rules and [buildModelState]
      of pages/Setting/Ratio/hooks/useModelPricingEditorState.js.
    - [PricingSerialize]: [serializeModel] of the same file, with its row
      normalisations and its errors.
    - [PricingView]: [getModelWarnings], [buildSummaryText],
      [buildOptionalFieldToggles] and [buildPreviewRows].
    - [VideoPricingJson] (Module [VideoJson]): utils/videoPricingJson.js, the
      JSON form of the video prices with comments.
    - [PricingEditor]: the hook [useModelPricingEditorState]: its state
      variables as the record [EditorState], its arguments as [Props], the
      load effect, the selection effects ([settle]) and one definition per
      handler.
    - [PricingPage]: components/ModelPricingEditor.jsx: the page's own state
      ([Page]: shown tier categories, JSON mode, dialogs) and handlers.
    - [PricingMachine]: page and hook as a state machine: every action,
      reload and phase of the asynchronous save is a step.
    - [PricingSave]: what a save sends and how it reads back.
    - [StatusCodes]: helpers/statusCodeRules.js (lists of status codes and
      ranges) and components/table/channels/modals/statusCodeRiskGuard.js
      (the status code mapping of a channel).
    - [BillingFormula]: helpers/billingFormula.js, the rates of a channel from
      its ratios, discount and markup, and the channel lookups of
      helpers/utils.jsx it calls.
    - [PricingFilter]: hooks/model-pricing: the facets of
      usePricingFilterCounts.js and the filters of useModelPricingData.jsx.
    - [MarketPrice]: the prices of the model market and the commission
      percentages of helpers/utils.jsx, and [displayPrice].
    - [MarketSort]: the rows and the sort orders of
      hooks/model-pricing/useModelPricingData.jsx.
    - [MarketPage]: the state, handlers and request of the same hook, as a
      state machine.
    - [ParamOverride]: components/table/channels/modals/
      ParamOverrideEditorModal.jsx, the rules of a channel's parameter
      override: their modes, the drafts of two kinds of values, validation,
      loading ([parseInitialState]) and saving ([buildOperationsJson]).
      Identifiers come from a module-level counter and the clock; the
      functions that take one are in the state monad [Gen].
    - [ParamReload]: a saved override opened again.
    - [ParamOverrideEditor]: the dialog of the same file: its state variables
      as the record [Editor], its effects ([open_dialog], [settle]) and one
      definition per handler.
    - [ParamMachine]: the dialog as a state machine and its properties.
    - [UpstreamSync]: pages/Setting/Ratio/UpstreamRatioSync.jsx, the
      comparison with the prices of upstream channels: names and keys,
      numbers, the conflict check and the merge of ticked values into the
      option maps ([build_final]) with the requests of a save ([updates]).
    - [UpstreamMerge]: the merge seen as writes to locations (channel or
      global, field, model).
    - [UpstreamSave]: the requests read back; columns and channels.
    - [UpstreamSyncPage]: the page's state ([Sync]), handlers, replies of the
      asynchronous requests, table rows and cell texts.
    - [UpstreamMachine]: the page as a state machine and its properties.
    - [QuotaDisplay]: helpers/render.jsx, quota amounts: the text shown for a
      quota or a list of them, and amounts of input boxes.
    - [QuotaShown]: what these texts and amounts are worth.
    - [PlaygroundText]: the messages of the playground ([Message]) and their
      helpers in helpers/utils.jsx; thoughts in tags.
    - [PlaygroundMedia]: helpers/playgroundImageUtils.js,
      helpers/playgroundVideoUtils.js and [buildApiPayload] of helpers/api.js.
    - [PlaygroundChat]: hooks/playground/useApiRequest.jsx.  A function given
      to [setMessage] is an [Update], run by [run_update]; the listeners of a
      stream and the handling of a reply return lists of [Command]s; polling
      is a function of the replies.
    - [PlaygroundActions]: identifiers and stored messages of
      usePlaygroundState.js, the actions of useMessageActions.jsx and
      useMessageEdit.jsx, sending and preview of pages/Playground/index.jsx,
      useSyncMessageAndCustomBody.js.
    - [PlaygroundPage]: pages/Playground/index.jsx, the conversations of the
      three modes ([PlayPage]) with the effects that keep them.
    - [PlaygroundSettings]: components/playground/configStorage.js, the
      settings of usePlaygroundState.js and the loading of models, routes and
      groups of useDataLoader.js.

    The files follow the calls: the page calls the hook, the hook calls
    [buildModelState] when options arrive and [serializeModel] when they are
    saved, the JSON editor and the tier rules are called by both.  Status
    codes, billing, model market, parameter overrides, the upstream
    synchronisation, quota amounts and the playground are components of their
    own on the same language model.

    ** What the theorems show

    - Saving a model ([PricingSerialize]): exactly when it fails; every
      stored number is finite; video tables are well formed; image tables and
      a per-request price exclude each other; tiers of shown categories
      survive a save and a reload, those of hidden ones do not; image prices
      without an input price are lost.
    - Warnings and preview ([PricingView]): a model without a warning can be
      saved; each previewed ratio tells what is stored; the duplicate check is
      exact and loaded tables pass it.
    - The JSON editor: the exported text parses to the exported data for
      every model; importing it again keeps the prices of the six resolutions
      it knows, makes one table of the upload and generation prices, and loses
      all other resolutions.
    - Tier rules: validation accepts exactly the well-formed rules, whose
      price tables tile the token counts; serialisation round-trips.
    - Numbers: [formatNumber] and [toNumericString] are canonical.
    - The page: an invariant of all reachable states; a save sends exactly
      the saved models' prices, or nothing on an error, and what it sends is
      loaded back as the same maps; the table's pages cover the models; the
      offered resolutions keep tables free of duplicates; and two defects: a
      save drops the tiers of hidden categories for all models, and does not
      contain a draft of the JSON mode.
    - Status codes: a list is accepted exactly when each part is a numeral or a
      range of two within 100 to 599, and its ranges contain exactly the codes
      written; the normal form is
      canonical and parses to itself; the guard reports exactly the new risky
      redirects.
    - Billing: markup never lowers a rate below the discounted cost; rates
      follow the percentages; a log entry without billing data shows the
      discounted rates; the cost view lists each price at most once.
    - Model market: the facet lists and the page's own filter agree; the
      group used is the cheapest; the range over the channels is tight; the
      rows of a load are listed by name and quota type with distinct keys, and
      each sort order ranks them by its own key; a detail reopened within
      300 ms of a close loses its model.
    - Parameter overrides: an invariant of all reachable states of the dialog
      (distinct identifiers, a selected rule); a rule set is saved exactly
      when each rule has what its mode needs, the message names the first
      that has not, and what is saved reloads to the same rules and the same
      text; dragging moves one rule; what is saved is canonical JSON; and two
      defects: a string value that reads as JSON changes its type, and the
      rules of prune_objects cannot be edited.
    - Upstream synchronisation: the merge changes exactly the ticked fields
      and removes a stated list of fields of the other billing category (no
      tiers); the saved options read
      back as the merged maps; a column determines its channel; the ticked
      values of a model stay in one category in all reachable states; the
      loading flags end once all requests are answered; and two defects: a
      confirmed tier price leaves the fixed price, and the presets are asked
      at the default endpoint.
    - Quota amounts: an entered amount gives its quota back; a shown amount
      is within two units of the last digit of the amount and never zero for
      a positive one; a total differs from its rows by at most a unit per
      row; the search for the digits ends.
    - The playground: the page implements three conversations with a saved
      copy, which every change of the mode loads over them; a streamed answer is the texts of its chunks however it is cut, a
      failed stream keeps what was received, and late events change nothing;
      polling of a video task ends with one final state; identifiers are made
      unique once; thoughts and answer are separated exactly; pictures and
      the custom request body round-trip; deleting and editing change exactly
      the message; a conversation read from the older storage is closed as
      the stop button closes it; and defects: a change of the mode loads the
      stored conversations over newer text, a loading message is restored as
      loading, and a video task is polled twice.
    - Its settings: one run of the loader's effect settles the selection; an
      exported configuration comes back, but for a custom request mode that is
      off.

    ** Choices

    The JSON parser recurses on fuel, [json_fuel s = S (2 * length s)];
    [parse_fuel_enough] proves that more fuel changes no result, since every
    call that recurses twice consumes a character.  The shortest printing of
    a number searches at most 17 digits, which always suffices, and the
    proofs of the round trips go through that search.

    Property access sees own properties only, so names that shadow
    [Object.prototype] ("constructor", "__proto__") are outside the model.
    React's batching is modelled as: a handler maps the state of the render
    it was created in; where a handler uses a value of its render after an
    update was queued ([handleSubmit_from]) the two states are separate
    arguments.  The effect that shows tier categories compares references; a
    step may run it at any time and must when a watched tier changed.
    Sorting is a stable insertion sort, which any stable sort with a consistent
    comparison equals.  Identity of objects is not modelled; the
    synchronisation page compares objects with [===], and the comparison is a
    parameter there.  A handler that awaits a reply is split at the await; what it captured is kept with
    the pending request.  Messages of the playground are values; where the
    code looks for one by reference, its position is a parameter.  Polling
    runs for its 120 attempts, the bound of the code, on any replies.

    ** Not modelled

    The Go backend; JSX trees, styles and event wiring; HTTP and browser
    services; translations; the demo calculator of video prices; a page's own
    [onSaveOutput] callback; the field guide of the parameter overrides.  The
    remaining pages and helpers of the console are listed with their reasons
    in the project manifest. *)
From Stdlib Require Import ZArith Lia Sorting.Sorted.
From stdpp Require Import base list.

Create HintDb js_num.
Declare Scope js_scope.
Delimit Scope js_scope with js.

(** ** Record update: [r <| field := v |>]

    The spread [{...r, field: v}] of the source.  A record type declares its
    eta expansion once; setters are then found for every projection. *)
Class Eta (R : Type) := eta : R -> R.
Class Setter {R T : Type} (proj : R -> T) := setf : T -> R -> R.
Arguments setf {R T} proj {_} _ _.

Ltac build_setter :=
  lazymatch goal with
  | |- @Setter ?R ?T ?proj =>
      let v := fresh "v" in
      let r := fresh "r" in
      intros v r;
      let body := eval hnf in (eta r) in
      lazymatch eval pattern (proj r) in body with
      | ?F _ => let u := eval cbv beta in (F v) in exact u
      end
  end.

#[export] Hint Extern 1 (Setter _) => build_setter : typeclass_instances.

Notation "r <| p := v |>" := (setf p v r)
  (at level 1, left associativity, p at level 9, format "r  <| p  :=  v |>").

(** ** Exceptions: a computation returns a value or throws *)
Section Result.
Context {E : Type}.
Definition rbind {A B} (m : E + A) (f : A -> E + B) : E + B :=
  match m with inl e => inl e | inr a => f a end.

(** [l.map(f)], the first exception ending the traversal. *)
Fixpoint rmap {A B} (f : A -> E + B) (l : list A) : E + list B :=
  match l with
  | [] => inr []
  | x :: r => rbind (f x) (fun y => rbind (rmap f r) (fun ys => inr (y :: ys)))
  end.

Lemma rmap_inr {A B} (f : A -> E + B) l ys :
  rmap f l = inr ys <-> Forall2 (fun x y => f x = inr y) l ys.
Proof.
  revert ys. induction l as [|x l IH]; intros ys; cbn.
  - split; [intros [= <-]; constructor | inversion 1; reflexivity].
  - destruct (f x) as [e|y] eqn:Fx; cbn.
    { split; [discriminate|]. inversion 1; congruence. }
    destruct (rmap f l) as [e|zs] eqn:Fl; cbn.
    + split; [discriminate|]. inversion 1; subst.
      match goal with H : Forall2 _ l _ |- _ => apply IH in H end. congruence.
    + split.
      * intros [= <-]. constructor; [done|]. by apply IH.
      * inversion 1; subst.
        match goal with H : Forall2 _ l _ |- _ => apply IH in H end. congruence.
Qed.

Lemma rmap_total {A B} (f : A -> E + B) (g : A -> B) l :
  Forall (fun x => f x = inr (g x)) l -> rmap f l = inr (map g l).
Proof. induction 1 as [|x l Hx _ IH]; cbn; [done|]. by rewrite Hx, IH. Qed.
End Result.

Notation "x <~ e ;; k" := (rbind e (fun x => k))
  (at level 100, e at next level, right associativity).

(** ** Keeping the first of equal elements *)
Section Dedup.
Context {A : Type}.

(** [arr.findIndex(p)], [None] for -1 *)
Fixpoint find_index (p : A -> bool) (arr : list A) : option nat :=
  match arr with
  | [] => None
  | x :: r => if p x then Some 0 else S <$> find_index p r
  end.

(** [arr.filter((x, index, arr) => arr.findIndex((y) => eqb y x) === index)] from
    position [i] of [arr] on. *)
Fixpoint keep_first_from (eqb : A -> A -> bool) (arr : list A) (i : nat) (l : list A)
    : list A :=
  match l with
  | [] => []
  | x :: r =>
      if bool_decide (find_index (fun y => eqb y x) arr = Some i)
      then x :: keep_first_from eqb arr (S i) r
      else keep_first_from eqb arr (S i) r
  end.
Definition keep_first (eqb : A -> A -> bool) (arr : list A) : list A :=
  keep_first_from eqb arr 0 arr.

(** Filtering by a [Set] of seen keys. *)
Fixpoint dedup_by {K} `{EqDecision K} (key : A -> K) (seen : list K) (l : list A) : list A :=
  match l with
  | [] => []
  | x :: r =>
      if bool_decide (key x ∈ seen) then dedup_by key seen r
      else x :: dedup_by key (key x :: seen) r
  end.

Lemma dedup_by_elem {K} `{EqDecision K} (key : A -> K) seen l x :
  x ∈ dedup_by key seen l -> x ∈ l /\ key x ∉ seen.
Proof.
  revert seen. induction l as [|y l IH]; intros seen; cbn; [by intros ?%not_elem_of_nil|].
  case_bool_decide as Hy.
  - intros [H1 H2]%IH. split; [by apply list_elem_of_further|done].
  - intros [->|Hx]%elem_of_cons; [split; [apply list_elem_of_here|done]|].
    apply IH in Hx as [H1 H2]. split; [by apply list_elem_of_further|].
    intros ?. apply H2. by apply list_elem_of_further.
Qed.

Lemma dedup_by_NoDup {K} `{EqDecision K} (key : A -> K) seen l :
  NoDup (map key (dedup_by key seen l)).
Proof.
  revert seen. induction l as [|y l IH]; intros seen; cbn; [constructor|].
  case_bool_decide; [apply IH|]. cbn. constructor; [|apply IH].
  intros (x & E & Hx)%list_elem_of_fmap. apply dedup_by_elem in Hx as [_ Hx].
  apply Hx. rewrite <- E. apply list_elem_of_here.
Qed.

(** With an equality test induced by a key, [keep_first] is [dedup_by]. *)
Lemma find_index_app p pre x r :
  forallb (fun y => negb (p y)) pre = true -> p x = true ->
  find_index p (pre ++ x :: r) = Some (length pre).
Proof.
  intros Hpre Hx. induction pre as [|y pre IH]; cbn in *.
  - by rewrite Hx.
  - apply andb_prop in Hpre as [Hy Hpre]. destruct (p y); [done|]. by rewrite IH.
Qed.

Lemma find_index_lt p pre l i : find_index p (pre ++ l) = Some i ->
  existsb p pre = true -> i < length pre.
Proof.
  revert i. induction pre as [|y pre IH]; intros i; cbn; [done|].
  destruct (p y) eqn:E; cbn; [intros [= <-]; lia|].
  destruct (find_index p (pre ++ l)) as [j|]; cbn; [|done].
  intros [= <-] H. specialize (IH j eq_refl H). lia.
Qed.

Lemma keep_first_from_dedup {K} `{EqDecision K} (key : A -> K) eqb pre seen l :
  (forall a b, eqb a b = bool_decide (key a = key b)) ->
  (forall k, k ∈ seen <-> k ∈ map key pre) ->
  keep_first_from eqb (pre ++ l) (length pre) l = dedup_by key seen l.
Proof.
  intros He. revert pre seen. induction l as [|x l IH]; intros pre seen Hs; cbn; [done|].
  pose proof (IH (pre ++ [x])) as IH'.
  rewrite <- app_assoc, length_app, Nat.add_1_r in IH'. cbn in IH'.
  assert (P : existsb (fun y => eqb y x) pre = bool_decide (key x ∈ seen)).
  { apply eq_true_iff_eq. rewrite existsb_exists, bool_decide_eq_true, Hs.
    rewrite list_elem_of_fmap. setoid_rewrite <- list_elem_of_In.
    split; intros (y & H1 & H2); exists y; split; trivial.
    - rewrite He, bool_decide_eq_true in H2. done.
    - by rewrite He, bool_decide_eq_true. }
  destruct (decide (find_index (fun y => eqb y x) (pre ++ x :: l) = Some (length pre))) as [F|F];
    [rewrite (bool_decide_true _ F) | rewrite (bool_decide_false _ F)];
    case_bool_decide as D.
  - exfalso. apply find_index_lt in F; [lia|]. exact P.
  - f_equal. apply IH'. intros k. rewrite map_app, elem_of_app, elem_of_cons, Hs. cbn.
    rewrite elem_of_cons, elem_of_nil. tauto.
  - apply IH'. intros k. rewrite map_app, elem_of_app, Hs. cbn.
    rewrite elem_of_cons, elem_of_nil. rewrite Hs in D.
    split; [tauto|]. intros [?|[->|[]]]; tauto.
  - exfalso. apply F. apply find_index_app; [|by rewrite He, bool_decide_true].
    apply forallb_forall. intros y Hy. apply negb_true_iff.
    apply not_true_is_false. intros E.
    assert (existsb (fun y => eqb y x) pre = true) by (apply existsb_exists; eauto).
    congruence.
Qed.

Lemma keep_first_dedup {K} `{EqDecision K} (key : A -> K) eqb l :
  (forall a b, eqb a b = bool_decide (key a = key b)) ->
  keep_first eqb l = dedup_by key [] l.
Proof.
  intros He. apply (keep_first_from_dedup key eqb [] []); [done|]. cbn. tauto.
Qed.
End Dedup.

(** ** Filters *)

Lemma filter_all {A} (P : A -> Prop) `{!forall x, Decision (P x)} l :
  Forall P l -> base.filter P l = l.
Proof.
  induction 1 as [|x l Hx _ IH]; [done|]. rewrite filter_cons_True by done. by rewrite IH.
Qed.

Lemma filter_none {A} (P : A -> Prop) `{!forall x, Decision (P x)} l :
  Forall (fun x => ~ P x) l -> base.filter P l = [].
Proof.
  induction 1 as [|x l Hx _ IH]; [done|]. by rewrite filter_cons_False.
Qed.

(** A [Set] of values has the elements it was made from. *)
Lemma dedup_id_elem {A} `{EqDecision A} (l seen : list A) x :
  x ∈ dedup_by id seen l <-> x ∈ l /\ x ∉ seen.
Proof.
  revert seen. induction l as [|y l IH]; intros seen; cbn.
  { split; [by intros ?%not_elem_of_nil|by intros [?%not_elem_of_nil _]]. }
  rewrite elem_of_cons. case_bool_decide as Y; unfold id in Y.
  - rewrite IH. split; [tauto|]. intros [[->|X] N]; done.
  - rewrite elem_of_cons, IH, not_elem_of_cons. destruct (decide (x = y)) as [->|]; tauto.
Qed.

(** Cutting a list into pages of [n] and joining them again. *)
Lemma pages_concat {A} n (l : list A) k : (length l <= k * n)%nat ->
  concat (map (fun i => take n (drop (i * n) l)) (seq 0 k)) = l.
Proof.
  revert l. induction k as [|k IH]; intros l L; cbn [seq map concat].
  { by destruct l; [|cbn in L; lia]. }
  rewrite <- seq_shift, map_map. cbn [Nat.mul]. rewrite drop_0.
  rewrite (map_ext _ (fun i => take n (drop (i * n) (drop n l)))).
  - rewrite IH, take_drop; [done|]. rewrite length_drop. lia.
  - intros i. by rewrite drop_drop.
Qed.

(** What follows the last separator of a list is determined by the list. *)
Lemma last_sep {A} (c : A) a b x y : c ∉ x -> c ∉ y -> a ++ c :: x = b ++ c :: y -> x = y.
Proof.
  revert b. induction a as [|d a IH]; intros [|e b] X Y E; cbn [app] in E.
  - by injection E.
  - injection E as <- E. destruct X. rewrite E. apply elem_of_app. right. apply list_elem_of_here.
  - injection E as -> E. destruct Y. rewrite <- E. apply elem_of_app. right. apply list_elem_of_here.
  - injection E as -> E. by apply (IH b).
Qed.

Lemma StronglySorted_weaken {A} (R R' : A -> A -> Prop) l :
  (forall a b, a ∈ l -> b ∈ l -> R a b -> R' a b) -> StronglySorted R l -> StronglySorted R' l.
Proof.
  intros W S. induction S as [|x l S IH F]; constructor.
  - apply IH. intros a b A1 B1. apply W; by apply list_elem_of_further.
  - rewrite Forall_forall in *. intros y Y. apply W; [apply list_elem_of_here|by apply list_elem_of_further|auto].
Qed.

Lemma StronglySorted_True {A} (l : list A) : StronglySorted (fun _ _ => True) l.
Proof. induction l; constructor; [done|by apply Forall_true]. Qed.

(** ** [arr.sort(compare)], a stable sort *)
Section Sort.
Context {A : Type} (le : A -> A -> bool).

Fixpoint insert_by (x : A) (l : list A) : list A :=
  match l with
  | [] => [x]
  | y :: r => if le x y then x :: l else y :: insert_by x r
  end.
Definition sort_by (l : list A) : list A := fold_right insert_by [] l.

Lemma insert_by_perm x l : insert_by x l ≡ₚ x :: l.
Proof.
  induction l as [|y l IH]; cbn; [done|]. case_match; [done|]. rewrite IH. apply Permutation_swap.
Qed.

Lemma sort_by_perm l : sort_by l ≡ₚ l.
Proof. induction l as [|x l IH]; cbn; [done|]. by rewrite insert_by_perm, IH. Qed.

(** On elements where [le] is total and transitive the result is ordered, and
    elements equal under [le] keep an order the list had. *)
Section Stable.
Context (P : A -> Prop) (R : A -> A -> Prop).
Hypothesis le_total_on : forall x y, P x -> P y -> le x y = false -> le y x = true.
Hypothesis le_trans_on : forall x y z, P x -> P y -> P z -> le x y = true -> le y z = true -> le x z = true.

Definition stably (a b : A) : Prop := le a b = true /\ (le b a = true -> R a b).

Lemma insert_by_stable x l : P x -> Forall P l -> Forall (R x) l ->
  StronglySorted stably l -> StronglySorted stably (insert_by x l).
Proof.
  intros X L B S. induction S as [|y l S IH F]; cbn; [by repeat constructor|].
  apply Forall_cons in L as [Y L]. apply Forall_cons in B as [By B]. destruct (le x y) eqn:E.
  - constructor; [by constructor|]. constructor; [done|]. rewrite Forall_forall in *.
    intros z Z. destruct (F z Z). split; [by eapply (le_trans_on x y z); auto|auto].
  - constructor; [auto|]. rewrite insert_by_perm. constructor; [|done].
    split; [auto|congruence].
Qed.

Lemma sort_by_stable l : Forall P l -> StronglySorted R l -> StronglySorted stably (sort_by l).
Proof.
  induction 2 as [|x l S IH F]; cbn; [constructor|]. apply Forall_cons in H as [X L].
  apply insert_by_stable; [done|by rewrite sort_by_perm..|auto].
Qed.
End Stable.

Hypothesis le_total : forall x y, le x y = false -> le y x = true.
Hypothesis le_trans : forall x y z, le x y = true -> le y z = true -> le x z = true.

Lemma sort_by_sorted l : StronglySorted (fun a b => le a b = true) (sort_by l).
Proof.
  apply (StronglySorted_weaken (stably (fun _ _ => True))); [by intros ? ? _ _ []|].
  apply (sort_by_stable (fun _ => True)); [auto|eauto|by apply Forall_true|apply StronglySorted_True].
Qed.
End Sort.

Lemma sort_by_id {A} (le : A -> A -> bool) l :
  StronglySorted (fun a b => le a b = true) l -> sort_by le l = l.
Proof.
  induction 1 as [|x l S IH F]; [done|].
  change (insert_by le x (sort_by le l) = x :: l). rewrite IH. destruct F as [|y l E F]; cbn; [done|]. by rewrite E.
Qed.

Lemma StronglySorted_filter {A} (R : A -> A -> Prop) (P : A -> Prop) `{!forall x, Decision (P x)} l :
  StronglySorted R l -> StronglySorted R (base.filter P l).
Proof.
  induction 1 as [|x l S IH F]; [constructor|]. rewrite filter_cons. case_decide; [|done].
  constructor; [done|]. rewrite Forall_forall in F |- *. intros y [_ Y]%list_elem_of_filter. auto.
Qed.
