(* ===== verification/JsNumber.v ===== *)
(** * ECMAScript numbers

    The Number type of the language: IEEE-754 binary64 values with correctly
    rounded arithmetic.  The carrier is the Standard Library's [spec_float];
    every operation rounds the exact rational result once, with
    [round_ratio] (round to nearest, ties to even), which is what the
    language prescribes.  The file also proves the facts the rest of the
    development needs of rounding: its result is always a canonical binary64
    value, it depends only on the rational it is given, and it is the
    identity on values that are already representable. *)

From Stdlib Require Import ZArith Lia Bool List SpecFloat.
From S2P Require Import Prelude.
Local Open Scope Z_scope.

(** ** Rounding a non-negative rational [p / q] *)

(** [p / q] divided by [2 ^ e] is [scale_num p e / scale_den q e]. *)
Definition scale_num (p e : Z) : Z := p * 2 ^ Z.max 0 (- e).
Definition scale_den (q e : Z) : Z := q * 2 ^ Z.max 0 e.

(** The binary exponent of [p / q]: the [e] with [2^e <= p/q < 2^(e+1)]. *)
Definition ilog2 (p q : Z) : Z :=
  let e := Z.log2 p - Z.log2 q in
  if scale_den q e <=? scale_num p e then e else e - 1.

(** [n / d] to the nearest integer, ties to even. *)
Definition rne (n d : Z) : Z :=
  let q := n / d in
  match 2 * (n mod d) ?= d with
  | Lt => q
  | Gt => q + 1
  | Eq => if Z.even q then q else q + 1
  end.

Definition min_exp : Z := -1074.
Definition max_exp : Z := 971.

Definition round_exp (p q : Z) : Z := Z.max (ilog2 p q - 52) min_exp.

Definition make_num (s : bool) (m e : Z) : spec_float :=
  match m with
  | Zpos m' => if e <=? max_exp then S754_finite s m' e else S754_infinity s
  | _ => S754_zero s
  end.

Definition round_ratio (s : bool) (p q : Z) : spec_float :=
  if p <=? 0 then S754_zero s else
  let e := round_exp p q in
  let m := rne (scale_num p e) (scale_den q e) in
  if m =? 2 ^ 53 then make_num s (2 ^ 52) (e + 1) else make_num s m e.

(** ** Canonical values *)

(** A canonical significand/exponent pair: 53 bits, or fewer at the least
    exponent. *)
Definition canonical (m e : Z) : Prop :=
  min_exp <= e <= max_exp /\ 0 < m < 2 ^ 53 /\ (2 ^ 52 <= m \/ e = min_exp).

Definition valid (x : spec_float) : Prop :=
  match x with S754_finite _ m e => canonical (Zpos m) e | _ => True end.

Definition isFinite (x : spec_float) : bool :=
  match x with S754_finite _ _ _ | S754_zero _ => true | _ => false end.

(** ** Arithmetic *)

Definition nan : spec_float := S754_nan.

(** The magnitude [m * 2^e] as a ratio. *)
Definition mag_num (m e : Z) : Z := m * 2 ^ Z.max 0 e.
Definition mag_den (e : Z) : Z := 2 ^ Z.max 0 (- e).

Definition nmul (x y : spec_float) : spec_float :=
  match x, y with
  | S754_nan, _ | _, S754_nan => nan
  | S754_infinity _, S754_zero _ | S754_zero _, S754_infinity _ => nan
  | S754_infinity a, (S754_infinity b | S754_finite b _ _)
  | S754_finite a _ _, S754_infinity b => S754_infinity (xorb a b)
  | S754_zero a, (S754_zero b | S754_finite b _ _)
  | S754_finite a _ _, S754_zero b => S754_zero (xorb a b)
  | S754_finite a m1 e1, S754_finite b m2 e2 =>
      round_ratio (xorb a b) (mag_num (Zpos m1 * Zpos m2) (e1 + e2)) (mag_den (e1 + e2))
  end.

Definition ndiv (x y : spec_float) : spec_float :=
  match x, y with
  | S754_nan, _ | _, S754_nan => nan
  | S754_infinity _, S754_infinity _ | S754_zero _, S754_zero _ => nan
  | S754_infinity a, (S754_zero b | S754_finite b _ _)
  | S754_finite a _ _, S754_zero b => S754_infinity (xorb a b)
  | S754_zero a, (S754_infinity b | S754_finite b _ _)
  | S754_finite a _ _, S754_infinity b => S754_zero (xorb a b)
  | S754_finite a m1 e1, S754_finite b m2 e2 =>
      round_ratio (xorb a b)
        (mag_num (Zpos m1) (e1 - e2)) (Zpos m2 * mag_den (e1 - e2))
  end.

Definition signed (s : bool) (m : Z) : Z := if s then - m else m.

(** The integer [z] times [2 ^ e], rounded; an exact zero is [+0]. *)
Definition round_dyadic (z e : Z) : spec_float :=
  round_ratio (z <? 0) (mag_num (Z.abs z) e) (mag_den e).

Definition nadd (x y : spec_float) : spec_float :=
  match x, y with
  | S754_nan, _ | _, S754_nan => nan
  | S754_infinity a, S754_infinity b => if eqb a b then x else nan
  | S754_infinity _, _ => x
  | _, S754_infinity _ => y
  | S754_zero a, S754_zero b => S754_zero (a && b)
  | S754_zero _, _ => y
  | _, S754_zero _ => x
  | S754_finite a m1 e1, S754_finite b m2 e2 =>
      let e := Z.min e1 e2 in
      round_dyadic (signed a (Zpos m1) * 2 ^ (e1 - e) + signed b (Zpos m2) * 2 ^ (e2 - e)) e
  end.

Definition nneg (x : spec_float) : spec_float := SFopp x.
Definition nsub (x y : spec_float) : spec_float := nadd x (nneg y).
Definition nabs (x : spec_float) : spec_float := SFabs x.

Definition neqb (x y : spec_float) : bool := SFeqb x y.
Definition nltb (x y : spec_float) : bool := SFltb x y.
Definition nleb (x y : spec_float) : bool := SFleb x y.

(** [Math.max] of two arguments. *)
Definition nmax (x y : spec_float) : spec_float :=
  match x, y with
  | S754_nan, _ | _, S754_nan => nan
  | S754_zero a, S754_zero b => S754_zero (a && b)
  | _, _ => if nltb x y then y else x
  end.

(** [Math.min] of two arguments *)
Definition nmin (x y : spec_float) : spec_float :=
  match x, y with
  | S754_nan, _ | _, S754_nan => nan
  | S754_zero a, S754_zero b => S754_zero (a || b)
  | _, _ => if nltb y x then y else x
  end.

(** Integers and decimal literals of the source. *)
Definition num_of_Z (z : Z) : spec_float := round_ratio (z <? 0) (Z.abs z) 1.

(** The decimal [c * 10^x], as a literal denotes it. *)
Definition dec_num (s : bool) (c x : Z) : spec_float :=
  round_ratio s (c * 10 ^ Z.max 0 x) (10 ^ Z.max 0 (- x)).

Definition n0 : spec_float := S754_zero false.
Definition n1 : spec_float := num_of_Z 1.

(** The sign, numerator and denominator of a finite value. *)
Definition num_ratio (x : spec_float) : option (bool * Z * Z) :=
  match x with
  | S754_zero s => Some (s, 0, 1)
  | S754_finite s m e => Some (s, mag_num (Zpos m) e, mag_den e)
  | _ => None
  end.

(** [Math.round]: the nearest integer, ties towards [+infinity]; the
    result keeps the sign of the argument when it is a zero. *)
Definition math_round (x : spec_float) : spec_float :=
  match num_ratio x with
  | None => x
  | Some (s, p, q) =>
      let z := (2 * signed s p + q) / (2 * q) in
      if z =? 0 then S754_zero s else num_of_Z z
  end.

(** ** Properties of rounding *)

Lemma pow2_pos e : 0 <= e -> 0 < 2 ^ e.
Proof. apply Z.pow_pos_nonneg. lia. Qed.

Lemma scale_num_pos p e : 0 < p -> 0 < scale_num p e.
Proof. intros. unfold scale_num. pose proof (pow2_pos (Z.max 0 (- e))). nia. Qed.

Lemma scale_den_pos q e : 0 < q -> 0 < scale_den q e.
Proof. intros. unfold scale_den. pose proof (pow2_pos (Z.max 0 e)). nia. Qed.

Lemma mag_num_pos m e : 0 < m -> 0 < mag_num m e.
Proof. intros. unfold mag_num. pose proof (pow2_pos (Z.max 0 e)). nia. Qed.

Lemma mag_den_pos e : 0 < mag_den e.
Proof. apply pow2_pos. lia. Qed.

#[export] Hint Resolve scale_num_pos scale_den_pos mag_num_pos mag_den_pos : js_num.

(** Moving the scale from [e] to [e + k] divides the scaled ratio by [2^k]. *)
Lemma scale_shift p q e k : 0 <= k ->
  scale_num p (e + k) * scale_den q e * 2 ^ k = scale_num p e * scale_den q (e + k).
Proof.
  intros Hk. unfold scale_num, scale_den.
  transitivity (p * q * 2 ^ (Z.max 0 (- (e + k)) + Z.max 0 e + k)).
  - rewrite !Z.pow_add_r by lia. ring.
  - replace (Z.max 0 (- (e + k)) + Z.max 0 e + k)
      with (Z.max 0 (- e) + Z.max 0 (e + k)) by lia.
    rewrite Z.pow_add_r by lia. ring.
Qed.

(** Equal ratios stay equal when scaled. *)
Lemma scale_cross p q p' q' e : p * q' = p' * q ->
  scale_num p e * scale_den q' e = scale_num p' e * scale_den q e.
Proof.
  unfold scale_num, scale_den. intros H.
  set (a := 2 ^ Z.max 0 (- e)). set (b := 2 ^ Z.max 0 e).
  transitivity (p * q' * (a * b)); [ring|]. rewrite H. ring.
Qed.

Definition is_ilog2 (p q e : Z) : Prop :=
  scale_den q e <= scale_num p e < 2 * scale_den q e.

Lemma is_ilog2_unique p q e e' : 0 < p -> 0 < q ->
  is_ilog2 p q e -> is_ilog2 p q e' -> e = e'.
Proof.
  intros Hp Hq. unfold is_ilog2.
  enough (W : forall a b, a < b -> scale_num p a < 2 * scale_den q a ->
                scale_den q b <= scale_num p b -> False).
  { intros H H'. destruct (Z.lt_trichotomy e e') as [L|[->|L]]; [|reflexivity|];
      exfalso; eapply W; (exact L || lia). }
  intros a b L Ha Hb.
  pose proof (scale_shift p q a (b - a) ltac:(lia)) as S.
  replace (a + (b - a)) with b in S by lia.
  pose proof (scale_den_pos q a Hq). pose proof (scale_den_pos q b Hq).
  assert (2 ^ 1 <= 2 ^ (b - a)) by (apply Z.pow_le_mono_r; lia).
  change (2 ^ 1) with 2 in *.
  assert (scale_num p a * scale_den q b < 2 * (scale_den q a * scale_num p b)) by nia.
  assert (0 < scale_den q a * scale_num p b) by nia.
  nia.
Qed.

Lemma ilog2_spec p q : 0 < p -> 0 < q -> is_ilog2 p q (ilog2 p q).
Proof.
  intros Hp Hq. unfold ilog2.
  set (e := Z.log2 p - Z.log2 q).
  pose proof (Z.log2_spec p Hp) as [P1 P2]. pose proof (Z.log2_spec q Hq) as [Q1 Q2].
  pose proof (Z.log2_nonneg p). pose proof (Z.log2_nonneg q).
  assert (U : forall k, k = 1 \/ k = -1 ->
    if k =? 1 then scale_num p (e + k) < scale_den q (e + k)
    else scale_den q (e + k) < scale_num p (e + k)).
  { intros k Hk. unfold scale_num, scale_den.
    set (a := Z.max 0 (- (e + k))). set (b := Z.max 0 (e + k)).
    assert (A : 0 < 2 ^ a) by (apply pow2_pos; lia).
    assert (B : 0 < 2 ^ b) by (apply pow2_pos; lia).
    destruct Hk as [-> | ->]; cbn [Z.eqb Pos.eqb].
    - assert (2 ^ Z.succ (Z.log2 p) * 2 ^ a = 2 ^ Z.log2 q * 2 ^ b)
        by (rewrite <- !Z.pow_add_r by lia; f_equal; lia). nia.
    - assert (2 ^ Z.log2 p * 2 ^ a = 2 ^ Z.succ (Z.log2 q) * 2 ^ b)
        by (rewrite <- !Z.pow_add_r by lia; f_equal; lia). nia. }
  pose proof (U 1 ltac:(lia)) as U1. pose proof (U (-1) ltac:(lia)) as U2. cbn in U1, U2.
  pose proof (scale_den_pos q e Hq). unfold is_ilog2.
  destruct (Z.leb_spec (scale_den q e) (scale_num p e)).
  - split; [assumption|].
    pose proof (scale_shift p q e 1 ltac:(lia)).
    pose proof (scale_den_pos q (e + 1) Hq). nia.
  - pose proof (scale_shift p q (e - 1) 1 ltac:(lia)) as S.
    replace (e - 1 + 1) with e in S by lia. change (e + -1) with (e - 1) in U2.
    pose proof (scale_den_pos q (e - 1) Hq). nia.
Qed.

Lemma ilog2_eq p q e : 0 < p -> 0 < q -> is_ilog2 p q e -> ilog2 p q = e.
Proof. intros. apply (is_ilog2_unique p q); auto using ilog2_spec. Qed.

Lemma ilog2_cross p q p' q' : 0 < p -> 0 < q -> 0 < p' -> 0 < q' ->
  p * q' = p' * q -> ilog2 p q = ilog2 p' q'.
Proof.
  intros Hp Hq Hp' Hq' E. symmetry. apply ilog2_eq; trivial.
  pose proof (ilog2_spec p q Hp Hq) as [L U]. unfold is_ilog2.
  pose proof (scale_cross p q p' q' (ilog2 p q) E).
  pose proof (scale_den_pos q (ilog2 p q) Hq).
  pose proof (scale_den_pos q' (ilog2 p q) Hq'). nia.
Qed.

(** [z] is the integer nearest to [n / d], the even one on a tie. *)
Definition is_rne (n d z : Z) : Prop :=
  2 * z * d - d <= 2 * n <= 2 * z * d + d /\
  (2 * n = 2 * z * d - d \/ 2 * n = 2 * z * d + d -> Z.even z = true).

Lemma rne_spec n d : 0 < d -> is_rne n d (rne n d).
Proof.
  intros Hd. unfold rne, is_rne.
  pose proof (Z.div_mod n d ltac:(lia)) as D. pose proof (Z.mod_pos_bound n d Hd).
  set (q := n / d) in *. set (r := n mod d) in *.
  destruct (Z.compare_spec (2 * r) d) as [E|E|E].
  - destruct (Z.even q) eqn:Q.
    + split; [nia|]. trivial.
    + split; [nia|]. intros _. rewrite Z.add_1_r, Z.even_succ, <- Z.negb_even, Q. reflexivity.
  - split; [nia|]. nia.
  - split; [nia|]. nia.
Qed.

Lemma is_rne_unique n d z z' : 0 < d -> is_rne n d z -> is_rne n d z' -> z = z'.
Proof.
  intros Hd. unfold is_rne. intros [B T] [B' T'].
  assert (Z.even z = true -> Z.even (z + 1) = true -> False)
    by (rewrite Z.add_1_r, Z.even_succ, <- Z.negb_even; intros ->; discriminate).
  assert (Z.even z' = true -> Z.even (z' + 1) = true -> False)
    by (rewrite Z.add_1_r, Z.even_succ, <- Z.negb_even; intros ->; discriminate).
  assert (z = z' \/ z' = z + 1 \/ z = z' + 1) as [E|[E|E]] by nia.
  - assumption.
  - subst z'. exfalso. apply H; [apply T | apply T']; nia.
  - subst z. exfalso. apply H0; [apply T' | apply T]; nia.
Qed.

Lemma rne_eq n d z : 0 < d -> is_rne n d z -> rne n d = z.
Proof. intros. apply (is_rne_unique n d); auto using rne_spec. Qed.

Lemma rne_cross n d n' d' : 0 < d -> 0 < d' -> n * d' = n' * d -> rne n d = rne n' d'.
Proof.
  intros Hd Hd' E. symmetry. apply rne_eq; trivial.
  destruct (rne_spec n d Hd) as [B T]. set (z := rne n d) in *. split; [nia|].
  intros C. apply T. destruct C; [left|right]; nia.
Qed.

(** Rounding sees only the rational, not the fraction that denotes it. *)
Lemma round_ratio_cross s p q p' q' : 0 < q -> 0 < q' ->
  p * q' = p' * q -> round_ratio s p q = round_ratio s p' q'.
Proof.
  intros Hq Hq' E. unfold round_ratio.
  destruct (Z.leb_spec p 0) as [Lp|Lp], (Z.leb_spec p' 0) as [Lp'|Lp'];
    [reflexivity | nia | nia |].
  assert (ilog2 p q = ilog2 p' q') as I by (apply ilog2_cross; trivial).
  unfold round_exp. rewrite <- I. set (e := Z.max (ilog2 p q - 52) min_exp).
  rewrite (rne_cross (scale_num p e) (scale_den q e) (scale_num p' e) (scale_den q' e));
    auto using scale_cross with js_num.
Qed.

(** The scaled ratio before the final rounding lies within the significand's range. *)
Lemma round_scaled_bounds p q : 0 < p -> 0 < q ->
  let e := round_exp p q in
  scale_num p e < 2 ^ 53 * scale_den q e /\
  (e = min_exp \/ 2 ^ 52 * scale_den q e <= scale_num p e).
Proof.
  intros Hp Hq. unfold round_exp.
  destruct (ilog2_spec p q Hp Hq) as [L U]. set (l := ilog2 p q) in *.
  assert (S : forall k, 0 <= k ->
     scale_num p l * scale_den q (l - k) * 2 ^ k = scale_num p (l - k) * scale_den q l).
  { intros k Hk. pose proof (scale_shift p q (l - k) k Hk) as S.
    replace (l - k + k) with l in S by lia. exact S. }
  pose proof (scale_den_pos q l Hq).
  destruct (Z.max_spec (l - 52) min_exp) as [[M ->]|[M ->]].
  - split; [|left; reflexivity].
    destruct (Z.le_gt_cases min_exp l) as [G|G].
    + pose proof (S (l - min_exp) ltac:(lia)) as S1.
      replace (l - (l - min_exp)) with min_exp in S1 by lia.
      pose proof (scale_den_pos q min_exp Hq).
      assert (2 ^ (l - min_exp) <= 2 ^ 52) by (apply Z.pow_le_mono_r; lia).
      assert (0 < 2 ^ (l - min_exp)) by (apply pow2_pos; lia).
      assert (scale_num p min_exp * scale_den q l < 2 * 2 ^ (l - min_exp) * scale_den q min_exp * scale_den q l) by nia.
      assert (scale_num p min_exp < 2 * 2 ^ (l - min_exp) * scale_den q min_exp) by nia.
      nia.
    + pose proof (scale_shift p q l (min_exp - l) ltac:(lia)) as S1.
      replace (l + (min_exp - l)) with min_exp in S1 by lia.
      pose proof (scale_den_pos q min_exp Hq).
      assert (0 < 2 ^ (min_exp - l)) by (apply pow2_pos; lia).
      pose proof (scale_num_pos p min_exp Hp).
      assert (scale_den q l * (scale_num p min_exp * 2 ^ (min_exp - l))
              < scale_den q l * (2 * scale_den q min_exp)) by nia.
      assert (scale_num p min_exp * 2 ^ (min_exp - l) < 2 * scale_den q min_exp) by nia.
      nia.
  - pose proof (S 52 ltac:(lia)) as S1. pose proof (scale_den_pos q (l - 52) Hq).
    split; [|right]; nia.
Qed.

Lemma rne_le n d z : 0 < d -> n <= z * d -> rne n d <= z.
Proof. intros Hd H. destruct (rne_spec n d Hd) as [B _]. nia. Qed.

Lemma rne_ge n d z : 0 < d -> z * d <= n -> z <= rne n d.
Proof. intros Hd H. destruct (rne_spec n d Hd) as [B _]. nia. Qed.

Lemma make_num_valid s m e :
  min_exp <= e -> m < 2 ^ 53 -> 2 ^ 52 <= m \/ e = min_exp -> valid (make_num s m e).
Proof.
  intros He Hm Hc. unfold make_num. destruct m as [|m|m]; cbn; trivial.
  destruct (Z.leb_spec e max_exp); cbn; trivial. unfold canonical. lia.
Qed.

(** Every result of rounding is a canonical binary64 value. *)
Lemma round_ratio_valid s p q : 0 < q -> valid (round_ratio s p q).
Proof.
  intros Hq. unfold round_ratio.
  destruct (Z.leb_spec p 0) as [_|Hp]; [exact I|].
  pose proof (round_scaled_bounds p q Hp Hq) as [U L]. cbv zeta in L.
  set (e := round_exp p q) in *.
  assert (min_exp <= e) by (unfold e, round_exp; lia).
  assert (D : 0 < scale_den q e) by auto with js_num.
  pose proof (rne_le (scale_num p e) (scale_den q e) (2 ^ 53) D ltac:(lia)).
  destruct (Z.eqb_spec (rne (scale_num p e) (scale_den q e)) (2 ^ 53)) as [E|E].
  - apply make_num_valid; [lia | reflexivity | left; lia].
  - apply make_num_valid; [assumption | lia |].
    destruct L as [->|L]; [right; reflexivity | left].
    apply rne_ge; assumption.
Qed.

Lemma mag_cross m e : scale_num (mag_num m e) e = m * scale_den (mag_den e) e.
Proof.
  unfold scale_num, scale_den, mag_num, mag_den.
  transitivity (m * (2 ^ Z.max 0 e * 2 ^ Z.max 0 (- e))); ring.
Qed.

(** The exponent of a canonical value is the one rounding chooses. *)
Lemma round_exp_canonical m e : canonical m e -> round_exp (mag_num m e) (mag_den e) = e.
Proof.
  intros (He & Hm & Hc). unfold round_exp.
  assert (Hp : 0 < mag_num m e) by (apply mag_num_pos; lia).
  assert (Hq : 0 < mag_den e) by apply mag_den_pos.
  assert (I : ilog2 (mag_num m e) (mag_den e) = e + Z.log2 m).
  { apply ilog2_eq; trivial. unfold is_ilog2.
    pose proof (Z.log2_spec m ltac:(lia)) as [M1 M2]. rewrite Z.pow_succ_r in M2 by apply Z.log2_nonneg.
    pose proof (scale_shift (mag_num m e) (mag_den e) e (Z.log2 m) (Z.log2_nonneg m)) as S.
    rewrite (mag_cross m e) in S.
    assert (0 < scale_den (mag_den e) e) by auto with js_num.
    assert (0 < 2 ^ Z.log2 m) by (apply pow2_pos, Z.log2_nonneg).
    assert (0 < scale_den (mag_den e) (e + Z.log2 m)) by auto with js_num.
    assert (scale_num (mag_num m e) (e + Z.log2 m) * 2 ^ Z.log2 m = m * scale_den (mag_den e) (e + Z.log2 m)) as S'
      by nia.
    nia. }
  rewrite I.
  assert (Z.log2 m < 53) by (apply Z.log2_lt_pow2; lia).
  destruct Hc as [Hc| ->]; [|lia].
  assert (52 <= Z.log2 m) by (apply Z.log2_le_pow2; lia). lia.
Qed.

(** Rounding is the identity on canonical values. *)
Lemma round_ratio_exact s m e : canonical (Zpos m) e ->
  round_ratio s (mag_num (Zpos m) e) (mag_den e) = S754_finite s m e.
Proof.
  intros C. pose proof C as (He & Hm & _). unfold round_ratio.
  assert (0 < mag_num (Zpos m) e) by (apply mag_num_pos; lia).
  destruct (Z.leb_spec (mag_num (Zpos m) e) 0); [lia|].
  rewrite round_exp_canonical, mag_cross by assumption.
  assert (D : 0 < scale_den (mag_den e) e) by auto with js_num.
  rewrite (rne_eq _ _ (Zpos m)) by (trivial; unfold is_rne; nia).
  destruct (Z.eqb_spec (Zpos m) (2 ^ 53)); [lia|]. unfold make_num.
  destruct (Z.leb_spec e max_exp); [reflexivity|lia].
Qed.

(** Ratios below [2^1023] do not overflow. *)
Lemma round_ratio_finite s p q : 0 < q -> p < 2 ^ 1023 * q ->
  isFinite (round_ratio s p q) = true.
Proof.
  intros Hq B. unfold round_ratio.
  destruct (Z.leb_spec p 0) as [_|Hp]; [reflexivity|].
  assert (E : ilog2 p q < 1023).
  { destruct (ilog2_spec p q Hp Hq) as [L _].
    destruct (Z.lt_ge_cases (ilog2 p q) 1023) as [|G]; [assumption|exfalso].
    unfold scale_num, scale_den in L.
    rewrite (Z.max_l 0 (- _)), (Z.max_r 0) in L by lia. change (2 ^ 0) with 1 in L.
    assert (2 ^ 1023 <= 2 ^ ilog2 p q) by (apply Z.pow_le_mono_r; lia). nia. }
  assert (round_exp p q < 971) by (unfold round_exp, min_exp; lia).
  unfold make_num, max_exp.
  destruct (Z.eqb_spec (rne (scale_num p (round_exp p q)) (scale_den q (round_exp p q))) (2 ^ 53)).
  - destruct (Z.leb_spec (round_exp p q + 1) 971); [reflexivity|lia].
  - destruct (rne _ _); try reflexivity.
    destruct (Z.leb_spec (round_exp p q) 971); [reflexivity|lia].
Qed.

Lemma nmul_valid x y : valid (nmul x y).
Proof. destruct x, y; try exact I. apply round_ratio_valid, mag_den_pos. Qed.

Lemma ndiv_valid x y : valid (ndiv x y).
Proof.
  destruct x, y; try exact I.
  apply round_ratio_valid, Z.mul_pos_pos; [lia | apply mag_den_pos].
Qed.

Lemma nadd_valid x y : valid x -> valid y -> valid (nadd x y).
Proof.
  destruct x as [|[]| |], y as [|[]| |]; cbn; auto; intros _ _;
    apply round_ratio_valid, mag_den_pos.
Qed.

Lemma num_of_Z_valid z : valid (num_of_Z z).
Proof. apply round_ratio_valid. lia. Qed.

Lemma dec_num_valid s c x : valid (dec_num s c x).
Proof. apply round_ratio_valid, Z.pow_pos_nonneg; lia. Qed.

#[export] Hint Resolve nmul_valid ndiv_valid nadd_valid num_of_Z_valid dec_num_valid : js_num.

Lemma num_of_Z_finite z : Z.abs z < 2 ^ 1023 -> isFinite (num_of_Z z) = true.
Proof. intros H. apply round_ratio_finite; lia. Qed.

(** [Math.round] of a finite number is finite. *)
Lemma math_round_finite x : valid x -> isFinite x = true -> isFinite (math_round x) = true.
Proof.
  destruct x as [s|s| |s m e]; try discriminate; intros V _; unfold math_round; cbn [num_ratio].
  - destruct s; reflexivity.
  - pose proof V as (He & Hm & _).
    set (z := (2 * signed s (mag_num (Zpos m) e) + mag_den e) / (2 * mag_den e)).
    destruct (Z.eqb_spec z 0); [reflexivity|].
    destruct (Z.le_gt_cases 0 e) as [G|G].
    + assert (E : z = signed s (mag_num (Zpos m) e)).
      { unfold z, mag_den. rewrite Z.max_l by lia. change (2 ^ 0) with 1.
        symmetry. apply (Z.div_unique _ _ _ 1); lia. }
      assert (0 < mag_num (Zpos m) e) by (apply mag_num_pos; lia).
      unfold num_of_Z. rewrite E.
      assert (1 = mag_den e) as -> by (unfold mag_den; rewrite Z.max_l by lia; reflexivity).
      unfold signed. destruct s.
      * rewrite Z.abs_opp, Z.abs_eq, (proj2 (Z.ltb_lt _ 0)) by lia.
        rewrite round_ratio_exact by assumption. reflexivity.
      * rewrite Z.abs_eq, (proj2 (Z.ltb_ge _ 0)) by lia.
        rewrite round_ratio_exact by assumption. reflexivity.
    + apply num_of_Z_finite.
      assert (D : 0 < mag_den e) by apply mag_den_pos.
      assert (N : mag_num (Zpos m) e = Zpos m) by (unfold mag_num; rewrite Z.max_l by lia; lia).
      assert (B : - 2 ^ 54 <= z <= 2 ^ 54).
      { unfold z. rewrite N. split.
        - apply Z.div_le_lower_bound; [lia|]. destruct s; cbn [signed]; nia.
        - apply Z.div_le_upper_bound; [lia|]. destruct s; cbn [signed]; nia. }
      assert (2 ^ 54 < 2 ^ 1023) by reflexivity. lia.
Qed.

#[global] Arguments num_of_Z : simpl never.
#[global] Arguments dec_num : simpl never.
#[global] Arguments round_ratio : simpl never.
#[global] Arguments nmul : simpl never.
#[global] Arguments ndiv : simpl never.
#[global] Arguments nadd : simpl never.
#[global] Arguments math_round : simpl never.
#[global] Arguments n1 : simpl never.

(** ** Comparison *)

Lemma nltb_trans x y z : nltb x y = true -> nltb y z = true -> nltb x z = true.
Proof.
  unfold nltb, SFltb.
  destruct x as [a|[]| |[] m e], y as [b|[]| |[] m' e'], z as [c|[]| |[] m'' e''];
    cbn; try discriminate; trivial;
  change (Pos.compare_cont Eq) with Pos.compare;
  destruct (Z.compare_spec e e'), (Z.compare_spec e' e''), (Z.compare_spec e e'');
    try lia; cbn; trivial; try discriminate; subst;
  destruct (Pos.compare_spec m m'), (Pos.compare_spec m' m''), (Pos.compare_spec m m'');
    cbn; try discriminate; trivial; lia.
Qed.

Lemma neqb_zero x : neqb x n0 = true <-> exists s, x = S754_zero s.
Proof.
  destruct x as [s|[]| |[] m e]; cbn; split; try congruence; eauto; intros [? ?]; congruence.
Qed.

(** A finite number that is neither zero nor negative is positive. *)
Lemma num_pos x : isFinite x = true -> neqb x n0 = false -> nltb x n0 = false ->
  nltb n0 x = true.
Proof. destruct x as [s|[]| |[] m e]; cbn; congruence. Qed.

Lemma nltb_nleb x y : isFinite x = true -> isFinite y = true ->
  nleb y x = negb (nltb x y).
Proof.
  unfold nleb, nltb, SFleb, SFltb.
  destruct x as [a|[]| |[] m e], y as [b|[]| |[] m' e']; cbn; try discriminate; trivial;
  intros _ _; rewrite (Z.compare_antisym e' e); change (Pos.compare_cont Eq) with Pos.compare;
  destruct (Z.compare e' e); cbn; trivial;
  rewrite (Pos.compare_antisym m' m); destruct (Pos.compare m' m); reflexivity.
Qed.
