(* ===== verification/JsOrder.v ===== *)
(** * Order and arithmetic of numbers

    Rounding is monotone, hence so are products and sums of non-negative
    binary64 numbers. *)

From Stdlib Require Import ZArith Lia SpecFloat.
From stdpp Require Import base list numbers.
From S2P Require Import Prelude JsNumber.
Local Open Scope Z_scope.

(** ** Rounding *)

Lemma scale_le p q p' q' e : p * q' <= p' * q ->
  scale_num p e * scale_den q' e <= scale_num p' e * scale_den q e.
Proof.
  unfold scale_num, scale_den. intros H.
  set (a := 2 ^ Z.max 0 (- e)). set (b := 2 ^ Z.max 0 e).
  assert (0 < a) by (apply pow2_pos; lia). assert (0 < b) by (apply pow2_pos; lia).
  assert (0 < a * b) by nia.
  replace (p * a * (q' * b)) with (p * q' * (a * b)) by ring.
  replace (p' * a * (q * b)) with (p' * q * (a * b)) by ring. nia.
Qed.

Lemma ilog2_mono p q p' q' : 0 < p -> 0 < q -> 0 < p' -> 0 < q' ->
  p * q' <= p' * q -> ilog2 p q <= ilog2 p' q'.
Proof.
  intros Hp Hq Hp' Hq' L. apply Z.le_ngt. intros G.
  destruct (ilog2_spec p q Hp Hq) as [A _]. destruct (ilog2_spec p' q' Hp' Hq') as [_ B].
  set (e := ilog2 p q) in *. set (e' := ilog2 p' q') in *.
  pose proof (scale_shift p' q' e' (e - e') ltac:(lia)) as S.
  replace (e' + (e - e')) with e in S by lia.
  pose proof (scale_le p q p' q' e L) as C.
  pose proof (scale_den_pos q e Hq). pose proof (scale_den_pos q' e Hq').
  pose proof (scale_den_pos q' e' Hq').
  assert (2 ^ 1 <= 2 ^ (e - e')) by (apply Z.pow_le_mono_r; lia). change (2 ^ 1) with 2 in *.
  assert (N : scale_num p' e < scale_den q' e).
  { apply Z.lt_nge. intros M.
    assert (scale_den q' e * scale_den q' e' * 2 <= scale_num p' e * scale_den q' e' * 2 ^ (e - e')).
    { apply Z.mul_le_mono_nonneg; [nia|apply Z.mul_le_mono_nonneg_r; lia|lia|lia]. }
    nia. }
  nia.
Qed.

Lemma rne_mono n d n' d' : 0 < d -> 0 < d' -> n * d' <= n' * d -> rne n d <= rne n' d'.
Proof.
  intros D D' L. destruct (Z.eq_dec (n * d') (n' * d)) as [E|E].
  { rewrite (rne_cross n d n' d') by trivial. lia. }
  apply Z.le_ngt. intros G.
  destruct (rne_spec n d D) as [[A _] _], (rne_spec n' d' D') as [[_ B] _].
  set (z := rne n d) in *. set (z' := rne n' d') in *.
  assert (2 * z' * d + d <= 2 * n) by nia.
  assert ((2 * z' * d + d) * d' <= 2 * n * d') by nia. nia.
Qed.

Lemma make_num_mono m e m' e' : 0 <= m ->
  (e < e' /\ 0 < m') \/ (e = e' /\ m <= m') ->
  nleb (make_num false m e) (make_num false m' e') = true.
Proof.
  intros M C. unfold make_num, nleb, SFleb.
  destruct m as [|m|m]; [|destruct m' as [|m'|m']; try lia|lia].
  - destruct m' as [|m'|m']; [done| |done]. by destruct (e' <=? max_exp).
  - destruct (Z.leb_spec e max_exp), (Z.leb_spec e' max_exp); cbn; trivial; [|lia].
    change (Pos.compare_cont Eq) with Pos.compare.
    destruct (Z.compare_spec e e'); [|trivial|lia].
    destruct (Pos.compare_spec m m'); trivial; lia.
Qed.

(** A rounded positive ratio: significand and exponent as rounding finds
    them, the significand full unless the exponent is the least one. *)
Lemma round_ratio_shape p q : 0 < p -> 0 < q ->
  exists m e, round_ratio false p q = make_num false m e /\ 0 <= m /\ m < 2 ^ 53 /\
    (e = min_exp \/ 2 ^ 52 <= m) /\
    ((m = rne (scale_num p (round_exp p q)) (scale_den q (round_exp p q)) /\ e = round_exp p q) \/
     (m = 2 ^ 52 /\ e = round_exp p q + 1 /\
      rne (scale_num p (round_exp p q)) (scale_den q (round_exp p q)) = 2 ^ 53)).
Proof.
  intros P Q. unfold round_ratio. destruct (Z.leb_spec p 0); [lia|].
  pose proof (round_scaled_bounds p q P Q) as [U L]. cbv zeta in L.
  set (e := round_exp p q) in *.
  assert (D : 0 < scale_den q e) by auto with js_num.
  pose proof (rne_le (scale_num p e) (scale_den q e) (2 ^ 53) D ltac:(lia)) as R.
  assert (0 <= rne (scale_num p e) (scale_den q e)).
  { apply rne_ge; [trivial|]. unfold scale_num. pose proof (pow2_pos (Z.max 0 (- e))). nia. }
  destruct (Z.eqb_spec (rne (scale_num p e) (scale_den q e)) (2 ^ 53)) as [E|E].
  - exists (2 ^ 52), (e + 1). split; [reflexivity|]. split; [lia|]. split; [lia|].
    split; [right; lia|]. right. lia.
  - exists (rne (scale_num p e) (scale_den q e)), e. split; [reflexivity|]. split; [trivial|].
    split; [lia|]. split; [|left; lia]. destruct L as [L|L]; [by left|right].
    by apply rne_ge.
Qed.

(** Rounding is monotone. *)
Lemma round_ratio_mono p q p' q' : 0 < q -> 0 < q' -> p * q' <= p' * q ->
  nleb (round_ratio false p q) (round_ratio false p' q') = true.
Proof.
  intros Q Q' L. destruct (Z.le_gt_cases p 0) as [P|P].
  { assert (round_ratio false p q = S754_zero false) as ->
      by (unfold round_ratio; by destruct (Z.leb_spec p 0); [|lia]).
    destruct (Z.le_gt_cases p' 0) as [P'|P'].
    - assert (round_ratio false p' q' = S754_zero false) as ->
        by (unfold round_ratio; by destruct (Z.leb_spec p' 0); [|lia]). done.
    - destruct (round_ratio_shape p' q' P' Q') as (m & e & -> & M & _).
      apply (make_num_mono 0 e); lia. }
  assert (P' : 0 < p') by nia.
  destruct (round_ratio_shape p q P Q) as (m & e & -> & M & M2 & F & C).
  destruct (round_ratio_shape p' q' P' Q') as (m' & e' & -> & M' & M2' & F' & C').
  assert (E : round_exp p q <= round_exp p' q').
  { unfold round_exp. pose proof (ilog2_mono p q p' q' P Q P' Q' L). lia. }
  assert (R : round_exp p q = round_exp p' q' ->
    rne (scale_num p (round_exp p q)) (scale_den q (round_exp p q))
    <= rne (scale_num p' (round_exp p' q')) (scale_den q' (round_exp p' q'))).
  { intros <-. apply rne_mono; auto with js_num. by apply scale_le. }
  assert (B : min_exp <= round_exp p q) by (unfold round_exp; lia).
  apply make_num_mono; [trivial|].
  destruct C as [[-> ->]|(-> & -> & C)], C' as [[-> ->]|(-> & -> & C')];
    destruct (Z.eq_dec (round_exp p q) (round_exp p' q')) as [X|X];
    try specialize (R X); try lia.
Qed.

(** ** Values as ratios *)

(** Positive zero, the positive numbers and positive infinity. *)
Definition pos0 (x : spec_float) : bool :=
  match x with S754_zero false | S754_finite false _ _ | S754_infinity false => true | _ => false end.

Definition vnum (x : spec_float) : Z := match x with S754_finite _ m e => mag_num (Zpos m) e | _ => 0 end.
Definition vden (x : spec_float) : Z := match x with S754_finite _ _ e => mag_den e | _ => 1 end.

Lemma vden_pos x : 0 < vden x.
Proof. destruct x; cbn; first [lia | apply mag_den_pos]. Qed.

Lemma vnum_nonneg x : 0 <= vnum x.
Proof. destruct x as [| | |s m e]; cbn; try lia. pose proof (mag_num_pos (Zpos m) e). lia. Qed.

Lemma round_zero q : round_ratio false 0 q = S754_zero false.
Proof. done. Qed.

(** A finite number is the rounding of its own value. *)
Lemma round_val x : pos0 x = true -> isFinite x = true -> valid x ->
  round_ratio false (vnum x) (vden x) = x.
Proof.
  destruct x as [[]|[]| |[] m e]; cbn; try done. intros _ _ V. by apply round_ratio_exact.
Qed.

Lemma nleb_antisym x y : pos0 x = true -> pos0 y = true ->
  nleb x y = true -> nleb y x = true -> x = y.
Proof.
  unfold nleb, SFleb. destruct x as [[]|[]| |[] m e], y as [[]|[]| |[] m' e']; cbn; try done.
  change (Pos.compare_cont Eq) with Pos.compare. intros _ _.
  rewrite (Z.compare_antisym e e'), (Pos.compare_antisym m m').
  destruct (Z.compare_spec e e'), (Pos.compare_spec m m'); cbn; try done. by subst.
Qed.

(** The order of finite numbers is the order of their values. *)
Lemma nleb_val x y : pos0 x = true -> pos0 y = true -> isFinite x = true -> isFinite y = true ->
  valid x -> valid y -> nleb x y = true -> vnum x * vden y <= vnum y * vden x.
Proof.
  intros Px Py Fx Fy Vx Vy L. apply Z.le_ngt. intros G.
  assert (nleb y x = true) as L'.
  { rewrite <- (round_val x), <- (round_val y) by trivial.
    apply round_ratio_mono; [apply vden_pos|apply vden_pos|lia]. }
  rewrite (nleb_antisym x y Px Py L L') in G. lia.
Qed.

Lemma round_ratio_pos0 p q : pos0 (round_ratio false p q) = true.
Proof.
  unfold round_ratio. case_match; [done|].
  assert (forall m e, pos0 (make_num false m e) = true); [|by case_match].
  intros [|m|m] e; cbn; try done. by case_match.
Qed.

(** ** Products, sums and quotients *)

(** [m * 2^e] as a ratio does not depend on how [e] is split. *)
Lemma mag_mul m m' e e' :
  mag_num (m * m') (e + e') * (mag_den e * mag_den e') = mag_num m e * mag_num m' e' * mag_den (e + e').
Proof.
  unfold mag_num, mag_den.
  transitivity (m * m' * 2 ^ (Z.max 0 (e + e') + Z.max 0 (- e) + Z.max 0 (- e'))).
  - rewrite !Z.pow_add_r by lia. ring.
  - replace (Z.max 0 (e + e') + Z.max 0 (- e) + Z.max 0 (- e'))
      with (Z.max 0 e + Z.max 0 e' + Z.max 0 (- (e + e'))) by lia.
    rewrite !Z.pow_add_r by lia. ring.
Qed.

Lemma nmul_round x y : pos0 x = true -> pos0 y = true -> isFinite x = true -> isFinite y = true ->
  nmul x y = round_ratio false (vnum x * vnum y) (vden x * vden y).
Proof.
  destruct x as [[]|[]| |[] m e], y as [[]|[]| |[] m' e']; cbn [pos0 isFinite]; try done; intros _ _ _ _;
    cbn [vnum vden nmul xorb]; rewrite ?Z.mul_0_r; try done.
  apply round_ratio_cross; [auto with js_num|pose proof (mag_den_pos e); pose proof (mag_den_pos e'); nia|].
  apply mag_mul.
Qed.

Lemma mag_shift m e k : 0 <= k -> mag_num (m * 2 ^ k) e * mag_den (e + k) = mag_num m (e + k) * mag_den e.
Proof.
  intros K. unfold mag_num, mag_den.
  transitivity (m * 2 ^ (k + Z.max 0 e + Z.max 0 (- (e + k)))).
  - rewrite !Z.pow_add_r by lia. ring.
  - replace (k + Z.max 0 e + Z.max 0 (- (e + k))) with (Z.max 0 (e + k) + Z.max 0 (- e)) by lia.
    rewrite Z.pow_add_r by lia. ring.
Qed.

Lemma mag_num_add a b e : mag_num (a + b) e = mag_num a e + mag_num b e.
Proof. unfold mag_num. ring. Qed.

Lemma nadd_round x y : pos0 x = true -> pos0 y = true -> isFinite x = true -> isFinite y = true ->
  valid x -> valid y -> nadd x y = round_ratio false (vnum x * vden y + vnum y * vden x) (vden x * vden y).
Proof.
  intros Px Py Fx Fy Vx Vy.
  destruct x as [[]|[]| |[] m e]; try done; destruct y as [[]|[]| |[] m' e']; try done;
    cbn [vnum vden nadd signed]; rewrite ?Z.mul_0_l, ?Z.mul_1_l, ?Z.mul_1_r, ?Z.add_0_r, ?Z.add_0_l;
    try done; try (symmetry; by apply round_ratio_exact).
  unfold nadd, round_dyadic. cbn [signed]. set (f := Z.min e e').
  assert (0 < 2 ^ (e - f)) by (apply pow2_pos; lia). assert (0 < 2 ^ (e' - f)) by (apply pow2_pos; lia).
  destruct (Z.ltb_spec (Zpos m * 2 ^ (e - f) + Zpos m' * 2 ^ (e' - f)) 0); [lia|].
  rewrite Z.abs_eq by lia. pose proof (mag_den_pos e). pose proof (mag_den_pos e').
  apply round_ratio_cross; [auto with js_num|nia|].
  pose proof (mag_shift (Zpos m) f (e - f) ltac:(lia)) as S.
  pose proof (mag_shift (Zpos m') f (e' - f) ltac:(lia)) as S'.
  replace (f + (e - f)) with e in S by lia. replace (f + (e' - f)) with e' in S' by lia.
  rewrite mag_num_add.
  transitivity (mag_num (Zpos m * 2 ^ (e - f)) f * mag_den e * mag_den e'
                + mag_num (Zpos m' * 2 ^ (e' - f)) f * mag_den e' * mag_den e); [ring|].
  rewrite S, S'. ring.
Qed.

Lemma mul_le a b c d : 0 <= a -> 0 <= c -> a <= b -> c <= d -> a * c <= b * d.
Proof. nia. Qed.

(** ** Monotone operations *)

(** Between non-negative finite numbers, through their values. *)
Lemma nmul_mono x x' y y' :
  pos0 x = true -> pos0 x' = true -> pos0 y = true -> pos0 y' = true ->
  isFinite x = true -> isFinite x' = true -> isFinite y = true -> isFinite y' = true ->
  valid x -> valid x' -> valid y -> valid y' ->
  nleb x x' = true -> nleb y y' = true -> nleb (nmul x y) (nmul x' y') = true.
Proof.
  intros. rewrite !nmul_round by trivial.
  pose proof (vden_pos x). pose proof (vden_pos x'). pose proof (vden_pos y). pose proof (vden_pos y').
  apply round_ratio_mono; [nia|nia|].
  replace (vnum x * vnum y * (vden x' * vden y')) with (vnum x * vden x' * (vnum y * vden y')) by ring.
  replace (vnum x' * vnum y' * (vden x * vden y)) with (vnum x' * vden x * (vnum y' * vden y)) by ring.
  pose proof (vnum_nonneg x). pose proof (vnum_nonneg y).
  apply mul_le; [nia|nia|by apply nleb_val|by apply nleb_val].
Qed.

Lemma nleb_refl x : pos0 x = true -> nleb x x = true.
Proof.
  destruct x as [[]|[]| |[] m e]; try done. intros _. unfold nleb, SFleb. cbn.
  change (Pos.compare_cont Eq) with Pos.compare. by rewrite Z.compare_refl, Pos.compare_refl.
Qed.

Lemma nleb_inf x : pos0 x = true -> nleb x (S754_infinity false) = true.
Proof. by destruct x as [[]|[]| |[] m e]. Qed.

Lemma inf_le x : nleb (S754_infinity false) x = true -> x = S754_infinity false.
Proof. by destruct x as [[]|[]| |[] m e]. Qed.

Lemma pos0_cases x : pos0 x = true -> isFinite x = true \/ x = S754_infinity false.
Proof. destruct x as [[]|[]| |[] m e]; cbn; auto; done. Qed.

Lemma nadd_pos0 x y : pos0 x = true -> pos0 y = true -> valid x -> valid y -> pos0 (nadd x y) = true.
Proof.
  intros Px Py Vx Vy. destruct (pos0_cases x Px) as [Fx| ->], (pos0_cases y Py) as [Fy| ->].
  - rewrite nadd_round by trivial. apply round_ratio_pos0.
  - by destruct x as [[]|[]| |[] m e].
  - by destruct y as [[]|[]| |[] m e].
  - done.
Qed.

Lemma nadd_inf_l y : pos0 y = true -> nadd (S754_infinity false) y = S754_infinity false.
Proof. by destruct y as [[]|[]| |[] m e]. Qed.
Lemma nadd_inf_r x : pos0 x = true -> nadd x (S754_infinity false) = S754_infinity false.
Proof. by destruct x as [[]|[]| |[] m e]. Qed.

Lemma nadd_mono x x' y y' :
  pos0 x = true -> pos0 x' = true -> pos0 y = true -> pos0 y' = true ->
  valid x -> valid x' -> valid y -> valid y' ->
  nleb x x' = true -> nleb y y' = true -> nleb (nadd x y) (nadd x' y') = true.
Proof.
  intros Px Px' Py Py' Vx Vx' Vy Vy' Lx Ly.
  destruct (pos0_cases x' Px') as [Fx'| ->];
    [|rewrite nadd_inf_l by done; apply nleb_inf; by apply nadd_pos0].
  destruct (pos0_cases y' Py') as [Fy'| ->];
    [|rewrite nadd_inf_r by done; apply nleb_inf; by apply nadd_pos0].
  destruct (pos0_cases x Px) as [Fx| ->]; [|apply inf_le in Lx; by subst].
  destruct (pos0_cases y Py) as [Fy| ->]; [|apply inf_le in Ly; by subst].
  rewrite !nadd_round by trivial.
  pose proof (nleb_val x x' Px Px' Fx Fx' Vx Vx' Lx). pose proof (nleb_val y y' Py Py' Fy Fy' Vy Vy' Ly).
  pose proof (vden_pos x). pose proof (vden_pos x'). pose proof (vden_pos y). pose proof (vden_pos y').
  apply round_ratio_mono; [nia|nia|].
  replace ((vnum x * vden y + vnum y * vden x) * (vden x' * vden y'))
    with (vnum x * vden x' * (vden y * vden y') + vnum y * vden y' * (vden x * vden x')) by ring.
  replace ((vnum x' * vden y' + vnum y' * vden x') * (vden x * vden y))
    with (vnum x' * vden x * (vden y * vden y') + vnum y' * vden y * (vden x * vden x')) by ring.
  assert (0 < vden y * vden y') by nia. assert (0 < vden x * vden x') by nia.
  apply Z.add_le_mono; apply Z.mul_le_mono_nonneg_r; lia.
Qed.

(** Adding a non-negative number never lowers a number. *)
Lemma nadd_ge x y : pos0 x = true -> pos0 y = true -> valid x -> valid y ->
  nleb x (nadd x y) = true.
Proof.
  intros Px Py Vx Vy.
  assert (E : nadd x (S754_zero false) = x) by (by destruct x as [[]|[]| |[] m e]).
  rewrite <- E at 1. apply nadd_mono; try done; [by apply nleb_refl|].
  by destruct y as [[]|[]| |[] m e].
Qed.

(** Division by a positive finite number. *)
Lemma ndiv_round x y : pos0 x = true -> isFinite x = true -> pos0 y = true -> isFinite y = true ->
  y <> S754_zero false ->
  ndiv x y = round_ratio false (vnum x * vden y) (vden x * vnum y) /\ 0 < vnum y.
Proof.
  intros Px Fx Py Fy Ny. destruct y as [[]|[]| |[] m e]; try done.
  cbn [vnum vden]. pose proof (mag_num_pos (Zpos m) e ltac:(lia)) as M. split; [|done].
  destruct x as [[]|[]| |[] m' e']; try done. cbn [vnum vden]. unfold ndiv. cbn [xorb].
  pose proof (mag_den_pos e'). pose proof (mag_den_pos (e' - e)).
  apply round_ratio_cross; [nia|nia|]. unfold mag_num, mag_den.
  transitivity (Zpos m' * Zpos m * 2 ^ (Z.max 0 (e' - e) + Z.max 0 (- e') + Z.max 0 e));
    [rewrite !Z.pow_add_r by lia; ring|].
  replace (Z.max 0 (e' - e) + Z.max 0 (- e') + Z.max 0 e)
    with (Z.max 0 e' + Z.max 0 (- e) + Z.max 0 (- (e' - e))) by lia.
  rewrite !Z.pow_add_r by lia. ring.
Qed.

Lemma ndiv_mono x x' y :
  pos0 x = true -> pos0 x' = true -> isFinite x = true -> isFinite x' = true ->
  valid x -> valid x' -> pos0 y = true -> isFinite y = true -> y <> S754_zero false ->
  nleb x x' = true -> nleb (ndiv x y) (ndiv x' y) = true.
Proof.
  intros Px Px' Fx Fx' Vx Vx' Py Fy Ny L.
  destruct (ndiv_round x y) as [-> N]; try done. destruct (ndiv_round x' y) as [-> _]; try done.
  pose proof (nleb_val x x' Px Px' Fx Fx' Vx Vx' L).
  pose proof (vden_pos x). pose proof (vden_pos x'). pose proof (vden_pos y).
  apply round_ratio_mono; [nia|nia|].
  replace (vnum x * vden y * (vden x' * vnum y)) with (vnum x * vden x' * (vden y * vnum y)) by ring.
  replace (vnum x' * vden y * (vden x * vnum y)) with (vnum x' * vden x * (vden y * vnum y)) by ring.
  apply Z.mul_le_mono_nonneg_r; nia.
Qed.

Lemma nleb_finite x y : pos0 x = true -> nleb x y = true -> isFinite y = true -> isFinite x = true.
Proof. intros P L F. destruct (pos0_cases x P) as [| ->]; [done|]. apply inf_le in L as ->. done. Qed.

(** Dividing by a number of at least one stays finite. *)
Lemma ndiv_finite x y : pos0 x = true -> isFinite x = true -> valid x -> pos0 y = true ->
  isFinite y = true -> vden y <= vnum y -> pos0 (ndiv x y) = true /\ isFinite (ndiv x y) = true.
Proof.
  intros Px Fx Vx Py Fy G.
  assert (y <> S754_zero false) by (intros ->; cbn in G; lia).
  destruct (ndiv_round x y) as [E N]; try done. rewrite E. split; [apply round_ratio_pos0|].
  apply (nleb_finite _ x); [apply round_ratio_pos0| |done].
  rewrite <- (round_val x) at 3 by done. pose proof (vden_pos x). pose proof (vden_pos y).
  pose proof (vnum_nonneg x). apply round_ratio_mono; [nia|nia|].
  replace (vnum x * (vden x * vnum y)) with (vnum x * vden x * vnum y) by ring.
  replace (vnum x * vden y * vden x) with (vnum x * vden x * vden y) by ring.
  apply Z.mul_le_mono_nonneg_l; nia.
Qed.

Lemma nmul_pos0 x y : pos0 x = true -> pos0 y = true -> isFinite x = true -> isFinite y = true ->
  pos0 (nmul x y) = true.
Proof. intros. rewrite nmul_round by trivial. apply round_ratio_pos0. Qed.

(** ** The order of the numbers other than NaN *)

Lemma neqb_cases x y : neqb x y = true -> x = y \/ exists s t, x = S754_zero s /\ y = S754_zero t.
Proof.
  unfold neqb, SFeqb.
  destruct x as [a|[]| |[] m e], y as [b|[]| |[] m' e']; cbn; try discriminate; eauto;
  change (Pos.compare_cont Eq) with Pos.compare;
  destruct (Z.compare_spec e e'), (Pos.compare_spec m m'); cbn; try discriminate; subst; auto.
Qed.

Lemma neqb_sym x y : neqb x y = true -> neqb y x = true.
Proof. intros E. by destruct (neqb_cases x y E) as [->|(s & t & -> & ->)]. Qed.

Lemma neqb_nltb_l x y z : neqb x y = true -> nltb x z = nltb y z.
Proof. intros [->|(s & t & -> & ->)]%neqb_cases; done. Qed.
Lemma neqb_nltb_r x y z : neqb x y = true -> nltb z x = nltb z y.
Proof. intros [->|(s & t & -> & ->)]%neqb_cases; [done|]. by destruct z as [|[]| |[]]. Qed.
Lemma neqb_neqb x y z : neqb x y = true -> neqb x z = neqb y z.
Proof. intros [->|(s & t & -> & ->)]%neqb_cases; done. Qed.

Lemma num_compare x y : x <> nan -> y <> nan -> neqb x y = false -> nltb x y = negb (nltb y x).
Proof.
  unfold neqb, nltb, SFeqb, SFltb.
  destruct x as [a|[]| |[] m e], y as [b|[]| |[] m' e']; cbn; try done;
  intros _ _; rewrite (Z.compare_antisym e' e); change (Pos.compare_cont Eq) with Pos.compare;
  destruct (Z.compare e' e); cbn; try done;
  rewrite (Pos.compare_antisym m' m); destruct (Pos.compare m' m); cbn; done.
Qed.

Lemma nltb_irrefl x : nltb x x = false.
Proof.
  unfold nltb, SFltb. destruct x as [a|[]| |[] m e]; cbn; try done; rewrite Z.compare_refl;
  change (Pos.compare_cont Eq) with Pos.compare; by rewrite Pos.compare_refl.
Qed.

Lemma round_ratio_number s p q : round_ratio s p q <> nan.
Proof. unfold round_ratio, make_num. repeat case_match; done. Qed.

Lemma ndiv_number x y : isFinite x = true -> nltb n0 y = true -> isFinite y = true -> ndiv x y <> nan.
Proof. destruct x, y as [| | |[]]; cbn; try done. intros _ _ _. apply round_ratio_number. Qed.

Lemma nsub_number x y : isFinite x = true -> y <> nan -> nsub x y <> nan.
Proof. destruct x, y; cbn; try done. intros _ _. apply round_ratio_number. Qed.
