(* ===== verification/JsRound.v ===== *)
(** * Rounding errors of number arithmetic

    How far a rounded result is from the exact one.  [qv] is the rational
    value of a non-negative finite number; [near k a b] says that [a] differs
    from [b] by at most the fraction [k] of [b].  One operation whose exact
    result is in the range of normal numbers is within [2^-53] of it, and
    such errors compose.  The file also defines [Math.floor] and
    [Math.ceil]. *)

From Stdlib Require Import SpecFloat QArith Lqa SetoidTactics.
From stdpp Require Import base list numbers.
From S2P Require Import Prelude JsNumber JsOrder.
Local Open Scope Z_scope.

(** [Math.floor] and [Math.ceil]; a result of zero keeps the sign. *)
Definition math_floor (x : spec_float) : spec_float :=
  match num_ratio x with
  | None => x
  | Some (s, p, q) =>
      let z := signed s p / q in if z =? 0 then S754_zero s else num_of_Z z
  end.

Definition math_ceil (x : spec_float) : spec_float :=
  match num_ratio x with
  | None => x
  | Some (s, p, q) =>
      let z := - ((- signed s p) / q) in if z =? 0 then S754_zero s else num_of_Z z
  end.

(** ** The error of one rounding, on integers *)

(** Between the least normal number and [2^1023] the rounded value differs
    from the ratio by at most one part in [2^53]. *)
Lemma round_ratio_error p q : 0 < p -> 0 < q -> q <= p * 2 ^ 1022 -> p < 2 ^ 1023 * q ->
  exists m e, round_ratio false p q = S754_finite false m e /\ canonical (Zpos m) e /\
    2 ^ 53 * Z.abs (mag_num (Zpos m) e * q - p * mag_den e) <= p * mag_den e.
Proof.
  intros P Q L U.
  pose proof (round_ratio_finite false p q Q U) as F. pose proof (round_ratio_valid false p q Q) as V.
  destruct (round_ratio_shape p q P Q) as (m & e & E & M0 & M1 & N & C). rewrite E in *.
  pose proof (round_scaled_bounds p q P Q) as [_ B]. cbv zeta in B. set (x := round_exp p q) in *.
  assert (D : 0 < scale_den q x) by auto with js_num.
  assert (LB : 2 ^ 52 * scale_den q x <= scale_num p x).
  { destruct B as [B|B]; [|exact B]. rewrite B. unfold scale_den, scale_num, min_exp.
    change (2 ^ Z.max 0 (-1074)) with 1. change (2 ^ Z.max 0 (- (-1074))) with (2 ^ 52 * 2 ^ 1022). nia. }
  destruct (rne_spec (scale_num p x) (scale_den q x) D) as [[R1 R2] _].
  set (r := rne (scale_num p x) (scale_den q x)) in *.
  assert (G : 2 ^ 52 <= r) by (unfold r; apply rne_ge; lia).
  assert (W : mag_num m e * mag_den x = mag_num r x * mag_den e).
  { destruct C as [[-> ->]|(-> & -> & ->)]; [ring|].
    pose proof (mag_shift (2 ^ 52) x 1 ltac:(lia)) as S. change (2 ^ 52 * 2 ^ 1) with (2 ^ 53) in S. lia. }
  assert (K : 2 ^ 53 * Z.abs (mag_num r x * q - p * mag_den x) <= p * mag_den x).
  { change (mag_num r x) with (r * 2 ^ Z.max 0 x). change (mag_den x) with (2 ^ Z.max 0 (- x)).
    change (scale_num p x) with (p * 2 ^ Z.max 0 (- x)) in *. change (scale_den q x) with (q * 2 ^ Z.max 0 x) in *.
    replace (r * 2 ^ Z.max 0 x * q) with (r * (q * 2 ^ Z.max 0 x)) by ring. lia. }
  assert (Mp : 0 < m) by (destruct C as [[-> _]|(-> & _)]; lia).
  destruct m as [|m|m]; try lia. cbn [make_num] in *.
  destruct (e <=? max_exp); [|discriminate]. exists m, e. split; [done|]. split; [exact V|].
  pose proof (mag_den_pos e). pose proof (mag_den_pos x).
  set (a := mag_num (Zpos m) e) in *. set (b := mag_den e) in *. set (c := mag_num r x) in *. set (d := mag_den x) in *.
  assert (X : d * Z.abs (a * q - p * b) = b * Z.abs (c * q - p * d)).
  { rewrite <- (Z.abs_eq d) at 1 by lia. rewrite <- (Z.abs_eq b) at 2 by lia. rewrite <- !Z.abs_mul. f_equal.
    transitivity (a * d * q - p * b * d); [ring|]. rewrite W. ring. }
  apply (Z.mul_le_mono_pos_l _ _ d); [done|].
  replace (d * (2 ^ 53 * Z.abs (a * q - p * b))) with (2 ^ 53 * (d * Z.abs (a * q - p * b))) by ring.
  rewrite X. replace (2 ^ 53 * (b * Z.abs (c * q - p * d))) with (b * (2 ^ 53 * Z.abs (c * q - p * d))) by ring.
  replace (d * (p * b)) with (b * (p * d)) by ring. apply Z.mul_le_mono_nonneg_l; lia.
Qed.

(** ** Values as rationals *)

(** A positive finite binary64 number. *)
Definition posnum (x : spec_float) : Prop :=
  pos0 x = true /\ isFinite x = true /\ valid x /\ x <> S754_zero false.

Definition qv (x : spec_float) : Q := inject_Z (vnum x) / inject_Z (vden x).

Local Open Scope Q_scope.

#[local] Instance Qeq_default : DefaultRelation Qeq := {}.

Definition near (k a b : Q) : Prop := b * (1 - k) <= a /\ a <= b * (1 + k).

(** The unit roundoff, and the range in which it bounds the error. *)
Definition ulp : Q := 1 # 2 ^ 53.
Definition small : Q := 1 # 2 ^ 1000.
Definition large : Q := inject_Z (2 ^ 1000).
Definition normal (r : Q) : Prop := small <= r /\ r <= large.

Lemma inject_pos z : (0 < z)%Z -> 0 < inject_Z z.
Proof. intros. change 0 with (inject_Z 0). by rewrite <- Zlt_Qlt. Qed.

Lemma inject_le z z' : (z <= z')%Z -> inject_Z z <= inject_Z z'.
Proof. by rewrite Zle_Qle. Qed.

Lemma pos_neq x : 0 < x -> ~ x == 0.
Proof. intros H E. rewrite E in H. exact (Qlt_irrefl _ H). Qed.

Lemma ratio_le p q r s : (0 < q)%Z -> (0 < s)%Z -> (p * s <= r * q)%Z ->
  inject_Z p / inject_Z q <= inject_Z r / inject_Z s.
Proof.
  intros Q0 S0 L. apply Qle_shift_div_r; [by apply inject_pos|].
  setoid_replace (inject_Z r / inject_Z s * inject_Z q) with (inject_Z (r * q) / inject_Z s).
  - apply Qle_shift_div_l; [by apply inject_pos|]. rewrite <- inject_Z_mult. by apply inject_le.
  - rewrite inject_Z_mult. field. by apply pos_neq, inject_pos.
Qed.

Lemma ratio_le_inv p q r s : (0 < q)%Z -> (0 < s)%Z ->
  inject_Z p / inject_Z q <= inject_Z r / inject_Z s -> (p * s <= r * q)%Z.
Proof.
  intros Q0 S0 L. rewrite Zle_Qle, !inject_Z_mult. pose proof (inject_pos q Q0). pose proof (inject_pos s S0).
  assert (N : ~ inject_Z q == 0) by (by apply pos_neq). assert (N' : ~ inject_Z s == 0) by (by apply pos_neq).
  setoid_replace (inject_Z p * inject_Z s) with (inject_Z p / inject_Z q * (inject_Z q * inject_Z s)) by (by field).
  setoid_replace (inject_Z r * inject_Z q) with (inject_Z r / inject_Z s * (inject_Z q * inject_Z s)) by (by field).
  apply Qmult_le_compat_r; [exact L|]. nra.
Qed.

Lemma posnum_vnum x : posnum x -> (0 < vnum x)%Z.
Proof.
  intros (P & F & _ & N). destruct x as [[]|[]| |[] m e]; try done. apply mag_num_pos. lia.
Qed.

Lemma qv_pos x : posnum x -> 0 < qv x.
Proof.
  intros P. unfold qv. apply Qlt_shift_div_l; [apply inject_pos, vden_pos|].
  rewrite Qmult_0_l. by apply inject_pos, posnum_vnum.
Qed.

(** The error of one rounding. *)
Lemma round_near p q : (0 < p)%Z -> (0 < q)%Z -> normal (inject_Z p / inject_Z q) ->
  posnum (round_ratio false p q) /\ near ulp (qv (round_ratio false p q)) (inject_Z p / inject_Z q).
Proof.
  intros P Q0 [L U]. change small with (inject_Z 1 / inject_Z (2 ^ 1000)) in L.
  change large with (inject_Z (2 ^ 1000) / inject_Z 1) in U.
  apply ratio_le_inv in L, U; try done.
  assert ((2 ^ 1000 < 2 ^ 1022)%Z) by (vm_compute; done). assert ((2 ^ 1000 < 2 ^ 1023)%Z) by (vm_compute; done).
  destruct (round_ratio_error p q) as (m & e & -> & C & B); [done|done|nia|nia|].
  split; [split; [done|]; split; [done|]; split; [exact C|done]|].
  unfold near, qv. cbn [vnum vden]. pose proof (mag_den_pos e) as D.
  set (a := mag_num (Zpos m) e) in *. set (b := mag_den e) in *.
  pose proof (inject_pos q Q0) as IQ. assert (NQ : ~ inject_Z q == 0) by (by apply pos_neq).
  change ulp with (inject_Z 1 / inject_Z (2 ^ 53)).
  assert (NE : ~ inject_Z (2 ^ 53) == 0) by done.
  split.
  - setoid_replace (inject_Z p / inject_Z q * (1 - inject_Z 1 / inject_Z (2 ^ 53)))
      with (inject_Z (p * (2 ^ 53 - 1)) / inject_Z (q * 2 ^ 53)).
    + apply ratio_le; nia.
    + change (2 ^ 53 - 1)%Z with (2 ^ 53 + - 1)%Z. rewrite !inject_Z_mult, inject_Z_plus.
      change (inject_Z (-1)) with (- (1)). change (inject_Z 1) with 1. by field.
  - setoid_replace (inject_Z p / inject_Z q * (1 + inject_Z 1 / inject_Z (2 ^ 53)))
      with (inject_Z (p * (2 ^ 53 + 1)) / inject_Z (q * 2 ^ 53)).
    + apply ratio_le; nia.
    + rewrite !inject_Z_mult, inject_Z_plus. change (inject_Z 1) with 1. by field.
Qed.

(** ** Composing errors *)

Lemma near_refl k a : 0 <= k -> 0 <= a -> near k a a.
Proof. intros. split; nra. Qed.

Lemma near_scale k a b c : 0 <= c -> near k a b -> near k (a * c) (b * c).
Proof.
  intros C [L U]. split.
  - setoid_replace (b * c * (1 - k)) with (b * (1 - k) * c) by ring. by apply Qmult_le_compat_r.
  - setoid_replace (b * c * (1 + k)) with (b * (1 + k) * c) by ring. by apply Qmult_le_compat_r.
Qed.

Lemma near_trans k l a b c : 0 <= k -> k <= 1 -> 0 <= l -> 0 <= c ->
  near k a b -> near l b c -> near (k + l + k * l) a c.
Proof.
  intros K K1 L C [L1 U1] [L2 U2]. split.
  - apply (Qle_trans _ (b * (1 - k))); [|exact L1].
    apply (Qle_trans _ (c * (1 - l) * (1 - k))); [|apply Qmult_le_compat_r; [exact L2|lra]].
    assert (0 <= c * (k * l)) by (apply Qmult_le_0_compat; [done|by apply Qmult_le_0_compat]). lra.
  - apply (Qle_trans _ (b * (1 + k))); [exact U1|].
    apply (Qle_trans _ (c * (1 + l) * (1 + k))); [apply Qmult_le_compat_r; [exact U2|lra]|]. lra.
Qed.

Lemma near_weaken k l a b : k <= l -> 0 <= b -> near k a b -> near l a b.
Proof. intros K B [L U]. split; nra. Qed.

#[export] Instance near_proper : Proper (Qeq ==> Qeq ==> Qeq ==> iff) near.
Proof. intros k k' Ek a a' Ea b b' Eb. unfold near. by rewrite Ek, Ea, Eb. Qed.

#[export] Instance normal_proper : Proper (Qeq ==> iff) normal.
Proof. intros a a' E. unfold normal. by rewrite E. Qed.

(** ** One operation *)

Lemma vden_neq x : ~ inject_Z (vden x) == 0.
Proof. apply pos_neq, inject_pos, vden_pos. Qed.

Lemma nmul_near x y : posnum x -> posnum y -> normal (qv x * qv y) ->
  posnum (nmul x y) /\ near ulp (qv (nmul x y)) (qv x * qv y).
Proof.
  intros X Y N. pose proof (posnum_vnum x X). pose proof (posnum_vnum y Y).
  pose proof (vden_pos x). pose proof (vden_pos y).
  destruct X as (? & ? & _), Y as (? & ? & _). rewrite nmul_round by done.
  assert (E : qv x * qv y == inject_Z (vnum x * vnum y) / inject_Z (vden x * vden y)).
  { unfold qv. rewrite !inject_Z_mult. field. split; apply vden_neq. }
  rewrite E in *. apply round_near; [nia|nia|done].
Qed.

Lemma ndiv_near x y : posnum x -> posnum y -> normal (qv x / qv y) ->
  posnum (ndiv x y) /\ near ulp (qv (ndiv x y)) (qv x / qv y).
Proof.
  intros X Y N. pose proof (posnum_vnum x X). pose proof (posnum_vnum y Y) as Vy.
  pose proof (vden_pos x). pose proof (vden_pos y).
  destruct X as (? & ? & _), Y as (? & ? & _ & ?). destruct (ndiv_round x y) as [-> _]; try done.
  assert (E : qv x / qv y == inject_Z (vnum x * vden y) / inject_Z (vden x * vnum y)).
  { unfold qv. rewrite !inject_Z_mult. field.
    split_and!; first [apply vden_neq | by apply pos_neq, inject_pos]. }
  rewrite E in *. apply round_near; [nia|nia|done].
Qed.

Lemma nadd_near x y : posnum x -> posnum y -> normal (qv x + qv y) ->
  posnum (nadd x y) /\ near ulp (qv (nadd x y)) (qv x + qv y).
Proof.
  intros X Y N. pose proof (posnum_vnum x X). pose proof (posnum_vnum y Y).
  pose proof (vden_pos x). pose proof (vden_pos y).
  destruct X as (? & ? & ? & _), Y as (? & ? & ? & _). rewrite nadd_round by done.
  assert (E : qv x + qv y
    == inject_Z (vnum x * vden y + vnum y * vden x) / inject_Z (vden x * vden y)).
  { unfold qv. rewrite inject_Z_plus, !inject_Z_mult. field. split; apply vden_neq. }
  rewrite E in *. apply round_near; [nia|nia|done].
Qed.

(** ** Integers *)

(** Integers below [2^53] are numbers. *)
Lemma num_of_Z_value z : (0 < z < 2 ^ 53)%Z -> posnum (num_of_Z z) /\ qv (num_of_Z z) == inject_Z z.
Proof.
  intros Z0. unfold num_of_Z. rewrite (proj2 (Z.ltb_ge z 0)), Z.abs_eq by lia.
  pose proof (Z.log2_spec z ltac:(lia)) as [L U]. pose proof (Z.log2_nonneg z).
  assert (Z.log2 z < 53)%Z by (apply Z.log2_lt_pow2; lia).
  set (k := (52 - Z.log2 z)%Z). assert (K : (0 < 2 ^ k)%Z) by (apply pow2_pos; lia).
  assert (C : canonical (z * 2 ^ k) (- k)).
  { unfold canonical, min_exp, max_exp. split; [lia|].
    assert (2 ^ Z.log2 z * 2 ^ k = 2 ^ 52)%Z by (rewrite <- Z.pow_add_r by lia; f_equal; lia).
    assert (2 ^ Z.succ (Z.log2 z) * 2 ^ k = 2 ^ 53)%Z by (rewrite <- Z.pow_add_r by lia; f_equal; lia).
    split; [nia|left; nia]. }
  assert (E : (z * mag_den (- k) = mag_num (z * 2 ^ k) (- k) * 1)%Z).
  { unfold mag_num, mag_den. rewrite Z.opp_involutive, (Z.max_r 0 k), (Z.max_l 0 (- k)) by lia. cbn. lia. }
  rewrite (round_ratio_cross false z 1 _ _ ltac:(lia) (mag_den_pos (- k)) E).
  destruct (z * 2 ^ k)%Z as [|m|m] eqn:M; try nia. rewrite round_ratio_exact by done.
  split; [split; [done|]; split; [done|]; split; [exact C|done]|].
  unfold qv. cbn [vnum vden]. rewrite Z.mul_1_r in E. rewrite <- E, inject_Z_mult.
  field. apply pos_neq, inject_pos, mag_den_pos.
Qed.

Lemma div_bounds p q z : (0 < q)%Z -> (z * q <= p < (z + 1) * q)%Z -> (p / q = z)%Z.
Proof. intros. symmetry. apply (Z.div_unique _ _ _ (p - z * q)); lia. Qed.

Lemma posnum_ratio x : posnum x -> num_ratio x = Some (false, vnum x, vden x).
Proof. intros (P & F & _ & N). destruct x as [[]|[]| |[] m e]; try done. Qed.

(** [Math.round] and [Math.floor] by the value of their argument. *)
Lemma math_round_value x z : posnum x -> (0 < z)%Z ->
  inject_Z z - (1 # 2) <= qv x -> qv x < inject_Z z + (1 # 2) -> math_round x = num_of_Z z.
Proof.
  intros X Z0 L U. unfold math_round. rewrite posnum_ratio by done. cbn [signed].
  pose proof (vden_pos x). rewrite (div_bounds _ _ z); [|lia|].
  - destruct (Z.eqb_spec z 0); [lia|done].
  - unfold qv in *. pose proof (inject_pos _ (vden_pos x)) as D.
    assert (V : inject_Z (vnum x) / inject_Z (vden x) * inject_Z (vden x) == inject_Z (vnum x))
      by (field; apply vden_neq).
    set (r := inject_Z (vnum x) / inject_Z (vden x)) in *. split.
    + assert (inject_Z (2 * z * vden x - vden x) <= inject_Z (2 * vnum x)) as W.
      { unfold Z.sub. rewrite inject_Z_plus, inject_Z_opp, !inject_Z_mult, <- V. change (inject_Z 2) with 2. nra. }
      rewrite <- Zle_Qle in W. lia.
    + assert (inject_Z (2 * vnum x) < inject_Z (2 * z * vden x + vden x)) as W.
      { rewrite inject_Z_plus, !inject_Z_mult, <- V. change (inject_Z 2) with 2. nra. }
      rewrite <- Zlt_Qlt in W. lia.
Qed.

Lemma math_floor_value x z : posnum x -> inject_Z z <= qv x -> qv x < inject_Z z + 1 ->
  math_floor x = num_of_Z z.
Proof.
  intros X L U. unfold math_floor. rewrite posnum_ratio by done. cbn [signed].
  pose proof (vden_pos x). rewrite (div_bounds _ _ z); [|lia|].
  - by destruct (Z.eqb_spec z 0) as [->|].
  - unfold qv in *. pose proof (inject_pos _ (vden_pos x)) as D.
    assert (V : inject_Z (vnum x) / inject_Z (vden x) * inject_Z (vden x) == inject_Z (vnum x))
      by (field; apply vden_neq).
    set (r := inject_Z (vnum x) / inject_Z (vden x)) in *. split.
    + rewrite Zle_Qle, inject_Z_mult, <- V. nra.
    + rewrite Zlt_Qlt, inject_Z_mult, inject_Z_plus, <- V. change (inject_Z 1) with 1. nra.
Qed.

(** ** Chains of operations *)

(** Between [2^-n] and [2^n]. *)
Definition within (n : Z) (x : Q) : Prop := 1 <= x * inject_Z (2 ^ n) /\ x <= inject_Z (2 ^ n).

Lemma pow2_q n : (0 <= n)%Z -> 0 < inject_Z (2 ^ n).
Proof. intros. by apply inject_pos, pow2_pos. Qed.

Lemma within_pos n x : (0 <= n)%Z -> within n x -> 0 < x.
Proof. intros N [L _]. pose proof (pow2_q n N). nra. Qed.

Lemma within_mul n m x y : (0 <= n)%Z -> (0 <= m)%Z -> within n x -> within m y -> within (n + m) (x * y).
Proof.
  intros N M X Y. pose proof (within_pos n x N X). pose proof (within_pos m y M Y).
  pose proof (pow2_q n N). pose proof (pow2_q m M). destruct X as [X1 X2], Y as [Y1 Y2].
  unfold within. rewrite Z.pow_add_r, inject_Z_mult by done.
  set (a := inject_Z (2 ^ n)) in *. set (b := inject_Z (2 ^ m)) in *. split.
  - setoid_replace (x * y * (a * b)) with (x * a * (y * b)) by ring.
    apply (Qle_trans _ (1 * (y * b))); [lra|]. apply Qmult_le_compat_r; [done|lra].
  - apply (Qle_trans _ (a * y)); [apply Qmult_le_compat_r; lra|].
    rewrite (Qmult_comm a y), (Qmult_comm a b). apply Qmult_le_compat_r; lra.
Qed.

Lemma within_inv n x : (0 <= n)%Z -> within n x -> within n (/ x).
Proof.
  intros N X. pose proof (within_pos n x N X). pose proof (pow2_q n N). destruct X as [X1 X2].
  assert (E : / x * x == 1) by (field; by apply pos_neq). pose proof (Qinv_lt_0_compat x). split; nra.
Qed.

Lemma within_div n m x y : (0 <= n)%Z -> (0 <= m)%Z -> within n x -> within m y -> within (n + m) (x / y).
Proof. intros. apply within_mul; try done. by apply within_inv. Qed.

Lemma within_near n a b : (0 <= n)%Z -> near ulp a b -> within n b -> within (n + 1) a.
Proof.
  intros N [L U] B. pose proof (within_pos n b N B). pose proof (pow2_q n N). destruct B as [B1 B2].
  unfold within. rewrite Z.pow_add_r, inject_Z_mult by done. change (inject_Z (2 ^ 1)) with 2.
  change ulp with (1 # 9007199254740992) in *. set (c := inject_Z (2 ^ n)) in *.
  split; [|lra]. apply (Qle_trans _ (b * (1 - (1 # 9007199254740992)) * (c * 2))); [lra|].
  apply Qmult_le_compat_r; [done|lra].
Qed.

Lemma within_normal n x : (0 <= n <= 1000)%Z -> within n x -> normal x.
Proof.
  intros N X. pose proof (within_pos n x ltac:(lia) X). destruct X as [X1 X2].
  assert (P : inject_Z (2 ^ n) <= inject_Z (2 ^ 1000)) by (apply inject_le, Z.pow_le_mono_r; lia).
  split; [|unfold large; by apply (Qle_trans _ (inject_Z (2 ^ n)))].
  change small with (1 / inject_Z (2 ^ 1000)). apply Qle_shift_div_r; [done|]. nra.
Qed.

#[export] Instance within_proper n : Proper (Qeq ==> iff) (within n).
Proof. intros a b E. unfold within. by rewrite E. Qed.

(** One more rounding after [i] of them. *)
Definition roundings (i : Z) : Q := inject_Z i / inject_Z (2 ^ 52).

Lemma near_step i a b c : (0 <= i <= 1000000)%Z -> 0 <= c ->
  near ulp a b -> near (roundings i) b c -> near (roundings (i + 1)) a c.
Proof.
  intros I C A B.
  assert (I0 : 0 <= inject_Z i) by (apply (inject_le 0); lia).
  assert (I1 : inject_Z i <= 1000000) by (apply (inject_le i 1000000); lia).
  assert (E : forall z, roundings z == inject_Z z * (1 # 4503599627370496)) by reflexivity.
  rewrite E in *. change ulp with (1 # 9007199254740992) in *.
  apply (near_weaken ((1 # 9007199254740992) + inject_Z i * (1 # 4503599627370496)
                      + (1 # 9007199254740992) * (inject_Z i * (1 # 4503599627370496)))); [|done|].
  - rewrite inject_Z_plus. change (inject_Z 1) with 1. nra.
  - apply (near_trans _ _ _ b); try done; nra.
Qed.
