(* ===== verification/JsString.v ===== *)
(** * ECMAScript strings and the conversions between strings and numbers

    Strings are sequences of UTF-16 code units.  [js] turns a source literal
    (UTF-8 in this file) into code units.  The file holds the string
    operations the program uses, [Number(string)], [String(number)] and
    [Number.prototype.toFixed], and proves that printing a number and reading
    it back is the identity. *)

From Stdlib Require Import SpecFloat.
From stdpp Require Import base list numbers strings.
From S2P Require Import Prelude JsNumber.
Local Open Scope Z_scope.

Abbreviation jsstr := (list Z).

(** ** Literals *)

Fixpoint utf16_of_utf8 (l : list Z) : jsstr :=
  match l with
  | [] => []
  | a :: r1 =>
      if a <? 128 then a :: utf16_of_utf8 r1
      else match r1 with
      | [] => []
      | b :: r2 =>
          if a <? 224 then (a - 192) * 64 + (b - 128) :: utf16_of_utf8 r2
          else match r2 with
          | [] => []
          | c :: r3 =>
              if a <? 240
              then (a - 224) * 4096 + (b - 128) * 64 + (c - 128) :: utf16_of_utf8 r3
              else match r3 with
              | [] => []
              | d :: r4 =>
                  let v := (a - 240) * 262144 + (b - 128) * 4096
                           + (c - 128) * 64 + (d - 128) - 65536 in
                  55296 + v / 1024 :: 56320 + v mod 1024 :: utf16_of_utf8 r4
              end
          end
      end
  end.

(** The code units of a literal. *)
Definition js (s : string) : jsstr :=
  utf16_of_utf8 (map (fun a => Z.of_N (Ascii.N_of_ascii a)) (String.list_ascii_of_string s)).

(** ** Characters and elementary operations *)

(** [WhiteSpace] and [LineTerminator], which is also the class [\s]. *)
Definition is_ws (c : Z) : bool :=
  (9 <=? c) && (c <=? 13) || (c =? 32) || (c =? 160) || (c =? 5760)
  || (8192 <=? c) && (c <=? 8202) || (c =? 8232) || (c =? 8233)
  || (c =? 8239) || (c =? 8287) || (c =? 12288) || (c =? 65279).

Definition is_digit (c : Z) : bool := (48 <=? c) && (c <=? 57).

Fixpoint drop_ws (s : jsstr) : jsstr :=
  match s with
  | c :: r => if is_ws c then drop_ws r else s
  | [] => []
  end.

(** [s.trim()] *)
Definition trim (s : jsstr) : jsstr := reverse (drop_ws (reverse (drop_ws s))).

(** [s.replace(/\s+/g, '')] *)
Definition remove_ws (s : jsstr) : jsstr := base.filter (fun c => is_ws c = false) s.

(** [a.startsWith(p)] and [a.includes(p)] *)
Fixpoint starts_with (p s : jsstr) : bool :=
  match p, s with
  | [], _ => true
  | a :: p', b :: s' => (a =? b) && starts_with p' s'
  | _, [] => false
  end.

Fixpoint includes (p s : jsstr) : bool :=
  starts_with p s || match s with [] => false | _ :: s' => includes p s' end.

(** A text without the zeros at its start. *)
Fixpoint drop_zeros (r : jsstr) : jsstr :=
  match r with c :: r' => if c =? 48 then drop_zeros r' else r | [] => [] end.

(** [parts.join(sep)] *)
Fixpoint join (sep : jsstr) (parts : list jsstr) : jsstr :=
  match parts with
  | [] => []
  | [p] => p
  | p :: r => p ++ sep ++ join sep r
  end.

(** [s.split(c)] for a single character [c] *)
Fixpoint split_on (c : Z) (s : jsstr) : list jsstr :=
  match s with
  | [] => [[]]
  | x :: r =>
      if x =? c then [] :: split_on c r
      else match split_on c r with
           | part :: parts => (x :: part) :: parts
           | [] => [[x]]
           end
  end.

(** Case mapping.  On strings of ASCII characters it is written out; the
    Unicode tables that the language uses beyond ASCII, and the collation
    order of [localeCompare], are not part of the program and are left
    abstract. *)
Class Unicode := {
  unicode_lower : jsstr -> jsstr;
  unicode_upper : jsstr -> jsstr;
  localeCompare : jsstr -> jsstr -> Z
}.

Definition is_ascii (s : jsstr) : bool := forallb (fun c => (0 <=? c) && (c <? 128)) s.
Definition ascii_lower (c : Z) : Z := if (65 <=? c) && (c <=? 90) then c + 32 else c.
Definition ascii_upper (c : Z) : Z := if (97 <=? c) && (c <=? 122) then c - 32 else c.

Definition toLowerCase `{Unicode} (s : jsstr) : jsstr :=
  if is_ascii s then map ascii_lower s else unicode_lower s.
Definition toUpperCase `{Unicode} (s : jsstr) : jsstr :=
  if is_ascii s then map ascii_upper s else unicode_upper s.

(** The simplest instance: nothing beyond ASCII changes case, and strings
    compare by code unit. *)
Fixpoint code_unit_compare (a b : jsstr) : Z :=
  match a, b with
  | [], [] => 0
  | [], _ => -1
  | _, [] => 1
  | x :: a, y :: b => if x <? y then -1 else if y <? x then 1 else code_unit_compare a b
  end.

Definition code_unit_unicode : Unicode := {|
  unicode_lower := map ascii_lower;
  unicode_upper := map ascii_upper;
  localeCompare := code_unit_compare
|}.

(** ** Decimal digits *)

Fixpoint span_digits (s : jsstr) : jsstr * jsstr :=
  match s with
  | c :: r =>
      if is_digit c then let '(d, r') := span_digits r in (c :: d, r') else ([], s)
  | [] => ([], [])
  end.

Definition digits_val_from (acc : Z) (s : jsstr) : Z :=
  fold_left (fun a c => a * 10 + (c - 48)) s acc.
Definition digits_val (s : jsstr) : Z := digits_val_from 0 s.

Fixpoint to_digits (fuel : nat) (z : Z) (acc : jsstr) : jsstr :=
  match fuel with
  | O => acc
  | S f =>
      let acc' := (48 + z mod 10) :: acc in
      if z / 10 =? 0 then acc' else to_digits f (z / 10) acc'
  end.

(** The decimal digits of a non-negative integer; [log2 z + 1] digits are
    always enough. *)
Definition dec_digits (z : Z) : jsstr := to_digits (S (Z.to_nat (Z.log2 z))) z [].

Definition zeros (n : Z) : jsstr := replicate (Z.to_nat n) 48.

(** ** [Number(string)] *)

(** The optional exponent part, which must be all that is left. *)
Definition parse_exponent (s : jsstr) : option Z :=
  match s with
  | [] => Some 0
  | c :: r =>
      if (c =? 101) || (c =? 69) then
        let '(neg, r) := match r with
                         | sg :: r' => if sg =? 43 then (false, r')
                                       else if sg =? 45 then (true, r') else (false, r)
                         | [] => (false, r)
                         end in
        match span_digits r with
        | ([], _) => None
        | (d, []) => Some (if neg then - digits_val d else digits_val d)
        | _ => None
        end
      else None
  end.

(** [c * 10^x] for an unsigned decimal literal. *)
Definition parse_decimal (s : jsstr) : option (Z * Z) :=
  let '(ip, r) := span_digits s in
  let '(fp, r) := match r with
                  | c :: r' => if c =? 46 then span_digits r' else ([], r)
                  | [] => ([], [])
                  end in
  match ip ++ fp with
  | [] => None
  | ds =>
      match parse_exponent r with
      | Some x => Some (digits_val ds, x - Z.of_nat (length fp))
      | None => None
      end
  end.

Definition hex_digit (c : Z) : option Z :=
  if is_digit c then Some (c - 48)
  else if (97 <=? c) && (c <=? 102) then Some (c - 87)
  else if (65 <=? c) && (c <=? 70) then Some (c - 55)
  else None.

Fixpoint radix_val (radix acc : Z) (s : jsstr) : option Z :=
  match s with
  | [] => Some acc
  | c :: r =>
      match hex_digit c with
      | Some d => if d <? radix then radix_val radix (acc * radix + d) r else None
      | None => None
      end
  end.

Definition parse_radix (radix : Z) (s : jsstr) : spec_float :=
  match s with
  | [] => nan
  | _ => match radix_val radix 0 s with Some z => num_of_Z z | None => nan end
  end.

Definition parse_unsigned (neg : bool) (s : jsstr) : spec_float :=
  if bool_decide (s = js "Infinity") then S754_infinity neg
  else match parse_decimal s with
       | Some (c, x) => dec_num neg c x
       | None => nan
       end.

Definition num_of_str (s : jsstr) : spec_float :=
  let t := trim s in
  match t with
  | [] => n0
  | c :: r =>
      if c =? 43 then parse_unsigned false r
      else if c =? 45 then parse_unsigned true r
      else match r with
      | [] => parse_unsigned false t
      | d :: r' =>
          if negb (c =? 48) then parse_unsigned false t
          else if (d =? 120) || (d =? 88) then parse_radix 16 r'
          else if (d =? 111) || (d =? 79) then parse_radix 8 r'
          else if (d =? 98) || (d =? 66) then parse_radix 2 r'
          else parse_unsigned false t
      end
  end.

(** ** [parseFloat(string)]: the longest decimal prefix *)

Definition parse_float (s : jsstr) : spec_float :=
  let s := drop_ws s in
  let '(neg, r) := match s with
                   | c :: r => if c =? 45 then (true, r) else if c =? 43 then (false, r) else (false, s)
                   | [] => (false, s)
                   end in
  if starts_with (js "Infinity") r then S754_infinity neg
  else
    let '(ip, r) := span_digits r in
    let '(fp, r) := match r with
                    | c :: r' => if c =? 46 then span_digits r' else ([], r)
                    | [] => ([], [])
                    end in
    match ip ++ fp with
    | [] => nan
    | ds =>
        let x := match r with
                 | c :: r' =>
                     if (c =? 101) || (c =? 69) then
                       let '(xneg, r') := match r' with
                                          | sg :: r'' => if sg =? 43 then (false, r'')
                                                         else if sg =? 45 then (true, r'') else (false, r')
                                          | [] => (false, r')
                                          end in
                       signed xneg (digits_val (fst (span_digits r')))
                     else 0
                 | [] => 0
                 end in
        dec_num neg (digits_val ds) (x - Z.of_nat (length fp))
    end.

(** ** [String(number)] *)

(** [10^n <= p/q] *)
Definition pow10_le (n p q : Z) : bool :=
  q * 10 ^ Z.max 0 n <=? p * 10 ^ Z.max 0 (- n).

(** The [n] with [10^(n-1) <= p/q < 10^n]; 0.30103 estimates log10(2). *)
Definition dec_exp (p q : Z) : Z :=
  let est := ilog2 p q * 30103 / 100000 in
  if pow10_le (est + 1) p q then est + 2
  else if pow10_le est p q then est + 1 else est.

(** A decimal [(c, x)] reads back as the magnitude of [v]. *)
Definition reads_as (v : spec_float) (c x : Z) : bool :=
  match dec_num false c x, v with
  | S754_finite _ m e, S754_finite _ m' e' => (m =? m')%positive && (e =? e')
  | _, _ => false
  end.

(** The shortest decimal that reads back as [v = p/q], the nearest one when
    the two neighbours do: [k] digits, [k] increasing. *)
Fixpoint shortest (fuel : nat) (k : Z) (v : spec_float) (p q n : Z) : option (Z * Z) :=
  match fuel with
  | O => None
  | S f =>
      let x := n - k in
      let num := p * 10 ^ Z.max 0 (- x) in
      let den := q * 10 ^ Z.max 0 x in
      let lo := num / den in
      let '(a, b) := if 2 * (num mod den) <=? den then (lo, lo + 1) else (lo + 1, lo) in
      if reads_as v a x then Some (a, x)
      else if reads_as v b x then Some (b, x)
      else shortest f (k + 1) v p q n
  end.

Fixpoint strip_zeros (fuel : nat) (c x : Z) : Z * Z :=
  match fuel with
  | O => (c, x)
  | S f => if c mod 10 =? 0 then strip_zeros f (c / 10) (x + 1) else (c, x)
  end.

(** The decimal the language prints for a positive finite value.  17 digits
    are enough for binary64; the exact expansion stands behind the search so
    that the function is total without that fact. *)
Definition num_decimal (m e : Z) : Z * Z :=
  let p := mag_num m e in
  let q := mag_den e in
  match shortest 17 1 (round_ratio false p q) p q (dec_exp p q) with
  | Some (c, x) => strip_zeros (Z.to_nat (Z.log2 c)) c x
  | None => (m * 2 ^ Z.max 0 e * 5 ^ Z.max 0 (- e), Z.min 0 e)
  end.

Definition print_exponent (x : Z) : jsstr :=
  101 :: (if x <? 0 then 45 else 43) :: dec_digits (Z.abs x).

(** The layout of [c * 10^x] chosen by [Number::toString]. *)
Definition print_decimal (c x : Z) : jsstr :=
  let ds := dec_digits c in
  let k := Z.of_nat (length ds) in
  let n := k + x in
  if (k <=? n) && (n <=? 21) then ds ++ zeros (n - k)
  else if (0 <? n) && (n <=? 21) then take (Z.to_nat n) ds ++ 46 :: drop (Z.to_nat n) ds
  else if (-6 <? n) && (n <=? 0) then 48 :: 46 :: zeros (- n) ++ ds
  else match ds with
       | [] => []
       | [d] => d :: print_exponent (n - 1)
       | d :: r => d :: 46 :: r ++ print_exponent (n - 1)
       end.

Definition str_of_num (x : spec_float) : jsstr :=
  match x with
  | S754_nan => js "NaN"
  | S754_zero _ => [48]
  | S754_infinity s => (if s then [45] else []) ++ js "Infinity"
  | S754_finite s m e =>
      let '(c, x) := num_decimal (Zpos m) e in
      (if s then [45] else []) ++ print_decimal c x
  end.

(** ** [x.toFixed(f)] *)

Definition fixed_digits (f : Z) (n : Z) : jsstr :=
  let ds := dec_digits n in
  let ds := zeros (f + 1 - Z.of_nat (length ds)) ++ ds in
  let k := (length ds - Z.to_nat f)%nat in
  if f =? 0 then ds else take k ds ++ 46 :: drop k ds.

Definition to_fixed (f : Z) (x : spec_float) : jsstr :=
  match num_ratio x with
  | None => str_of_num x
  | Some (s, p, q) =>
      if q * 10 ^ 21 <=? p then str_of_num x
      else (if s && (0 <? p) then [45] else [])
             ++ fixed_digits f ((2 * p * 10 ^ f + q) / (2 * q))
  end.

(** ** Printing and reading back *)

Lemma span_digits_app ds r :
  Forall (fun c => is_digit c = true) ds ->
  match r with c :: _ => is_digit c = false | [] => True end ->
  span_digits (ds ++ r) = (ds, r).
Proof.
  intros Hd Hr. induction Hd as [|c ds Hc _ IH]; cbn.
  - destruct r; cbn; [done|]. by rewrite Hr.
  - by rewrite Hc, IH.
Qed.

Lemma span_digits_all ds :
  Forall (fun c => is_digit c = true) ds -> span_digits ds = (ds, []).
Proof. intros. rewrite <- (app_nil_r ds) at 1. by apply span_digits_app. Qed.

Lemma digits_val_from_acc s acc :
  digits_val_from acc s = acc * 10 ^ Z.of_nat (length s) + digits_val s.
Proof.
  revert acc. induction s as [|c s IH]; intros acc; [cbn; lia|].
  unfold digits_val, digits_val_from in *. cbn [fold_left length].
  rewrite IH, (IH (0 * 10 + (c - 48))).
  rewrite Nat2Z.inj_succ, Z.pow_succ_r by lia. ring.
Qed.

Lemma digits_val_app a b :
  digits_val (a ++ b) = digits_val a * 10 ^ Z.of_nat (length b) + digits_val b.
Proof.
  unfold digits_val at 1, digits_val_from. rewrite fold_left_app.
  apply digits_val_from_acc.
Qed.

Lemma digits_val_zeros n : digits_val (zeros n) = 0.
Proof. unfold zeros. induction (Z.to_nat n) as [|k IH]; [done|]. exact IH. Qed.

Lemma zeros_digits n : Forall (fun c => is_digit c = true) (zeros n).
Proof. by apply Forall_replicate. Qed.

Lemma to_digits_spec fuel z acc : 0 <= z < 2 ^ Z.of_nat fuel ->
  (fuel <> 0)%nat ->
  Forall (fun c => is_digit c = true) acc ->
  exists d ds, to_digits fuel z acc = d :: ds /\
    Forall (fun c => is_digit c = true) (d :: ds) /\
    (0 < z -> d <> 48) /\
    digits_val (d :: ds) = z * 10 ^ Z.of_nat (length acc) + digits_val acc.
Proof.
  revert z acc. induction fuel as [|f IH]; intros z acc Hz Hf Hacc; [done|].
  cbn [to_digits].
  pose proof (Z.div_mod z 10 ltac:(lia)) as Dm. pose proof (Z.mod_pos_bound z 10 ltac:(lia)).
  assert (Forall (fun c => is_digit c = true) (48 + z mod 10 :: acc)).
  { constructor; [unfold is_digit|done]. apply andb_true_intro. lia. }
  assert (V : digits_val (48 + z mod 10 :: acc)
              = z mod 10 * 10 ^ Z.of_nat (length acc) + digits_val acc).
  { change (48 + z mod 10 :: acc) with ([48 + z mod 10] ++ acc).
    rewrite digits_val_app. unfold digits_val at 1. cbn. f_equal. lia. }
  destruct (Z.eqb_spec (z / 10) 0) as [E|E].
  - exists (48 + z mod 10), acc. split_and!; try done; [lia|].
    rewrite V. rewrite E in Dm. nia.
  - assert (z / 10 < 2 ^ Z.of_nat f).
    { apply Z.div_lt_upper_bound; [lia|].
      rewrite Nat2Z.inj_succ, Z.pow_succ_r in Hz by lia. lia. }
    assert (f <> 0)%nat by (intros ->; cbn in *; lia).
    destruct (IH (z / 10) (48 + z mod 10 :: acc)) as (d & ds & E1 & E2 & E3 & E4); trivial.
    { split; [apply Z.div_pos|]; lia. }
    exists d, ds. split_and!; trivial.
    + intros _. apply E3. lia.
    + rewrite E4, V. cbn [length]. rewrite Nat2Z.inj_succ, Z.pow_succ_r by lia. nia.
Qed.

Lemma dec_digits_spec z : 0 <= z ->
  exists d ds, dec_digits z = d :: ds /\
    Forall (fun c => is_digit c = true) (d :: ds) /\
    (0 < z -> d <> 48) /\ digits_val (d :: ds) = z.
Proof.
  intros Hz. unfold dec_digits.
  destruct (to_digits_spec (S (Z.to_nat (Z.log2 z))) z []) as (d & ds & E1 & E2 & E3 & E4);
    [| done | done |].
  - split; [done|]. rewrite Nat2Z.inj_succ, Z2Nat.id by apply Z.log2_nonneg.
    destruct (decide (z = 0)) as [->|]; [done|]. apply Z.log2_spec. lia.
  - exists d, ds. split_and!; trivial. rewrite E4. cbn. lia.
Qed.

Lemma dec_digits_inj n m : 0 <= n -> 0 <= m -> dec_digits n = dec_digits m -> n = m.
Proof.
  intros N M E. destruct (dec_digits_spec n N) as (d & ds & En & _ & _ & V).
  destruct (dec_digits_spec m M) as (d' & ds' & Em & _ & _ & V'). congruence.
Qed.

Lemma dec_num_shift s c x k : 0 <= k -> dec_num s (c * 10 ^ k) x = dec_num s c (x + k).
Proof.
  intros Hk. unfold dec_num.
  apply round_ratio_cross; try (apply Z.pow_pos_nonneg; lia).
  transitivity (c * 10 ^ (k + Z.max 0 x + Z.max 0 (- (x + k)))).
  - rewrite !Z.pow_add_r by lia. ring.
  - replace (k + Z.max 0 x + Z.max 0 (- (x + k)))
      with (Z.max 0 (x + k) + Z.max 0 (- x)) by lia.
    rewrite Z.pow_add_r by lia. ring.
Qed.

Lemma parse_exponent_print x : parse_exponent (print_exponent x) = Some x.
Proof.
  unfold print_exponent, parse_exponent. cbn [Z.eqb Pos.eqb orb].
  destruct (dec_digits_spec (Z.abs x) ltac:(lia)) as (d & ds & E & Hd & _ & V).
  rewrite E. destruct (Z.ltb_spec x 0); cbn [Z.eqb Pos.eqb];
    rewrite span_digits_all by done; rewrite V; f_equal; lia.
Qed.

Lemma print_exponent_head x :
  match print_exponent x with c :: _ => is_digit c = false | [] => True end.
Proof. done. Qed.

(** Reading an integer part [ip], a fraction [fp] and a printed exponent. *)
Lemma parse_decimal_parts ip fp x r :
  Forall (fun c => is_digit c = true) ip -> Forall (fun c => is_digit c = true) fp ->
  ip <> [] -> parse_exponent r = Some x ->
  match r with c :: _ => is_digit c = false | [] => True end ->
  parse_decimal (ip ++ 46 :: fp ++ r)
  = Some (digits_val (ip ++ fp), x - Z.of_nat (length fp)).
Proof.
  intros Hi Hf Hne Hx Hr. unfold parse_decimal.
  rewrite span_digits_app by done. cbn [Z.eqb Pos.eqb].
  rewrite span_digits_app by done. rewrite Hx.
  destruct ip; [done|]. reflexivity.
Qed.

Lemma parse_decimal_int ip x r :
  Forall (fun c => is_digit c = true) ip -> ip <> [] -> parse_exponent r = Some x ->
  match r with c :: _ => is_digit c = false /\ c <> 46 | [] => True end ->
  parse_decimal (ip ++ r) = Some (digits_val ip, x).
Proof.
  intros Hi Hne Hx Hr. unfold parse_decimal.
  rewrite span_digits_app by (first [done | destruct r; [done|by destruct Hr]]).
  destruct r as [|c r].
  - rewrite app_nil_r, Hx. destruct ip; [done|]. f_equal. f_equal. cbn. lia.
  - destruct Hr as [_ Hc]. destruct (Z.eqb_spec c 46); [done|].
    rewrite app_nil_r, Hx. destruct ip; [done|]. f_equal. f_equal. cbn. lia.
Qed.

(** Whatever layout [print_decimal] chooses, it denotes [c * 10^x]. *)
Lemma parse_print_decimal s c x : 0 < c ->
  exists c' x', parse_decimal (print_decimal c x) = Some (c', x') /\
                dec_num s c' x' = dec_num s c x.
Proof.
  intros Hc. unfold print_decimal.
  destruct (dec_digits_spec c ltac:(lia)) as (d & ds & E & Hd & _ & V). rewrite E.
  set (k := Z.of_nat (length (d :: ds))).
  assert (1 <= k) by (unfold k; cbn; lia).
  destruct ((k <=? k + x) && (k + x <=? 21)) eqn:C1.
  { eexists _, 0. split.
    - rewrite <- (app_nil_r (_ ++ zeros _)). apply parse_decimal_int; try done.
      apply Forall_app. split; [done|apply zeros_digits].
    - rewrite digits_val_app, V, digits_val_zeros, Z.add_0_r. unfold zeros.
      rewrite length_replicate, Z2Nat.id, dec_num_shift by lia. f_equal. lia. }
  destruct ((0 <? k + x) && (k + x <=? 21)) eqn:C2.
  { eexists _, _. split.
    - rewrite <- (app_nil_r (drop _ _)). apply parse_decimal_parts; try done.
      + by apply Forall_take.
      + by apply Forall_drop.
      + destruct (Z.to_nat (k + x)) eqn:T; [lia|done].
    - rewrite take_drop, V, length_drop. f_equal. fold k. unfold k in *. lia. }
  destruct ((-6 <? k + x) && (k + x <=? 0)) eqn:C3.
  { eexists _, _. split.
    - change (48 :: 46 :: zeros (- (k + x)) ++ d :: ds)
        with ([48] ++ 46 :: (zeros (- (k + x)) ++ d :: ds)).
      rewrite <- (app_nil_r (zeros _ ++ _)). apply parse_decimal_parts; try done.
      + by repeat constructor.
      + apply Forall_app. split; [apply zeros_digits|done].
    - rewrite !digits_val_app, V, digits_val_zeros, length_app.
      change (digits_val [48]) with 0. unfold zeros. rewrite length_replicate.
      unfold k in *. f_equal; lia. }
  destruct ds as [|d' ds].
  - eexists _, _. split.
    + change (d :: print_exponent (k + x - 1)) with ([d] ++ print_exponent (k + x - 1)).
      apply parse_decimal_int; try done. apply parse_exponent_print.
    + rewrite V. unfold k. cbn. f_equal. lia.
  - eexists _, _. split.
    + change (d :: 46 :: (d' :: ds) ++ print_exponent (k + x - 1))
        with ([d] ++ 46 :: (d' :: ds) ++ print_exponent (k + x - 1)).
      apply Forall_cons in Hd as [Hd Hds].
      apply parse_decimal_parts; [by repeat constructor | done | done
        | apply parse_exponent_print | done].
    + cbn [app]. rewrite V. unfold k. cbn. f_equal. lia.
Qed.

Definition numeric_char (c : Z) : Prop :=
  is_digit c = true \/ c = 46 \/ c = 101 \/ c = 43 \/ c = 45.

Lemma digits_numeric ds :
  Forall (fun c => is_digit c = true) ds -> Forall numeric_char ds.
Proof. intros H. eapply Forall_impl; [exact H|]. by left. Qed.

Lemma numeric_char_not_ws c : numeric_char c -> is_ws c = false.
Proof.
  unfold numeric_char, is_digit, is_ws. rewrite andb_true_iff, !Z.leb_le.
  intros [H|[->|[->|[->| ->]]]]; [|reflexivity..].
  repeat first [ rewrite orb_false_iff | split ];
    rewrite ?andb_false_iff, ?Z.leb_gt, ?Z.eqb_neq; lia.
Qed.

Lemma print_exponent_numeric x : Forall numeric_char (print_exponent x).
Proof.
  destruct (dec_digits_spec (Z.abs x) ltac:(lia)) as (d & ds & E & Hd & _).
  unfold print_exponent. rewrite E. repeat apply Forall_cons_2.
  - right. tauto.
  - right. destruct (x <? 0); tauto.
  - by left; inversion Hd.
  - apply digits_numeric. by inversion Hd.
Qed.

(** A printed decimal starts with a digit and consists of the characters of
    numeric literals. *)
Lemma print_decimal_shape c x : 0 < c ->
  exists d r, print_decimal c x = d :: r /\ is_digit d = true /\ Forall numeric_char r.
Proof.
  intros Hc. unfold print_decimal.
  destruct (dec_digits_spec c ltac:(lia)) as (d & ds & E & Hd & _). rewrite E.
  set (k := Z.of_nat (length (d :: ds))).
  inversion Hd as [|? ? Hd1 Hds]; subst.
  pose proof (digits_numeric _ Hds). pose proof (digits_numeric _ Hd).
  assert (numeric_char 46) by (right; tauto).
  case_match eqn:C1.
  { eexists _, _. split; [reflexivity|]. split; [done|]. apply Forall_app. split; [done|].
    apply digits_numeric, zeros_digits. }
  case_match eqn:C2.
  { destruct (Z.to_nat (k + x)) eqn:T; [lia|]. cbn.
    eexists _, _. split; [reflexivity|]. split; [done|]. apply Forall_app. split.
    - by apply Forall_take.
    - constructor; [done|]. by apply Forall_drop. }
  case_match eqn:C3.
  { eexists _, _. split; [reflexivity|]. split; [done|]. constructor; [done|].
    apply Forall_app. split; [apply digits_numeric, zeros_digits|done]. }
  destruct ds.
  - eexists _, _. split; [reflexivity|]. split; [done|]. apply print_exponent_numeric.
  - eexists _, _. split; [reflexivity|]. split; [done|]. constructor; [done|].
    apply (Forall_app_2 _ (_ :: _)); [done|apply print_exponent_numeric].
Qed.

Lemma drop_ws_id s : Forall (fun c => is_ws c = false) s -> drop_ws s = s.
Proof.
  intros H. destruct s as [|c s]; [done|]. cbn.
  apply Forall_cons in H as [-> _]. done.
Qed.

Lemma drop_ws_snoc s c : is_ws c = false -> drop_ws (s ++ [c]) <> [].
Proof. intros C. induction s as [|d s IH]; cbn; [by rewrite C|]. by destruct (is_ws d). Qed.

Lemma trim_non_empty c s : is_ws c = false -> trim (c :: s) <> [].
Proof.
  intros C. unfold trim. cbn [drop_ws]. rewrite C, reverse_cons.
  intros E%(f_equal reverse). rewrite reverse_involutive in E. by apply drop_ws_snoc in E.
Qed.

Lemma split_on_part c p : c ∉ p -> split_on c p = [p].
Proof.
  induction p as [|x p IH]; [done|]. intros [N1 N2]%not_elem_of_cons. cbn.
  rewrite IH by done. destruct (Z.eqb_spec x c); [congruence|done].
Qed.

Lemma split_on_app c p s : c ∉ p -> split_on c (p ++ c :: s) = p :: split_on c s.
Proof.
  induction p as [|x p IH]; [intros _; cbn; by rewrite Z.eqb_refl|].
  intros [N1 N2]%not_elem_of_cons. cbn. rewrite IH by done.
  destruct (Z.eqb_spec x c); [congruence|done].
Qed.

Lemma split_on_join c parts : parts <> [] -> Forall (fun p => c ∉ p) parts ->
  split_on c (join [c] parts) = parts.
Proof.
  intros N F. induction F as [|p parts P F IH]; [done|].
  destruct parts as [|q parts]; [by apply split_on_part|].
  change (join [c] (p :: q :: parts)) with (p ++ c :: join [c] (q :: parts)).
  rewrite split_on_app by done. by rewrite IH.
Qed.

Lemma trim_id s : Forall (fun c => is_ws c = false) s -> trim s = s.
Proof.
  intros H. unfold trim. rewrite (drop_ws_id s), drop_ws_id; trivial.
  - apply reverse_involutive.
  - by apply Forall_reverse.
Qed.

(** Reading a string of numeric characters, with or without a minus sign. *)
Lemma num_of_str_numeric neg d r :
  is_digit d = true -> Forall numeric_char r ->
  num_of_str ((if neg : bool then [45] else []) ++ d :: r) = parse_unsigned neg (d :: r).
Proof.
  intros Hd Hr. unfold num_of_str.
  assert (N : Forall numeric_char ((if neg then [45] else []) ++ d :: r)).
  { apply Forall_app. split; [destruct neg; repeat constructor; unfold numeric_char; tauto|].
    constructor; [by left|done]. }
  rewrite trim_id by (eapply Forall_impl; [exact N|apply numeric_char_not_ws]).
  assert (48 <= d <= 57) by (unfold is_digit in Hd; lia).
  destruct neg; cbn [app]; [done|].
  destruct (Z.eqb_spec d 43); [lia|]. destruct (Z.eqb_spec d 45); [lia|].
  destruct r as [|a r]; [done|]. case_match; [done|].
  inversion Hr as [|? ? Ha _]; subst. unfold numeric_char, is_digit in Ha.
  rewrite andb_true_iff, !Z.leb_le in Ha.
  repeat match goal with
    |- context [?u =? ?v] => destruct (Z.eqb_spec u v); [lia|] end.
  done.
Qed.

Lemma parse_unsigned_digit neg d r : is_digit d = true ->
  parse_unsigned neg (d :: r)
  = match parse_decimal (d :: r) with Some (c, x) => dec_num neg c x | None => nan end.
Proof.
  intros Hd. unfold parse_unsigned. rewrite bool_decide_false; [done|].
  intros E. assert (d = 73) as -> by (vm_compute in E; congruence). done.
Qed.

Lemma num_of_print neg c x : 0 < c ->
  num_of_str ((if neg : bool then [45] else []) ++ print_decimal c x) = dec_num neg c x.
Proof.
  intros Hc. destruct (print_decimal_shape c x Hc) as (d & r & E & Hd & Hr).
  destruct (parse_print_decimal neg c x Hc) as (c' & x' & P & D).
  rewrite E in *. rewrite num_of_str_numeric, parse_unsigned_digit by done.
  by rewrite P.
Qed.

(** The two facts about [num_decimal]: it is positive, and it reads back. *)
Lemma reads_as_spec s m e c x : reads_as (S754_finite false m e) c x = true ->
  dec_num s c x = S754_finite s m e /\ 0 < c.
Proof.
  unfold reads_as. intros H.
  destruct (dec_num false c x) as [| | |b m' e'] eqn:D; try done.
  apply andb_true_iff in H as [->%Pos.eqb_eq ->%Z.eqb_eq].
  unfold dec_num, round_ratio, make_num in *.
  destruct (Z.leb_spec (c * 10 ^ Z.max 0 x) 0) as [|G]; [done|].
  split; [repeat case_match; congruence|].
  assert (0 < 10 ^ Z.max 0 x) by (apply Z.pow_pos_nonneg; lia). nia.
Qed.

Lemma shortest_spec fuel k m e p q n c x :
  shortest fuel k (S754_finite false m e) p q n = Some (c, x) ->
  reads_as (S754_finite false m e) c x = true.
Proof.
  revert k. induction fuel as [|f IH]; intros k; [done|]. cbn [shortest].
  repeat case_match; intros; simplify_eq; eauto.
Qed.

Lemma strip_zeros_spec s fuel c x : 0 < c ->
  let '(c', x') := strip_zeros fuel c x in dec_num s c' x' = dec_num s c x /\ 0 < c'.
Proof.
  revert c x. induction fuel as [|f IH]; intros c x Hc; cbn; [done|].
  destruct (Z.eqb_spec (c mod 10) 0) as [E|E]; [|done].
  pose proof (Z.div_mod c 10 ltac:(lia)) as D. rewrite E in D.
  specialize (IH (c / 10) (x + 1) ltac:(lia)). destruct (strip_zeros f _ _) as [c' x'].
  destruct IH as [-> P]. split; [|done].
  rewrite <- dec_num_shift by lia. f_equal. lia.
Qed.

Lemma exact_decimal s m e : canonical (Zpos m) e ->
  dec_num s (Zpos m * 2 ^ Z.max 0 e * 5 ^ Z.max 0 (- e)) (Z.min 0 e) = S754_finite s m e.
Proof.
  intros C. rewrite <- (round_ratio_exact s m e C). unfold dec_num.
  apply round_ratio_cross; [apply Z.pow_pos_nonneg; lia | apply mag_den_pos |].
  unfold mag_num, mag_den.
  rewrite (Z.max_l 0 (Z.min 0 e)) by lia.
  replace (Z.max 0 (- Z.min 0 e)) with (Z.max 0 (- e)) by lia.
  change 10 with (2 * 5). rewrite !Z.pow_mul_l. change (2 ^ 0 * 5 ^ 0) with 1. ring.
Qed.

Lemma num_decimal_spec s m e : canonical (Zpos m) e ->
  let '(c, x) := num_decimal (Zpos m) e in
  dec_num s c x = S754_finite s m e /\ 0 < c.
Proof.
  intros C. unfold num_decimal. rewrite round_ratio_exact by done.
  destruct (shortest _ _ _ _ _ _) as [[c x]|] eqn:S.
  - apply shortest_spec in S. destruct (reads_as_spec s _ _ _ _ S) as [R P].
    pose proof (strip_zeros_spec s (Z.to_nat (Z.log2 c)) c x P) as Z.
    destruct (strip_zeros _ c x) as [c' x']. by rewrite <- R.
  - split; [by apply exact_decimal|].
    assert (0 < 2 ^ Z.max 0 e) by (apply Z.pow_pos_nonneg; lia).
    assert (0 < 5 ^ Z.max 0 (- e)) by (apply Z.pow_pos_nonneg; lia). nia.
Qed.

(** [Number(String(x)) = x] up to the sign of zero. *)
Lemma num_of_str_of_num x : valid x -> isFinite x = true ->
  num_of_str (str_of_num x) = match x with S754_zero _ => n0 | _ => x end.
Proof.
  intros V F. destruct x as [s|s| |s m e]; try done.
  cbn. pose proof (num_decimal_spec s m e V) as D.
  destruct (num_decimal (Zpos m) e) as [c x]. destruct D as [<- P].
  by apply num_of_print.
Qed.

Lemma str_of_num_nonempty x : str_of_num x <> [].
Proof.
  destruct x as [s|s| |s m e]; cbn; [done|by destruct s|done|].
  unfold num_decimal.
  enough (H : forall c y, print_decimal c y <> [] \/ dec_digits c = []).
  { destruct (match shortest _ _ _ _ _ _ with Some _ => _ | None => _ end) as [c y].
    destruct (H c y) as [H'|H']; destruct s; cbn; try done.
    unfold dec_digits in H'. clear -H'. exfalso.
    enough (forall f z acc, to_digits (S f) z acc <> []) by (eapply H; exact H').
    induction f; intros z acc; cbn; case_match; try done. apply IHf. }
  intros c y. unfold print_decimal. destruct (dec_digits c) as [|d ds]; [by right|left].
  repeat case_match; try done; destruct (Z.to_nat _); done.
Qed.

Lemma parse_unsigned_valid neg s : valid (parse_unsigned neg s).
Proof. unfold parse_unsigned. repeat case_match; cbn; auto with js_num. Qed.

Lemma num_of_str_valid s : valid (num_of_str s).
Proof.
  unfold num_of_str, parse_radix.
  repeat case_match; cbn; auto using parse_unsigned_valid with js_num.
Qed.

#[export] Hint Resolve num_of_str_valid parse_unsigned_valid : js_num.

(** The digits of [toFixed] denote [n / 10^f]. *)
Lemma num_of_fixed_digits neg f n : 0 < f -> 0 <= n ->
  num_of_str ((if neg : bool then [45] else []) ++ fixed_digits f n) = dec_num neg n (- f).
Proof.
  intros Hf Hn. unfold fixed_digits. destruct (Z.eqb_spec f 0); [lia|].
  destruct (dec_digits_spec n Hn) as (d & ds & E & Hd & _ & V). rewrite E.
  set (z := zeros _). set (all := z ++ d :: ds).
  assert (A : Forall (fun c => is_digit c = true) all)
    by (apply Forall_app; split; [apply zeros_digits|done]).
  assert (L : (Z.to_nat f < length all)%nat).
  { unfold all, z, zeros. rewrite length_app, length_replicate. cbn. lia. }
  set (k := (length all - Z.to_nat f)%nat).
  assert (V' : digits_val all = n)
    by (unfold all, z; rewrite digits_val_app, digits_val_zeros, V; lia).
  assert (P : parse_decimal (take k all ++ 46 :: drop k all) = Some (n, - f)).
  { rewrite <- (app_nil_r (drop k all)), (parse_decimal_parts _ _ 0); try done.
    - rewrite take_drop, V', length_drop. unfold k. do 2 f_equal. lia.
    - by apply Forall_take.
    - by apply Forall_drop.
    - destruct all; [cbn in L; lia|]. unfold k.
      destruct (_ - _)%nat eqn:K; [cbn in *; lia|done]. }
  destruct (take k all) as [|a t] eqn:T.
  { destruct all; [cbn in L; lia|]. unfold k in T.
    destruct (_ - _)%nat eqn:K; [cbn in *; lia|done]. }
  assert (At : Forall (fun c => is_digit c = true) (a :: t))
    by (rewrite <- T; by apply Forall_take).
  inversion At as [|? ? Ha Ht]; subst. cbn [app] in *.
  rewrite num_of_str_numeric, parse_unsigned_digit, P by first
    [ done | apply Forall_app; split; [by apply digits_numeric|];
      constructor; [right; tauto | by apply digits_numeric, Forall_drop] ].
  done.
Qed.

(** Reading back [x.toFixed(f)] always gives a finite number. *)
Lemma num_of_to_fixed_finite f x : 0 < f -> valid x -> isFinite x = true ->
  isFinite (num_of_str (to_fixed f x)) = true.
Proof.
  intros Hf V F. unfold to_fixed.
  destruct (num_ratio x) as [[[s p] q]|] eqn:R; [|by destruct x].
  assert (0 <= p /\ 0 < q) as [Hp Hq].
  { destruct x as [| | |b m e]; simplify_eq/=; [lia|].
    pose proof (mag_num_pos (Zpos m) e). pose proof (mag_den_pos e). lia. }
  destruct (Z.leb_spec (q * 10 ^ 21) p) as [B|B].
  - rewrite num_of_str_of_num by done. by destruct x.
  - set (n := (2 * p * 10 ^ f + q) / (2 * q)).
    assert (T : 0 < 10 ^ f) by (apply Z.pow_pos_nonneg; lia).
    assert (0 <= n) by (apply Z.div_pos; nia).
    rewrite num_of_fixed_digits by done. unfold dec_num.
    rewrite Z.max_l, Z.max_r, Z.opp_involutive by lia.
    apply round_ratio_finite; [done|].
    assert (n * (2 * q) <= 2 * p * 10 ^ f + q).
    { rewrite Z.mul_comm. apply Z.mul_div_le. lia. }
    assert (n <= 10 ^ 21 * 10 ^ f) by nia.
    change (10 ^ 0) with 1.
    assert (10 ^ 21 < 2 ^ 1023) by reflexivity. nia.
Qed.

Lemma math_round_valid x : valid x -> valid (math_round x).
Proof. intros V. unfold math_round. repeat case_match; cbn; auto with js_num. Qed.

(** ** Scanning *)

Lemma drop_ws_split s : exists w, s = w ++ drop_ws s /\ Forall (fun c => is_ws c = true) w.
Proof.
  induction s as [|c s (w & E & F)]; [by exists []|]. cbn. destruct (is_ws c) eqn:W.
  - exists (c :: w). split; [cbn; by f_equal|by constructor].
  - by exists [].
Qed.

Lemma span_digits_split s d r : span_digits s = (d, r) ->
  s = d ++ r /\ Forall (fun c => is_digit c = true) d.
Proof.
  revert d r. induction s as [|c s IH]; cbn; intros d r; [by intros [= <- <-]|].
  destruct (is_digit c) eqn:D.
  - destruct (span_digits s) as [d' r'] eqn:S. intros [= <- <-].
    destruct (IH d' r' eq_refl) as [-> F]. split; [done|by constructor].
  - by intros [= <- <-].
Qed.

Lemma digit_not_ws c : is_digit c = true -> is_ws c = false.
Proof. intros. apply numeric_char_not_ws. by left. Qed.

Lemma remove_ws_app a b : remove_ws (a ++ b) = remove_ws a ++ remove_ws b.
Proof. apply filter_app. Qed.

Lemma remove_ws_ws w : Forall (fun c => is_ws c = true) w -> remove_ws w = [].
Proof.
  induction 1 as [|c w Hc _ IH]; [done|]. unfold remove_ws. rewrite filter_cons_False; [done|].
  by rewrite Hc.
Qed.

Lemma remove_ws_id s : Forall (fun c => is_ws c = false) s -> remove_ws s = s.
Proof.
  induction 1 as [|c w Hc _ IH]; [done|]. unfold remove_ws. rewrite filter_cons_True by done.
  f_equal. exact IH.
Qed.

Lemma remove_ws_no_ws s : Forall (fun c => is_ws c = false) (remove_ws s).
Proof. apply Forall_forall. intros c Hc. by apply list_elem_of_filter in Hc as [? _]. Qed.

Lemma remove_ws_idem s : remove_ws (remove_ws s) = remove_ws s.
Proof. apply remove_ws_id, remove_ws_no_ws. Qed.

Lemma remove_ws_digits d : Forall (fun c => is_digit c = true) d -> remove_ws d = d.
Proof. intros H. apply remove_ws_id. eapply Forall_impl; [exact H|apply digit_not_ws]. Qed.

Lemma drop_ws_digits d r : Forall (fun c => is_digit c = true) d -> d <> [] ->
  drop_ws (d ++ r) = d ++ r.
Proof. destruct 1 as [|c d Hc]; [done|]. intros _. cbn. by rewrite (digit_not_ws c Hc). Qed.

(** [parseFloat] of digits, with or without a fraction. *)
Lemma parse_float_digits ip fp : Forall (fun c => is_digit c = true) ip -> ip <> [] ->
  Forall (fun c => is_digit c = true) fp ->
  parse_float (ip ++ 46 :: fp) = dec_num false (digits_val (ip ++ fp)) (- Z.of_nat (length fp)) /\
  parse_float ip = dec_num false (digits_val ip) 0.
Proof.
  intros Hi N Hf. destruct ip as [|d ip]; [done|]. apply Forall_cons in Hi as [D Hi].
  assert (48 <= d <= 57) by (unfold is_digit in D; lia).
  assert (I : Forall (fun c => is_digit c = true) (d :: ip)) by by constructor.
  unfold parse_float. cbn [app drop_ws]. rewrite (digit_not_ws d D).
  destruct (Z.eqb_spec d 45); [lia|]. destruct (Z.eqb_spec d 43); [lia|].
  change (js "Infinity") with (73 :: tail (js "Infinity")). cbn [starts_with].
  destruct (Z.eqb_spec 73 d); [lia|]. cbn [andb]. split.
  - change (d :: ip ++ 46 :: fp) with ((d :: ip) ++ 46 :: fp).
    rewrite span_digits_app by done. cbn [Z.eqb Pos.eqb]. by rewrite span_digits_all.
  - rewrite span_digits_all by done. by rewrite app_nil_r.
Qed.

#[global] Arguments js : simpl never.
#[global] Arguments num_of_str : simpl never.
#[global] Arguments str_of_num : simpl never.
#[global] Arguments to_fixed : simpl never.
#[global] Arguments parse_float : simpl never.
#[global] Arguments dec_digits : simpl never.
#[global] Arguments trim : simpl never.
