(* ===== verification/JsValue.v ===== *)
(** * ECMAScript values

    The dynamic values the program computes with: what [JSON.parse] returns
    and what option maps hold, with the coercions ([Boolean], [String],
    [Number], [||], [??]), property access and the property order of
    ordinary objects.  Property access sees own properties only: keys that
    shadow [Object.prototype] ("constructor", "toString", "__proto__", ...)
    are outside the model. *)

From Stdlib Require Import SpecFloat.
From stdpp Require Import base list numbers strings.
From S2P Require Import Prelude JsNumber JsString.
Local Open Scope Z_scope.

Unset Elimination Schemes.
Inductive jsval :=
  | VUndef
  | VNull
  | VBool (b : bool)
  | VNum (n : spec_float)
  | VStr (s : jsstr)
  | VArr (l : list jsval)
  | VObj (o : list (jsstr * jsval)).
Set Elimination Schemes.

(** Induction through the elements of arrays and objects. *)
Section jsval_ind.
Variable P : jsval -> Prop.
Hypothesis HUndef : P VUndef.
Hypothesis HNull : P VNull.
Hypothesis HBool : forall b, P (VBool b).
Hypothesis HNum : forall n, P (VNum n).
Hypothesis HStr : forall s, P (VStr s).
Hypothesis HArr : forall l, Forall P l -> P (VArr l).
Hypothesis HObj : forall o, Forall (fun kv => P (snd kv)) o -> P (VObj o).

Fixpoint jsval_ind (v : jsval) : P v :=
  match v with
  | VUndef => HUndef
  | VNull => HNull
  | VBool b => HBool b
  | VNum n => HNum n
  | VStr s => HStr s
  | VArr l => HArr l
      ((fix go (l : list jsval) : Forall P l :=
          match l with
          | [] => Forall_nil_2 P
          | x :: r => Forall_cons_2 P x r (jsval_ind x) (go r)
          end) l)
  | VObj o => HObj o
      ((fix go (o : list (jsstr * jsval)) : Forall (fun kv => P (snd kv)) o :=
          match o with
          | [] => Forall_nil_2 _
          | kv :: r => Forall_cons_2 _ kv r (jsval_ind (snd kv)) (go r)
          end) o)
  end.
End jsval_ind.

(** ** Coercions *)

Definition num_truthy (x : spec_float) : bool :=
  match x with S754_nan | S754_zero _ => false | _ => true end.

Definition str_truthy (s : jsstr) : bool := match s with [] => false | _ => true end.

(** [Boolean(v)] *)
Definition truthy (v : jsval) : bool :=
  match v with
  | VUndef | VNull => false
  | VBool b => b
  | VNum x => num_truthy x
  | VStr s => str_truthy s
  | VArr _ | VObj _ => true
  end.

(** [v == null] *)
Definition nullish (v : jsval) : bool :=
  match v with VUndef | VNull => true | _ => false end.

(** [a || b] and [a ?? b] *)
Definition js_or (a b : jsval) : jsval := if truthy a then a else b.
Definition js_nullish_or (a b : jsval) : jsval := if nullish a then b else a.
Infix "|||" := js_or (at level 50, left associativity) : js_scope.
Infix "???" := js_nullish_or (at level 50, left associativity) : js_scope.

(** [s1 || s2] on strings *)
Definition str_or (a b : jsstr) : jsstr := if str_truthy a then a else b.

(** [String(v)] *)
Fixpoint to_str (v : jsval) : jsstr :=
  match v with
  | VUndef => js "undefined"
  | VNull => js "null"
  | VBool b => if b then js "true" else js "false"
  | VNum x => str_of_num x
  | VStr s => s
  | VArr l => join [44] (map (fun v => if nullish v then [] else to_str v) l)
  | VObj _ => js "[object Object]"
  end.

(** [Number(v)] *)
Definition to_num (v : jsval) : spec_float :=
  match v with
  | VUndef => nan
  | VNull => n0
  | VBool b => if b then n1 else n0
  | VNum x => x
  | VStr s => num_of_str s
  | VArr _ => num_of_str (to_str v)
  | VObj _ => nan
  end.

(** [v && typeof v === 'object'] *)
Definition is_obj (v : jsval) : bool :=
  match v with VArr _ | VObj _ => true | _ => false end.

(** [Array.isArray(v)] and [Array.isArray(v) ? v : \[\]] *)
Definition is_arr (v : jsval) : bool := match v with VArr _ => true | _ => false end.
Definition as_arr (v : jsval) : list jsval := match v with VArr l => l | _ => [] end.

(** [v === s] for a string [s] *)
Definition is_str (v : jsval) (s : jsstr) : bool :=
  match v with VStr t => bool_decide (t = s) | _ => false end.

(** [a === b] on strings, numbers and booleans *)
Definition strict_eq (a b : jsval) : bool :=
  match a, b with
  | VUndef, VUndef | VNull, VNull => true
  | VBool x, VBool y => Bool.eqb x y
  | VNum x, VNum y => neqb x y
  | VStr x, VStr y => bool_decide (x = y)
  | _, _ => false
  end.

(** ** Objects *)

(** A canonical array index, which orders before other keys. *)
Definition array_index (k : jsstr) : option Z :=
  match k with
  | [] => None
  | c :: r =>
      if forallb is_digit k && (negb (c =? 48) || bool_decide (r = []))
         && (digits_val k <? 4294967295)
      then Some (digits_val k) else None
  end.

Fixpoint assoc_get {A} (o : list (jsstr * A)) (k : jsstr) : option A :=
  match o with
  | [] => None
  | (k', v) :: r => if bool_decide (k = k') then Some v else assoc_get r k
  end.

Fixpoint assoc_replace {A} (o : list (jsstr * A)) (k : jsstr) (v : A) : list (jsstr * A) :=
  match o with
  | [] => []
  | (k', w) :: r => if bool_decide (k = k') then (k, v) :: r else (k', w) :: assoc_replace r k v
  end.

(** Where a fresh key goes: array indices first, ascending; then the other
    keys in insertion order. *)
Fixpoint assoc_insert {A} (o : list (jsstr * A)) (k : jsstr) (v : A) : list (jsstr * A) :=
  match o with
  | [] => [(k, v)]
  | (k', w) :: r =>
      match array_index k, array_index k' with
      | Some i, Some j => if i <? j then (k, v) :: o else (k', w) :: assoc_insert r k v
      | Some _, None => (k, v) :: o
      | None, _ => (k', w) :: assoc_insert r k v
      end
  end.

(** [o\[k\] = v] *)
Definition assoc_set {A} (o : list (jsstr * A)) (k : jsstr) (v : A) : list (jsstr * A) :=
  match assoc_get o k with
  | Some _ => assoc_replace o k v
  | None => assoc_insert o k v
  end.

(** [{ ...a, ...b }] *)
Definition spread (a b : list (jsstr * jsval)) : list (jsstr * jsval) :=
  fold_left (fun acc kv => assoc_set acc (fst kv) (snd kv)) b
    (fold_left (fun acc kv => assoc_set acc (fst kv) (snd kv)) a []).

(** [delete o\[k\]] *)
Definition assoc_delete {A} (o : list (jsstr * A)) (k : jsstr) : list (jsstr * A) :=
  base.filter (fun kv => fst kv <> k) o.

(** [v?.k] and [v?.\[k\]] *)
Definition vget (v : jsval) (k : jsstr) : jsval :=
  match v with
  | VObj o => default VUndef (assoc_get o k)
  | VArr l =>
      if bool_decide (k = js "length") then VNum (num_of_Z (Z.of_nat (length l)))
      else match array_index k with
           | Some i => default VUndef (l !! Z.to_nat i)
           | None => VUndef
           end
  | VStr s =>
      if bool_decide (k = js "length") then VNum (num_of_Z (Z.of_nat (length s)))
      else match array_index k with
           | Some i => match s !! Z.to_nat i with Some c => VStr [c] | None => VUndef end
           | None => VUndef
           end
  | _ => VUndef
  end.

(** [Object.keys(v)] and [Object.entries(v)] of an object *)
Definition keys_of (v : jsval) : list jsstr :=
  match v with
  | VObj o => map fst o
  | VArr l => map (fun i => dec_digits (Z.of_nat i)) (seq 0 (length l))
  | _ => []
  end.

Definition entries_of (v : jsval) : list (jsstr * jsval) :=
  match v with
  | VObj o => o
  | VArr l => zip_with (fun i v => (dec_digits (Z.of_nat i), v)) (seq 0 (length l)) l
  | _ => []
  end.

(** ** Facts about association lists *)

Section assoc.
Context {A : Type}.
Implicit Types (o : list (jsstr * A)) (k : jsstr) (v : A).

Lemma assoc_get_replace o k v k' : assoc_get o k <> None ->
  assoc_get (assoc_replace o k v) k' = if decide (k' = k) then Some v else assoc_get o k'.
Proof.
  induction o as [|[a w] o IH]; cbn; [done|].
  destruct (decide (k = a)) as [->|Hka].
  - rewrite bool_decide_true by done. intros _. cbn. repeat case_decide; by simplify_eq.
  - rewrite (bool_decide_false (k = a)) by done. intros Hk. cbn.
    rewrite IH by done. repeat case_decide; by simplify_eq.
Qed.

Lemma assoc_get_insert o k v k' : assoc_get o k = None ->
  assoc_get (assoc_insert o k v) k' = if decide (k' = k) then Some v else assoc_get o k'.
Proof.
  induction o as [|[a w] o IH]; cbn.
  - intros _. repeat case_decide; by simplify_eq.
  - case_bool_decide as Hka; [done|]. intros Hk. specialize (IH Hk).
    assert (E : assoc_get ((a, w) :: assoc_insert o k v) k'
                = if decide (k' = k) then Some v else assoc_get ((a, w) :: o) k').
    { cbn. rewrite IH. repeat case_decide; repeat case_bool_decide; by simplify_eq. }
    assert (E' : assoc_get ((k, v) :: (a, w) :: o) k'
                = if decide (k' = k) then Some v else assoc_get ((a, w) :: o) k').
    { cbn. repeat case_decide; repeat case_bool_decide; by simplify_eq. }
    destruct (array_index k) as [i|]; [destruct (array_index a) as [j|]|];
      [destruct (i <? j)|..]; first [exact E | exact E'].
Qed.

Lemma assoc_get_set o k v k' :
  assoc_get (assoc_set o k v) k' = if decide (k' = k) then Some v else assoc_get o k'.
Proof.
  unfold assoc_set. destruct (assoc_get o k) eqn:E.
  - apply assoc_get_replace. by rewrite E.
  - by apply assoc_get_insert.
Qed.

Lemma assoc_get_delete o k k' :
  assoc_get (assoc_delete o k) k' = if decide (k' = k) then None else assoc_get o k'.
Proof.
  unfold assoc_delete. induction o as [|[a w] o IH].
  - cbn. by case_decide.
  - rewrite filter_cons. cbn [fst]. destruct (decide (a <> k)) as [Ha|Ha].
    + cbn. rewrite IH. repeat case_decide; repeat case_bool_decide; by simplify_eq.
    + apply dec_stable in Ha as ->. rewrite IH. cbn.
      repeat case_decide; repeat case_bool_decide; by simplify_eq.
Qed.

Lemma assoc_get_Some_In o k v : assoc_get o k = Some v -> (k, v) ∈ o.
Proof.
  induction o as [|[a w] o IH]; cbn; [done|]. case_bool_decide; intros; simplify_eq.
  - apply list_elem_of_here.
  - apply list_elem_of_further. auto.
Qed.
End assoc.

(** ** Well-formed values: every number inside is a binary64 value *)

Fixpoint wf (v : jsval) : Prop :=
  match v with
  | VNum x => valid x
  | VArr l => fold_right (fun v P => wf v /\ P) True l
  | VObj o => fold_right (fun kv P => wf (snd kv) /\ P) True o
  | _ => True
  end.

Lemma wf_arr l : wf (VArr l) <-> Forall wf l.
Proof.
  cbn. induction l as [|v l IH]; cbn; [split; by constructor|].
  rewrite Forall_cons, IH. done.
Qed.

Lemma wf_obj o : wf (VObj o) <-> Forall (fun kv => wf (snd kv)) o.
Proof.
  cbn. induction o as [|v l IH]; cbn; [split; by constructor|].
  rewrite Forall_cons, IH. done.
Qed.

Lemma to_num_valid v : wf v -> valid (to_num v).
Proof.
  destruct v as [| |[]| | | |]; intros H; try exact I; try exact H;
    first [apply num_of_Z_valid | apply num_of_str_valid].
Qed.

Lemma wf_vget v k : wf v -> wf (vget v k).
Proof.
  destruct v as [| | | |s|l|o]; try done; intros H; cbn.
  - repeat case_match; cbn; auto with js_num.
  - apply wf_arr in H. repeat case_match; cbn; auto with js_num.
    destruct (l !! _) eqn:E; cbn; [|done]. eapply Forall_lookup_1; eauto.
  - apply wf_obj in H. destruct (assoc_get o k) eqn:E; cbn; [|done].
    apply assoc_get_Some_In in E. rewrite Forall_forall in H. by apply (H (k, j)).
Qed.

Lemma wf_as_arr v : wf v -> Forall wf (as_arr v).
Proof. destruct v; try by constructor. apply wf_arr. Qed.

Lemma wf_or a b : wf a -> wf b -> wf (js_or a b).
Proof. unfold js_or. by case_match. Qed.

Lemma wf_nullish_or a b : wf a -> wf b -> wf (js_nullish_or a b).
Proof. unfold js_nullish_or. by case_match. Qed.

#[export] Hint Resolve to_num_valid wf_vget wf_or wf_nullish_or : js_num.
