(* ===== verification/JsJson.v ===== *)
(** * JSON text

    [JSON.parse] and [JSON.stringify] on the values of [JsValue].  A syntax
    error is [None].  The parser recurses on fuel; [parse_fuel_enough] shows
    that the fuel [JSON_parse] gives never runs out.  The round trip
    [JSON_parse_stringify] is what makes saved options readable again. *)

From Stdlib Require Import SpecFloat Sorted Wf_nat.
From stdpp Require Import base list numbers strings.
From S2P Require Import Prelude JsNumber JsString JsValue.
Local Open Scope Z_scope.

(** ** Parsing *)

Definition json_ws (c : Z) : bool := (c =? 9) || (c =? 10) || (c =? 13) || (c =? 32).

Fixpoint skip_ws (s : jsstr) : jsstr :=
  match s with c :: r => if json_ws c then skip_ws r else s | [] => [] end.

(** The character [c] after white space. *)
Definition expect (c : Z) (s : jsstr) : option jsstr :=
  match skip_ws s with x :: r => if x =? c then Some r else None | [] => None end.

(** What an escaped character stands for. *)
Definition unescape (c : Z) : option Z :=
  if (c =? 34) || (c =? 92) || (c =? 47) then Some c
  else if c =? 98 then Some 8
  else if c =? 102 then Some 12
  else if c =? 110 then Some 10
  else if c =? 114 then Some 13
  else if c =? 116 then Some 9
  else None.

(** The rest of a string literal, after its opening quote. *)
Fixpoint parse_string (s : jsstr) : option (jsstr * jsstr) :=
  match s with
  | [] => None
  | c :: r =>
      if c =? 34 then Some ([], r)
      else if c =? 92 then
        match r with
        | [] => None
        | e :: r =>
            if e =? 117 then
              match r with
              | h1 :: h2 :: h3 :: h4 :: r =>
                  match radix_val 16 0 [h1; h2; h3; h4] with
                  | Some u => prod_map (cons u) id <$> parse_string r
                  | None => None
                  end
              | _ => None
              end
            else match unescape e with
                 | Some u => prod_map (cons u) id <$> parse_string r
                 | None => None
                 end
        end
      else if c <? 32 then None
      else prod_map (cons c) id <$> parse_string r
  end.

Definition number_char (c : Z) : bool :=
  is_digit c || (c =? 43) || (c =? 45) || (c =? 46) || (c =? 69) || (c =? 101).

Fixpoint span_number (s : jsstr) : jsstr * jsstr :=
  match s with
  | c :: r => if number_char c then let '(d, r') := span_number r in (c :: d, r') else ([], s)
  | [] => ([], [])
  end.

Definition json_exponent (s : jsstr) : bool :=
  match s with
  | [] => true
  | c :: r =>
      ((c =? 69) || (c =? 101))
      && let r := match r with x :: r' => if (x =? 43) || (x =? 45) then r' else r | [] => [] end in
         match span_digits r with (_ :: _, []) => true | _ => false end
  end.

Definition json_fraction (s : jsstr) : bool :=
  match s with
  | c :: r =>
      if c =? 46 then
        match span_digits r with (_ :: _, r') => json_exponent r' | _ => false end
      else json_exponent s
  | [] => true
  end.

(** The number grammar, on a whole token. *)
Definition json_number (s : jsstr) : bool :=
  let s := match s with c :: r => if c =? 45 then r else s | [] => [] end in
  match span_digits s with
  | (d :: ds, r) => (negb (d =? 48) || bool_decide (ds = [])) && json_fraction r
  | _ => false
  end.

Definition keyword (w : jsstr) (v : jsval) (s : jsstr) : option (jsval * jsstr) :=
  if starts_with w s then Some (v, drop (length w) s) else None.

Fixpoint parse_value (fuel : nat) (s : jsstr) : option (jsval * jsstr) :=
  match fuel with
  | O => None
  | S f =>
      match skip_ws s with
      | [] => None
      | c :: r =>
          if c =? 34 then prod_map VStr id <$> parse_string r
          else if c =? 91 then
            match expect 93 r with
            | Some r' => Some (VArr [], r')
            | None => prod_map VArr id <$> parse_elements f r
            end
          else if c =? 123 then
            match expect 125 r with
            | Some r' => Some (VObj [], r')
            | None => prod_map VObj id <$> parse_members f [] r
            end
          else if (c =? 45) || is_digit c then
            let '(tok, r') := span_number (c :: r) in
            if json_number tok then Some (VNum (num_of_str tok), r') else None
          else if c =? 116 then keyword (js "true") (VBool true) (c :: r)
          else if c =? 102 then keyword (js "false") (VBool false) (c :: r)
          else if c =? 110 then keyword (js "null") VNull (c :: r)
          else None
      end
  end
with parse_elements (fuel : nat) (s : jsstr) : option (list jsval * jsstr) :=
  match fuel with
  | O => None
  | S f =>
      match parse_value f s with
      | None => None
      | Some (v, r) =>
          match skip_ws r with
          | [] => None
          | c :: r' =>
              if c =? 44 then prod_map (cons v) id <$> parse_elements f r'
              else if c =? 93 then Some ([v], r') else None
          end
      end
  end
with parse_members (fuel : nat) (acc : list (jsstr * jsval)) (s : jsstr)
    : option (list (jsstr * jsval) * jsstr) :=
  match fuel with
  | O => None
  | S f =>
      match expect 34 s ≫= parse_string with
      | None => None
      | Some (k, r) =>
          match expect 58 r ≫= parse_value f with
          | None => None
          | Some (v, r) =>
              let acc := assoc_set acc k v in
              match skip_ws r with
              | [] => None
              | c :: r' =>
                  if c =? 44 then parse_members f acc r'
                  else if c =? 125 then Some (acc, r') else None
              end
          end
      end
  end.

Definition json_fuel (s : jsstr) : nat := S (2 * length s).

(** [JSON.parse(s)]; [None] is a [SyntaxError]. *)
Definition JSON_parse (s : jsstr) : option jsval :=
  match parse_value (json_fuel s) s with
  | Some (v, r) => match skip_ws r with [] => Some v | _ => None end
  | None => None
  end.

(** ** Printing *)

Definition hex_char (n : Z) : Z := if n <? 10 then 48 + n else 87 + n.
Definition unicode_escape (c : Z) : jsstr :=
  [92; 117; hex_char (c / 4096); hex_char (c / 256 mod 16); hex_char (c / 16 mod 16);
   hex_char (c mod 16)].

Definition quote_char (c : Z) : jsstr :=
  if c =? 8 then [92; 98]
  else if c =? 9 then [92; 116]
  else if c =? 10 then [92; 110]
  else if c =? 12 then [92; 102]
  else if c =? 13 then [92; 114]
  else if c =? 34 then [92; 34]
  else if c =? 92 then [92; 92]
  else if c <? 32 then unicode_escape c
  else [c].

Definition high_surrogate (c : Z) : bool := (55296 <=? c) && (c <=? 56319).
Definition low_surrogate (c : Z) : bool := (56320 <=? c) && (c <=? 57343).

(** A surrogate outside a pair is escaped. *)
Fixpoint quote_body (s : jsstr) : jsstr :=
  match s with
  | [] => []
  | c :: r =>
      if high_surrogate c then
        match r with
        | d :: r' => if low_surrogate d then c :: d :: quote_body r'
                     else unicode_escape c ++ quote_body r
        | [] => unicode_escape c
        end
      else if low_surrogate c then unicode_escape c ++ quote_body r
      else quote_char c ++ quote_body r
  end.

Definition quote (s : jsstr) : jsstr := 34 :: quote_body s ++ [34].

Section Stringify.
(** The width of one level of indentation; 0 prints on one line. *)
Variable gap : nat.

Definition newline (indent : nat) : jsstr :=
  match gap with O => [] | _ => 10 :: replicate indent 32 end.

Definition bracket (indent : nat) (left right : Z) (parts : list jsstr) : jsstr :=
  match parts with
  | [] => [left; right]
  | _ => left :: newline (indent + gap) ++ join (44 :: newline (indent + gap)) parts
           ++ newline indent ++ [right]
  end.

Definition member (k t : jsstr) : jsstr :=
  quote k ++ 58 :: match gap with O => [] | _ => [32] end ++ t.

Fixpoint stringify_at (indent : nat) (v : jsval) : option jsstr :=
  match v with
  | VUndef => None
  | VNull => Some (js "null")
  | VBool b => Some (if b then js "true" else js "false")
  | VNum x => Some (if isFinite x then str_of_num x else js "null")
  | VStr s => Some (quote s)
  | VArr l =>
      Some (bracket indent 91 93
        (map (fun v => default (js "null") (stringify_at (indent + gap) v)) l))
  | VObj o =>
      Some (bracket indent 123 125
        (omap id (map (fun kv => member (fst kv) <$> stringify_at (indent + gap) (snd kv)) o)))
  end.
End Stringify.

(** [JSON.stringify(v, null, gap)]; [None] is [undefined]. *)
Definition JSON_stringify (gap : nat) (v : jsval) : option jsstr := stringify_at gap 0 v.

(** ** The fuel suffices *)

Lemma skip_ws_length s : (length (skip_ws s) <= length s)%nat.
Proof. induction s as [|c s IH]; cbn; [lia|]. case_match; cbn; lia. Qed.

Lemma expect_length c s r : expect c s = Some r -> (length r < length s)%nat.
Proof.
  unfold expect. pose proof (skip_ws_length s). destruct (skip_ws s); [done|].
  case_match; [|done]. intros [= <-]. cbn in *. lia.
Qed.

Lemma parse_string_length s x r : parse_string s = Some (x, r) -> (length r < length s)%nat.
Proof.
  revert x. induction s as [s IH] using (induction_ltof1 _ (@length Z)); intros x E.
  unfold ltof in IH. destruct s as [|c s]; [done|]. cbn in E.
  assert (P : forall (u : Z) t, (length t < length (c :: s))%nat ->
    prod_map (cons u) id <$> parse_string t = Some (x, r) -> (length r < length (c :: s))%nat).
  { intros u t L X. apply fmap_Some in X as ([x' r'] & X & Y). cbn in Y. injection Y as _ ->.
    apply IH in X; lia. }
  repeat case_match; simplify_eq; try (eapply P; [|exact E]); cbn; lia.
Qed.

Lemma span_number_length s d r : span_number s = (d, r) -> (length d + length r = length s)%nat.
Proof.
  revert d r. induction s as [|c s IH]; intros d r; cbn; [by intros [= <- <-]|].
  case_match; [|by intros [= <- <-]]. destruct (span_number s) as [d' r'].
  intros [= <- <-]. cbn. by rewrite (IH d' r').
Qed.

Lemma parse_lengths f :
  (forall s v r, parse_value f s = Some (v, r) -> (length r < length s)%nat) /\
  (forall s v r, parse_elements f s = Some (v, r) -> (length r < length s)%nat) /\
  (forall acc s v r, parse_members f acc s = Some (v, r) -> (length r < length s)%nat).
Proof.
  induction f as [|f (IV & IE & IM)]; [done|]. split_and!.
  - intros s v r. cbn [parse_value]. pose proof (skip_ws_length s) as L.
    destruct (skip_ws s) as [|c t]; [done|]. cbn [length] in L.
    assert (K : forall w u, keyword w u (c :: t) = Some (v, r) -> (0 < length w)%nat ->
      (length r < length s)%nat).
    { intros w u. unfold keyword. case_match; [|done]. intros [= _ <-].
      rewrite length_drop. cbn. lia. }
    repeat case_match; intros X; simplify_eq; try lia;
      repeat match goal with
      | H : _ <$> _ = Some _ |- _ => apply fmap_Some in H as ([] & H & Y); cbn in Y; simplify_eq
      | H : parse_string _ = Some _ |- _ => apply parse_string_length in H
      | H : parse_elements _ _ = Some _ |- _ => apply IE in H
      | H : parse_members _ _ _ = Some _ |- _ => apply IM in H
      | H : expect _ _ = Some _ |- _ => apply expect_length in H
      | H : span_number _ = (?d, _) |- _ =>
          apply span_number_length in H; destruct d; [done|]; cbn [length] in H
      end; try lia; (eapply K; [exact X|vm_compute; lia]).
  - intros s v r. cbn. destruct (parse_value f s) as [[u t]|] eqn:V; [|done].
    apply IV in V. pose proof (skip_ws_length t) as L. destruct (skip_ws t) as [|c t']; [done|].
    cbn in L. repeat case_match; intros X; simplify_eq; try lia.
    apply fmap_Some in X as ([] & X & Y). cbn in Y. simplify_eq. apply IE in X. lia.
  - intros acc s v r. cbn. destruct (expect 34 s ≫= parse_string) as [[k t]|] eqn:K; [|done].
    apply bind_Some in K as (t1 & E1 & K). apply expect_length in E1.
    apply parse_string_length in K.
    destruct (expect 58 t ≫= parse_value f) as [[u t2]|] eqn:V; [|done].
    apply bind_Some in V as (t3 & E2 & V). apply expect_length in E2. apply IV in V.
    pose proof (skip_ws_length t2) as L. destruct (skip_ws t2) as [|c t']; [done|]. cbn in L.
    repeat case_match; intros X; simplify_eq; try lia. apply IM in X. lia.
Qed.

Lemma parse_fuel f : forall f',
  (forall s, (2 * length s < f)%nat -> (2 * length s < f')%nat ->
     parse_value f s = parse_value f' s) /\
  (forall s, (2 * length s + 1 < f)%nat -> (2 * length s + 1 < f')%nat ->
     parse_elements f s = parse_elements f' s) /\
  (forall acc s, (2 * length s + 1 < f)%nat -> (2 * length s + 1 < f')%nat ->
     parse_members f acc s = parse_members f' acc s).
Proof.
  induction f as [|f IH]; intros f'; [split_and!; intros; lia|].
  destruct f' as [|f']; [split_and!; intros; lia|].
  destruct (IH f') as (IV & IE & IM). split_and!.
  - intros s L1 L2. cbn. pose proof (skip_ws_length s) as L.
    destruct (skip_ws s) as [|c t]; [done|]. cbn in L.
    rewrite IE, IM by lia. done.
  - intros s L1 L2. cbn. rewrite IV by lia.
    destruct (parse_value f' s) as [[u t]|] eqn:V; [|done]. apply parse_lengths in V.
    pose proof (skip_ws_length t) as L. destruct (skip_ws t) as [|c t']; [done|]. cbn in L.
    rewrite IE by lia. done.
  - intros acc s L1 L2. cbn. destruct (expect 34 s ≫= parse_string) as [[k t]|] eqn:K; [|done].
    apply bind_Some in K as (t1 & E1 & K). apply expect_length in E1.
    apply parse_string_length in K.
    destruct (expect 58 t) as [t2|] eqn:E2; [|done]. apply expect_length in E2. cbn.
    rewrite IV by lia. destruct (parse_value f' t2) as [[u t3]|] eqn:V; [|done].
    apply parse_lengths in V.
    pose proof (skip_ws_length t3) as L. destruct (skip_ws t3) as [|c t']; [done|]. cbn in L.
    rewrite IM by lia. done.
Qed.

(** More fuel than [json_fuel] gives the same result. *)
Lemma parse_fuel_enough f s : (json_fuel s <= f)%nat ->
  parse_value f s = parse_value (json_fuel s) s.
Proof. intros L. apply parse_fuel; unfold json_fuel in *; lia. Qed.

(** ** Numbers and strings read back *)

Lemma json_exponent_print x : json_exponent (print_exponent x) = true.
Proof.
  destruct (dec_digits_spec (Z.abs x) ltac:(lia)) as (d & ds & E & Hd & _).
  unfold print_exponent, json_exponent. rewrite E.
  assert (X : (if x <? 0 then 45 else 43) = 43 \/ (if x <? 0 then 45 else 43) = 45)
    by (destruct (x <? 0); tauto).
  destruct X as [-> | ->]; cbn [Z.eqb Pos.eqb orb andb];
    rewrite (span_digits_all (d :: ds)) by done; done.
Qed.

Lemma json_fraction_digits ds r :
  Forall (fun c => is_digit c = true) ds -> ds <> [] ->
  match r with [] => True | c :: _ => is_digit c = false end ->
  json_exponent r = true -> json_fraction (46 :: ds ++ r) = true.
Proof.
  intros D N R E. unfold json_fraction. cbn [Z.eqb Pos.eqb].
  rewrite span_digits_app by done. by destruct ds.
Qed.

Lemma json_exponent_fraction x : json_fraction (print_exponent x) = true.
Proof. rewrite <- (json_exponent_print x). done. Qed.

(** The integer part of a number token. *)
Lemma json_number_digits d ds r :
  Forall (fun c => is_digit c = true) (d :: ds) -> d <> 48 \/ ds = [] ->
  match r with [] => True | c :: _ => is_digit c = false end ->
  json_fraction r = true -> json_number ((d :: ds) ++ r) = true.
Proof.
  intros D N R E. unfold json_number. cbn [app].
  assert ((d =? 45) = false) as ->.
  { apply Forall_inv in D. unfold is_digit in D. lia. }
  change (d :: ds ++ r) with ((d :: ds) ++ r). rewrite span_digits_app, E by done.
  rewrite andb_true_r, orb_true_iff, negb_true_iff, Z.eqb_neq, bool_decide_eq_true. done.
Qed.

Lemma json_number_print c x : 0 < c -> json_number (print_decimal c x) = true.
Proof.
  intros Hc. unfold print_decimal.
  destruct (dec_digits_spec c ltac:(lia)) as (d & ds & E & Hd & N & _). rewrite E.
  specialize (N Hc). set (k := Z.of_nat (length (d :: ds))).
  case_match eqn:C1.
  { rewrite <- (app_nil_r (_ ++ _)). apply json_number_digits; [|by left|done|done].
    apply (Forall_app_2 _ (d :: ds)); [done|apply zeros_digits]. }
  case_match eqn:C2.
  { destruct (Z.to_nat (k + x)) as [|n] eqn:T; [lia|]. cbn [take drop].
    change (json_number ((d :: take n ds) ++ 46 :: drop n ds) = true).
    apply Forall_cons_1 in Hd as [Hd Hds].
    apply json_number_digits; [constructor; [done|by apply Forall_take]|by left|done|].
    rewrite <- (app_nil_r (drop n ds)). apply json_fraction_digits; try done.
    - by apply Forall_drop.
    - intros X. apply (f_equal length) in X. rewrite length_drop in X.
      unfold k in *. cbn [length] in *. lia. }
  case_match eqn:C3.
  { change (json_number ([48] ++ 46 :: zeros (- (k + x)) ++ d :: ds) = true).
    apply json_number_digits; [by repeat constructor|by right|done|].
    rewrite <- (app_nil_r (d :: ds)), app_assoc.
    apply json_fraction_digits; try done.
    - apply Forall_app. split; [apply zeros_digits|done].
    - intros X. apply app_nil in X as [_ X]. done. }
  apply Forall_cons_1 in Hd as [Hd Hds].
  destruct ds as [|d' ds].
  - apply (json_number_digits d []); [by repeat constructor|by right|done|].
    apply json_exponent_fraction.
  - apply (json_number_digits d []); [by repeat constructor|by right|done|].
    apply (json_fraction_digits (d' :: ds)); try done. apply json_exponent_print.
Qed.

Lemma numeric_char_number c : numeric_char c -> number_char c = true.
Proof. unfold numeric_char, number_char. by intros [-> | [-> | [-> | [-> | ->]]]]. Qed.

(** The token printed for a finite number. *)
Lemma str_of_num_token x : valid x -> isFinite x = true ->
  json_number (str_of_num x) = true /\
  Forall (fun c => number_char c = true) (str_of_num x) /\
  exists c r, str_of_num x = c :: r /\ ((c =? 45) || is_digit c) = true.
Proof.
  destruct x as [s| | |s m e]; try done; intros V _.
  { split_and!; [done|by repeat constructor|eauto]. }
  unfold str_of_num.
  pose proof (num_decimal_spec s m e V) as P. destruct (num_decimal (Z.pos m) e) as [c x].
  destruct P as [_ P].
  pose proof (json_number_print c x P) as J.
  destruct (print_decimal_shape c x P) as (d & r & E & D & R). rewrite E in *.
  assert (F : Forall (fun c => number_char c = true) (d :: r)).
  { constructor; [by apply numeric_char_number; left|].
    eapply Forall_impl; [exact R|]. apply numeric_char_number. }
  destruct s; cbn [app].
  - split_and!; [|by constructor|eauto]. unfold json_number in *. cbn [Z.eqb Pos.eqb].
    assert (X : (d =? 45) = false) by (unfold is_digit in D; lia). by rewrite X in J.
  - split_and!; [done|done|]. eexists _, _. split; [done|]. by rewrite D, orb_true_r.
Qed.

(** What may follow a number: anything that does not continue it. *)
Definition no_number (r : jsstr) : Prop :=
  match r with [] => True | c :: _ => number_char c = false end.

Lemma span_number_app d r :
  Forall (fun c => number_char c = true) d -> no_number r -> span_number (d ++ r) = (d, r).
Proof.
  intros D R. induction D as [|c d Hc D IH]; cbn.
  - destruct r as [|c r]; [done|]. cbn in *. by rewrite R.
  - by rewrite Hc, IH.
Qed.

Definition code_unit (c : Z) : Prop := 0 <= c < 65536.
Definition str_ok (s : jsstr) : Prop := Forall code_unit s.

Lemma hex_char_digit n : 0 <= n < 16 -> hex_digit (hex_char n) = Some n.
Proof.
  intros H. assert (E : Forall (fun n => hex_digit (hex_char n) = Some n)
    [0;1;2;3;4;5;6;7;8;9;10;11;12;13;14;15]) by by repeat constructor.
  rewrite Forall_forall in E. apply E. apply list_elem_of_In. cbn. lia.
Qed.

Lemma parse_unicode_escape c s : code_unit c ->
  parse_string (unicode_escape c ++ s) = prod_map (cons c) id <$> parse_string s.
Proof.
  intros [L U].
  assert (E : radix_val 16 0 [hex_char (c / 4096); hex_char (c / 256 mod 16);
                              hex_char (c / 16 mod 16); hex_char (c mod 16)] = Some c).
  { cbn [radix_val]. rewrite !hex_char_digit by (Z.to_euclidean_division_equations; lia).
    repeat match goal with |- context [?a <? 16] =>
      assert ((a <? 16) = true) as -> by (Z.to_euclidean_division_equations; lia) end.
    f_equal. Z.to_euclidean_division_equations; lia. }
  unfold unicode_escape. cbn [app parse_string Z.eqb Pos.eqb]. by rewrite E.
Qed.

Lemma parse_quote_char c s : code_unit c -> high_surrogate c = false ->
  parse_string (quote_char c ++ s) = prod_map (cons c) id <$> parse_string s.
Proof.
  intros C _. unfold quote_char.
  repeat match goal with |- context [if ?a =? ?b then _ else _] =>
    destruct (Z.eqb_spec a b); [subst; done|] end.
  destruct (Z.ltb_spec c 32); [by apply parse_unicode_escape|].
  cbn [app parse_string].
  destruct (Z.eqb_spec c 34); [done|]. destruct (Z.eqb_spec c 92); [done|].
  destruct (Z.ltb_spec c 32); [lia|]. done.
Qed.

Lemma parse_plain_char c s : 32 <= c -> c <> 34 -> c <> 92 ->
  parse_string (c :: s) = prod_map (cons c) id <$> parse_string s.
Proof.
  intros L N1 N2. cbn [parse_string]. destruct (Z.eqb_spec c 34); [done|].
  destruct (Z.eqb_spec c 92); [done|]. destruct (Z.ltb_spec c 32); [lia|]. done.
Qed.

Lemma parse_quote_body s rest : str_ok s ->
  parse_string (quote_body s ++ 34 :: rest) = Some (s, rest).
Proof.
  induction s as [s IH] using (induction_ltof1 _ (@length Z)). unfold ltof in IH. intros S.
  destruct s as [|c s]; [done|]. apply Forall_cons_1 in S as [C S]. cbn [quote_body].
  destruct (high_surrogate c) eqn:Hc.
  - destruct s as [|d s]; [rewrite parse_unicode_escape by done; done|].
    destruct (low_surrogate d) eqn:D.
    + apply Forall_cons_1 in S as [_ S]. unfold high_surrogate, low_surrogate in *.
      cbn [app]. rewrite !parse_plain_char by lia. rewrite IH by (trivial; cbn; lia). done.
    + rewrite <- app_assoc, parse_unicode_escape by done. rewrite IH by (trivial; cbn; lia). done.
  - destruct (low_surrogate c).
    + rewrite <- app_assoc, parse_unicode_escape, IH by (trivial; cbn; lia). done.
    + rewrite <- app_assoc, parse_quote_char, IH by (trivial; cbn; lia). done.
Qed.

(** ** Values read back *)

(** The property order of an ordinary object: array indices ascending, then
    the other keys. *)
Definition key_before (k k' : jsstr) : Prop :=
  k <> k' /\
  match array_index k, array_index k' with
  | Some i, Some j => i <= j
  | None, Some _ => False
  | _, None => True
  end.

Definition canonical_keys (ks : list jsstr) : Prop := StronglySorted key_before ks.

(** The values JSON text can hold: no [undefined], finite numbers other than
    negative zero, and objects in property order. *)
Fixpoint json_ok (v : jsval) : Prop :=
  match v with
  | VUndef => False
  | VNull | VBool _ => True
  | VNum x => valid x /\ isFinite x = true /\ x <> S754_zero true
  | VStr s => str_ok s
  | VArr l => fold_right (fun v P => json_ok v /\ P) True l
  | VObj o =>
      canonical_keys (map fst o) /\
      fold_right (fun kv P => (str_ok (fst kv) /\ json_ok (snd kv)) /\ P) True o
  end.

Lemma fold_right_Forall {A} (P : A -> Prop) l :
  fold_right (fun x Q => P x /\ Q) True l <-> Forall P l.
Proof. induction l as [|x l IH]; cbn; [by rewrite Forall_nil|]. by rewrite Forall_cons, IH. Qed.

Lemma json_ok_arr l : json_ok (VArr l) <-> Forall json_ok l.
Proof. apply fold_right_Forall. Qed.

Lemma json_ok_obj o :
  json_ok (VObj o) <->
  canonical_keys (map fst o) /\ Forall (fun kv => str_ok (fst kv) /\ json_ok (snd kv)) o.
Proof. cbn [json_ok]. by rewrite (fold_right_Forall (fun kv => str_ok kv.1 /\ json_ok kv.2)). Qed.

Lemma assoc_set_snoc {A} (o : list (jsstr * A)) k v :
  Forall (fun kv => key_before (fst kv) k) o -> assoc_set o k v = o ++ [(k, v)].
Proof.
  intros F. unfold assoc_set.
  assert (assoc_get o k = None) as ->.
  { induction F as [|[k' w] o [N _] F IH]; cbn; [done|]. rewrite bool_decide_false; [done|].
    cbn in N. congruence. }
  induction F as [|[k' w] o [_ N] F IH]; cbn; [done|]. cbn in N.
  destruct (array_index k) as [i|], (array_index k') as [j|]; try done; try by rewrite IH.
  destruct (Z.ltb_spec i j); [lia|]. by rewrite IH.
Qed.

Lemma canonical_set_snoc {A} (acc : list (jsstr * A)) k v o :
  canonical_keys (map fst (acc ++ (k, v) :: o)) -> assoc_set acc k v = acc ++ [(k, v)].
Proof.
  rewrite map_app. unfold canonical_keys. intros C. apply assoc_set_snoc. revert C.
  induction acc as [|[k' v'] acc IH]; [constructor|]. cbn. intros C.
  inversion C as [|? ? C' D]; subst. constructor; [|auto].
  apply Forall_app in D as [_ D]. by apply Forall_inv in D.
Qed.

(** Setting and deleting properties keep the property order. *)
Section PropertyOrder.
Context {A : Type}.
Implicit Types (o : list (jsstr * A)) (k : jsstr) (v : A).

Lemma assoc_get_None_fresh o k : assoc_get o k = None -> k ∉ map fst o.
Proof.
  induction o as [|[a w] o IH]; cbn; [by intros _ ?%not_elem_of_nil|].
  case_bool_decide; [done|]. intros N [?|?]%elem_of_cons; [done|]. by apply IH.
Qed.

Lemma assoc_insert_Forall (P : jsstr * A -> Prop) o k v :
  P (k, v) -> Forall P o -> Forall P (assoc_insert o k v).
Proof.
  intros K F. induction F as [|[a w] o Pa F IH]; cbn; [by repeat constructor|].
  repeat case_match; repeat constructor; auto.
Qed.

Lemma assoc_replace_keys o k v : map fst (assoc_replace o k v) = map fst o.
Proof. induction o as [|[a w] o IH]; cbn; [done|]. case_bool_decide; cbn; congruence. Qed.

Lemma assoc_replace_Forall (P : jsstr * A -> Prop) o k v :
  P (k, v) -> Forall P o -> Forall P (assoc_replace o k v).
Proof.
  intros K F. induction F as [|[a w] o Pa F IH]; cbn; [constructor|].
  case_bool_decide; by constructor.
Qed.

Lemma assoc_set_Forall (P : jsstr * A -> Prop) o k v :
  P (k, v) -> Forall P o -> Forall P (assoc_set o k v).
Proof.
  intros. unfold assoc_set. case_match; [by apply assoc_replace_Forall|by apply assoc_insert_Forall].
Qed.

Lemma assoc_delete_Forall (P : jsstr * A -> Prop) o k : Forall P o -> Forall P (assoc_delete o k).
Proof. intros F. apply Forall_forall. intros x [_ ?]%list_elem_of_filter. by eapply Forall_forall in F. Qed.

Lemma assoc_insert_canonical o k v :
  k ∉ map fst o -> canonical_keys (map fst o) -> canonical_keys (map fst (assoc_insert o k v)).
Proof.
  induction o as [|[a w] o IH]; cbn; intros N C; [by repeat constructor|].
  apply not_elem_of_cons in N as [Na N]. inversion C as [|? ? C' F]; subst.
  assert (S : key_before a k -> canonical_keys (a :: map fst (assoc_insert o k v))).
  { intros Ba. constructor; [by apply IH|]. apply Forall_map, assoc_insert_Forall; [done|].
    by rewrite Forall_map in F. }
  assert (Fr : key_before k a -> canonical_keys (k :: a :: map fst o)).
  { intros Bk. constructor; [done|]. constructor; [done|]. rewrite Forall_forall in F |- *.
    intros x X. specialize (F x X) as [_ Fx]. destruct Bk as [_ Bk].
    split; [by intros ->|]. repeat case_match; done || lia. }
  unfold key_before in S, Fr. destruct (array_index k) as [i|], (array_index a) as [j|];
    try destruct (Z.ltb_spec i j); first [apply S | apply Fr]; done || (split; [done|lia]).
Qed.

Lemma assoc_set_canonical o k v :
  canonical_keys (map fst o) -> canonical_keys (map fst (assoc_set o k v)).
Proof.
  intros C. unfold assoc_set. destruct (assoc_get o k) eqn:E; [by rewrite assoc_replace_keys|].
  by apply assoc_insert_canonical; [apply assoc_get_None_fresh|].
Qed.

Lemma assoc_delete_canonical o k :
  canonical_keys (map fst o) -> canonical_keys (map fst (assoc_delete o k)).
Proof.
  unfold assoc_delete. induction o as [|[a w] o IH]; [done|]. intros C.
  inversion C as [|? ? C' F]; subst. rewrite filter_cons. case_decide; [|by apply IH].
  cbn. constructor; [by apply IH|]. rewrite Forall_map in F |- *.
  by apply (assoc_delete_Forall (fun kv => key_before a (fst kv))).
Qed.
End PropertyOrder.

Lemma canonical_NoDup ks : canonical_keys ks -> NoDup ks.
Proof.
  induction 1 as [|k ks S IH F]; constructor; [|done]. intros I. rewrite Forall_forall in F.
  by destruct (F k I).
Qed.

Lemma json_ok_assoc_set o k v : json_ok (VObj o) -> str_ok k -> json_ok v -> json_ok (VObj (assoc_set o k v)).
Proof.
  rewrite !json_ok_obj. intros [C F] K V. split; [by apply assoc_set_canonical|by apply assoc_set_Forall].
Qed.

Definition all_ws (w : jsstr) : Prop := Forall (fun c => json_ws c = true) w.

Lemma skip_ws_app w s : all_ws w -> skip_ws (w ++ s) = skip_ws s.
Proof. induction 1 as [|c w C _ IH]; cbn; [done|]. by rewrite C. Qed.

Lemma parse_value_ws f w s : all_ws w -> parse_value f (w ++ s) = parse_value f s.
Proof. intros W. destruct f; [done|]. cbn [parse_value]. by rewrite skip_ws_app. Qed.

Lemma parse_elements_ws f w s : all_ws w -> parse_elements f (w ++ s) = parse_elements f s.
Proof. intros W. destruct f; [done|]. cbn [parse_elements]. by rewrite parse_value_ws. Qed.

Lemma expect_ws c w s : all_ws w -> expect c (w ++ s) = expect c s.
Proof. intros W. unfold expect. by rewrite skip_ws_app. Qed.

Lemma parse_members_ws f acc w s : all_ws w ->
  parse_members f acc (w ++ s) = parse_members f acc s.
Proof. intros W. destruct f; [done|]. cbn [parse_members]. by rewrite expect_ws. Qed.

Lemma all_ws_no_number w c r : all_ws w -> number_char c = false -> no_number (w ++ c :: r).
Proof.
  intros W C. destruct W as [|x w X _]; cbn; [done|].
  unfold json_ws, number_char, is_digit in *. lia.
Qed.

Section RoundTrip.
Variable gap : nat.

Lemma newline_ws n : all_ws (newline gap n).
Proof.
  unfold newline, all_ws. destruct gap; constructor; [done|]. by apply Forall_replicate.
Qed.

Definition print (indent : nat) (v : jsval) : jsstr :=
  default [] (stringify_at gap indent v).

Lemma stringify_print indent v : json_ok v -> stringify_at gap indent v = Some (print indent v).
Proof. unfold print. by destruct v. Qed.

Lemma print_arr indent l : Forall json_ok l ->
  print indent (VArr l) = bracket gap indent 91 93 (map (print (indent + gap)) l).
Proof.
  intros F. unfold print at 1. cbn. f_equal. apply map_ext_in. intros v Hv.
  apply list_elem_of_In in Hv. rewrite Forall_forall in F. by rewrite stringify_print by auto.
Qed.

Definition print_member (indent : nat) (kv : jsstr * jsval) : jsstr :=
  member gap (fst kv) (print indent (snd kv)).

Lemma print_obj indent o : Forall (fun kv => str_ok (fst kv) /\ json_ok (snd kv)) o ->
  print indent (VObj o) = bracket gap indent 123 125 (map (print_member (indent + gap)) o).
Proof.
  intros F. unfold print at 1. cbn [stringify_at from_option id]. f_equal.
  induction F as [|[k v] o [K V] _ IH]; [done|]. cbn [map omap list_omap fst snd].
  rewrite stringify_print by done. cbn. by f_equal.
Qed.

Lemma print_head indent v : json_ok v ->
  exists c r, print indent v = c :: r /\ json_ws c = false /\ c <> 93.
Proof.
  destruct v as [| |[]|x|s|l|o]; intros O; try done; try by eexists _, _.
  - destruct O as (V & F & _). unfold print. cbn. rewrite F.
    destruct (str_of_num_token x V F) as (_ & _ & c & r & -> & C). exists c, r.
    unfold json_ws, is_digit in *. split; [done|]. lia.
  - unfold print. cbn [stringify_at from_option id]. unfold bracket.
    destruct (map _ _); by eexists _, _.
  - unfold print. cbn [stringify_at from_option id]. unfold bracket.
    destruct (omap _ _); by eexists _, _.
Qed.

(** Fuel for a value and for a list of values. *)
Fixpoint vsize (v : jsval) : nat :=
  match v with
  | VArr l => S (fold_right (fun v n => S (Nat.max (vsize v) n)) 0%nat l)
  | VObj o => S (fold_right (fun kv n => S (Nat.max (vsize (snd kv)) n)) 0%nat o)
  | _ => 1
  end.

Definition reads_back (v : jsval) : Prop := forall indent rest f,
  no_number rest -> (vsize v <= f)%nat ->
  parse_value f (print indent v ++ rest) = Some (v, rest).

Lemma parse_printed_elements indent w w' l rest f :
  all_ws w -> all_ws w' -> l <> [] -> Forall reads_back l ->
  (fold_right (fun v n => S (Nat.max (vsize v) n)) 0 l <= f)%nat ->
  parse_elements f (join (44 :: w) (map (print indent) l) ++ w' ++ 93 :: rest) = Some (l, rest).
Proof.
  intros W W' N F. revert N f. induction F as [|v l R F IH]; intros N f L; [done|].
  destruct f as [|f]; [cbn [fold_right] in L; lia|]. cbn [fold_right] in L. cbn [map].
  destruct l as [|v' l].
  - cbn [map join parse_elements]. rewrite R; [|by apply all_ws_no_number|lia].
    rewrite skip_ws_app by done. done.
  - change (join (44 :: w) (print indent v :: map (print indent) (v' :: l)))
      with (print indent v ++ (44 :: w) ++ join (44 :: w) (map (print indent) (v' :: l))).
    cbn [parse_elements]. rewrite <- !app_assoc. rewrite R; [|done|lia].
    cbn [app skip_ws json_ws Z.eqb Pos.eqb orb]. rewrite parse_elements_ws by done.
    rewrite IH by (try done; lia). done.
Qed.

Lemma parse_printed_member indent kv rest f acc :
  str_ok (fst kv) -> reads_back (snd kv) -> no_number rest -> (vsize (snd kv) <= f)%nat ->
  parse_members (S f) acc (print_member indent kv ++ rest)
  = match skip_ws rest with
    | [] => None
    | c :: r' =>
        if c =? 44 then parse_members f (assoc_set acc (fst kv) (snd kv)) r'
        else if c =? 125 then Some (assoc_set acc (fst kv) (snd kv), r') else None
    end.
Proof.
  intros K R N L. cbn [parse_members]. unfold print_member, member, quote, expect at 1.
  rewrite <- !app_assoc. cbn [app skip_ws json_ws Z.eqb Pos.eqb orb mbind option_bind].
  rewrite <- !app_assoc. cbn [app]. rewrite parse_quote_body by done.
  unfold expect. cbn [app skip_ws json_ws Z.eqb Pos.eqb orb mbind option_bind].
  rewrite parse_value_ws by (destruct gap; by repeat constructor).
  by rewrite R.
Qed.

Lemma parse_printed_members indent w w' o rest f acc :
  all_ws w -> all_ws w' -> o <> [] ->
  Forall (fun kv => str_ok (fst kv) /\ reads_back (snd kv)) o ->
  canonical_keys (map fst (acc ++ o)) ->
  (fold_right (fun kv n => S (Nat.max (vsize (snd kv)) n)) 0 o <= f)%nat ->
  parse_members f acc (join (44 :: w) (map (print_member indent) o) ++ w' ++ 125 :: rest)
  = Some (acc ++ o, rest).
Proof.
  intros W W' N F. revert N f acc.
  induction F as [|kv o [K R] F IH]; intros N f acc C L; [done|].
  destruct f as [|f]; [cbn [fold_right] in L; lia|]. cbn [fold_right] in L. cbn [map].
  assert (A : assoc_set acc (fst kv) (snd kv) = acc ++ [kv])
    by (destruct kv; by eapply canonical_set_snoc).
  destruct o as [|kv' o].
  - cbn [map join]. rewrite parse_printed_member; [|done|done|by apply all_ws_no_number|lia].
    rewrite skip_ws_app by done. cbn. by rewrite A.
  - change (join (44 :: w) (print_member indent kv :: map (print_member indent) (kv' :: o)))
      with (print_member indent kv ++ (44 :: w) ++ join (44 :: w) (map (print_member indent) (kv' :: o))).
    rewrite <- !app_assoc. rewrite parse_printed_member by (try done; lia).
    cbn [app skip_ws json_ws Z.eqb Pos.eqb orb]. rewrite parse_members_ws by done.
    rewrite A, IH; [by rewrite <- app_assoc|done|by rewrite <- app_assoc|lia].
Qed.

Lemma parse_print v : json_ok v -> reads_back v.
Proof.
  induction v as [| |b|x|s|l IH|o IH] using jsval_ind; intros O indent rest [|f] N L;
    try (cbn in L; lia); try done.
  - by destruct b.
  - destruct O as (V & F & Z). destruct (str_of_num_token x V F) as (J & T & c & r & E & C).
    unfold print. cbn [stringify_at from_option id]. rewrite F. cbn [parse_value].
    assert (Hw : json_ws c = false) by (unfold json_ws, is_digit in *; lia).
    pose proof (num_of_str_of_num x V F) as R. rewrite E in *.
    cbn [app skip_ws]. rewrite Hw.
    assert ((c =? 34) = false /\ (c =? 91) = false /\ (c =? 123) = false) as (-> & -> & ->)
      by (unfold is_digit in C; lia).
    rewrite C. change (c :: r ++ rest) with ((c :: r) ++ rest).
    rewrite span_number_app, J by done. rewrite R. by destruct x as [[]| | |].
  - unfold print. cbn [stringify_at from_option id]. unfold quote.
    cbn [app parse_value skip_ws json_ws Z.eqb Pos.eqb orb].
    rewrite <- app_assoc. cbn [app]. by rewrite parse_quote_body.
  - apply json_ok_arr in O. rewrite print_arr by done.
    assert (IH' : Forall reads_back l).
    { apply Forall_forall. rewrite Forall_forall in IH, O. intros v Hv. by apply IH; auto. }
    destruct l as [|v l]; [done|]. unfold bracket. cbn [map].
    cbn [app parse_value skip_ws json_ws Z.eqb Pos.eqb orb].
    rewrite <- !app_assoc, expect_ws by apply newline_ws.
    apply Forall_cons in O as [V O].
    destruct (print_head (indent + gap) v V) as (c & r & E & W & C).
    assert (X : forall t, expect 93 (join (44 :: newline gap (indent + gap))
                  (print (indent + gap) v :: map (print (indent + gap)) l) ++ t) = None).
    { intros t. rewrite E. unfold expect. destruct l; cbn [join map app skip_ws]; rewrite W;
        by destruct (Z.eqb_spec c 93). }
    rewrite X, parse_elements_ws by apply newline_ws.
    change (print (indent + gap) v :: map (print (indent + gap)) l)
      with (map (print (indent + gap)) (v :: l)). cbn [app].
    cbn [vsize fold_right] in L. rewrite parse_printed_elements; try done; try apply newline_ws. cbn [fold_right]. lia.
  - apply json_ok_obj in O as [C O]. rewrite print_obj by done.
    assert (IH' : Forall (fun kv => str_ok (fst kv) /\ reads_back (snd kv)) o).
    { apply Forall_forall. rewrite Forall_forall in IH, O. intros kv Hkv.
      destruct (O kv Hkv). split; [done|]. by apply IH. }
    destruct o as [|kv o]; [done|]. unfold bracket. cbn [map].
    cbn [app parse_value skip_ws json_ws Z.eqb Pos.eqb orb].
    rewrite <- !app_assoc, expect_ws by apply newline_ws.
    assert (X : forall t, expect 125 (join (44 :: newline gap (indent + gap))
                  (print_member (indent + gap) kv :: map (print_member (indent + gap)) o) ++ t)
                  = None) by (intros t; by destruct o).
    rewrite X, parse_members_ws by apply newline_ws.
    change (print_member (indent + gap) kv :: map (print_member (indent + gap)) o)
      with (map (print_member (indent + gap)) (kv :: o)). cbn [app].
    cbn [vsize fold_right] in L. rewrite (parse_printed_members _ _ _ _ _ _ []); try done; try apply newline_ws.
    cbn [fold_right]. lia.
Qed.

(** Reading what was printed gives the value back, whatever the
    indentation. *)
Lemma JSON_parse_stringify v : json_ok v ->
  exists text, JSON_stringify gap v = Some text /\ JSON_parse text = Some v.
Proof.
  intros O. exists (print 0 v). split; [by apply stringify_print|]. unfold JSON_parse.
  rewrite <- (parse_fuel_enough (Nat.max (json_fuel (print 0 v)) (vsize v))) by lia.
  rewrite <- (app_nil_r (print 0 v)) at 2. rewrite (parse_print v O) by (done || lia). done.
Qed.
End RoundTrip.

(** ** Texts laid out by hand *)

(** The text of a value, whatever follows it. *)
Definition reads (t : jsstr) (v : jsval) : Prop := forall rest f,
  no_number rest -> (vsize v <= f)%nat -> parse_value f (t ++ rest) = Some (v, rest).

Lemma reads_stringify gap v t : json_ok v -> JSON_stringify gap v = Some t -> reads t v.
Proof.
  intros O E rest f N L. unfold JSON_stringify in E. rewrite stringify_print in E by done.
  injection E as <-. by apply parse_print.
Qed.

Lemma JSON_parse_reads t v w : reads t v -> all_ws w -> JSON_parse (t ++ w) = Some v.
Proof.
  intros R W. unfold JSON_parse.
  rewrite <- (parse_fuel_enough (Nat.max (json_fuel (t ++ w)) (vsize v))) by lia.
  rewrite R; [|destruct W as [|c w C _]; [done|]; cbn|lia].
  - by rewrite <- (app_nil_r w), skip_ws_app.
  - unfold json_ws, number_char, is_digit in *. lia.
Qed.

(** A member with its leading white space: [w"k": t]. *)
Record Loose := { lead : jsstr; lkey : jsstr; ltext : jsstr; lval : jsval }.
Definition loose_text (m : Loose) : jsstr := lead m ++ quote (lkey m) ++ js ": " ++ ltext m.
Definition loose_ok (m : Loose) : Prop :=
  all_ws (lead m) /\ str_ok (lkey m) /\ reads (ltext m) (lval m).
Definition loose_entry (m : Loose) : jsstr * jsval := (lkey m, lval m).

Lemma parse_loose_member m rest f acc :
  loose_ok m -> no_number rest -> (vsize (lval m) <= f)%nat ->
  parse_members (S f) acc (loose_text m ++ rest)
  = match skip_ws rest with
    | [] => None
    | c :: r' =>
        if c =? 44 then parse_members f (assoc_set acc (lkey m) (lval m)) r'
        else if c =? 125 then Some (assoc_set acc (lkey m) (lval m), r') else None
    end.
Proof.
  intros (W & K & R) N L. unfold loose_text. rewrite <- !app_assoc, parse_members_ws by done.
  unfold quote. cbn [app]. rewrite <- !app_assoc.
  cbn [parse_members]. unfold expect at 1. cbn [skip_ws json_ws Z.eqb Pos.eqb orb mbind option_bind app].
  rewrite parse_quote_body by done. change (js ": ") with [58; 32]. unfold expect.
  cbn [app skip_ws json_ws Z.eqb Pos.eqb orb mbind option_bind].
  change (32 :: ltext m ++ rest) with ([32] ++ ltext m ++ rest).
  rewrite parse_value_ws by by repeat constructor. by rewrite R.
Qed.

Lemma parse_loose_members ms w rest f acc :
  all_ws w -> ms <> [] -> Forall loose_ok ms ->
  canonical_keys (map fst (acc ++ map loose_entry ms)) ->
  (fold_right (fun kv n => S (Nat.max (vsize (snd kv)) n)) 0 (map loose_entry ms) <= f)%nat ->
  parse_members f acc (join [44] (map loose_text ms) ++ w ++ 125 :: rest)
  = Some (acc ++ map loose_entry ms, rest).
Proof.
  intros W N F. revert N f acc.
  induction F as [|m ms O F IH]; intros N f acc C L; [done|].
  destruct f as [|f]; [cbn [map fold_right] in L; lia|]. cbn [map fold_right snd loose_entry] in L.
  pose proof (canonical_set_snoc acc (lkey m) (lval m) _ C) as A. cbn [map].
  destruct ms as [|m' ms].
  - cbn [map join]. rewrite parse_loose_member; [|done|by apply all_ws_no_number|lia].
    rewrite skip_ws_app by done. cbn. by rewrite A.
  - change (join [44] (loose_text m :: map loose_text (m' :: ms)))
      with (loose_text m ++ [44] ++ join [44] (map loose_text (m' :: ms))).
    rewrite <- !app_assoc, parse_loose_member by (try done; lia).
    cbn [app skip_ws json_ws Z.eqb Pos.eqb orb].
    rewrite A, IH; [by rewrite <- app_assoc|done|by rewrite <- app_assoc|lia].
Qed.

Lemma reads_object ms w :
  all_ws w -> ms <> [] -> Forall loose_ok ms -> canonical_keys (map fst (map loose_entry ms)) ->
  reads (123 :: join [44] (map loose_text ms) ++ w ++ [125]) (VObj (map loose_entry ms)).
Proof.
  intros W N F C rest f NR L. destruct f as [|f]; [cbn in L; lia|]. cbn [vsize] in L.
  cbn [app parse_value skip_ws json_ws Z.eqb Pos.eqb orb]. rewrite <- !app_assoc. cbn [app].
  assert (X : forall t, expect 125 (join [44] (map loose_text ms) ++ t) = None).
  { intros t. destruct F as [|m ms (W' & _) F]; [done|].
    assert (E : exists u, join [44] (map loose_text (m :: ms)) = lead m ++ 34 :: u).
    { destruct ms; cbn [map join]; unfold loose_text at 1, quote;
        eexists; rewrite <- ?app_assoc; reflexivity. }
    destruct E as [u ->]. rewrite <- app_assoc, expect_ws by done. done. }
  rewrite X, (parse_loose_members _ _ _ _ []) by (try done; lia). done.
Qed.
