(* ===== verification/JsReprint.v ===== *)
(** * What [JSON.parse] yields, and printing it again

    The values a parse can give, the value the printed text holds (numbers
    that are not finite become null, negative zero becomes zero), and the
    indifference of the parser to what follows a value and to white space
    around it. *)

From Stdlib Require Import SpecFloat Sorted.
From stdpp Require Import base list numbers strings.
From S2P Require Import Prelude JsNumber JsString JsValue JsJson.
Local Open Scope Z_scope.
Local Open Scope js_scope.

(** ** The values of a parse *)

Fixpoint parsed_ok (v : jsval) : Prop :=
  match v with
  | VUndef => False
  | VNull | VBool _ => True
  | VNum x => valid x
  | VStr s => str_ok s
  | VArr l => fold_right (fun v P => parsed_ok v /\ P) True l
  | VObj o =>
      canonical_keys (map fst o) /\
      fold_right (fun kv P => (str_ok (fst kv) /\ parsed_ok (snd kv)) /\ P) True o
  end.

Definition entry_ok (kv : jsstr * jsval) : Prop := str_ok (fst kv) /\ parsed_ok (snd kv).

Lemma parsed_ok_arr l : parsed_ok (VArr l) <-> Forall parsed_ok l.
Proof. apply fold_right_Forall. Qed.

Lemma parsed_ok_obj o :
  parsed_ok (VObj o) <-> canonical_keys (map fst o) /\ Forall entry_ok o.
Proof. cbn [parsed_ok]. by rewrite (fold_right_Forall entry_ok). Qed.

Lemma str_ok_app a b : str_ok (a ++ b) <-> str_ok a /\ str_ok b.
Proof. apply Forall_app. Qed.

Lemma skip_ws_split s : exists w, all_ws w /\ s = w ++ skip_ws s.
Proof.
  induction s as [|c s (w & W & E)]; [exists []; split; [constructor|done]|]. cbn.
  destruct (json_ws c) eqn:C; [|exists []; split; [constructor|done]].
  exists (c :: w). split; [by constructor|]. cbn. by f_equal.
Qed.

Lemma skip_ws_ok s : str_ok s -> str_ok (skip_ws s).
Proof. intros O. destruct (skip_ws_split s) as (w & _ & E). rewrite E in O. by apply str_ok_app in O as [_ ?]. Qed.

Lemma expect_prefix c s r : expect c s = Some r -> exists w, all_ws w /\ s = w ++ c :: r.
Proof.
  unfold expect. destruct (skip_ws_split s) as (w & W & E). destruct (skip_ws s) as [|x t]; [done|].
  destruct (Z.eqb_spec x c) as [->|]; [|done]. intros [= <-]. by exists w.
Qed.

Lemma radix_16_range acc s u : 0 <= acc -> radix_val 16 acc s = Some u ->
  0 <= u < (acc + 1) * 16 ^ Z.of_nat (length s).
Proof.
  revert acc. induction s as [|c s IH]; intros acc A; cbn [radix_val length].
  { intros [= <-]. cbn. lia. }
  destruct (hex_digit c) as [d|] eqn:D; [|done]. destruct (d <? 16) eqn:L; [|done].
  assert (0 <= d < 16).
  { unfold hex_digit, is_digit in D. repeat case_match; simplify_eq; lia. }
  intros X. apply IH in X; [|lia]. rewrite Nat2Z.inj_succ, Z.pow_succ_r by lia. nia.
Qed.

(** A string literal ends with its quote, and what follows does not matter. *)
Lemma parse_string_prefix s x r : parse_string s = Some (x, r) ->
  exists p, s = p ++ 34 :: r /\ (str_ok s -> str_ok x) /\
    forall r', parse_string (p ++ 34 :: r') = Some (x, r').
Proof.
  revert x. induction s as [s IH] using (induction_ltof1 _ (@length Z)); intros x E.
  unfold ltof in IH. destruct s as [|c s]; [done|]. cbn [parse_string] in E.
  destruct (c =? 34) eqn:Q.
  { apply Z.eqb_eq in Q as ->. injection E as <- <-. exists []. split; [done|]. split; [constructor|done]. }
  assert (K : forall pre t u y, (length t < length (c :: s))%nat -> c :: s = pre ++ t ->
      (str_ok (c :: s) -> code_unit u) ->
      (forall t', parse_string (pre ++ t') = prod_map (cons u) id <$> parse_string t') ->
      parse_string t = Some (y, r) ->
      exists p, c :: s = p ++ 34 :: r /\ (str_ok (c :: s) -> str_ok (u :: y)) /\
        forall r', parse_string (p ++ 34 :: r') = Some (u :: y, r')).
  { intros pre t u y L S U R P. destruct (IH t L y P) as (p & -> & O & F).
    exists (pre ++ p). split_and!.
    - by rewrite S, app_assoc.
    - intros OS. constructor; [by apply U|]. apply O. rewrite S in OS. by apply str_ok_app in OS as [_ ?].
    - intros r'. rewrite <- app_assoc, R, F. done. }
  destruct (c =? 92) eqn:B.
  - destruct s as [|e s]; [done|]. destruct (e =? 117) eqn:U.
    + destruct s as [|h1 [|h2 [|h3 [|h4 s]]]]; try done.
      destruct (radix_val 16 0 [h1; h2; h3; h4]) as [u|] eqn:X; [|done].
      apply fmap_Some in E as ([y r0] & P & E). cbn in E. injection E as -> ->.
      apply (K [c; e; h1; h2; h3; h4] s u y); [cbn; lia|done| | |done].
      * intros _. apply radix_16_range in X; [|lia]. unfold code_unit. cbn in X. lia.
      * intros t'. cbn [app parse_string]. by rewrite Q, B, U, X.
    + destruct (unescape e) as [u|] eqn:X; [|done].
      apply fmap_Some in E as ([y r0] & P & E). cbn in E. injection E as -> ->.
      apply (K [c; e] s u y); [cbn; lia|done| | |done].
      * intros _. unfold unescape in X. unfold code_unit. repeat case_match; simplify_eq; lia.
      * intros t'. cbn [app parse_string]. by rewrite Q, B, U, X.
  - destruct (c <? 32) eqn:L; [done|].
    apply fmap_Some in E as ([y r0] & P & E). cbn in E. injection E as -> ->.
    apply (K [c] s c y); [cbn; lia|done| | |done].
    + intros O. by inversion O.
    + intros t'. cbn [app parse_string]. by rewrite Q, B, L.
Qed.

Lemma span_number_split s d r : span_number s = (d, r) ->
  s = d ++ r /\ no_number r /\ Forall (fun c => number_char c = true) d.
Proof.
  revert d r. induction s as [|c s IH]; intros d r; cbn.
  { intros [= <- <-]. split_and!; [done|done|constructor]. }
  destruct (number_char c) eqn:C; [|intros [= <- <-]; split_and!; [done|done|constructor]].
  destruct (span_number s) as [d' r'] eqn:E. intros [= <- <-].
  destruct (IH d' r') as (-> & N & F); [done|]. split_and!; [done|done|by constructor].
Qed.

Lemma keyword_prefix w v s u r : keyword w v s = Some (u, r) ->
  s = w ++ r /\ u = v /\ forall r', keyword w v (w ++ r') = Some (v, r').
Proof.
  unfold keyword. destruct (starts_with w s) eqn:S; [|done]. intros [= <- <-].
  assert (E : s = w ++ drop (length w) s).
  { clear -S. revert s S. induction w as [|c w IH]; intros s S; [done|].
    destruct s as [|d s]; [done|]. cbn in S |- *. apply andb_true_iff in S as [->%Z.eqb_eq S].
    f_equal. by apply IH. }
  split_and!; [done|done|]. intros r'.
  assert (starts_with w (w ++ r') = true) as ->.
  { clear. induction w as [|c w IH]; cbn; [done|]. by rewrite Z.eqb_refl. }
  by rewrite drop_app_length.
Qed.

(** The head of a text after white space does not depend on what follows. *)
Lemma skip_ws_head p c : json_ws c = false -> exists x q, forall r,
  skip_ws (p ++ c :: r) = x :: q r.
Proof.
  intros C. induction p as [|d p (x & q & E)]; cbn.
  - exists c, (fun r => r). intros r. by rewrite C.
  - destruct (json_ws d); [by exists x, q|]. exists d, (fun r => p ++ c :: r). done.
Qed.

Lemma expect_None_head d p c r r' : json_ws c = false ->
  expect d (p ++ c :: r) = None -> expect d (p ++ c :: r') = None.
Proof.
  intros C. unfold expect. destruct (skip_ws_head p c C) as (x & q & E). rewrite !E. by case_match.
Qed.

Lemma ws_json c : json_ws c = true -> is_ws c = true.
Proof. unfold json_ws, is_ws. lia. Qed.

Lemma not_ws_json c : is_ws c = false -> json_ws c = false.
Proof. intros W. destruct (json_ws c) eqn:E; [|done]. apply ws_json in E. congruence. Qed.

Lemma number_char_not_ws c : number_char c = true -> is_ws c = false.
Proof. unfold number_char, is_digit, is_ws. lia. Qed.

(** ** A value and what follows it *)

(** The text read ends in a character that is not white space, and reading it
    does not depend on what follows, unless that continues a number. *)
Definition reads_prefix {A} (parse : jsstr -> option (A * jsstr)) (s r : jsstr) (v : A) : Prop :=
  exists p c, s = p ++ c :: r /\ is_ws c = false /\
    forall r', no_number r' -> parse (p ++ c :: r') = Some (v, r').

(** After a value: white space and one of two characters. *)
Lemma reads_prefix_then {A} (parse : jsstr -> option (A * jsstr)) s r v c t :
  reads_prefix parse s r v -> skip_ws r = c :: t -> number_char c = false ->
  exists p, s = p ++ c :: t /\
    forall t', exists r', parse (p ++ c :: t') = Some (v, r') /\ skip_ws r' = c :: t'.
Proof.
  intros (p & e & -> & _ & F) S N. destruct (skip_ws_split r) as (w & W & E). rewrite S in E.
  assert (C : json_ws c = false).
  { clear -S. revert S. induction r as [|x r IH]; cbn; [done|].
    destruct (json_ws x) eqn:X; [done|]. by intros [= -> ->]. }
  exists (p ++ e :: w). rewrite E. split; [by rewrite <- app_assoc|].
  intros t'. exists (w ++ c :: t'). split.
  - rewrite <- app_assoc. cbn [app]. apply F. by apply all_ws_no_number.
  - rewrite skip_ws_app by done. cbn. by rewrite C.
Qed.

Definition value_prefix f : Prop := forall s v r, parse_value f s = Some (v, r) ->
  reads_prefix (parse_value f) s r v /\ (str_ok s -> parsed_ok v).
Definition elements_prefix f : Prop := forall s l r, parse_elements f s = Some (l, r) ->
  reads_prefix (parse_elements f) s r l /\ (str_ok s -> Forall parsed_ok l).
Definition members_prefix f : Prop := forall acc s o r, parse_members f acc s = Some (o, r) ->
  reads_prefix (parse_members f acc) s r o /\
  (str_ok s -> canonical_keys (map fst acc) -> Forall entry_ok acc ->
   canonical_keys (map fst o) /\ Forall entry_ok o).

Lemma elements_prefix_step f : value_prefix f -> elements_prefix f -> elements_prefix (S f).
Proof.
  intros IV IE s l r. cbn [parse_elements]. destruct (parse_value f s) as [[v t]|] eqn:V; [|done].
  destruct (IV _ _ _ V) as [P O]. destruct (skip_ws t) as [|c t'] eqn:S; [done|].
  destruct (Z.eqb_spec c 44) as [->|N].
  - intros X. apply fmap_Some in X as ([l' r0] & X & E). cbn in E. injection E as -> ->.
    destruct (reads_prefix_then _ _ _ _ _ _ P S eq_refl) as (p & -> & F).
    destruct (IE _ _ _ X) as [(q & e & -> & We & G) OE]. split.
    + exists (p ++ 44 :: q), e. split; [by rewrite <- app_assoc|]. split; [done|].
      intros r' N'. rewrite <- app_assoc. cbn [app]. destruct (F (q ++ e :: r')) as (y & -> & ->).
      cbn. by rewrite G.
    + intros Os. constructor; [by apply O|]. apply OE. apply str_ok_app in Os as [_ Os]. by inversion Os.
  - destruct (Z.eqb_spec c 93) as [->|]; [|done]. intros [= <- <-].
    destruct (reads_prefix_then _ _ _ _ _ _ P S eq_refl) as (p & -> & F). split.
    + exists p, 93. split; [done|]. split; [done|]. intros r' _. by destruct (F r') as (y & -> & ->).
    + intros Os. constructor; [by apply O|constructor].
Qed.

Lemma members_prefix_step f : value_prefix f -> members_prefix f -> members_prefix (S f).
Proof.
  intros IV IM acc s o r. cbn [parse_members].
  destruct (expect 34 s ≫= parse_string) as [[k t]|] eqn:K; [|done].
  apply bind_Some in K as (t1 & E1 & K). destruct (expect_prefix _ _ _ E1) as (w1 & W1 & ->).
  destruct (parse_string_prefix _ _ _ K) as (pk & -> & Ok & Fk).
  destruct (expect 58 t) as [t2|] eqn:E2; [|done]. cbn [mbind option_bind].
  destruct (expect_prefix _ _ _ E2) as (w2 & W2 & ->).
  destruct (parse_value f t2) as [[v t3]|] eqn:V; [|done].
  destruct (IV _ _ _ V) as [P O]. destruct (skip_ws t3) as [|c t'] eqn:S; [done|].
  assert (X34 : forall z, expect 34 (w1 ++ 34 :: z) = Some z)
    by (intros; unfold expect; by rewrite skip_ws_app by done).
  assert (X58 : forall z, expect 58 (w2 ++ 58 :: z) = Some z)
    by (intros; unfold expect; by rewrite skip_ws_app by done).
  assert (Start : forall p d r', exists pre, pre ++ d :: r' = w1 ++ 34 :: pk ++ 34 :: w2 ++ 58 :: p ++ d :: r' /\
    forall z, pre ++ d :: z = w1 ++ 34 :: pk ++ 34 :: w2 ++ 58 :: p ++ d :: z).
  { intros p d r'. exists (w1 ++ 34 :: pk ++ 34 :: w2 ++ 58 :: p).
    split; [|intros z]; by rewrite <- !app_assoc; cbn; rewrite <- !app_assoc; cbn; rewrite <- !app_assoc. }
  assert (Oks : forall z, str_ok (w1 ++ 34 :: pk ++ 34 :: w2 ++ 58 :: z) -> str_ok k /\ str_ok z).
  { intros z Os. apply str_ok_app in Os as [_ Os]. inversion Os as [|? ? _ Os']; subst.
    pose proof Os' as Os2. apply str_ok_app in Os2 as [_ Os2]. inversion Os2 as [|? ? _ Os3]; subst.
    apply str_ok_app in Os3 as [_ Os3]. inversion Os3; subst. split; [|done].
    destruct (parse_string_prefix _ _ _ (Fk (w2 ++ 58 :: z))) as (_ & _ & G & _). by apply G. }
  destruct (Z.eqb_spec c 44) as [->|N].
  - intros X. destruct (reads_prefix_then _ _ _ _ _ _ P S eq_refl) as (p & -> & F).
    destruct (IM _ _ _ _ X) as [(q & e & -> & We & G) OE]. split.
    + destruct (Start (p ++ 44 :: q) e r) as (pre & E & E'). exists pre, e.
      rewrite E. split; [by rewrite <- !app_assoc|]. split; [done|]. intros r' N'. rewrite E'.
      rewrite X34. cbn [mbind option_bind]. rewrite Fk, X58. cbn [mbind option_bind].
      rewrite <- app_assoc. cbn [app]. destruct (F (q ++ e :: r')) as (y & -> & ->). cbn.
      by apply G.
    + intros Os Ca Fa. apply Oks in Os as [Okk Os]. specialize (O Os).
      apply OE; [apply str_ok_app in Os as [_ Os]; by inversion Os|by apply assoc_set_canonical|].
      by apply assoc_set_Forall.
  - destruct (Z.eqb_spec c 125) as [->|]; [|done]. intros [= <- <-].
    destruct (reads_prefix_then _ _ _ _ _ _ P S eq_refl) as (p & -> & F). split.
    + destruct (Start p 125 t') as (pre & E & E'). exists pre, 125. rewrite E.
      split; [done|]. split; [done|]. intros r' _. rewrite E'.
      rewrite X34. cbn [mbind option_bind]. rewrite Fk, X58. cbn [mbind option_bind].
      by destruct (F r') as (y & -> & ->).
    + intros Os Ca Fa. apply Oks in Os as [Okk Os]. specialize (O Os).
      split; [by apply assoc_set_canonical|by apply assoc_set_Forall].
Qed.

(** A value behind white space and an opening character. *)
Lemma value_prefix_after {A} f (parse : jsstr -> option (A * jsstr)) w x t r a v :
  all_ws w -> reads_prefix parse t r a ->
  (forall p c r', t = p ++ c :: r -> is_ws c = false -> parse (p ++ c :: r') = Some (a, r') ->
     parse_value f (x :: p ++ c :: r') = Some (v, r')) ->
  reads_prefix (parse_value f) (w ++ x :: t) r v.
Proof.
  intros W (p & c & E & C & F) V. exists (w ++ x :: p), c. split; [by rewrite E, <- app_assoc|].
  split; [done|]. intros r' N. rewrite <- app_assoc, parse_value_ws by done. by apply V, F.
Qed.

Lemma keyword_value f w c k v t r :
  all_ws w -> keyword (c :: k) v (c :: t) = Some (v, r) -> (exists k' d, k = k' ++ [d] /\ is_ws d = false) ->
  (forall r', parse_value (S f) (c :: k ++ r') = keyword (c :: k) v (c :: k ++ r')) ->
  reads_prefix (parse_value (S f)) (w ++ c :: t) r v.
Proof.
  intros W K (k' & d & -> & D) V. apply keyword_prefix in K as (E & _ & F). cbn in E. injection E as ->.
  exists (w ++ c :: k'), d. rewrite <- !app_assoc. split; [done|]. split; [done|].
  intros r' _. rewrite <- app_assoc, parse_value_ws by done. cbn [app].
  specialize (V r'). rewrite <- app_assoc in V. cbn [app] in V. rewrite V.
  specialize (F r'). cbn [app] in F. by rewrite <- app_assoc in F.
Qed.

Lemma value_prefix_step f : elements_prefix f -> members_prefix f -> value_prefix (S f).
Proof.
  intros IE IM s v r X. cbn [parse_value] in X. revert X. destruct (skip_ws_split s) as (w & W & E).
  destruct (skip_ws s) as [|x t] eqn:S; [done|]. rewrite E. clear E S s.
  assert (Tail : str_ok (w ++ x :: t) -> str_ok t).
  { intros O. apply str_ok_app in O as [_ O]. by inversion O. }
  destruct (Z.eqb_spec x 34) as [->|N1]; [|destruct (Z.eqb_spec x 91) as [->|N2];
    [|destruct (Z.eqb_spec x 123) as [->|N3];
      [|destruct ((x =? 45) || is_digit x) eqn:D;
        [|destruct (Z.eqb_spec x 116) as [->|N4]; [|destruct (Z.eqb_spec x 102) as [->|N5];
          [|destruct (Z.eqb_spec x 110) as [->|N6]; [|done]]]]]]].
  - intros X. apply fmap_Some in X as ([u r0] & X & Y). cbn in Y. injection Y as -> ->.
    destruct (parse_string_prefix _ _ _ X) as (p & -> & O & F). split; [|cbn; auto].
    apply (value_prefix_after (S f) parse_string w 34 (p ++ 34 :: r0) r0 u); [done| |].
    + exists p, 34. auto.
    + intros q c r' _ _ Q. cbn. by rewrite Q.
  - destruct (expect 93 t) as [r0|] eqn:X.
    + intros [= <- <-]. destruct (expect_prefix _ _ _ X) as (w' & W' & ->). split; [|done].
      exists (w ++ 91 :: w'), 93. split; [by rewrite <- app_assoc|]. split; [done|].
      intros r' _. rewrite <- app_assoc, parse_value_ws by done. cbn.
      unfold expect. by rewrite skip_ws_app by done.
    + intros Y. apply fmap_Some in Y as ([l r0] & Y & Z). cbn in Z. injection Z as -> ->.
      destruct (IE _ _ _ Y) as [P O]. split; [|rewrite parsed_ok_arr; auto].
      eapply (value_prefix_after (S f)); [done|exact P|].
      intros p c r' Et C Q. cbn. rewrite Et in X.
      rewrite (expect_None_head 93 p c r0 r') by (done || by apply not_ws_json). by rewrite Q.
  - destruct (expect 125 t) as [r0|] eqn:X.
    + intros [= <- <-]. destruct (expect_prefix _ _ _ X) as (w' & W' & ->). split; [|by split; [constructor|]].
      exists (w ++ 123 :: w'), 125. split; [by rewrite <- app_assoc|]. split; [done|].
      intros r' _. rewrite <- app_assoc, parse_value_ws by done. cbn.
      unfold expect. by rewrite skip_ws_app by done.
    + intros Y. apply fmap_Some in Y as ([o r0] & Y & Z). cbn in Z. injection Z as -> ->.
      destruct (IM _ _ _ _ Y) as [P O]. split; [|rewrite parsed_ok_obj; intros; apply O; [auto|constructor|constructor]].
      eapply (value_prefix_after (S f)); [done|exact P|].
      intros p c r' Et C Q. cbn. rewrite Et in X.
      rewrite (expect_None_head 125 p c r0 r') by (done || by apply not_ws_json). by rewrite Q.
  - destruct (span_number (x :: t)) as [tok r0] eqn:X. destruct (json_number tok) eqn:J; [|done].
    intros [= <- <-]. destruct (span_number_split _ _ _ X) as (E & N & F).
    split; [|intros _; apply num_of_str_valid].
    destruct tok as [|y tok] using rev_ind; [done|]. clear IHtok.
    pose proof F as [_ Fy]%Forall_app. apply Forall_inv in Fy.
    rewrite E. exists (w ++ tok), y. split; [by rewrite <- !app_assoc|].
    split; [by apply number_char_not_ws|]. intros r' N'.
    rewrite <- app_assoc, parse_value_ws by done.
    assert (exists t', tok ++ y :: r' = x :: t') as [t' E'].
    { destruct tok as [|z tok]; cbn in E |- *; injection E as <- _; by eexists. }
    assert (is_ws x = false) as Wx%not_ws_json.
    { unfold is_digit, is_ws in *. lia. }
    rewrite E'. cbn [parse_value skip_ws]. rewrite Wx.
    rewrite (proj2 (Z.eqb_neq x 34)), (proj2 (Z.eqb_neq x 91)), (proj2 (Z.eqb_neq x 123)), D by done.
    rewrite <- E'. replace (tok ++ y :: r') with ((tok ++ [y]) ++ r') by by rewrite <- app_assoc.
    rewrite span_number_app by done. by rewrite J.
  - intros K. pose proof (keyword_prefix _ _ _ _ _ K) as (_ & -> & _). split; [|done].
    apply (keyword_value f w 116 (js "rue") (VBool true) t r W K); [|done].
    exists (js "ru"), 101. by vm_compute.
  - intros K. pose proof (keyword_prefix _ _ _ _ _ K) as (_ & -> & _). split; [|done].
    apply (keyword_value f w 102 (js "alse") (VBool false) t r W K); [|done].
    exists (js "als"), 101. by vm_compute.
  - intros K. pose proof (keyword_prefix _ _ _ _ _ K) as (_ & -> & _). split; [|done].
    apply (keyword_value f w 110 (js "ull") VNull t r W K); [|done].
    exists (js "ul"), 108. by vm_compute.
Qed.

Lemma parse_prefix f : value_prefix f /\ elements_prefix f /\ members_prefix f.
Proof.
  induction f as [|f (IV & IE & IM)]; [by split_and!|].
  split_and!; [by apply value_prefix_step|by apply elements_prefix_step|by apply members_prefix_step].
Qed.

Lemma JSON_parse_ok s v : str_ok s -> JSON_parse s = Some v -> parsed_ok v.
Proof.
  intros O. unfold JSON_parse. destruct (parse_value (json_fuel s) s) as [[u r]|] eqn:E; [|done].
  apply (proj1 (parse_prefix _)) in E as [_ P]. case_match; [|done]. intros [= <-]. auto.
Qed.

(** The first character of a value is not white space. *)
Lemma parse_value_start f s v r : parse_value f s = Some (v, r) ->
  exists x t, skip_ws s = x :: t /\ is_ws x = false.
Proof.
  destruct f as [|f]; [done|]. cbn [parse_value]. destruct (skip_ws s) as [|x t]; [done|].
  intros E. exists x, t. split; [done|]. unfold is_ws, is_digit in *. repeat case_match; try done; lia.
Qed.

(** ** White space around a value *)

Lemma drop_ws_app w s : Forall (fun c => is_ws c = true) w -> drop_ws (w ++ s) = drop_ws s.
Proof. induction 1 as [|c w C _ IH]; cbn; [done|]. by rewrite C. Qed.

Lemma drop_ws_stop c s : is_ws c = false -> drop_ws (c :: s) = c :: s.
Proof. intros C. cbn. by rewrite C. Qed.

(** [trim] removes exactly the white space at both ends. *)
Lemma trim_between w c m d w' :
  Forall (fun x => is_ws x = true) w -> Forall (fun x => is_ws x = true) w' ->
  is_ws c = false -> is_ws d = false ->
  forall q, q = c :: m -> (exists q', q = q' ++ [d]) -> trim (w ++ q ++ w') = q.
Proof.
  intros W W' C D q -> [q' E]. unfold trim. rewrite drop_ws_app by done. cbn [app].
  rewrite drop_ws_stop by done. rewrite app_comm_cons, E, !reverse_app, drop_ws_app by by apply Forall_reverse.
  change (reverse [d]) with [d]. cbn [app]. rewrite drop_ws_stop by done.
  rewrite reverse_cons, reverse_involutive. done.
Qed.

Lemma drop_ws_head s c r : drop_ws s = c :: r -> is_ws c = false.
Proof. induction s as [|x s IH]; cbn; [done|]. case_match; [done|]. by intros [= -> ->]. Qed.

(** A text is its trimmed text between white space. *)
Lemma trim_split s : exists w w', s = w ++ trim s ++ w' /\
  Forall (fun x => is_ws x = true) w /\ Forall (fun x => is_ws x = true) w'.
Proof.
  destruct (drop_ws_split s) as (w & E & W). destruct (drop_ws_split (reverse (drop_ws s))) as (w' & E' & W').
  exists w, (reverse w'). split_and!; [|done|by apply Forall_reverse].
  rewrite E at 1. f_equal. unfold trim. by rewrite <- reverse_app, <- E', reverse_involutive.
Qed.

Lemma trim_idem s : trim (trim s) = trim s.
Proof.
  destruct (trim s) as [|c m] eqn:T; [done|].
  assert (C : is_ws c = false).
  { destruct (drop_ws s) as [|x r] eqn:D; unfold trim in T; rewrite D in T; [done|].
    destruct (drop_ws_split (reverse (x :: r))) as (w' & E & _).
    apply (f_equal reverse) in E. rewrite reverse_involutive, reverse_app, T in E. cbn in E.
    injection E as <- _. by eapply drop_ws_head. }
  unfold trim in T. apply (f_equal reverse) in T. rewrite reverse_involutive in T.
  destruct (reverse (c :: m)) as [|d q] eqn:R.
  { apply (f_equal reverse) in R. by rewrite reverse_involutive in R. }
  pose proof (drop_ws_head _ _ _ T) as D.
  rewrite <- (app_nil_r (c :: m)) at 1.
  refine (trim_between [] c m d [] (Forall_nil_2 _) (Forall_nil_2 _) C D (c :: m) eq_refl _).
  exists (reverse q). apply (f_equal reverse) in R. by rewrite reverse_involutive, reverse_cons in R.
Qed.

Lemma trim_ok s : str_ok s -> str_ok (trim s).
Proof.
  intros O. destruct (trim_split s) as (w & w' & E & _). rewrite E in O.
  by apply str_ok_app in O as [_ [? _]%str_ok_app].
Qed.

Lemma all_ws_ws w : all_ws w -> Forall (fun c => is_ws c = true) w.
Proof. intros W. eapply Forall_impl; [exact W|]. apply ws_json. Qed.

Lemma skip_ws_nil r : skip_ws r = [] -> all_ws r.
Proof. intros E. destruct (skip_ws_split r) as (w & W & S). rewrite E, app_nil_r in S. by subst. Qed.

(** What a text parses to is what its trimmed text parses to. *)
Lemma JSON_parse_trim s v : JSON_parse s = Some v -> JSON_parse (trim s) = Some v.
Proof.
  unfold JSON_parse at 1. destruct (parse_value (json_fuel s) s) as [[u r]|] eqn:E; [|done].
  destruct (skip_ws r) eqn:R; [|done]. intros [= ->]. apply skip_ws_nil in R.
  destruct (parse_value_start _ _ _ _ E) as (x & t & St & Wx).
  apply (proj1 (parse_prefix _)) in E as [(p & c & Es & Wc & F) _].
  specialize (F [] I). destruct (skip_ws_split s) as (w & W & Ew). rewrite St in Ew.
  destruct (skip_ws_split (p ++ [c])) as (w0 & W0 & Ep).
  destruct (parse_value_start _ _ _ _ F) as (y & m & Sy & Wy). rewrite Sy in Ep.
  assert (T : trim s = y :: m).
  { rewrite Es. replace (p ++ c :: r) with ((p ++ [c]) ++ r) by by rewrite <- app_assoc.
    rewrite Ep, <- app_assoc.
    apply (trim_between w0 y m c r); [by apply all_ws_ws|by apply all_ws_ws|done|done|done|].
    destruct m as [|z m] using rev_ind; [exists []|exists (y :: m)].
    - cbn. apply app_inj_tail in Ep as [_ ->]. done.
    - rewrite app_comm_cons, app_assoc in Ep. apply app_inj_tail in Ep as [_ ->]. done. }
  rewrite T. unfold JSON_parse. rewrite Ep, parse_value_ws in F by done.
  rewrite <- (parse_fuel_enough (json_fuel s)), F; [done|].
  rewrite Es. unfold json_fuel. assert (length (p ++ [c]) = length (w0 ++ y :: m)) by by rewrite Ep.
  rewrite !length_app in *. cbn in *. lia.
Qed.

(** ** Printing again *)

(** The value that the printed text of a parsed value holds. *)
Fixpoint json_image (v : jsval) : jsval :=
  match v with
  | VNum x => if isFinite x then VNum (match x with S754_zero _ => S754_zero false | _ => x end) else VNull
  | VArr l => VArr (map json_image l)
  | VObj o => VObj (map (fun kv => (fst kv, json_image (snd kv))) o)
  | _ => v
  end.

Lemma stringify_image gap v indent :
  stringify_at gap indent (json_image v) = stringify_at gap indent v.
Proof.
  revert indent. induction v as [| |b|x|s|l IH|o IH] using jsval_ind; intros indent; try done.
  - cbn [json_image]. destruct (isFinite x) eqn:F; [|by cbn; rewrite F]. by destruct x.
  - cbn. f_equal. f_equal. rewrite map_map. induction IH as [|v l P _ IHl]; [done|].
    cbn. by rewrite P, IHl.
  - cbn. f_equal. f_equal. rewrite map_map. induction IH as [|kv o P _ IHo]; [done|].
    cbn. rewrite P. by destruct (stringify_at _ _ kv.2); cbn; [f_equal|].
Qed.

Lemma json_image_ok v : parsed_ok v -> json_ok (json_image v).
Proof.
  induction v as [| |b|x|s|l IH|o IH] using jsval_ind; try done.
  - cbn [parsed_ok json_image]. intros V. destruct (isFinite x) eqn:F; [|done].
    destruct x; (split; [done|]); (split; [done|congruence]).
  - rewrite parsed_ok_arr. cbn [json_image]. rewrite json_ok_arr, Forall_map. intros P.
    rewrite Forall_forall in *. auto.
  - rewrite parsed_ok_obj. cbn [json_image]. rewrite json_ok_obj, Forall_map, map_map.
    intros [C P]. split; [exact C|]. rewrite Forall_forall in *. intros kv K.
    destruct (P kv K) as [S V]. split; [done|]. by apply IH.
Qed.

Lemma json_image_id v : json_ok v -> json_image v = v.
Proof.
  induction v as [| |b|x|s|l IH|o IH] using jsval_ind; try done.
  - cbn. intros (_ & F & N). rewrite F. by destruct x as [[]| | |].
  - rewrite json_ok_arr. cbn [json_image]. intros O. f_equal. rewrite <- (map_id l) at 2.
    apply map_ext_in. intros v V%list_elem_of_In. rewrite Forall_forall in *. auto.
  - rewrite json_ok_obj. cbn [json_image]. intros [_ O]. f_equal. rewrite <- (map_id o) at 2.
    apply map_ext_in. intros [k v] V%list_elem_of_In. rewrite Forall_forall in *. cbn. f_equal.
    apply (IH (k, v) V). by apply (O (k, v)).
Qed.

Lemma json_ok_parsed v : json_ok v -> parsed_ok v.
Proof.
  induction v as [| |b|x|s|l IH|o IH] using jsval_ind; try done.
  - cbn. tauto.
  - rewrite json_ok_arr, parsed_ok_arr, !Forall_forall in *. auto.
  - rewrite json_ok_obj, parsed_ok_obj, !Forall_forall in *. intros [C O]. split; [done|].
    intros kv K. destruct (O kv K). split; auto.
Qed.

(** [JSON.stringify] of a parsed value is a text that parses again, to the
    same value but for numbers JSON cannot hold; printing that gives the same
    text. *)
Lemma JSON_reprint gap v : parsed_ok v ->
  exists text, JSON_stringify gap v = Some text /\ JSON_parse text = Some (json_image v) /\
    JSON_stringify gap (json_image v) = Some text.
Proof.
  intros P. destruct (JSON_parse_stringify gap (json_image v) (json_image_ok v P)) as (text & S & R).
  exists text. unfold JSON_stringify in *. by rewrite stringify_image in *.
Qed.

(** ** Objects built field by field *)

(** Distinct keys that are not array indices keep the order they are written
    in. *)
Lemma canonical_plain ks :
  Forall (fun k => array_index k = None) ks -> NoDup ks -> canonical_keys ks.
Proof.
  induction ks as [|k ks IH]; intros F N; [constructor|].
  apply Forall_cons in F as [K F]. apply NoDup_cons in N as [Nk N].
  constructor; [by apply IH|]. rewrite Forall_forall in F |- *. intros k' I.
  split; [by intros ->|]. by rewrite K, (F k' I).
Qed.

Lemma canonical_sublist ks ks' :
  forallb (fun k => match array_index k with None => true | _ => false end) ks' = true ->
  bool_decide (NoDup ks') = true -> sublist ks ks' -> canonical_keys ks.
Proof.
  intros F N%bool_decide_eq_true S. apply canonical_plain; [|by eapply sublist_NoDup].
  apply Forall_forall. intros k I. eapply elem_of_submseteq in I; [|by apply sublist_submseteq].
  rewrite forallb_forall in F. apply list_elem_of_In, F in I. by destruct (array_index k).
Qed.

Lemma assoc_get_app {A} (l l' : list (jsstr * A)) k :
  assoc_get (l ++ l') k = match assoc_get l k with Some v => Some v | None => assoc_get l' k end.
Proof. induction l as [|[a w] l IH]; cbn; [done|]. by case_bool_decide. Qed.

Lemma assoc_get_if {A} (b : bool) (k' k : jsstr) (v : A) :
  assoc_get (if b then [(k', v)] else []) k = if b && bool_decide (k = k') then Some v else None.
Proof. by destruct b. Qed.

(** A text of code units, decided. *)
Lemma js_literal_ok k : forallb (fun c => (0 <=? c) && (c <? 65536)) k = true -> str_ok k.
Proof.
  intros F. apply Forall_forall. intros c I. rewrite forallb_forall in F.
  apply list_elem_of_In, F in I. unfold code_unit. lia.
Qed.

