(* ===== verification/TierPricing.v ===== *)
(** * Request tier pricing (web/src/pages/Setting/Ratio/utils/requestTierPricing.js)

    Tier rules give, per price category, a list of segments [{up_to, ratio}];
    [up_to = 0] stands for "no upper bound".  The file models the
    normalisers, the validator, the serialiser and the price table, and
    proves what validation guarantees and that normalisation is stable. *)

From Stdlib Require Import SpecFloat Sorted.
From stdpp Require Import base list numbers strings.
From S2P Require Import Prelude JsNumber JsString JsValue.
Local Open Scope Z_scope.
Local Open Scope js_scope.

(** ** Data *)

Record TierRow := { up_to : spec_float; ratio : spec_float }.

Record TierRule := {
  mode : jsval;
  input : list TierRow;
  output : list TierRow;
  cache_read : list TierRow;
  cache_write : list TierRow
}.

Inductive TierCategory := CInput | COutput | CCacheRead | CCacheWrite.

#[export] Instance TierCategory_eq_dec : EqDecision TierCategory.
Proof. solve_decision. Defined.

(** [TIER_CATEGORIES]: the keys with their labels, in order. *)
Definition TIER_CATEGORIES : list TierCategory := [CInput; COutput; CCacheRead; CCacheWrite].

Definition cat_key (c : TierCategory) : jsstr :=
  match c with
  | CInput => js "input"
  | COutput => js "output"
  | CCacheRead => js "cache_read"
  | CCacheWrite => js "cache_write"
  end.

Definition cat_label (c : TierCategory) : jsstr :=
  match c with
  | CInput => js "输入价格"
  | COutput => js "输出价格"
  | CCacheRead => js "缓存读取价格"
  | CCacheWrite => js "缓存写入价格"
  end.

(** [normalized\[key\]] *)
Definition cat_rows (r : TierRule) (c : TierCategory) : list TierRow :=
  match c with
  | CInput => input r
  | COutput => output r
  | CCacheRead => cache_read r
  | CCacheWrite => cache_write r
  end.

(** The objects these records stand for. *)
Definition row_val (r : TierRow) : jsval :=
  VObj [(js "up_to", VNum (up_to r)); (js "ratio", VNum (ratio r))].
Definition rows_val (rs : list TierRow) : jsval := VArr (map row_val rs).
Definition segments_val (rs : list TierRow) : jsval := VObj [(js "segments", rows_val rs)].

(** ** Normalisation *)

Definition normalizeTierRow (row : jsval) : TierRow :=
  {| up_to := to_num (vget row (js "up_to") ||| VNum n0);
     ratio := to_num (vget row (js "ratio") ??? VNum n0) |}.

Definition row_finite (r : TierRow) : bool := isFinite (up_to r) && isFinite (ratio r).

Definition normalizeTierRows (rows : jsval) : list TierRow :=
  base.filter (fun r => row_finite r = true) (map normalizeTierRow (as_arr rows)).

Definition normalizeTierSegments (tier : jsval) : list TierRow :=
  let src := if is_obj tier then tier else VObj [] in
  base.filter (fun r => row_finite r = true)
    (map normalizeTierRow (as_arr (vget src (js "segments")))).

Definition hasTierSegments (tier : jsval) : bool :=
  bool_decide (0 < length (normalizeTierSegments tier))%nat.

Definition ensureFinalInfinityTierSegments (segments : list TierRow) : list TierRow :=
  match last segments with
  | None => segments
  | Some r =>
      if neqb (up_to r) n0 then segments
      else segments ++ [{| up_to := n0; ratio := n0 |}]
  end.

Definition normalizeTierRule (rule : jsval) : TierRule :=
  let src := if is_obj rule then rule else VObj [] in
  {| mode := vget src (js "mode") ||| VStr (js "progressive");
     input := normalizeTierRows (vget src (js "input"));
     output := normalizeTierRows (vget src (js "output"));
     cache_read := normalizeTierRows (vget src (js "cache_read"));
     cache_write := normalizeTierRows (vget src (js "cache_write")) |}.

Definition ensureFinalInfinityTierRows (rows : jsval) : list TierRow :=
  let normalized := normalizeTierRows rows in
  match last normalized with
  | None => normalized
  | Some r =>
      if neqb (up_to r) n0 then normalized
      else normalized ++ [{| up_to := n0; ratio := n0 |}]
  end.

Definition hasTierRule (rule : jsval) : bool :=
  let normalized := normalizeTierRule rule in
  existsb (fun c => bool_decide (0 < length (cat_rows normalized c))%nat) TIER_CATEGORIES.

(** [serializeTierRule]: the mode and the non-empty categories. *)
Definition serializeTierRule (rule : jsval) : jsval :=
  let normalized := normalizeTierRule rule in
  VObj (fold_left
    (fun out c =>
       if bool_decide (0 < length (cat_rows normalized c))%nat
       then assoc_set out (cat_key c) (rows_val (cat_rows normalized c)) else out)
    TIER_CATEGORIES
    [(js "mode", mode normalized ||| VStr (js "progressive"))]).

(** ** Price/ratio conversion *)

Definition million : spec_float := num_of_Z 1000000.

Definition priceToRatio (priceUSD tokenCount : spec_float) : spec_float :=
  if negb (num_truthy priceUSD) || negb (num_truthy tokenCount) || nleb tokenCount n0
  then n0
  else nmax n0 (ndiv (nmul priceUSD million) tokenCount).

Definition ratioToPrice (r tokenCount : spec_float) : spec_float :=
  if negb (num_truthy r) || negb (num_truthy tokenCount) || nleb tokenCount n0
  then n0
  else ndiv (nmul r tokenCount) million.

(** ** Validation and display *)

Section Display.
(** The translation function of the i18n library. *)
Variable t : jsstr -> jsstr.

(** The inner loop of [validateTierRule] from row [i] of [n]; [Some] is an
    early return. *)
Fixpoint validateTierRows (label : jsstr) (previous : spec_float) (i n : nat)
    (rows : list TierRow) : option jsstr :=
  match rows with
  | [] => None
  | row :: rest =>
      if neqb (ratio row) n0 then Some (t label ++ js " " ++ t (js "价格不能为空"))
      else if nltb (ratio row) n0 then Some (t label ++ js " " ++ t (js "倍率不能小于 0"))
      else if nltb (up_to row) n0 then Some (t label ++ js " up_to " ++ t (js "不能小于 0"))
      else if neqb (up_to row) n0 && negb (Nat.eqb i (n - 1))
      then Some (t label ++ js " " ++ t (js "只有最后一档 up_to 可以为 0"))
      else if negb (neqb (up_to row) n0) && nleb (up_to row) previous
      then Some (t label ++ js " up_to " ++ t (js "必须递增"))
      else validateTierRows label
             (if neqb (up_to row) n0 then previous else up_to row) (S i) n rest
  end.

Fixpoint validateCategories (normalized : TierRule) (cs : list TierCategory) : jsstr :=
  match cs with
  | [] => []
  | c :: rest =>
      let rows := cat_rows normalized c in
      match validateTierRows (cat_label c) n0 0 (length rows) rows with
      | Some message => message
      | None => validateCategories normalized rest
      end
  end.

Definition validateTierRule (rule : jsval) : jsstr :=
  let normalized := normalizeTierRule rule in
  if negb (is_str (mode normalized) (js "progressive"))
  then t (js "仅支持 progressive 阶梯计费模式")
  else validateCategories normalized TIER_CATEGORIES.

(** The categories a summary lists: those switched on (input always), or
    all of them; then only those with rows. *)
Definition shownCategories (normalized : TierRule)
    (visibleCategories : option (TierCategory -> bool)) : list TierCategory :=
  base.filter (fun c => (0 < length (cat_rows normalized c))%nat)
    (base.filter (fun c =>
       match visibleCategories with
       | Some vis => match c with CInput => true | _ => vis c end
       | None => bool_decide (0 < length (cat_rows normalized c))%nat
       end = true) TIER_CATEGORIES).

Definition summarizeTierRule (rule : jsval)
    (visibleCategories : option (TierCategory -> bool)) : jsstr :=
  if negb (hasTierRule rule) then t (js "未配置")
  else
    let normalized := normalizeTierRule rule in
    join (js " / ")
      (map (fun c => t (cat_label c) ++ js " "
              ++ dec_digits (Z.of_nat (length (cat_rows normalized c))) ++ t (js "档"))
         (shownCategories normalized visibleCategories)).

Definition formatTierStartBound (v : spec_float) : jsstr := str_of_num v.
Definition formatTierEndBound (v : spec_float) : jsstr :=
  if neqb v n0 then js "∞" else str_of_num v.

Definition formatTierPrice (v : spec_float) : jsstr :=
  if negb (isFinite v) then js "-"
  else js "$" ++ str_of_num (num_of_str (to_fixed 6 v)).

Record TierSegmentDetail := { seg_range : jsstr; seg_price : jsstr; seg_ratio : spec_float }.
Record TierDetail := {
  detail_key : jsstr; detail_label : jsstr; detail_segments : list TierSegmentDetail
}.

(** The rows' bounds: each segment starts where the last bounded one ended. *)
Fixpoint tierBounds (previous : spec_float) (rows : list TierRow)
    : list (spec_float * spec_float) :=
  match rows with
  | [] => []
  | row :: rest =>
      (previous, up_to row)
      :: tierBounds (if num_truthy (up_to row) then up_to row else previous) rest
  end.

Definition tierSegment (row : TierRow) (bounds : spec_float * spec_float) : TierSegmentDetail :=
  {| seg_range := formatTierStartBound (fst bounds) ++ js "～" ++ formatTierEndBound (snd bounds);
     seg_price := formatTierPrice
       (if num_truthy (ratio row) then ratioToPrice (ratio row) million else n0);
     seg_ratio := ratio row |}.

Definition buildTierPriceDetails (rule : jsval)
    (visibleCategories : option (TierCategory -> bool)) : list TierDetail :=
  if negb (hasTierRule rule) then []
  else
    let normalized := normalizeTierRule rule in
    map (fun c =>
           let rows := ensureFinalInfinityTierRows (rows_val (cat_rows normalized c)) in
           {| detail_key := cat_key c;
              detail_label := t (cat_label c);
              detail_segments := zip_with tierSegment rows (tierBounds n0 rows) |})
      (shownCategories normalized visibleCategories).
End Display.

(** ** What validation accepts *)

Definition nlt (x y : spec_float) : Prop := nltb x y = true.

#[export] Instance nlt_transitive : Transitive nlt.
Proof. intros x y z. apply nltb_trans. Qed.

(** The contract of a category: positive ratios, strictly increasing
    positive bounds, and at most one unbounded segment, the last. *)
Definition tier_rows_ok (rows : list TierRow) : Prop :=
  Forall (fun r => nlt n0 (ratio r)) rows /\
  exists bounded tail, rows = bounded ++ tail /\
    (length tail <= 1)%nat /\ Forall (fun r => neqb (up_to r) n0 = true) tail /\
    StronglySorted nlt (n0 :: map up_to bounded).

Lemma normalizeTierRows_finite rows :
  Forall (fun r => row_finite r = true) (normalizeTierRows rows).
Proof. apply Forall_forall. intros r Hr. by apply list_elem_of_filter in Hr as [? _]. Qed.

Lemma cat_rows_finite rule c :
  Forall (fun r => row_finite r = true) (cat_rows (normalizeTierRule rule) c).
Proof. destruct c; apply normalizeTierRows_finite. Qed.

(** The rows still to be checked: positive ratios, bounds increasing from
    [previous], the unbounded row only at the end. *)
Definition rows_ok_from (previous : spec_float) (rows : list TierRow) : Prop :=
  Forall (fun r => nlt n0 (ratio r)) rows /\
  exists bounded tail, rows = bounded ++ tail /\
    (length tail <= 1)%nat /\ Forall (fun r => neqb (up_to r) n0 = true) tail /\
    Sorted nlt (previous :: map up_to bounded).

Lemma nlt_zero_irrefl x : neqb x n0 = true -> forall y, nltb y n0 = false -> ~ nlt y x.
Proof.
  intros [s ->]%neqb_zero y Hy. unfold nlt. destruct y as [|[]| |[]]; cbn in *; congruence.
Qed.

Lemma rows_ok_from_zero previous row rest :
  neqb (up_to row) n0 = true -> nltb previous n0 = false ->
  rows_ok_from previous (row :: rest) <-> nlt n0 (ratio row) /\ rest = [].
Proof.
  intros Hz Hp. split.
  - intros [HF (bounded & tail & E & Hl & Ht & HS)]. inversion HF; subst.
    split; [done|]. destruct bounded as [|b bounded]; simplify_eq/=.
    + destruct rest; [done|cbn in Hl; lia].
    + inversion HS as [|? ? _ HR]; inversion HR as [|? ? HR']; subst.
      by eapply nlt_zero_irrefl in HR'.
  - intros [Hr ->]. split; [by repeat constructor|].
    exists [], [row]. repeat split; cbn; [lia|by repeat constructor|by repeat constructor].
Qed.

Lemma rows_ok_from_bounded previous row rest :
  neqb (up_to row) n0 = false ->
  rows_ok_from previous (row :: rest) <->
  nlt n0 (ratio row) /\ nlt previous (up_to row) /\ rows_ok_from (up_to row) rest.
Proof.
  intros Hz. split.
  - intros [HF (bounded & tail & E & Hl & Ht & HS)]. inversion HF as [|? ? Hr HF']; subst.
    destruct bounded as [|b bounded]; simplify_eq/=.
    { inversion Ht; subst. congruence. }
    inversion HS as [|? ? HS' HR]; inversion HR as [|? ? HR']; subst.
    split_and!; [done|done|]. split; [done|]. eauto 10.
  - intros (Hr & Hp & HF & bounded & tail & -> & Hl & Ht & HS).
    split; [by constructor|]. exists (row :: bounded), tail.
    split_and!; trivial. cbn. constructor; [done|by constructor].
Qed.

Section Validate.
Variable t : jsstr -> jsstr.

Lemma validateTierRows_spec label rows previous i n :
  Forall (fun r => row_finite r = true) rows ->
  isFinite previous = true -> nltb previous n0 = false -> (i + length rows = n)%nat ->
  validateTierRows t label previous i n rows = None <-> rows_ok_from previous rows.
Proof.
  revert previous i. induction rows as [|row rest IH]; intros previous i HF Hfin Hp Hn; cbn.
  { split; [intros _|done]. split; [by constructor|].
    exists [], []. split_and!; cbn; [done|lia|by constructor|by repeat constructor]. }
  apply Forall_cons in HF as [Hrow HF]. apply andb_true_iff in Hrow as [Hu Hr].
  destruct (neqb (ratio row) n0) eqn:R0.
  { split; [done|]. intros [HR _]. inversion HR as [|? ? HR' _]; subst.
    apply neqb_zero in R0 as [s R0]. unfold nlt in HR'. by rewrite R0 in HR'. }
  destruct (nltb (ratio row) n0) eqn:R1.
  { split; [done|]. intros [HR _]. inversion HR as [|? ? HR' _]; subst.
    pose proof (nltb_trans _ _ _ R1 HR') as X.
    unfold nltb, SFltb in X. cbn in X. destruct (ratio row) as [|[]| |[]]; done. }
  pose proof (num_pos _ Hr R0 R1) as Rpos.
  destruct (neqb (up_to row) n0) eqn:U0; cbn [andb negb].
  - assert (nltb (up_to row) n0 = false) as ->.
    { apply neqb_zero in U0 as [s ->]. done. }
    rewrite rows_ok_from_zero by done.
    destruct (Nat.eqb_spec i (n - 1)) as [E|E]; cbn [negb].
    + cbn in Hn. assert (rest = []) as -> by (destruct rest; cbn in *; [done|lia]). cbn. tauto.
    + split; [done|]. intros [_ ->]. cbn in Hn. lia.
  - rewrite rows_ok_from_bounded by done.
    destruct (nltb (up_to row) n0) eqn:U1.
    { split; [done|]. intros (_ & Hlt & _).
      pose proof (nltb_trans _ _ _ Hlt U1). congruence. }
    rewrite nltb_nleb by done.
    destruct (nltb previous (up_to row)) eqn:U2; cbn [negb].
    + rewrite IH by (trivial; cbn in Hn; lia). unfold nlt. tauto.
    + split; [done|]. unfold nlt. intros (_ & ? & _). congruence.
Qed.

Lemma rows_ok_from_zero_iff rows : rows_ok_from n0 rows <-> tier_rows_ok rows.
Proof.
  unfold rows_ok_from, tier_rows_ok. split; intros [HF (b & tl & ? & ? & ? & HS)];
    (split; [done|]; exists b, tl; split_and!; trivial).
  - apply Sorted_StronglySorted; [|done]. exact nlt_transitive.
  - by apply StronglySorted_Sorted.
Qed.

Lemma validateTierRows_message label previous i n rows m :
  validateTierRows t label previous i n rows = Some m -> m <> [].
Proof.
  revert previous i. induction rows as [|row rest IH]; intros previous i; cbn; [done|].
  repeat case_match; intros; simplify_eq; eauto;
    intros X; apply app_nil in X as [_ X]; done.
Qed.

Lemma validateCategories_spec rule cs :
  validateCategories t (normalizeTierRule rule) cs = [] <->
  Forall (fun c => tier_rows_ok (cat_rows (normalizeTierRule rule) c)) cs.
Proof.
  induction cs as [|c cs IH]; cbn; [done|]. rewrite Forall_cons.
  pose proof (validateTierRows_spec (cat_label c) (cat_rows (normalizeTierRule rule) c)
    n0 0 _ (cat_rows_finite rule c) eq_refl eq_refl eq_refl) as V.
  rewrite rows_ok_from_zero_iff in V. cbn in V.
  destruct (validateTierRows t _ _ _ _ _) as [m|] eqn:E.
  - apply validateTierRows_message in E. split; [done|]. intros [H _]. by apply V in H.
  - rewrite IH. tauto.
Qed.

(** C36. [validateTierRule] accepts a rule (returns the empty message)
    exactly when its mode is progressive and every category meets the
    contract [tier_rows_ok]: positive ratios, strictly increasing positive
    bounds and no unbounded segment before the last. *)
Theorem validateTierRule_accepts_iff rule :
  t (js "仅支持 progressive 阶梯计费模式") <> [] ->
  validateTierRule t rule = [] <->
  is_str (mode (normalizeTierRule rule)) (js "progressive") = true /\
  forall c, tier_rows_ok (cat_rows (normalizeTierRule rule) c).
Proof.
  intros Ht. unfold validateTierRule.
  destruct (is_str _ _) eqn:E; cbn [negb].
  - rewrite validateCategories_spec. unfold TIER_CATEGORIES. split.
    + intros H. split; [done|]. rewrite Forall_forall in H.
      intros c. apply H, list_elem_of_In. destruct c; cbn; tauto.
    + intros [_ H]. apply Forall_forall. auto.
  - split; [done|]. by intros [? _].
Qed.
End Validate.

(** ** Normalisation is stable *)

(** The only change a second normalisation makes: [-0 || 0] is [0]. *)
Definition plus_zero (x : spec_float) : spec_float :=
  match x with S754_zero _ => n0 | _ => x end.
Definition plus_zero_row (r : TierRow) : TierRow :=
  {| up_to := plus_zero (up_to r); ratio := ratio r |}.

Lemma normalizeTierRow_val r :
  row_finite r = true -> normalizeTierRow (row_val r) = plus_zero_row r.
Proof.
  destruct r as [u v]. unfold row_finite, plus_zero_row, normalizeTierRow. cbn -[js].
  intros [Hu _]%andb_true_iff.
  rewrite (bool_decide_false (js "ratio" = js "up_to")) by (by vm_compute).
  rewrite !bool_decide_true by done. cbn. by destruct u.
Qed.

Lemma normalizeTierRows_val rows :
  Forall (fun r => row_finite r = true) rows ->
  normalizeTierRows (rows_val rows) = map plus_zero_row rows.
Proof.
  intros H. unfold normalizeTierRows, rows_val. cbn. rewrite map_map.
  induction H as [|r rows Hr HF IH]; [done|]. cbn [map].
  rewrite filter_cons, normalizeTierRow_val by done.
  rewrite decide_True, IH; [done|].
  destruct r as [[] ?]; unfold row_finite in *; cbn in *; done.
Qed.

Lemma normalizeTierSegments_obj o :
  normalizeTierSegments (VObj o) = normalizeTierRows (vget (VObj o) (js "segments")).
Proof. done. Qed.

Lemma normalizeTierSegments_finite tier :
  Forall (fun r => row_finite r = true) (normalizeTierSegments tier).
Proof.
  apply Forall_forall. intros r Hr. by apply list_elem_of_filter in Hr as [? _].
Qed.

Lemma normalizeTierSegments_val rows :
  Forall (fun r => row_finite r = true) rows ->
  normalizeTierSegments (segments_val rows) = map plus_zero_row rows.
Proof. intros H. exact (normalizeTierRows_val rows H). Qed.

Lemma plus_zero_row_idem r : plus_zero_row (plus_zero_row r) = plus_zero_row r.
Proof. by destruct r as [[] ?]. Qed.

Lemma plus_zero_row_finite rows :
  Forall (fun r => row_finite r = true) rows ->
  Forall (fun r => row_finite r = true) (map plus_zero_row rows).
Proof.
  intros H. apply Forall_map. eapply Forall_impl; [exact H|]. intros [[] ?]; done.
Qed.

(** Normalising tier segments that are already normalised keeps every
    row and changes nothing but a negative zero bound, and a third
    normalisation changes nothing at all: editing, copying and reloading a
    tier cannot drift. *)
Theorem normalizeTierSegments_stable tier :
  let once := normalizeTierSegments tier in
  let twice := normalizeTierSegments (segments_val once) in
  twice = map plus_zero_row once /\
  normalizeTierSegments (segments_val twice) = twice.
Proof.
  cbv zeta. pose proof (normalizeTierSegments_finite tier) as F.
  rewrite (normalizeTierSegments_val _ F). split; [done|].
  rewrite normalizeTierSegments_val by by apply plus_zero_row_finite.
  rewrite map_map. apply map_ext. apply plus_zero_row_idem.
Qed.

Lemma assoc_get_set_if {A} (b : bool) (o : list (jsstr * A)) k v k' :
  assoc_get (if b then assoc_set o k v else o) k'
  = if b && bool_decide (k' = k) then Some v else assoc_get o k'.
Proof.
  destruct b; [|done]. rewrite assoc_get_set. by repeat case_decide; repeat case_bool_decide.
Qed.

Lemma cat_key_eq c c' : bool_decide (cat_key c = cat_key c') = bool_decide (c = c').
Proof. destruct c, c'; by vm_compute. Qed.

Lemma cat_key_not_mode c : bool_decide (cat_key c = js "mode") = false.
Proof. destruct c; by vm_compute. Qed.

Lemma mode_not_cat_key c : bool_decide (js "mode" = cat_key c) = false.
Proof. destruct c; by vm_compute. Qed.

(** The category entries of a serialised rule. *)
Lemma serializeTierRule_get rule c :
  vget (serializeTierRule rule) (cat_key c)
  = match cat_rows (normalizeTierRule rule) c with [] => VUndef | rows => rows_val rows end.
Proof.
  unfold serializeTierRule. cbn [TIER_CATEGORIES fold_left vget].
  rewrite !assoc_get_set_if, !cat_key_eq. cbn [assoc_get].
  rewrite cat_key_not_mode. destruct c; cbn -[js rows_val normalizeTierRule];
    rewrite ?andb_false_r, ?andb_true_r; cbn -[js rows_val normalizeTierRule];
    match goal with |- context [bool_decide (0 < length ?l)%nat] => destruct l end; done.
Qed.

Lemma mode_truthy rule : truthy (mode (normalizeTierRule rule)) = true.
Proof.
  unfold normalizeTierRule, js_or. cbn [mode].
  by destruct (truthy (vget _ (js "mode"))) eqn:E; rewrite ?E.
Qed.

Lemma serializeTierRule_mode rule :
  vget (serializeTierRule rule) (js "mode") = mode (normalizeTierRule rule).
Proof.
  unfold serializeTierRule. cbn [TIER_CATEGORIES fold_left vget].
  rewrite !assoc_get_set_if, !mode_not_cat_key, !andb_false_r. cbn [assoc_get].
  rewrite bool_decide_true by done. cbn [default]. unfold js_or. by rewrite mode_truthy.
Qed.

Lemma normalizeTierRows_roundtrip rule c :
  normalizeTierRows (vget (serializeTierRule rule) (cat_key c))
  = map plus_zero_row (cat_rows (normalizeTierRule rule) c).
Proof.
  rewrite serializeTierRule_get. pose proof (cat_rows_finite rule c) as F.
  destruct (cat_rows (normalizeTierRule rule) c); [done|]. by apply normalizeTierRows_val.
Qed.

(** A saved tier rule reads back as itself: normalising the serialised
    form gives the same mode and, in every category, the same rows (a
    negative zero bound becomes zero). *)
Theorem serializeTierRule_roundtrip rule :
  let r := normalizeTierRule rule in
  normalizeTierRule (serializeTierRule rule) =
  {| mode := mode r;
     input := map plus_zero_row (input r);
     output := map plus_zero_row (output r);
     cache_read := map plus_zero_row (cache_read r);
     cache_write := map plus_zero_row (cache_write r) |}.
Proof.
  cbv zeta. set (r := normalizeTierRule rule).
  unfold normalizeTierRule at 1. change (is_obj (serializeTierRule rule)) with true. cbv iota zeta.
  change (js "input") with (cat_key CInput). rewrite (normalizeTierRows_roundtrip rule CInput).
  change (js "output") with (cat_key COutput). rewrite (normalizeTierRows_roundtrip rule COutput).
  change (js "cache_read") with (cat_key CCacheRead). rewrite (normalizeTierRows_roundtrip rule CCacheRead).
  change (js "cache_write") with (cat_key CCacheWrite). rewrite (normalizeTierRows_roundtrip rule CCacheWrite).
  rewrite serializeTierRule_mode. unfold js_or. by rewrite mode_truthy.
Qed.

(** ** The price table of a validated rule tiles the token range *)

(** The bounds start at [from], each segment starts where the previous one
    ends, grows, and only the last is unbounded. *)
Fixpoint tiles (from : spec_float) (bounds : list (spec_float * spec_float)) : Prop :=
  match bounds with
  | [] => False
  | [(a, b)] => a = from /\ neqb b n0 = true
  | (a, b) :: rest => a = from /\ nlt a b /\ tiles b rest
  end.

Lemma neqb_truthy x : isFinite x = true -> num_truthy x = negb (neqb x n0).
Proof. destruct x as [|[]| |[]]; done. Qed.

Lemma tierBounds_tiles bounded tail previous :
  neqb (up_to tail) n0 = true ->
  Forall (fun r => isFinite (up_to r) = true /\ neqb (up_to r) n0 = false) bounded ->
  Sorted nlt (previous :: map up_to bounded) ->
  tiles previous (tierBounds previous (bounded ++ [tail])).
Proof.
  intros Ht. revert previous.
  induction bounded as [|r bounded IH]; intros previous HF HS; cbn [app tierBounds].
  { done. }
  apply Forall_cons in HF as [[Hfin Hr] HF].
  inversion HS as [|? ? HS' HR]; inversion HR as [|? ? HR']; subst.
  rewrite neqb_truthy, Hr by done. cbn [negb].
  specialize (IH (up_to r) HF HS').
  destruct (tierBounds (up_to r) (bounded ++ [tail])) eqn:E; [by destruct IH|].
  by split_and!.
Qed.

Lemma tier_rows_positive previous bounded :
  nltb previous n0 = false -> Sorted nlt (previous :: map up_to bounded) ->
  Forall (fun r => neqb (up_to r) n0 = false) bounded.
Proof.
  revert previous. induction bounded as [|r bounded IH]; intros previous Hp HS; [done|].
  inversion HS as [|? ? HS' HR]; inversion HR as [|? ? HR']; subst.
  assert (neqb (up_to r) n0 = false).
  { destruct (neqb (up_to r) n0) eqn:E; [|done]. by apply (nlt_zero_irrefl _ E previous) in HR'. }
  constructor; [done|]. apply (IH (up_to r)); [|done].
  destruct (nltb (up_to r) n0) eqn:E; [|done].
  pose proof (nltb_trans _ _ _ HR' E). congruence.
Qed.

(** For every category of a rule that passes validation, the price table
    covers the whole range of tokens without gap or overlap: it starts at 0,
    each row starts where the one before ends, the bounds increase, and the
    last row (appended when the rule has none) is unbounded. *)
Theorem tier_price_table_tiles rule c :
  tier_rows_ok (cat_rows (normalizeTierRule rule) c) ->
  cat_rows (normalizeTierRule rule) c <> [] ->
  let rows := ensureFinalInfinityTierRows (rows_val (cat_rows (normalizeTierRule rule) c)) in
  tiles n0 (tierBounds n0 rows).
Proof.
  intros [_ (bounded & tail & E & Hl & Ht & HS)] Hne. cbv zeta.
  pose proof (cat_rows_finite rule c) as F. rewrite E in *. clear E.
  unfold ensureFinalInfinityTierRows. rewrite normalizeTierRows_val, map_app by done.
  apply StronglySorted_Sorted in HS.
  assert (P : Forall (fun r => neqb (up_to r) n0 = false) bounded)
    by exact (tier_rows_positive n0 bounded eq_refl HS).
  assert (Id : map plus_zero_row bounded = bounded).
  { clear -P. induction P as [|[u v] l Hr _ IH]; [done|]. cbn. rewrite IH. f_equal.
    by destruct u. }
  assert (B : Forall (fun r => isFinite (up_to r) = true /\ neqb (up_to r) n0 = false) bounded).
  { apply Forall_app in F as [F _]. apply Forall_forall. intros r Hr.
    rewrite Forall_forall in P, F. specialize (F r Hr). apply andb_true_iff in F as [? _]. auto. }
  rewrite Id. destruct tail as [|tl [|]]; [| |cbn in Hl; lia].
  - rewrite app_nil_r. destruct (last bounded) as [r|] eqn:L.
    + assert (neqb (up_to r) n0 = false) as ->.
      { rewrite Forall_forall in P. apply P. by apply last_Some_elem_of. }
      by apply tierBounds_tiles.
    + apply last_None in L as ->. done.
  - apply Forall_cons in Ht as [Ht _]. cbn [map]. rewrite last_snoc.
    assert (Z : neqb (up_to (plus_zero_row tl)) n0 = true).
    { apply neqb_zero in Ht as [s Ht]. unfold plus_zero_row. cbn. by rewrite Ht. }
    rewrite Z. by apply tierBounds_tiles.
Qed.

(** ** Instances *)

(** Two input segments, up to 1000 and beyond, and an output segment. *)
Definition sample_rule : jsval :=
  let seg u r := VObj [(js "up_to", VNum (num_of_Z u)); (js "ratio", VNum (num_of_Z r))] in
  VObj [(js "mode", VStr (js "progressive"));
        (js "input", VArr [seg 1000 3; seg 0 2]);
        (js "output", VArr [seg 500 4])].

Lemma validateTierRule_accepts_iff_witness :
  validateTierRule (fun s => s) sample_rule = [] /\
  forall c, tier_rows_ok (cat_rows (normalizeTierRule sample_rule) c).
Proof.
  split; [vm_compute; reflexivity|].
  apply (proj1 (validateTierRule_accepts_iff (fun s => s) sample_rule ltac:(discriminate))).
  vm_compute. reflexivity.
Defined.

Lemma tier_price_table_tiles_witness :
  tiles n0 (tierBounds n0 (ensureFinalInfinityTierRows
    (rows_val (cat_rows (normalizeTierRule sample_rule) COutput)))).
Proof.
  apply (tier_price_table_tiles sample_rule COutput); [|vm_compute; discriminate].
  assert (F := proj1 (validateCategories_spec (fun s => s) sample_rule [COutput])
                 ltac:(vm_compute; reflexivity)).
  exact (Forall_inv F).
Defined.
