(* ===== verification/PricingModel.v ===== *)
(** * The pricing editor's model state
      (web/src/pages/Setting/Ratio/hooks/useModelPricingEditorState.js)

    Values, rows and model records of the pricing editor, the numeric
    helpers, and [buildModelState], which derives the editable prices of a
    model from the stored option maps. *)

From Stdlib Require Import SpecFloat.
From stdpp Require Import base list numbers strings.
From S2P Require Import Prelude JsNumber JsString JsValue TierPricing.
Local Open Scope Z_scope.
Local Open Scope js_scope.

(** ** Numeric helpers *)

(** [value !== '' && value !== null && value !== undefined && value !== false] *)
Definition hasValue (v : jsval) : bool :=
  match v with
  | VUndef | VNull | VBool false => false
  | VStr s => str_truthy s
  | _ => true
  end.

(** A string field of a row; [None] is [undefined]. *)
Definition opt_val (o : option jsstr) : jsval :=
  match o with Some s => VStr s | None => VUndef end.

Definition is_zero_num (v : jsval) : bool :=
  match v with VNum x => neqb x n0 | _ => false end.

Definition toNumericString (value : jsval) : jsstr :=
  if negb (hasValue value) && negb (is_zero_num value) then []
  else
    let num := to_num value in
    if isFinite num then str_of_num num else [].

Definition toNumberOrNull (value : jsval) : option spec_float :=
  if negb (hasValue value) && negb (is_zero_num value) then None
  else
    let num := to_num value in
    if isFinite num then Some num else None.

Definition eps12 : spec_float := dec_num false 1 (-12).
Definition eps9 : spec_float := dec_num false 1 (-9).
Definition eps6 : spec_float := dec_num false 1 (-6).

Definition formatNumber (value : jsval) : jsstr :=
  match toNumberOrNull value with
  | None => []
  | Some num =>
      let rounded := num_of_str (to_fixed 12 num) in
      if nltb (nabs rounded) eps12 then js "0"
      else
        let nearestInt := math_round rounded in
        if nltb (nabs (nsub rounded nearestInt)) eps9 then str_of_num nearestInt
        else str_of_num rounded
  end.

Definition toNormalizedNumber (value : jsval) : option spec_float :=
  let formatted := formatNumber value in
  match formatted with [] => None | _ => Some (num_of_str formatted) end.

(** ** Currencies *)

Record CurrencyRates := { rate_USD : spec_float; rate_CNY : spec_float; rate_CUSTOM : spec_float }.

(** [currencyRates\[unit\]] *)
Definition rate_of (rates : CurrencyRates) (unit : jsstr) : option spec_float :=
  if bool_decide (unit = js "USD") then Some (rate_USD rates)
  else if bool_decide (unit = js "CNY") then Some (rate_CNY rates)
  else if bool_decide (unit = js "CUSTOM") then Some (rate_CUSTOM rates)
  else None.

(** [currencyRates\[unit\] > 0 ? currencyRates\[unit\] : 1] *)
Definition positive_rate (rates : CurrencyRates) (unit : jsstr) : spec_float :=
  match rate_of rates unit with
  | Some r => if nltb n0 r then r else n1
  | None => n1
  end.

(** [\['USD', 'CNY', 'CUSTOM'\].includes(unit)] *)
Definition known_unit (unit : jsstr) : bool :=
  bool_decide (unit ∈ [js "USD"; js "CNY"; js "CUSTOM"]).

Definition fromUSDToDisplay (value : jsval) (unit : jsstr) (rates : CurrencyRates) : jsstr :=
  match toNumberOrNull value with
  | None => []
  | Some num => formatNumber (VNum (nmul num (positive_rate rates unit)))
  end.

(** ** Rows of the video and image tables *)

Record VideoRow := {
  resolution : jsval;
  tokenPrice : option jsstr;
  videoPrice : option jsstr;
  noAudioPrice : option jsstr;
  withAudioPrice : option jsstr;
  pixelCompression : option jsstr;
  audioPricingEnabled : bool;
  hasAudio : bool
}.

#[export] Instance VideoRow_eta : Eta VideoRow := fun r => {|
  resolution := resolution r; tokenPrice := tokenPrice r; videoPrice := videoPrice r;
  noAudioPrice := noAudioPrice r; withAudioPrice := withAudioPrice r;
  pixelCompression := pixelCompression r; audioPricingEnabled := audioPricingEnabled r;
  hasAudio := hasAudio r |}.

Record ImageRow := { img_resolution : jsval; img_price : option jsstr }.

#[export] Instance ImageRow_eta : Eta ImageRow := fun r => {|
  img_resolution := img_resolution r; img_price := img_price r |}.

Definition mapVideoRuleRowsToDisplayUnit (rows : list VideoRow) (unit : jsstr)
    (rates : CurrencyRates) : list VideoRow :=
  map (fun row => row
    <| tokenPrice := Some (fromUSDToDisplay (opt_val (tokenPrice row)) unit rates) |>
    <| videoPrice := Some (fromUSDToDisplay (opt_val (videoPrice row)) unit rates) |>
    <| noAudioPrice := Some (fromUSDToDisplay (opt_val (noAudioPrice row)) unit rates) |>
    <| withAudioPrice := Some (fromUSDToDisplay (opt_val (withAudioPrice row)) unit rates) |>) rows.

Definition mapImageRuleRowsToDisplayUnit (rows : list ImageRow) (unit : jsstr)
    (rates : CurrencyRates) : list ImageRow :=
  map (fun row => row
    <| img_price := Some (fromUSDToDisplay (opt_val (img_price row)) unit rates) |>) rows.

(** ** Resolutions *)

(** [^\s*\d+\s*x\s*\d+\s*$] without case *)
Definition video_resolution_regex (s : jsstr) : bool :=
  match span_digits (drop_ws s) with
  | ([], _) => false
  | (_, r) =>
      match drop_ws r with
      | c :: r =>
          if (c =? 120) || (c =? 88) then
            match span_digits (drop_ws r) with
            | ([], _) => false
            | (_, r) => match drop_ws r with [] => true | _ => false end
            end
          else false
      | [] => false
      end
  end.

(** [^\s*(\d+\s*p|\[1248\]\s*k)\s*$] without case *)
Definition video_resolution_alias_regex (s : jsstr) : bool :=
  match span_digits (drop_ws s) with
  | ([], _) => false
  | (d, r) =>
      match drop_ws r with
      | c :: r =>
          ((c =? 112) || (c =? 80)
           || ((c =? 107) || (c =? 75))
              && bool_decide (d ∈ [[49]; [50]; [52]; [56]]))
          && match drop_ws r with [] => true | _ => false end
      | [] => false
      end
  end.

Definition isValidVideoResolution (resolution : jsval) : bool :=
  let s := to_str (resolution ||| VStr []) in
  video_resolution_regex s || video_resolution_alias_regex s.

Definition DEFAULT_TEXT_VIDEO_PIXEL_COMPRESSION : jsstr := js "384".
Definition DEFAULT_IMAGE_VIDEO_PIXEL_COMPRESSION : jsstr := js "512".
Definition DEFAULT_VIDEO_VIDEO_PIXEL_COMPRESSION : jsstr := js "384".

Definition normalizeVideoRuleRow (row : jsval) : VideoRow :=
  let audio := truthy (vget row (js "has_audio")) in
  let price := toNumericString (vget row (js "token_price")) in
  {| resolution := vget row (js "resolution") ||| VStr [];
     tokenPrice := Some price;
     videoPrice := None;
     noAudioPrice := Some (if audio then [] else price);
     withAudioPrice := Some (if audio then price else []);
     pixelCompression := Some (toNumericString (vget row (js "pixel_compression")));
     audioPricingEnabled := audio;
     hasAudio := audio |}.

Definition normalizePerImageRuleRow (row : jsval) : ImageRow :=
  {| img_resolution := vget row (js "resolution") ||| VStr [];
     img_price := Some (toNumericString (vget row (js "image_price"))) |}.

(** [!rawRules || typeof rawRules !== 'object' || Array.isArray(rawRules)], negated *)
Definition is_plain_obj (v : jsval) : bool := match v with VObj _ => true | _ => false end.

Record ImageRules := {
  ir_textToImage : list ImageRow;
  ir_imageToImage : list ImageRow;
  ir_similarityThreshold : jsstr;
  ir_priceUnit : jsstr
}.

Section Parse.
Context `{Unicode}.

Definition price_unit_of (rawRules : jsval) : jsstr :=
  toUpperCase (trim (to_str (vget rawRules (js "price_unit") ||| VStr []))).

Definition parseImagePricingRules (rawRules : jsval) : ImageRules :=
  if negb (is_plain_obj rawRules) then
    {| ir_textToImage := []; ir_imageToImage := [];
       ir_similarityThreshold := []; ir_priceUnit := [] |}
  else
    {| ir_textToImage :=
         map normalizePerImageRuleRow (as_arr (vget rawRules (js "text_to_image_per_image")));
       ir_imageToImage :=
         map normalizePerImageRuleRow (as_arr (vget rawRules (js "image_to_image_per_image")));
       ir_similarityThreshold := toNumericString (vget rawRules (js "similarity_threshold"));
       ir_priceUnit := price_unit_of rawRules |}.

(** ** Grouping the rows with and without audio of one resolution *)

Inductive ValueKey := KPrice | KVideoPrice.

Record AudioItem := {
  item_resolution : jsstr;
  item_noAudio : jsstr;
  item_withAudio : jsstr
}.

(** [resolution.replace(/\s+/g, '').toLowerCase()] *)
Definition resolution_key (s : jsstr) : jsstr := toLowerCase (remove_ws s).

Definition audio_value (valueKey : ValueKey) (row : jsval) : jsstr :=
  match valueKey with
  | KVideoPrice =>
      toNumericString
        (match vget row (js "video_price") with
         | VUndef => vget row (js "price")
         | v => v
         end)
  | KPrice => toNumericString (vget row (js "price"))
  end.

Definition set_audio (item : AudioItem) (hasAudio : bool) (value : jsstr) : AudioItem :=
  if hasAudio
  then {| item_resolution := item_resolution item; item_noAudio := item_noAudio item;
          item_withAudio := value |}
  else {| item_resolution := item_resolution item; item_noAudio := value;
          item_withAudio := item_withAudio item |}.

(** The item of [key], created at the end when it is new; then the row's
    value is recorded on its side. *)
Fixpoint record_row (grouped : list (jsstr * AudioItem)) (key res : jsstr)
    (hasAudio : bool) (value : jsstr) : list (jsstr * AudioItem) :=
  match grouped with
  | [] =>
      let item := {| item_resolution := res; item_noAudio := []; item_withAudio := [] |} in
      [(key, if str_truthy value then set_audio item hasAudio value else item)]
  | (k, item) :: rest =>
      if bool_decide (k = key)
      then (k, if str_truthy value then set_audio item hasAudio value else item) :: rest
      else (k, item) :: record_row rest key res hasAudio value
  end.

Definition group_row (valueKey : ValueKey) (grouped : list (jsstr * AudioItem)) (row : jsval)
    : list (jsstr * AudioItem) :=
  let res := to_str (vget row (js "resolution") ||| VStr []) in
  if negb (str_truthy res) then grouped
  else record_row grouped (resolution_key res) res
         (truthy (vget row (js "has_audio"))) (audio_value valueKey row).

Definition same_price (a b : option spec_float) : bool :=
  match a, b with
  | Some x, Some y => nltb (nabs (nsub x y)) eps6
  | _, _ => false
  end.

Definition audio_row (valueKey : ValueKey) (item : AudioItem) : VideoRow :=
  let hasNoAudio := hasValue (VStr (item_noAudio item)) in
  let hasWithAudio := hasValue (VStr (item_withAudio item)) in
  let bothPresent := hasNoAudio && hasWithAudio in
  let samePrice := bothPresent
    && same_price (toNumberOrNull (VStr (item_noAudio item)))
                  (toNumberOrNull (VStr (item_withAudio item))) in
  let enabled := bothPresent && negb samePrice in
  let unifiedPrice :=
    if hasNoAudio then item_noAudio item
    else if hasWithAudio then item_withAudio item else [] in
  {| resolution := VStr (item_resolution item);
     tokenPrice := Some (match valueKey with
                         | KPrice => if enabled then [] else unifiedPrice
                         | KVideoPrice => [] end);
     videoPrice := Some (match valueKey with
                         | KVideoPrice => if enabled then [] else unifiedPrice
                         | KPrice => [] end);
     noAudioPrice := Some (item_noAudio item);
     withAudioPrice := Some (item_withAudio item);
     pixelCompression := None;
     audioPricingEnabled := enabled;
     hasAudio := false |}.

Definition normalizeAudioPricedRows (rows : jsval) (valueKey : ValueKey) : list VideoRow :=
  map (fun kv => audio_row valueKey (snd kv))
    (fold_left (group_row valueKey) (as_arr rows) []).

(** ** Stored video rules *)

Record VideoRules := {
  vr_textToVideo : list VideoRow;
  vr_imageToVideo : list VideoRow;
  vr_videoUpload : list VideoRow;
  vr_videoGenerate : list VideoRow;
  vr_textToVideoPerSecond : list VideoRow;
  vr_imageToVideoPerSecond : list VideoRow;
  vr_videoToVideoPerSecond : list VideoRow;
  vr_textToVideoPerVideo : list VideoRow;
  vr_imageToVideoPerVideo : list VideoRow;
  vr_videoUploadPerVideo : list VideoRow;
  vr_videoGeneratePerVideo : list VideoRow;
  vr_similarityThreshold : jsstr;
  vr_priceUnit : jsstr
}.

Definition empty_video_rules : VideoRules := {|
  vr_textToVideo := []; vr_imageToVideo := []; vr_videoUpload := []; vr_videoGenerate := [];
  vr_textToVideoPerSecond := []; vr_imageToVideoPerSecond := []; vr_videoToVideoPerSecond := [];
  vr_textToVideoPerVideo := []; vr_imageToVideoPerVideo := []; vr_videoUploadPerVideo := [];
  vr_videoGeneratePerVideo := []; vr_similarityThreshold := []; vr_priceUnit := [] |}.

(** [Array.isArray(rawRules\[k\]) ? rawRules\[k\].map(normalizeVideoRuleRow) : \[\]] *)
Definition token_rows (rawRules : jsval) (k : jsstr) : list VideoRow :=
  map normalizeVideoRuleRow (as_arr (vget rawRules k)).

Definition per_second_rows (rawRules : jsval) (k : jsstr) : list VideoRow :=
  map (fun row => row <| pixelCompression := Some [] |>)
    (normalizeAudioPricedRows (vget rawRules k) KPrice).

Definition per_video_rows (rawRules : jsval) (k k' : jsstr) : list VideoRow :=
  normalizeAudioPricedRows (vget rawRules k ||| vget rawRules k') KVideoPrice.

(** [a.length > 0 ? a : b] *)
Definition or_rows {A} (a b : list A) : list A := match a with [] => b | _ => a end.

Definition legacy_image_rule (rawRules : jsval) : list VideoRow :=
  let imageRule := vget rawRules (js "image_to_video") in
  if truthy imageRule && truthy (vget imageRule (js "token_price")) then
    [{| resolution := VStr (js "1280x720");
        tokenPrice := Some (toNumericString (vget imageRule (js "token_price")));
        videoPrice := None; noAudioPrice := None; withAudioPrice := None;
        pixelCompression := Some (toNumericString (vget imageRule (js "pixel_compression")));
        audioPricingEnabled := false; hasAudio := false |}]
  else [].

Definition parseVideoPricingRules (rawRules : jsval) : VideoRules :=
  if negb (is_plain_obj rawRules) then empty_video_rules
  else
    let videoToVideoPerSecond := per_second_rows rawRules (js "video_to_video_per_second") in
    {| vr_textToVideo := token_rows rawRules (js "text_to_video");
       vr_imageToVideo :=
         or_rows (token_rows rawRules (js "image_to_video_rules")) (legacy_image_rule rawRules);
       vr_videoUpload := token_rows rawRules (js "video_to_video_input");
       vr_videoGenerate :=
         or_rows (token_rows rawRules (js "video_to_video_output"))
           (or_rows videoToVideoPerSecond (token_rows rawRules (js "video_to_video")));
       vr_textToVideoPerSecond := per_second_rows rawRules (js "text_to_video_per_second");
       vr_imageToVideoPerSecond := per_second_rows rawRules (js "image_to_video_per_second");
       vr_videoToVideoPerSecond := videoToVideoPerSecond;
       vr_textToVideoPerVideo :=
         per_video_rows rawRules (js "text_to_video_per_item") (js "text_to_video_per_video");
       vr_imageToVideoPerVideo :=
         per_video_rows rawRules (js "image_to_video_per_item") (js "image_to_video_per_video");
       vr_videoUploadPerVideo :=
         per_video_rows rawRules (js "video_to_video_input_per_item")
           (js "video_to_video_input_per_video");
       vr_videoGeneratePerVideo :=
         or_rows
           (per_video_rows rawRules (js "video_to_video_output_per_item")
              (js "video_to_video_output_per_video"))
           (normalizeAudioPricedRows (vget rawRules (js "video_to_video_per_item")) KVideoPrice);
       vr_similarityThreshold := toNumericString (vget rawRules (js "similarity_threshold"));
       vr_priceUnit := price_unit_of rawRules |}.

Definition ratioToBasePrice (ratio : jsval) : jsstr :=
  match toNumberOrNull ratio with
  | None => []
  | Some num => formatNumber (VNum (nmul num (num_of_Z 2)))
  end.

Record CompletionRatioMeta := { meta_locked : bool; meta_ratio : jsstr }.

Definition normalizeCompletionRatioMeta (rawMeta : jsval) : CompletionRatioMeta :=
  if negb (is_plain_obj rawMeta) then {| meta_locked := false; meta_ratio := [] |}
  else {| meta_locked := truthy (vget rawMeta (js "locked"));
          meta_ratio := toNumericString (vget rawMeta (js "ratio")) |}.

End Parse.

(** ** The model record *)

Record RawRatios := {
  raw_modelRatio : jsstr;
  raw_completionRatio : jsstr;
  raw_cacheRatio : jsstr;
  raw_createCacheRatio : jsstr;
  raw_imageRatio : jsstr;
  raw_audioRatio : jsstr;
  raw_audioCompletionRatio : jsstr;
  raw_videoRatio : jsstr;
  raw_videoCompletionRatio : jsstr;
  raw_videoPrice : jsstr;
  raw_videoPricingRules : jsval;
  raw_imagePrice : jsstr;
  raw_imagePricingRules : jsval
}.

(** A tier field: [null] or [{segments}]. *)
Abbreviation tier := (option (list TierRow)).
Definition tier_val (x : tier) : jsval :=
  match x with Some rows => segments_val rows | None => VNull end.

Record Model := {
  name : jsstr;
  billingMode : jsstr;
  fixedPrice : jsstr;
  inputPrice : jsstr;
  completionPrice : jsstr;
  lockedCompletionRatio : jsstr;
  completionRatioLocked : bool;
  cachePrice : jsstr;
  createCachePrice : jsstr;
  imagePrice : jsstr;
  audioInputPrice : jsstr;
  audioOutputPrice : jsstr;
  videoBillingMode : jsstr;
  videoPriceUnit : jsstr;
  videoFixedPrice : jsstr;
  videoTextToVideoRules : list VideoRow;
  videoImageToVideoRules : list VideoRow;
  videoUploadRules : list VideoRow;
  videoGenerateRules : list VideoRow;
  videoSimilarityThreshold : jsstr;
  imageGenPriceUnit : jsstr;
  imageGenFixedPrice : jsstr;
  imageTextToImageRules : list ImageRow;
  imageImageToImageRules : list ImageRow;
  imageSimilarityThreshold : jsstr;
  rawRatios : RawRatios;
  modelTierRatio : tier;
  completionTierRatio : tier;
  cacheTierRatio : tier;
  createCacheTierRatio : tier
}.

#[export] Instance Model_eta : Eta Model := fun m => {|
  name := name m; billingMode := billingMode m; fixedPrice := fixedPrice m;
  inputPrice := inputPrice m; completionPrice := completionPrice m;
  lockedCompletionRatio := lockedCompletionRatio m;
  completionRatioLocked := completionRatioLocked m; cachePrice := cachePrice m;
  createCachePrice := createCachePrice m; imagePrice := imagePrice m;
  audioInputPrice := audioInputPrice m; audioOutputPrice := audioOutputPrice m;
  videoBillingMode := videoBillingMode m; videoPriceUnit := videoPriceUnit m;
  videoFixedPrice := videoFixedPrice m; videoTextToVideoRules := videoTextToVideoRules m;
  videoImageToVideoRules := videoImageToVideoRules m; videoUploadRules := videoUploadRules m;
  videoGenerateRules := videoGenerateRules m;
  videoSimilarityThreshold := videoSimilarityThreshold m;
  imageGenPriceUnit := imageGenPriceUnit m; imageGenFixedPrice := imageGenFixedPrice m;
  imageTextToImageRules := imageTextToImageRules m;
  imageImageToImageRules := imageImageToImageRules m;
  imageSimilarityThreshold := imageSimilarityThreshold m; rawRatios := rawRatios m;
  modelTierRatio := modelTierRatio m; completionTierRatio := completionTierRatio m;
  cacheTierRatio := cacheTierRatio m; createCacheTierRatio := createCacheTierRatio m |}.

Definition EMPTY_RAW_RATIOS : RawRatios := {|
  raw_modelRatio := []; raw_completionRatio := []; raw_cacheRatio := [];
  raw_createCacheRatio := []; raw_imageRatio := []; raw_audioRatio := [];
  raw_audioCompletionRatio := []; raw_videoRatio := []; raw_videoCompletionRatio := [];
  raw_videoPrice := []; raw_videoPricingRules := VNull; raw_imagePrice := [];
  raw_imagePricingRules := VNull |}.

Definition EMPTY_MODEL : Model := {|
  name := []; billingMode := js "per-token"; fixedPrice := []; inputPrice := [];
  completionPrice := []; lockedCompletionRatio := []; completionRatioLocked := false;
  cachePrice := []; createCachePrice := []; imagePrice := []; audioInputPrice := [];
  audioOutputPrice := []; videoBillingMode := js "per-second"; videoPriceUnit := js "USD";
  videoFixedPrice := []; videoTextToVideoRules := []; videoImageToVideoRules := [];
  videoUploadRules := []; videoGenerateRules := []; videoSimilarityThreshold := [];
  imageGenPriceUnit := js "USD"; imageGenFixedPrice := []; imageTextToImageRules := [];
  imageImageToImageRules := []; imageSimilarityThreshold := []; rawRatios := EMPTY_RAW_RATIOS;
  modelTierRatio := None; completionTierRatio := None; cacheTierRatio := None;
  createCacheTierRatio := None |}.

Definition isTokenBillingMode (mode : jsstr) : bool :=
  bool_decide (mode = js "per-token") || bool_decide (mode = js "tiered").

(** [hasAnyTierPricing] of the four tier fields *)
Definition anyTier (a b c d : tier) : bool :=
  hasTierSegments (tier_val a) || hasTierSegments (tier_val b)
  || hasTierSegments (tier_val c) || hasTierSegments (tier_val d).

Definition hasAnyTierPricing (m : Model) : bool :=
  anyTier (modelTierRatio m) (completionTierRatio m) (cacheTierRatio m) (createCacheTierRatio m).

(** [getEffectiveBillingMode] of the fields it reads *)
Definition effectiveBillingMode (fixedPrice : jsstr) (hasTier : bool) : jsstr :=
  if hasValue (VStr fixedPrice) then js "per-request"
  else if hasTier then js "tiered" else js "per-token".

Definition getEffectiveBillingMode (m : Model) : jsstr :=
  effectiveBillingMode (fixedPrice m) (hasAnyTierPricing m).

Definition isBasePricingUnset (m : Model) : bool :=
  negb (hasValue (VStr (fixedPrice m))) && negb (hasValue (VStr (inputPrice m)))
  && negb (hasAnyTierPricing m).

(** ** From option maps to the editor's model *)

(** The parsed options.  The source also reads an [ImagePriceUnit] entry,
    which no caller sets: it is always undefined. *)
Record SourceMaps := {
  sm_ModelPrice : jsval;
  sm_ModelRatio : jsval;
  sm_CompletionRatio : jsval;
  sm_CompletionRatioMeta : jsval;
  sm_CacheRatio : jsval;
  sm_CreateCacheRatio : jsval;
  sm_ImageRatio : jsval;
  sm_AudioRatio : jsval;
  sm_AudioCompletionRatio : jsval;
  sm_VideoRatio : jsval;
  sm_VideoCompletionRatio : jsval;
  sm_VideoPrice : jsval;
  sm_VideoPricingRules : jsval;
  sm_ImagePrice : jsval;
  sm_ImagePricingRules : jsval;
  sm_ModelTierRatio : jsval;
  sm_CompletionTierRatio : jsval;
  sm_CacheTierRatio : jsval;
  sm_CreateCacheTierRatio : jsval;
  sm_VideoCurrencyRates : CurrencyRates;
  sm_VideoPriceUnit : jsstr
}.

(** [map\[name\] ? normalizeTierSegments(map\[name\]) : null] *)
Definition tier_of (map : jsval) (name : jsstr) : tier :=
  let v := vget map name in
  if truthy v then Some (normalizeTierSegments v) else None.

(** [base !== null && hasValue(ratio) ? formatNumber(base * Number(ratio)) : ''] *)
Definition derivedPrice (base : option spec_float) (ratio : jsstr) : jsstr :=
  match base with
  | Some b =>
      if hasValue (VStr ratio) then formatNumber (VNum (nmul b (num_of_str ratio))) else []
  | None => []
  end.

(** [\['USD','CNY','CUSTOM'\].includes(unit) ? unit : fallback || 'USD'] *)
Definition resolve_unit (unit fallback : jsstr) : jsstr :=
  if known_unit unit then unit else str_or fallback (js "USD").

(** [map?.\[name\] && typeof map\[name\] === 'object' ? map\[name\] : null] *)
Definition raw_object (map : jsval) (name : jsstr) : jsval :=
  let v := vget map name in if is_obj v then v else VNull.

Definition build_raw_ratios (name : jsstr) (sm : SourceMaps) : RawRatios := {|
  raw_modelRatio := toNumericString (vget (sm_ModelRatio sm) name);
  raw_completionRatio := toNumericString (vget (sm_CompletionRatio sm) name);
  raw_cacheRatio := toNumericString (vget (sm_CacheRatio sm) name);
  raw_createCacheRatio := toNumericString (vget (sm_CreateCacheRatio sm) name);
  raw_imageRatio := toNumericString (vget (sm_ImageRatio sm) name);
  raw_audioRatio := toNumericString (vget (sm_AudioRatio sm) name);
  raw_audioCompletionRatio := toNumericString (vget (sm_AudioCompletionRatio sm) name);
  raw_videoRatio := toNumericString (vget (sm_VideoRatio sm) name);
  raw_videoCompletionRatio := toNumericString (vget (sm_VideoCompletionRatio sm) name);
  raw_videoPrice := toNumericString (vget (sm_VideoPrice sm) name);
  raw_videoPricingRules := raw_object (sm_VideoPricingRules sm) name;
  raw_imagePrice := toNumericString (vget (sm_ImagePrice sm) name);
  raw_imagePricingRules := raw_object (sm_ImagePricingRules sm) name |}.

Definition non_empty {A} (l : list A) : bool := match l with [] => false | _ => true end.

Definition hasPerSecondTable (r : VideoRules) : bool :=
  non_empty (vr_textToVideoPerSecond r) || non_empty (vr_imageToVideoPerSecond r)
  || non_empty (vr_videoToVideoPerSecond r).

Definition hasPerVideoTable (r : VideoRules) : bool :=
  non_empty (vr_textToVideoPerVideo r) || non_empty (vr_imageToVideoPerVideo r)
  || non_empty (vr_videoUploadPerVideo r) || non_empty (vr_videoGeneratePerVideo r).

Definition hasPerImageTable (r : ImageRules) : bool :=
  non_empty (ir_textToImage r) || non_empty (ir_imageToImage r).

Definition useLegacyRulesFallback (r : VideoRules) (videoInputPrice : jsstr) : bool :=
  negb (hasPerVideoTable r) && negb (non_empty (vr_textToVideo r))
  && negb (non_empty (vr_videoGenerate r)) && negb (non_empty (vr_videoUpload r))
  && negb (non_empty (vr_imageToVideo r)) && hasValue (VStr videoInputPrice).

Definition fallback_row (price compression : jsstr) : VideoRow := {|
  resolution := VStr (js "1280x720"); tokenPrice := Some price; videoPrice := None;
  noAudioPrice := None; withAudioPrice := None; pixelCompression := Some compression;
  audioPricingEnabled := false; hasAudio := false |}.

(** The rows a section shows: the per-second table, the per-item table, one
    row made from the old ratios, or the old token rules. *)
Definition section_rows (r : VideoRules) (videoInputPrice : jsstr)
    (perSecond perItem legacy : list VideoRow) (fallbackPrice compression : jsstr)
    (unit : jsstr) (rates : CurrencyRates) : list VideoRow :=
  if hasPerSecondTable r then mapVideoRuleRowsToDisplayUnit perSecond unit rates
  else if hasPerVideoTable r then mapVideoRuleRowsToDisplayUnit perItem unit rates
  else if useLegacyRulesFallback r videoInputPrice then [fallback_row fallbackPrice compression]
  else legacy.

Definition initial_video_billing_mode (r : VideoRules) (videoPrice : jsstr) : jsstr :=
  if hasPerSecondTable r then js "per-second"
  else if hasPerVideoTable r then js "per-item"
  else if hasValue (VStr videoPrice) then js "per-item" else js "per-second".

Definition effective_completion_ratio (meta : CompletionRatioMeta) (completionRatio : jsstr) : jsstr :=
  if meta_locked meta then meta_ratio meta else completionRatio.

Section Build.
Context `{Unicode}.

Definition buildModelState (name : jsstr) (sm : SourceMaps) : Model :=
  let raw := build_raw_ratios name sm in
  let meta := normalizeCompletionRatioMeta (vget (sm_CompletionRatioMeta sm) name) in
  let vrules := parseVideoPricingRules (vget (sm_VideoPricingRules sm) name) in
  let irules := parseImagePricingRules (vget (sm_ImagePricingRules sm) name) in
  let rates := sm_VideoCurrencyRates sm in
  let mTier := tier_of (sm_ModelTierRatio sm) name in
  let oTier := tier_of (sm_CompletionTierRatio sm) name in
  let cTier := tier_of (sm_CacheTierRatio sm) name in
  let wTier := tier_of (sm_CreateCacheTierRatio sm) name in
  let fixed := toNumericString (vget (sm_ModelPrice sm) name) in
  let input := ratioToBasePrice (VStr (raw_modelRatio raw)) in
  let inputNumber := toNumberOrNull (VStr input) in
  let audioInput := derivedPrice inputNumber (raw_audioRatio raw) in
  let videoInput := derivedPrice inputNumber (raw_videoRatio raw) in
  let videoOutput :=
    derivedPrice (toNumberOrNull (VStr videoInput)) (raw_videoCompletionRatio raw) in
  let vunit := resolve_unit (vr_priceUnit vrules) (sm_VideoPriceUnit sm) in
  let iunit := resolve_unit (ir_priceUnit irules) (sm_VideoPriceUnit sm) in
  let rows := section_rows vrules videoInput in
  {| PricingModel.name := name;
     billingMode := effectiveBillingMode fixed (anyTier mTier oTier cTier wTier);
     fixedPrice := fixed;
     inputPrice := input;
     completionPrice :=
       derivedPrice inputNumber (effective_completion_ratio meta (raw_completionRatio raw));
     lockedCompletionRatio := meta_ratio meta;
     completionRatioLocked := meta_locked meta;
     cachePrice := derivedPrice inputNumber (raw_cacheRatio raw);
     createCachePrice := derivedPrice inputNumber (raw_createCacheRatio raw);
     imagePrice := derivedPrice inputNumber (raw_imageRatio raw);
     audioInputPrice := audioInput;
     audioOutputPrice :=
       derivedPrice (toNumberOrNull (VStr audioInput)) (raw_audioCompletionRatio raw);
     videoBillingMode := initial_video_billing_mode vrules (raw_videoPrice raw);
     videoPriceUnit := vunit;
     videoFixedPrice := fromUSDToDisplay (VStr (raw_videoPrice raw)) vunit rates;
     videoTextToVideoRules :=
       rows (vr_textToVideoPerSecond vrules) (vr_textToVideoPerVideo vrules)
         (vr_textToVideo vrules) videoInput DEFAULT_TEXT_VIDEO_PIXEL_COMPRESSION vunit rates;
     videoImageToVideoRules :=
       rows (vr_imageToVideoPerSecond vrules) (vr_imageToVideoPerVideo vrules)
         (vr_imageToVideo vrules) videoInput DEFAULT_IMAGE_VIDEO_PIXEL_COMPRESSION vunit rates;
     videoUploadRules :=
       rows (vr_videoToVideoPerSecond vrules) (vr_videoUploadPerVideo vrules)
         (vr_videoUpload vrules) videoInput DEFAULT_VIDEO_VIDEO_PIXEL_COMPRESSION vunit rates;
     videoGenerateRules :=
       rows (vr_videoToVideoPerSecond vrules) (vr_videoGeneratePerVideo vrules)
         (vr_videoGenerate vrules) (str_or videoOutput videoInput)
         DEFAULT_VIDEO_VIDEO_PIXEL_COMPRESSION vunit rates;
     videoSimilarityThreshold := vr_similarityThreshold vrules;
     imageGenPriceUnit := iunit;
     imageGenFixedPrice := fromUSDToDisplay (VStr (raw_imagePrice raw)) iunit rates;
     imageTextToImageRules :=
       if hasPerImageTable irules
       then mapImageRuleRowsToDisplayUnit (ir_textToImage irules) iunit rates
       else ir_textToImage irules;
     imageImageToImageRules :=
       if hasPerImageTable irules
       then mapImageRuleRowsToDisplayUnit (ir_imageToImage irules) iunit rates
       else ir_imageToImage irules;
     imageSimilarityThreshold := ir_similarityThreshold irules;
     rawRatios := raw;
     modelTierRatio := mTier;
     completionTierRatio := oTier;
     cacheTierRatio := cTier;
     createCacheTierRatio := wTier |}.
End Build.

(** ** Properties of the numeric helpers *)

Lemma is_zero_hasValue v : is_zero_num v = true -> hasValue v = true.
Proof. by destruct v. Qed.

Lemma toNumberOrNull_eq v :
  toNumberOrNull v = if hasValue v && isFinite (to_num v) then Some (to_num v) else None.
Proof.
  unfold toNumberOrNull. destruct (hasValue v) eqn:H; cbn; [done|].
  destruct (is_zero_num v) eqn:Z; [|done]. apply is_zero_hasValue in Z. congruence.
Qed.

Lemma toNumericString_eq v :
  toNumericString v
  = match toNumberOrNull v with Some x => str_of_num x | None => [] end.
Proof. unfold toNumericString, toNumberOrNull. by repeat case_match. Qed.

Lemma toNumberOrNull_valid v x : wf v -> toNumberOrNull v = Some x -> valid x /\ isFinite x = true.
Proof.
  intros W. rewrite toNumberOrNull_eq. case_match eqn:E; [|done]. intros [= <-].
  apply andb_true_iff in E as [_ E]. auto with js_num.
Qed.

Lemma toNumberOrNull_str_of_num x : valid x -> isFinite x = true ->
  toNumberOrNull (VStr (str_of_num x)) = Some (plus_zero x).
Proof.
  intros V F. rewrite toNumberOrNull_eq. cbn.
  rewrite num_of_str_of_num by done.
  pose proof (str_of_num_nonempty x). destruct (str_of_num x); [done|]. cbn.
  by destruct x.
Qed.

Lemma str_of_num_plus_zero x : str_of_num (plus_zero x) = str_of_num x.
Proof. by destruct x. Qed.

(** Reading a normalised field gives the number it was normalised from. *)
Lemma toNumberOrNull_toNumericString v : wf v ->
  toNumberOrNull (VStr (toNumericString v)) = plus_zero <$> toNumberOrNull v.
Proof.
  intros W. rewrite toNumericString_eq.
  destruct (toNumberOrNull v) as [x|] eqn:E; [|done].
  destruct (toNumberOrNull_valid v x W E). by apply toNumberOrNull_str_of_num.
Qed.

(** The numeric text of a field is canonical: converting it again
    changes nothing, so loading, displaying and reloading a stored number
    never alters its text. *)
Theorem toNumericString_idempotent v : wf v ->
  toNumericString (VStr (toNumericString v)) = toNumericString v.
Proof.
  intros W. rewrite (toNumericString_eq (VStr _)), toNumberOrNull_toNumericString by done.
  rewrite toNumericString_eq. destruct (toNumberOrNull v); [|done]. apply str_of_num_plus_zero.
Qed.

(** The text of a formatted number, when there is one, is the text of a
    finite number. *)
Lemma formatNumber_shape v : wf v ->
  match toNumberOrNull v with
  | None => formatNumber v = []
  | Some _ => exists x, valid x /\ isFinite x = true /\ formatNumber v = str_of_num x
  end.
Proof.
  intros W. unfold formatNumber. destruct (toNumberOrNull v) as [x|] eqn:E; [|done].
  destruct (toNumberOrNull_valid v x W E) as [V F].
  set (r := num_of_str (to_fixed 12 x)).
  assert (Vr : valid r) by apply num_of_str_valid.
  assert (Fr : isFinite r = true) by by apply num_of_to_fixed_finite.
  case_match; [by exists n0|]. case_match.
  - exists (math_round r). split_and!; auto using math_round_valid, math_round_finite.
  - by exists r.
Qed.

Lemma formatNumber_toNumberOrNull v : wf v ->
  toNumberOrNull v = None <-> formatNumber v = [].
Proof.
  intros W. pose proof (formatNumber_shape v W) as S.
  destruct (toNumberOrNull v); [|done]. destruct S as (x & _ & _ & E).
  split; [done|]. rewrite E. intros H. by apply str_of_num_nonempty in H.
Qed.

(** A formatted price is the empty string exactly when the input is not
    a finite number, and otherwise the text of a finite number, which is
    what the save path reads back: no ratio is ever saved as NaN, Infinity
    or an unparsable string. *)
Theorem toNormalizedNumber_finite v : wf v ->
  match toNormalizedNumber v with
  | None => toNumberOrNull v = None
  | Some x => (exists y, toNumberOrNull v = Some y) /\ valid x /\ isFinite x = true
  end.
Proof.
  intros W. pose proof (formatNumber_shape v W) as S. unfold toNormalizedNumber.
  destruct (toNumberOrNull v) as [y|] eqn:E; [|by rewrite S].
  destruct S as (x & V & F & ->). pose proof (str_of_num_nonempty x) as N.
  destruct (str_of_num x) eqn:Ex; [done|]. rewrite <- Ex.
  split; [eauto|]. split; [apply num_of_str_valid|].
  rewrite num_of_str_of_num by done. by destruct x.
Qed.

(** ** Instances *)

Lemma toNumericString_idempotent_witness :
  toNumericString (VStr (toNumericString (VStr (js " 2.50 ")))) = js "2.5".
Proof. rewrite (toNumericString_idempotent (VStr (js " 2.50 "))); [vm_compute; reflexivity|done]. Defined.

Lemma toNormalizedNumber_finite_witness :
  match toNormalizedNumber (VStr (js "33.000000000008")) with
  | None => False
  | Some x => neqb x (num_of_Z 33) = true /\ valid x /\ isFinite x = true
  end.
Proof.
  pose proof (toNormalizedNumber_finite (VStr (js "33.000000000008")) I) as T.
  destruct (toNormalizedNumber _) as [x|] eqn:E.
  - split; [|apply T]. vm_compute in E. injection E as <-. vm_compute. reflexivity.
  - vm_compute in T. discriminate.
Defined.
