(* ===== verification/PricingSerialize.v ===== *)
(** * Saving a model (useModelPricingEditorState.js, [serializeModel])

    Turns the edited prices of one model back into the option entries that
    are stored: ratios relative to the input price, and the video and image
    price tables.  A failed save is an exception. *)

From Stdlib Require Import SpecFloat.
From stdpp Require Import base list numbers strings.
From S2P Require Import Prelude JsNumber JsString JsValue TierPricing PricingModel.
Local Open Scope Z_scope.
Local Open Scope js_scope.

(** What the code can throw: an [Error] with a message, or the [TypeError]
    of calling a string method on a value that is not a string. *)
Inductive js_error :=
  | TypeError
  | Error (message : jsstr).

Abbreviation result A := (js_error + A)%type.

(** [v.replace(/\s+/g, '')] *)
Definition replace_ws (v : jsval) : result jsstr :=
  match v with VStr s => inr (remove_ws s) | _ => inl TypeError end.

(** [x !== null && x > 0] *)
Definition positive (x : option spec_float) : bool :=
  match x with Some n => nltb n0 n | None => false end.

(** ** Price tables *)

Record PricedRule := {
  rule_resolution : jsstr;
  rule_price : spec_float;
  rule_has_audio : bool;
  rule_compression : spec_float
}.

Definition same_rule (a b : PricedRule) : bool :=
  bool_decide (rule_resolution a = rule_resolution b)
  && Bool.eqb (rule_has_audio a) (rule_has_audio b).

(** The rules of one row: separate prices without and with audio, or one
    price for both. *)
Definition row_rules (unified : option spec_float) (row : VideoRow)
    (res : jsstr) (compression : spec_float) : list PricedRule :=
  let rule price audio := {| rule_resolution := res; rule_price := price;
                             rule_has_audio := audio; rule_compression := compression |} in
  let side price audio :=
    match price with
    | Some p => if nltb n0 p then [rule p audio] else []
    | None => []
    end in
  if audioPricingEnabled row then
    side (toNumberOrNull (opt_val (noAudioPrice row))) false
    ++ side (toNumberOrNull (opt_val (withAudioPrice row))) true
  else side unified false ++ side unified true.

Definition row_compression (row : VideoRow) : spec_float :=
  match toNumberOrNull (opt_val (pixelCompression row)) with
  | Some p => if nltb n0 p then p else num_of_Z 384
  | None => num_of_Z 384
  end.

(** Rows with a valid resolution and some price of the given kind. *)
Definition usable_row (price : VideoRow -> option jsstr) (row : VideoRow) : bool :=
  hasValue (resolution row)
  && (hasValue (opt_val (price row)) || hasValue (opt_val (noAudioPrice row))
      || hasValue (opt_val (withAudioPrice row)))
  && isValidVideoResolution (resolution row).

Definition normalizePricedRows (price : VideoRow -> option jsstr)
    (compression : VideoRow -> spec_float) (rows : list VideoRow) : result (list PricedRule) :=
  rules <~ rmap (fun row =>
             res <~ replace_ws (resolution row) ;;
             inr (row_rules (toNumberOrNull (opt_val (price row))) row res (compression row)))
           (base.filter (fun row => usable_row price row = true) rows) ;;
  inr (keep_first same_rule (concat rules)).

(** [normalizePerVideoPricingRows] and the [normalizeRows] of the per-second
    branch; only the latter computes a pixel compression. *)
Definition normalizePerVideoPricingRows (rows : list VideoRow) : result (list PricedRule) :=
  normalizePricedRows videoPrice (fun _ => n0) rows.
Definition normalizePerSecondRows (rows : list VideoRow) : result (list PricedRule) :=
  normalizePricedRows tokenPrice row_compression rows.

Record ImageRule := { image_resolution : jsstr; image_price : spec_float }.

Definition usable_image_row (row : ImageRow) : bool :=
  hasValue (img_resolution row) && hasValue (opt_val (img_price row))
  && isValidVideoResolution (img_resolution row).

Definition normalizePerImagePricingRows (rows : list ImageRow) : result (list ImageRule) :=
  rules <~ rmap (fun row =>
             res <~ replace_ws (img_resolution row) ;;
             inr (res, toNumberOrNull (opt_val (img_price row))))
           (base.filter (fun row => usable_image_row row = true) rows) ;;
  inr (omap (fun '(res, p) =>
               match p with
               | Some x => if nltb n0 x
                           then Some {| image_resolution := res; image_price := x |} else None
               | None => None
               end) rules).

(** ** The serialised entries *)

Inductive Out :=
  | ONull
  | ORemove
  | OVal (v : jsval).

Record Serialized := {
  ModelPrice : Out;
  ModelRatio : Out;
  CompletionRatio : Out;
  CacheRatio : Out;
  CreateCacheRatio : Out;
  ImageRatio : Out;
  AudioRatio : Out;
  AudioCompletionRatio : Out;
  VideoRatio : Out;
  VideoCompletionRatio : Out;
  VideoPrice : Out;
  VideoPricingRules : Out;
  ImagePrice : Out;
  ImagePricingRules : Out;
  ModelTierRatio : Out;
  CompletionTierRatio : Out;
  CacheTierRatio : Out;
  CreateCacheTierRatio : Out
}.

#[export] Instance Serialized_eta : Eta Serialized := fun s => {|
  ModelPrice := ModelPrice s; ModelRatio := ModelRatio s; CompletionRatio := CompletionRatio s;
  CacheRatio := CacheRatio s; CreateCacheRatio := CreateCacheRatio s;
  ImageRatio := ImageRatio s; AudioRatio := AudioRatio s;
  AudioCompletionRatio := AudioCompletionRatio s; VideoRatio := VideoRatio s;
  VideoCompletionRatio := VideoCompletionRatio s; VideoPrice := VideoPrice s;
  VideoPricingRules := VideoPricingRules s; ImagePrice := ImagePrice s;
  ImagePricingRules := ImagePricingRules s; ModelTierRatio := ModelTierRatio s;
  CompletionTierRatio := CompletionTierRatio s; CacheTierRatio := CacheTierRatio s;
  CreateCacheTierRatio := CreateCacheTierRatio s |}.

Definition empty_serialized : Serialized := {|
  ModelPrice := ONull; ModelRatio := ONull; CompletionRatio := ONull; CacheRatio := ONull;
  CreateCacheRatio := ONull; ImageRatio := ONull; AudioRatio := ONull;
  AudioCompletionRatio := ONull; VideoRatio := ONull; VideoCompletionRatio := ONull;
  VideoPrice := ONull; VideoPricingRules := ONull; ImagePrice := ONull;
  ImagePricingRules := ONull; ModelTierRatio := ONull; CompletionTierRatio := ONull;
  CacheTierRatio := ONull; CreateCacheTierRatio := ONull |}.

Definition out_num (x : option spec_float) : Out :=
  match x with Some n => OVal (VNum n) | None => ONull end.

(** [toNormalizedNumber] of a number or of a stored text *)
Definition normalized (x : spec_float) : Out := out_num (toNormalizedNumber (VNum x)).
Definition normalized_text (s : jsstr) : Out := out_num (toNormalizedNumber (VStr s)).

(** [if (hasValue(text)) entry = toNormalizedNumber(text)] *)
Definition kept_text (s : jsstr) : Out := if hasValue (VStr s) then normalized_text s else ONull.

(** [if (price !== null) entry = toNormalizedNumber(price / base)] *)
Definition relative (price : option spec_float) (base : spec_float) : Out :=
  match price with Some p => normalized (ndiv p base) | None => ONull end.

Definition effective_unit (unit : jsstr) : jsstr := if known_unit unit then unit else js "USD".
Definition from_rate (rates : CurrencyRates) (unit : jsstr) : spec_float :=
  positive_rate rates (effective_unit unit).

Record VisibleCategories := { vis_output : bool; vis_cache_read : bool; vis_cache_write : bool }.

Definition tier_out (visible : bool) (x : tier) : Out :=
  if visible && hasTierSegments (tier_val x)
  then OVal (VObj [(js "segments", match x with Some rows => rows_val rows | None => VUndef end)])
  else ONull.

Definition has_priced_row (rows : list VideoRow) : bool :=
  existsb (fun row => hasValue (resolution row) && hasValue (opt_val (videoPrice row))) rows.

Definition videoPerToken (m : Model) : bool := bool_decide (videoBillingMode m = js "per-second").
Definition videoPerVideo (m : Model) : bool := bool_decide (videoBillingMode m = js "per-item").

Definition number_of (s : jsstr) : option spec_float := toNumberOrNull (VStr s).

Definition hasDependentPrice (m : Model) : bool :=
  let some x := match x : option spec_float with Some _ => true | None => false end in
  some (number_of (completionPrice m)) || some (number_of (cachePrice m))
  || some (number_of (createCachePrice m)) || some (number_of (imagePrice m))
  || some (number_of (audioInputPrice m)) || some (number_of (audioOutputPrice m))
  || videoPerToken m
     && (non_empty (videoTextToVideoRules m) || non_empty (videoImageToVideoRules m)
         || non_empty (videoUploadRules m) || non_empty (videoGenerateRules m))
  || videoPerVideo m
     && (has_priced_row (videoTextToVideoRules m) || has_priced_row (videoImageToVideoRules m)
         || has_priced_row (videoUploadRules m) || has_priced_row (videoGenerateRules m)).

Section Serialize.
Context `{Unicode}.
(** [t(key, options)] of the i18n library. *)
Variable t : jsstr -> list (jsstr * jsstr) -> jsstr.

Definition missing_input_price (m : Model) : js_error :=
  Error (t (js "模型 {{name}} 缺少输入价格，无法计算输出/缓存/图片/音频价格对应的倍率")
           [(js "name", name m)]).
Definition missing_audio_input (m : Model) : js_error :=
  Error (t (js "模型 {{name}} 缺少音频输入价格，无法计算音频输出倍率") [(js "name", name m)]).

(** The per-request price and the tiers, which do not depend on the input price. *)
Definition serialize_base (m : Model) (visible : option VisibleCategories) : Serialized :=
  let vis f := match visible with Some v => f v | None => true end in
  empty_serialized
  <| ModelPrice :=
       if bool_decide (getEffectiveBillingMode m = js "per-request")
          && hasValue (VStr (fixedPrice m))
       then normalized_text (fixedPrice m) else ONull |>
  <| ModelTierRatio := tier_out true (modelTierRatio m) |>
  <| CompletionTierRatio := tier_out (vis vis_output) (completionTierRatio m) |>
  <| CacheTierRatio := tier_out (vis vis_cache_read) (cacheTierRatio m) |>
  <| CreateCacheTierRatio := tier_out (vis vis_cache_write) (createCacheTierRatio m) |>.

(** [{resolution, video_price, has_audio}], as stored without an input price *)
Definition raw_video_rule (r : PricedRule) : jsval :=
  VObj [(js "resolution", VStr (rule_resolution r)); (js "video_price", VNum (rule_price r));
        (js "has_audio", VBool (rule_has_audio r))].

(** [{resolution, has_audio, price: toUSD(price)}] *)
Definition usd_rule (rate : spec_float) (r : PricedRule) : jsval :=
  VObj [(js "resolution", VStr (rule_resolution r)); (js "has_audio", VBool (rule_has_audio r));
        (js "price", VNum (ndiv (rule_price r) rate))].

(** The key of the [seen] sets: [`${resolution}|${has_audio}|${price}`] *)
Definition usd_rule_key (rate : spec_float) (r : PricedRule) : jsstr :=
  toLowerCase (rule_resolution r) ++ js "|" ++ (if rule_has_audio r then js "1" else js "0")
  ++ js "|" ++ str_of_num (ndiv (rule_price r) rate).

(** [if (rows.length > 0) rules\[key\] = rows] *)
Definition table_entry (key : jsstr) (rows : list jsval) : list (jsstr * jsval) :=
  match rows with [] => [] | _ => [(key, VArr rows)] end.

Definition usd_rules (rate : spec_float) (rules : list PricedRule) : list jsval :=
  map (usd_rule rate) rules.
Definition usd_rules_dedup (rate : spec_float) (rules : list PricedRule) : list jsval :=
  map (usd_rule rate) (dedup_by (usd_rule_key rate) [] rules).

Definition threshold_entry (s : jsstr) : list (jsstr * jsval) :=
  match number_of s with
  | Some x => if nltb n0 x then [(js "similarity_threshold", VNum x)] else []
  | None => []
  end.

(** Without an input price only the stored ratios and rules survive. *)
Definition serialize_without_input (m : Model) (rates : CurrencyRates) (base : Serialized)
    : result Serialized :=
  if hasDependentPrice m then inl (missing_input_price m) else
  let raw := rawRatios m in
  let r := base
    <| ModelRatio := kept_text (raw_modelRatio raw) |>
    <| CompletionRatio := kept_text (raw_completionRatio raw) |>
    <| CacheRatio := kept_text (raw_cacheRatio raw) |>
    <| CreateCacheRatio := kept_text (raw_createCacheRatio raw) |>
    <| ImageRatio := kept_text (raw_imageRatio raw) |>
    <| AudioRatio := kept_text (raw_audioRatio raw) |>
    <| AudioCompletionRatio := kept_text (raw_audioCompletionRatio raw) |> in
  if videoPerToken m then
    inr (r <| VideoRatio := kept_text (raw_videoRatio raw) |>
           <| VideoCompletionRatio := kept_text (raw_videoCompletionRatio raw) |>
           <| VideoPricingRules :=
                if is_obj (raw_videoPricingRules raw)
                then OVal (raw_videoPricingRules raw) else ONull |>)
  else if videoPerVideo m then
    let r := match number_of (videoFixedPrice m) with
             | Some p => r <| VideoPrice := normalized (ndiv p (from_rate rates (videoPriceUnit m))) |>
             | None => r
             end in
    textPV <~ normalizePerVideoPricingRows (videoTextToVideoRules m) ;;
    imagePV <~ normalizePerVideoPricingRows (videoImageToVideoRules m) ;;
    genPV <~ normalizePerVideoPricingRows (videoGenerateRules m) ;;
    inr (if non_empty textPV || non_empty imagePV || non_empty genPV then
           r <| VideoPricingRules := OVal (VObj (
             table_entry (js "text_to_video_per_video") (map raw_video_rule textPV)
             ++ table_entry (js "image_to_video_per_video") (map raw_video_rule imagePV)
             ++ table_entry (js "video_to_video_output_per_video") (map raw_video_rule genPV))) |>
         else r)
  else inr r.

(** The ratios relative to the input price. *)
Definition serialize_ratios (m : Model) (input : spec_float) (base : Serialized)
    : result Serialized :=
  let raw := rawRatios m in
  let audioIn := number_of (audioInputPrice m) in
  let r := base
    <| ModelRatio := normalized (ndiv input (num_of_Z 2)) |>
    <| CompletionRatio :=
         match number_of (completionPrice m) with
         | Some p =>
             if negb (completionRatioLocked m) then normalized (ndiv p input)
             else kept_text (raw_completionRatio raw)
         | None =>
             if completionRatioLocked m then kept_text (raw_completionRatio raw) else ONull
         end |>
    <| CacheRatio := relative (number_of (cachePrice m)) input |>
    <| CreateCacheRatio := relative (number_of (createCachePrice m)) input |>
    <| ImageRatio := relative (number_of (imagePrice m)) input |>
    <| AudioRatio := relative audioIn input |> in
  match number_of (audioOutputPrice m) with
  | None => inr r
  | Some out =>
      match audioIn with
      | None => inl (missing_audio_input m)
      | Some i =>
          if neqb i n0 then inl (missing_audio_input m)
          else inr (r <| AudioCompletionRatio := normalized (ndiv out i) |>)
      end
  end.

(** The per-second table. *)
Definition serialize_per_second (m : Model) (rates : CurrencyRates) (r : Serialized)
    : result Serialized :=
  let rate := from_rate rates (videoPriceUnit m) in
  textToVideo <~ normalizePerSecondRows (videoTextToVideoRules m) ;;
  imageToVideo <~ normalizePerSecondRows (videoImageToVideoRules m) ;;
  videoGenerate <~ normalizePerSecondRows (videoGenerateRules m) ;;
  inr (if non_empty textToVideo || non_empty imageToVideo || non_empty videoGenerate then
         r <| VideoPricingRules := OVal (VObj (
           table_entry (js "text_to_video_per_second") (usd_rules rate textToVideo)
           ++ table_entry (js "image_to_video_per_second") (usd_rules rate imageToVideo)
           ++ table_entry (js "video_to_video_per_second") (usd_rules_dedup rate videoGenerate)
           ++ threshold_entry (videoSimilarityThreshold m)
           ++ [(js "price_unit", VStr (effective_unit (videoPriceUnit m)))])) |>
       else r).

(** The per-item table and the fixed price. *)
Definition serialize_per_item (m : Model) (rates : CurrencyRates) (r : Serialized)
    : result Serialized :=
  let rate := from_rate rates (videoPriceUnit m) in
  let unit := (js "price_unit", VStr (effective_unit (videoPriceUnit m))) in
  let fixed := number_of (videoFixedPrice m) in
  let r := match fixed with
           | Some p => r <| VideoPrice := normalized (ndiv p rate) |>
           | None => r
           end in
  textPV <~ normalizePerVideoPricingRows (videoTextToVideoRules m) ;;
  imagePV <~ normalizePerVideoPricingRows (videoImageToVideoRules m) ;;
  genPV <~ normalizePerVideoPricingRows (videoGenerateRules m) ;;
  inr (if non_empty textPV || non_empty imagePV || non_empty genPV then
         r <| VideoPricingRules := OVal (VObj (
           table_entry (js "text_to_video_per_item") (usd_rules rate textPV)
           ++ table_entry (js "image_to_video_per_item") (usd_rules rate imagePV)
           ++ table_entry (js "video_to_video_per_item") (usd_rules_dedup rate genPV)
           ++ [unit])) |>
       else match fixed with
            | Some _ => r <| VideoPricingRules := OVal (VObj [unit]) |>
            | None => r
            end).

Definition image_rule_val (r : ImageRule) : jsval :=
  VObj [(js "resolution", VStr (image_resolution r)); (js "image_price", VNum (image_price r))].

(** Image generation: the table (stored as entered), the fixed price, and
    the removal of the per-request price that a table replaces. *)
Definition serialize_images (m : Model) (rates : CurrencyRates) (r : Serialized)
    : result Serialized :=
  let unit := effective_unit (imageGenPriceUnit m) in
  let rate := from_rate rates (imageGenPriceUnit m) in
  let fixed := number_of (imageGenFixedPrice m) in
  textPI <~ normalizePerImagePricingRows (imageTextToImageRules m) ;;
  imagePI <~ normalizePerImagePricingRows (imageImageToImageRules m) ;;
  let r := match fixed with
           | Some p => r <| ImagePrice := normalized (ndiv p rate) |>
           | None => r
           end in
  let hasTable := non_empty textPI || non_empty imagePI in
  inr (if hasTable || match fixed with Some _ => true | None => false end then
         let r := r <| ImagePricingRules := OVal (VObj (
           table_entry (js "text_to_image_per_image") (map image_rule_val textPI)
           ++ table_entry (js "image_to_image_per_image") (map image_rule_val imagePI)
           ++ threshold_entry (imageSimilarityThreshold m)
           ++ [(js "price_unit", VStr unit)])) |> in
         if hasTable then r <| ModelPrice := ORemove |> else r
       else if hasValue (raw_imagePricingRules (rawRatios m)) then
         r <| ImagePricingRules := OVal (raw_imagePricingRules (rawRatios m)) |>
       else if hasValue (VStr (raw_imagePrice (rawRatios m))) then
         r <| ImagePrice := normalized_text (raw_imagePrice (rawRatios m)) |>
       else r).

Definition serializeModel (m : Model) (rates : CurrencyRates)
    (visible : option VisibleCategories) : result Serialized :=
  let base := serialize_base m visible in
  match number_of (inputPrice m) with
  | None => serialize_without_input m rates base
  | Some input =>
      r <~ serialize_ratios m input base ;;
      r <~ (if videoPerToken m then serialize_per_second m rates r
            else if videoPerVideo m then serialize_per_item m rates r
            else inr r) ;;
      serialize_images m rates r
  end.
End Serialize.

(** ** Price tables are well formed *)

Definition rule_key (r : PricedRule) : jsstr * bool := (rule_resolution r, rule_has_audio r).

Lemma same_rule_key a b : same_rule a b = bool_decide (rule_key a = rule_key b).
Proof.
  unfold same_rule, rule_key. apply eq_true_iff_eq.
  rewrite andb_true_iff, !bool_decide_eq_true, Bool.eqb_true_iff. split.
  - by intros [-> ->].
  - by intros [= -> ->].
Qed.

(** A stored rule: a resolution in the accepted syntax, without white space,
    and a positive finite price. *)
Definition rule_ok (r : PricedRule) : Prop :=
  isValidVideoResolution (VStr (rule_resolution r)) = true /\
  remove_ws (rule_resolution r) = rule_resolution r /\
  nltb n0 (rule_price r) = true /\ isFinite (rule_price r) = true.

(** Removing white space keeps a valid resolution valid. *)
Lemma video_resolution_regex_remove_ws s :
  video_resolution_regex s = true -> video_resolution_regex (remove_ws s) = true.
Proof.
  unfold video_resolution_regex at 1.
  destruct (drop_ws_split s) as (w1 & E1 & W1).
  destruct (span_digits (drop_ws s)) as [d1 r1] eqn:S1.
  destruct (span_digits_split _ _ _ S1) as [E2 D1].
  destruct (decide (d1 = [])) as [->|N1]; [done|].
  destruct (drop_ws_split r1) as (w2 & E3 & W2).
  destruct d1 as [|a d1]; [done|]. destruct (drop_ws r1) as [|c r2]; [done|].
  destruct ((c =? 120) || (c =? 88)) eqn:X; [|done].
  destruct (drop_ws_split r2) as (w3 & E4 & W3).
  destruct (span_digits (drop_ws r2)) as [d2 r3] eqn:S2.
  destruct (span_digits_split _ _ _ S2) as [E5 D2].
  destruct d2 as [|b d2]; [done|].
  destruct (drop_ws_split r3) as (w4 & E6 & W4). destruct (drop_ws r3); [|done]. intros _.
  rewrite app_nil_r in E6.
  assert (Hc : is_ws c = false).
  { apply orb_true_iff in X as [->%Z.eqb_eq| ->%Z.eqb_eq]; done. }
  assert (R : remove_ws s = (a :: d1) ++ c :: (b :: d2)).
  { rewrite E1, E2, E3. change (c :: r2) with ([c] ++ r2). rewrite E4, E5, E6.
    rewrite !remove_ws_app, (remove_ws_ws w1), (remove_ws_ws w2), (remove_ws_ws w3),
      (remove_ws_ws w4), (remove_ws_digits (a :: d1)), (remove_ws_digits (b :: d2)) by done.
    rewrite (remove_ws_id [c]) by by repeat constructor. by rewrite app_nil_r. }
  rewrite R. unfold video_resolution_regex.
  rewrite drop_ws_digits by done. rewrite span_digits_app; trivial.
  2:{ apply orb_true_iff in X as [->%Z.eqb_eq| ->%Z.eqb_eq]; done. }
  cbn [drop_ws]. rewrite Hc, X.
  rewrite <- (app_nil_r (b :: d2)), drop_ws_digits, span_digits_app by done. done.
Qed.

Lemma video_resolution_alias_remove_ws s :
  video_resolution_alias_regex s = true -> video_resolution_alias_regex (remove_ws s) = true.
Proof.
  unfold video_resolution_alias_regex at 1.
  destruct (drop_ws_split s) as (w1 & E1 & W1).
  destruct (span_digits (drop_ws s)) as [d1 r1] eqn:S1.
  destruct (span_digits_split _ _ _ S1) as [E2 D1].
  destruct d1 as [|a d1]; [done|].
  destruct (drop_ws_split r1) as (w2 & E3 & W2).
  destruct (drop_ws r1) as [|c r2]; [done|].
  intros [X Y]%andb_true_iff.
  destruct (drop_ws_split r2) as (w3 & E4 & W3). destruct (drop_ws r2); [|done].
  rewrite app_nil_r in E4.
  assert (Hc : is_ws c = false /\ is_digit c = false).
  { rewrite !orb_true_iff, andb_true_iff, orb_true_iff, !Z.eqb_eq in X.
    destruct X as [[-> | ->]|[[-> | ->] _]]; done. }
  destruct Hc as [Hc Hd].
  assert (R : remove_ws s = (a :: d1) ++ [c]).
  { rewrite E1, E2, E3. change (c :: r2) with ([c] ++ r2). rewrite E4.
    rewrite !remove_ws_app, (remove_ws_ws w1), (remove_ws_ws w2), (remove_ws_ws w3),
      (remove_ws_digits (a :: d1)) by done.
    rewrite (remove_ws_id [c]) by by repeat constructor. done. }
  rewrite R. unfold video_resolution_alias_regex.
  rewrite drop_ws_digits by done. rewrite span_digits_app by done.
  cbn [drop_ws]. rewrite Hc, X. done.
Qed.

Lemma isValidVideoResolution_str s :
  isValidVideoResolution (VStr s)
  = video_resolution_regex s || video_resolution_alias_regex s.
Proof. unfold isValidVideoResolution, js_or. by destruct s. Qed.

Lemma isValidVideoResolution_remove_ws s :
  isValidVideoResolution (VStr s) = true -> isValidVideoResolution (VStr (remove_ws s)) = true.
Proof.
  rewrite !isValidVideoResolution_str, !orb_true_iff.
  intros [X|X]; [left|right];
    auto using video_resolution_regex_remove_ws, video_resolution_alias_remove_ws.
Qed.

Lemma row_rules_ok row res comp unified r :
  (forall x, unified = Some x -> isFinite x = true) ->
  isValidVideoResolution (VStr res) = true -> remove_ws res = res ->
  r ∈ row_rules unified row res comp -> rule_ok r.
Proof.
  intros HU HV HW. unfold row_rules.
  assert (P : forall (price : option spec_float) audio,
    (forall x, price = Some x -> isFinite x = true) ->
    r ∈ match price with
        | Some p => if nltb n0 p
            then [{| rule_resolution := res; rule_price := p;
                     rule_has_audio := audio; rule_compression := comp |}] else []
        | None => [] end -> rule_ok r).
  { intros [p|] audio F; [|by intros ?%not_elem_of_nil].
    destruct (nltb n0 p) eqn:E; [|by intros ?%not_elem_of_nil].
    intros ->%list_elem_of_singleton. unfold rule_ok. cbn. auto. }
  assert (Q : forall o x, toNumberOrNull o = Some x -> isFinite x = true).
  { intros o x. rewrite toNumberOrNull_eq. case_match eqn:E; [|done]. intros [= <-].
    by apply andb_true_iff in E as [_ ?]. }
  case_match; intros [X|X]%elem_of_app; (eapply P; [|exact X]); eauto.
Qed.

Lemma replace_ws_inr v s : replace_ws v = inr s -> exists u, v = VStr u /\ s = remove_ws u.
Proof. destruct v; try done. intros [= <-]. eauto. Qed.

Lemma normalizePricedRows_ok price comp rows rules :
  normalizePricedRows price comp rows = inr rules ->
  Forall rule_ok rules /\ NoDup (map rule_key rules).
Proof.
  unfold normalizePricedRows. destruct (rmap _ _) as [|rs] eqn:R; cbn; [done|].
  intros [= <-]. rewrite (keep_first_dedup rule_key) by apply same_rule_key.
  split; [|apply dedup_by_NoDup].
  apply Forall_forall. intros r [Hr _]%dedup_by_elem.
  apply rmap_inr in R. apply list_elem_of_In, in_concat in Hr as (l & Hl & Hr).
  apply list_elem_of_In in Hl, Hr.
  apply list_elem_of_lookup in Hl as [i Hi].
  destruct (Forall2_lookup_r _ _ _ _ _ R Hi) as (row & Hrow & E).
  apply list_elem_of_lookup_2, list_elem_of_filter in Hrow as [Hu _].
  destruct (replace_ws (resolution row)) as [|res] eqn:W; cbn in E; [done|].
  injection E as <-. apply replace_ws_inr in W as (u & Eu & ->).
  unfold usable_row in Hu. rewrite Eu in Hu. rewrite !andb_true_iff in Hu.
  eapply row_rules_ok; [| | |exact Hr].
  - intros x. rewrite toNumberOrNull_eq. case_match eqn:F; [|done]. intros [= <-].
    by apply andb_true_iff in F as [_ ?].
  - apply isValidVideoResolution_remove_ws. tauto.
  - apply remove_ws_idem.
Qed.

(** Every price table the editor stores, per second or per item, is well
    formed: each rule has a resolution in the accepted syntax without white
    space and a positive finite price, and no two rules of a table agree on
    resolution and audio. *)
Theorem video_price_tables_well_formed rows rules :
  normalizePerSecondRows rows = inr rules \/ normalizePerVideoPricingRows rows = inr rules ->
  Forall rule_ok rules /\ NoDup (map rule_key rules).
Proof. intros [E|E]; by eapply normalizePricedRows_ok. Qed.

(** ** When saving fails *)

(** The text inputs of the tables hold strings. *)
Definition str_resolution (v : jsval) : Prop := exists s, v = VStr s.
Definition str_rows (m : Model) : Prop :=
  Forall (fun r => str_resolution (resolution r)) (videoTextToVideoRules m) /\
  Forall (fun r => str_resolution (resolution r)) (videoImageToVideoRules m) /\
  Forall (fun r => str_resolution (resolution r)) (videoGenerateRules m) /\
  Forall (fun r => str_resolution (img_resolution r)) (imageTextToImageRules m) /\
  Forall (fun r => str_resolution (img_resolution r)) (imageImageToImageRules m).

Lemma rmap_replace_ws {A B} (res : A -> jsval) (g : A -> jsstr -> B) l :
  Forall (fun x => str_resolution (res x)) l ->
  exists ys, rmap (fun x => s <~ replace_ws (res x) ;; inr (g x s)) l = inr ys.
Proof.
  induction 1 as [|x l [s Hx] _ [ys IH]]; cbn; [eauto|]. rewrite Hx. cbn. rewrite IH. cbn. eauto.
Qed.

Lemma normalizePricedRows_total price comp rows :
  Forall (fun r => str_resolution (resolution r)) rows ->
  exists rules, normalizePricedRows price comp rows = inr rules.
Proof.
  intros H. unfold normalizePricedRows.
  destruct (rmap_replace_ws resolution
    (fun row res => row_rules (toNumberOrNull (opt_val (price row))) row res (comp row))
    (base.filter (fun row => usable_row price row = true) rows)) as [ys ->]; [|cbn; eauto].
  apply Forall_forall. intros r [_ Hr]%list_elem_of_filter. by eapply Forall_forall in H.
Qed.

Lemma normalizePerImagePricingRows_total rows :
  Forall (fun r => str_resolution (img_resolution r)) rows ->
  exists rules, normalizePerImagePricingRows rows = inr rules.
Proof.
  intros H. unfold normalizePerImagePricingRows.
  destruct (rmap_replace_ws img_resolution
    (fun row res => (res, toNumberOrNull (opt_val (img_price row))))
    (base.filter (fun row => usable_image_row row = true) rows)) as [ys ->]; [|cbn; eauto].
  apply Forall_forall. intros r [_ Hr]%list_elem_of_filter. by eapply Forall_forall in H.
Qed.

Section Throws.
Context `{Unicode} (t : jsstr -> list (jsstr * jsstr) -> jsstr).

(** The tables of a model with string resolutions never throw. *)
Ltac run_rows :=
  repeat match goal with
  | H : Forall _ ?rows |- context [normalizePerVideoPricingRows ?rows] =>
      let E := fresh "E" in
      destruct (normalizePricedRows_total videoPrice (fun _ => n0) rows H) as [? E];
      unfold normalizePerVideoPricingRows; rewrite E; clear E; cbn [rbind]
  | H : Forall _ ?rows |- context [normalizePricedRows ?p ?c ?rows] =>
      let E := fresh "E" in
      destruct (normalizePricedRows_total p c rows H) as [? E]; rewrite E; clear E; cbn [rbind]
  | H : Forall _ ?rows |- context [normalizePerImagePricingRows ?rows] =>
      let E := fresh "E" in
      destruct (normalizePerImagePricingRows_total rows H) as [? E]; rewrite E; clear E;
      cbn [rbind]
  end.

Lemma serialize_per_second_total m rates r : str_rows m ->
  exists s, serialize_per_second m rates r = inr s.
Proof.
  intros (H1 & H2 & H3 & _). unfold serialize_per_second, normalizePerSecondRows.
  run_rows. eauto.
Qed.

Lemma serialize_per_item_total m rates r : str_rows m ->
  exists s, serialize_per_item m rates r = inr s.
Proof. intros (H1 & H2 & H3 & _). unfold serialize_per_item. run_rows. eauto. Qed.

Lemma serialize_images_total m rates r : str_rows m ->
  exists s, serialize_images m rates r = inr s.
Proof. intros (_ & _ & _ & H4 & H5). unfold serialize_images. run_rows. eauto. Qed.

Lemma serialize_without_input_total m rates r : str_rows m -> hasDependentPrice m = false ->
  exists s, serialize_without_input t m rates r = inr s.
Proof.
  intros (H1 & H2 & H3 & _) D. unfold serialize_without_input. rewrite D.
  destruct (videoPerToken m); [eauto|]. destruct (videoPerVideo m); [|eauto].
  run_rows. eauto.
Qed.

(** What makes the ratios impossible: an audio output price with no
    audio input price to relate it to. *)
Definition audio_output_without_input (m : Model) : bool :=
  match number_of (audioOutputPrice m), number_of (audioInputPrice m) with
  | Some _, Some i => neqb i n0
  | Some _, None => true
  | None, _ => false
  end.

Lemma serialize_ratios_spec m input base :
  if audio_output_without_input m
  then serialize_ratios t m input base = inl (missing_audio_input t m)
  else exists s, serialize_ratios t m input base = inr s.
Proof.
  unfold audio_output_without_input, serialize_ratios.
  destruct (number_of (audioOutputPrice m)); [|eauto].
  destruct (number_of (audioInputPrice m)) as [i|]; [|done].
  destruct (neqb i n0); eauto.
Qed.

(** Why a model cannot be saved. *)
Definition unsavable (m : Model) : bool :=
  match number_of (inputPrice m) with
  | None => hasDependentPrice m
  | Some _ => audio_output_without_input m
  end.

Lemma serializeModel_total m rates visible : str_rows m -> unsavable m = false ->
  exists s, serializeModel t m rates visible = inr s.
Proof.
  intros W. unfold unsavable, serializeModel.
  destruct (number_of (inputPrice m)) as [input|]; intros U.
  - pose proof (serialize_ratios_spec m input (serialize_base m visible)) as R.
    rewrite U in R. destruct R as [s ->]. cbn [rbind].
    assert (exists s', (if videoPerToken m then serialize_per_second m rates s
      else if videoPerVideo m then serialize_per_item m rates s else inr s) = inr s')
      as [s' ->].
    { destruct (videoPerToken m); [by apply serialize_per_second_total|].
      destruct (videoPerVideo m); [by apply serialize_per_item_total|eauto]. }
    by apply serialize_images_total.
  - by apply serialize_without_input_total.
Qed.

Lemma serializeModel_fails m rates visible : unsavable m = true ->
  serializeModel t m rates visible
  = inl (match number_of (inputPrice m) with
         | None => missing_input_price t m
         | Some _ => missing_audio_input t m
         end).
Proof.
  unfold unsavable, serializeModel.
  destruct (number_of (inputPrice m)) as [input|]; intros U.
  - pose proof (serialize_ratios_spec m input (serialize_base m visible)) as R.
    rewrite U in R. by rewrite R.
  - unfold serialize_without_input. by rewrite U.
Qed.

(** C5. Saving a model fails in exactly two situations, each with its own
    message: a price that depends on the input price is set and the input
    price is not a number, or an audio output price is set and the audio
    input price is missing or zero.  In every other case it returns. *)
Theorem serializeModel_throws_iff m rates visible e : str_rows m ->
  serializeModel t m rates visible = inl e <->
  (number_of (inputPrice m) = None /\ hasDependentPrice m = true /\
     e = missing_input_price t m) \/
  (number_of (inputPrice m) <> None /\ audio_output_without_input m = true /\
     e = missing_audio_input t m).
Proof.
  intros W. pose proof (serializeModel_total m rates visible W) as T.
  pose proof (serializeModel_fails m rates visible) as F. unfold unsavable in *.
  destruct (number_of (inputPrice m)) as [input|].
  - destruct (audio_output_without_input m);
      [rewrite F by done|destruct T as [s ->]; [done|]].
    + split; [intros [= <-]; by right|by intros [(? & _)|(_ & _ & ->)]].
    + split; [done|by intros [(? & _)|(_ & ? & _)]].
  - destruct (hasDependentPrice m); [rewrite F by done|destruct T as [s ->]; [done|]].
    + split; [intros [= <-]; by left|by intros [(_ & _ & ->)|(? & _)]].
    + split; [done|by intros [(_ & ? & _)|(? & _)]].
Qed.
End Throws.

(** ** Saved numbers are finite *)

Definition num_out_ok (o : Out) : Prop :=
  match o with
  | OVal (VNum x) => valid x /\ isFinite x = true /\ x <> S754_zero true
  | OVal _ => False
  | _ => True
  end.

(** The entries that hold plain numbers. *)
Definition number_entries (s : Serialized) : list Out :=
  [ModelPrice s; ModelRatio s; CompletionRatio s; CacheRatio s; CreateCacheRatio s;
   ImageRatio s; AudioRatio s; AudioCompletionRatio s; VideoRatio s; VideoCompletionRatio s;
   VideoPrice s; ImagePrice s].

Lemma out_num_ok v : wf v -> num_out_ok (out_num (toNormalizedNumber v)).
Proof.
  intros W. pose proof (formatNumber_shape v W) as S. unfold toNormalizedNumber.
  destruct (toNumberOrNull v); [|by rewrite S]. destruct S as (x & V & F & ->).
  destruct (str_of_num x) eqn:E; [done|]. rewrite <- E. cbn.
  split; [apply num_of_str_valid|]. rewrite num_of_str_of_num by done. by destruct x.
Qed.

Lemma normalized_text_ok s : num_out_ok (normalized_text s).
Proof. by apply out_num_ok. Qed.

Lemma normalized_ok x : valid x -> num_out_ok (normalized x).
Proof. apply (out_num_ok (VNum x)). Qed.

Lemma kept_text_ok s : num_out_ok (kept_text s).
Proof. unfold kept_text. case_match; [apply normalized_text_ok|done]. Qed.

Lemma relative_ok p base : num_out_ok (relative p base).
Proof. destruct p; [|done]. apply normalized_ok, ndiv_valid. Qed.

#[local] Hint Resolve normalized_text_ok normalized_ok kept_text_ok relative_ok ndiv_valid : js_num.

(** Resolves [Forall num_out_ok] of explicit entries. *)
Ltac num_entries :=
  repeat match goal with
  | H : Forall num_out_ok (_ :: _) |- _ =>
      apply Forall_cons in H; destruct H
  end;
  repeat apply Forall_cons_2; try apply Forall_nil_2; cbn;
  repeat case_match; cbn; auto with js_num.

Section Finite.
Context `{Unicode} (t : jsstr -> list (jsstr * jsstr) -> jsstr).

Lemma serialize_base_nums m visible :
  Forall num_out_ok (number_entries (serialize_base m visible)).
Proof. unfold number_entries, serialize_base. num_entries. Qed.

Lemma serialize_ratios_nums m input base s :
  Forall num_out_ok (number_entries base) ->
  serialize_ratios t m input base = inr s -> Forall num_out_ok (number_entries s).
Proof.
  intros B. unfold serialize_ratios, number_entries in *.
  repeat case_match; intros; simplify_eq; num_entries.
Qed.

Lemma serialize_per_second_nums m rates r s :
  Forall num_out_ok (number_entries r) ->
  serialize_per_second m rates r = inr s -> Forall num_out_ok (number_entries s).
Proof.
  intros B. unfold serialize_per_second.
  repeat (destruct (normalizePerSecondRows _); cbn [rbind]; [done|]).
  intros [= <-]. unfold number_entries in *. case_match; num_entries.
Qed.

Lemma serialize_per_item_nums m rates r s :
  Forall num_out_ok (number_entries r) ->
  serialize_per_item m rates r = inr s -> Forall num_out_ok (number_entries s).
Proof.
  intros B. unfold serialize_per_item.
  repeat (destruct (normalizePerVideoPricingRows _); cbn [rbind]; [done|]).
  intros [= <-]. unfold number_entries in *.
  case_match; destruct (number_of (videoFixedPrice m)); num_entries.
Qed.

Lemma serialize_images_nums m rates r s :
  Forall num_out_ok (number_entries r) ->
  serialize_images m rates r = inr s -> Forall num_out_ok (number_entries s).
Proof.
  intros B. unfold serialize_images.
  repeat (destruct (normalizePerImagePricingRows _); cbn [rbind]; [done|]).
  intros [= <-]. unfold number_entries in *.
  destruct (number_of (imageGenFixedPrice m)); rewrite ?orb_true_r, ?orb_false_r;
    repeat case_match; num_entries.
Qed.

Lemma serialize_without_input_nums m rates base s :
  Forall num_out_ok (number_entries base) ->
  serialize_without_input t m rates base = inr s -> Forall num_out_ok (number_entries s).
Proof.
  intros B. unfold serialize_without_input. destruct (hasDependentPrice m); [done|].
  destruct (videoPerToken m); [intros [= <-]; unfold number_entries in *; num_entries|].
  destruct (videoPerVideo m); [|intros [= <-]; unfold number_entries in *; num_entries].
  repeat (destruct (normalizePerVideoPricingRows _); cbn [rbind]; [done|]).
  intros [= <-]. unfold number_entries in *.
  case_match; destruct (number_of (videoFixedPrice m)); num_entries.
Qed.

Lemma serializeModel_nums m rates visible s :
  serializeModel t m rates visible = inr s -> Forall num_out_ok (number_entries s).
Proof.
  unfold serializeModel. pose proof (serialize_base_nums m visible) as B.
  destruct (number_of (inputPrice m)) as [input|].
  - destruct (serialize_ratios _ _ _ _) as [|r] eqn:R; cbn [rbind]; [done|].
    apply serialize_ratios_nums in R; [|done].
    destruct (if videoPerToken m then _ else _) as [|r'] eqn:V; cbn [rbind]; [done|].
    apply serialize_images_nums.
    destruct (videoPerToken m); [by eapply serialize_per_second_nums|].
    destruct (videoPerVideo m); [by eapply serialize_per_item_nums|by simplify_eq].
  - by apply serialize_without_input_nums.
Qed.

(** C8. Whatever a model holds, every ratio and price entry that saving it
    produces is absent, a removal mark, or a finite binary64 number other than
    negative zero: a division by a zero input price never stores NaN or
    Infinity, and every stored number survives JSON. *)
Theorem serialized_numbers_finite m rates visible s :
  serializeModel t m rates visible = inr s -> Forall num_out_ok (number_entries s).
Proof. apply serializeModel_nums. Qed.
End Finite.

(** ** What each stage leaves alone *)

Definition tier_entries (s : Serialized) : list Out :=
  [ModelTierRatio s; CompletionTierRatio s; CacheTierRatio s; CreateCacheTierRatio s].

(** The entries that the ratio and video stages leave alone. *)
Definition base_entries (s : Serialized) : list Out := ModelPrice s :: tier_entries s.

(** The entries that the video and image stages leave alone. *)
Definition ratio_entries (s : Serialized) : list Out :=
  [ModelRatio s; CompletionRatio s; CacheRatio s; CreateCacheRatio s; ImageRatio s;
   AudioRatio s; AudioCompletionRatio s; VideoRatio s; VideoCompletionRatio s].

Section Frame.
Context `{Unicode} (t : jsstr -> list (jsstr * jsstr) -> jsstr).

Lemma serialize_ratios_frame m input r s :
  serialize_ratios t m input r = inr s -> base_entries s = base_entries r.
Proof.
  unfold serialize_ratios. destruct (number_of (audioOutputPrice m)); [|by intros [= <-]].
  destruct (number_of (audioInputPrice m)) as [i|]; [|done].
  destruct (neqb i n0); [done|]. by intros [= <-].
Qed.

Lemma serialize_per_second_frame m rates r s :
  serialize_per_second m rates r = inr s -> base_entries s = base_entries r.
Proof.
  unfold serialize_per_second.
  repeat (destruct (normalizePerSecondRows _); cbn [rbind]; [done|]).
  destruct (_ || _); by intros [= <-].
Qed.

Lemma serialize_per_item_frame m rates r s :
  serialize_per_item m rates r = inr s -> base_entries s = base_entries r.
Proof.
  unfold serialize_per_item.
  repeat (destruct (normalizePerVideoPricingRows _); cbn [rbind]; [done|]).
  destruct (number_of (videoFixedPrice m)), (_ || _); by intros [= <-].
Qed.

Lemma serialize_videos_frame m rates r s :
  (if videoPerToken m then serialize_per_second m rates r
   else if videoPerVideo m then serialize_per_item m rates r else inr r) = inr s ->
  base_entries s = base_entries r.
Proof.
  destruct (videoPerToken m); [apply serialize_per_second_frame|].
  destruct (videoPerVideo m); [apply serialize_per_item_frame|by intros [= ->]].
Qed.

Lemma serialize_videos_ratios m rates r s :
  (if videoPerToken m then serialize_per_second m rates r
   else if videoPerVideo m then serialize_per_item m rates r else inr r) = inr s ->
  ratio_entries s = ratio_entries r.
Proof.
  destruct (videoPerToken m); [|destruct (videoPerVideo m); [|by intros [= ->]]].
  - unfold serialize_per_second.
    repeat (destruct (normalizePerSecondRows _); cbn [rbind]; [done|]).
    destruct (_ || _); by intros [= <-].
  - unfold serialize_per_item.
    repeat (destruct (normalizePerVideoPricingRows _); cbn [rbind]; [done|]).
    destruct (number_of (videoFixedPrice m)), (_ || _); by intros [= <-].
Qed.

Lemma serialize_images_ratios m rates r s :
  serialize_images m rates r = inr s -> ratio_entries s = ratio_entries r.
Proof.
  unfold serialize_images.
  repeat (destruct (normalizePerImagePricingRows _); cbn [rbind]; [done|]).
  destruct (number_of (imageGenFixedPrice m)), (non_empty _ || non_empty _); cbn [orb];
    repeat case_match; by intros [= <-].
Qed.

(** With an input price, the ratios are those of [serialize_ratios]. *)
Lemma serializeModel_ratios m rates visible input s :
  number_of (inputPrice m) = Some input -> serializeModel t m rates visible = inr s ->
  exists r, serialize_ratios t m input (serialize_base m visible) = inr r /\
            ratio_entries s = ratio_entries r.
Proof.
  intros I. unfold serializeModel. rewrite I.
  destruct (serialize_ratios _ _ _ _) as [|r] eqn:R; cbn [rbind]; [done|].
  destruct (if videoPerToken m then _ else _) as [|r'] eqn:V; cbn [rbind]; [done|].
  apply serialize_videos_ratios in V. intros E%serialize_images_ratios.
  exists r. split; congruence.
Qed.
End Frame.

(** ** Image tables and the per-request price *)

(** A row that ends up in the stored image table. *)
Definition image_row_priced (row : ImageRow) : bool :=
  usable_image_row row && positive (toNumberOrNull (opt_val (img_price row))).

Lemma normalizePerImage_non_empty rows rules :
  normalizePerImagePricingRows rows = inr rules ->
  non_empty rules = existsb image_row_priced rows.
Proof.
  unfold normalizePerImagePricingRows. revert rules.
  induction rows as [|row rows IH]; intros rules; [by intros [= <-]|].
  cbn [existsb]. unfold image_row_priced at 1. rewrite filter_cons.
  destruct (usable_image_row row) eqn:U; cbn [andb];
    [rewrite decide_True by done | rewrite decide_False by done; exact (IH rules)].
  cbn [rmap]. destruct (replace_ws (img_resolution row)); cbn [rbind]; [done|].
  destruct (rmap _ _) as [|ys]; cbn [rbind] in *; [done|]. intros [= <-]. cbn.
  specialize (IH _ eq_refl).
  destruct (toNumberOrNull (opt_val (img_price row))) as [x|]; cbn; [|exact IH].
  destruct (nltb n0 x); [done|exact IH].
Qed.

Section Images.
Context `{Unicode} (t : jsstr -> list (jsstr * jsstr) -> jsstr).

Lemma serialize_images_ModelPrice m rates r s :
  serialize_images m rates r = inr s ->
  ModelPrice s = if existsb image_row_priced (imageTextToImageRules m)
                    || existsb image_row_priced (imageImageToImageRules m)
                 then ORemove else ModelPrice r.
Proof.
  unfold serialize_images.
  destruct (normalizePerImagePricingRows (imageTextToImageRules m)) as [|a] eqn:Ea;
    cbn [rbind]; [done|].
  destruct (normalizePerImagePricingRows (imageImageToImageRules m)) as [|b] eqn:Eb;
    cbn [rbind]; [done|].
  apply normalizePerImage_non_empty in Ea, Eb. rewrite <- Ea, <- Eb.
  intros [= <-]. destruct (non_empty a || non_empty b); cbn [orb].
  - by destruct (number_of (imageGenFixedPrice m)).
  - destruct (number_of (imageGenFixedPrice m)); [done|]. by repeat case_match.
Qed.

Lemma serialize_base_ModelPrice m visible :
  ModelPrice (serialize_base m visible) <> ORemove.
Proof.
  unfold serialize_base. cbn. case_match; [|done]. unfold normalized_text.
  by destruct (toNormalizedNumber _).
Qed.

(** A per-image price table and a per-request price exclude each
    other: for a model with an input price, saving marks [ModelPrice] for
    removal exactly when some image row has a valid resolution and a
    positive price. *)
Theorem image_table_removes_model_price m rates visible s :
  number_of (inputPrice m) <> None ->
  serializeModel t m rates visible = inr s ->
  ModelPrice s = ORemove <->
  existsb image_row_priced (imageTextToImageRules m ++ imageImageToImageRules m) = true.
Proof.
  intros I. unfold serializeModel. destruct (number_of (inputPrice m)) as [input|]; [|done].
  destruct (serialize_ratios _ _ _ _) as [|r] eqn:R; cbn [rbind]; [done|].
  apply serialize_ratios_frame in R as [= Hr].
  destruct (if videoPerToken m then _ else _) as [|r'] eqn:V; cbn [rbind]; [done|].
  apply serialize_videos_frame in V as [= Hr'].
  intros ->%serialize_images_ModelPrice. rewrite existsb_app.
  destruct (existsb _ _ || existsb _ _); [done|]. rewrite Hr', Hr.
  split; [|done]. intros X. by apply serialize_base_ModelPrice in X.
Qed.

(** Without an input price, saving stores no image pricing at all,
    neither the rows being edited nor the rules the model was loaded with. *)
Theorem image_pricing_dropped_without_input m rates visible s :
  number_of (inputPrice m) = None ->
  serializeModel t m rates visible = inr s ->
  ImagePricingRules s = ONull /\ ImagePrice s = ONull.
Proof.
  intros I. unfold serializeModel. rewrite I. unfold serialize_without_input.
  destruct (hasDependentPrice m); [done|].
  destruct (videoPerToken m); [by intros [= <-]|].
  destruct (videoPerVideo m); [|by intros [= <-]].
  repeat (destruct (normalizePerVideoPricingRows _); cbn [rbind]; [done|]).
  intros [= <-]. destruct (number_of (videoFixedPrice m)); by case_match.
Qed.
End Images.

(** ** Tiers survive saving and loading *)

Section Tiers.
Context `{Unicode} (t : jsstr -> list (jsstr * jsstr) -> jsstr).

Lemma serialize_images_tiers m rates r s :
  serialize_images m rates r = inr s -> tier_entries s = tier_entries r.
Proof.
  unfold serialize_images.
  repeat (destruct (normalizePerImagePricingRows _); cbn [rbind]; [done|]).
  destruct (number_of (imageGenFixedPrice m)), (non_empty _ || non_empty _); cbn [orb];
    repeat case_match; by intros [= <-].
Qed.

Lemma serialize_without_input_tiers m rates r s :
  serialize_without_input t m rates r = inr s -> tier_entries s = tier_entries r.
Proof.
  unfold serialize_without_input. destruct (hasDependentPrice m); [done|].
  destruct (videoPerToken m); [by intros [= <-]|].
  destruct (videoPerVideo m); [|by intros [= <-]].
  repeat (destruct (normalizePerVideoPricingRows _); cbn [rbind]; [done|]).
  destruct (number_of (videoFixedPrice m)), (_ || _); by intros [= <-].
Qed.

Lemma serializeModel_tiers m rates visible s :
  serializeModel t m rates visible = inr s ->
  tier_entries s = tier_entries (serialize_base m visible).
Proof.
  unfold serializeModel. destruct (number_of (inputPrice m)) as [input|].
  - destruct (serialize_ratios _ _ _ _) as [|r] eqn:R; cbn [rbind]; [done|].
    apply serialize_ratios_frame in R as HR.
    destruct (if videoPerToken m then _ else _) as [|r'] eqn:V; cbn [rbind]; [done|].
    apply serialize_videos_frame in V as HV. rewrite HR in HV.
    intros ->%serialize_images_tiers. unfold tier_entries. by injection HV as _ -> -> -> ->.
  - apply serialize_without_input_tiers.
Qed.
End Tiers.

(** What loading finds under the model's name in the stored map. *)
Definition stored_under (name : jsstr) (o : Out) : jsval :=
  match o with OVal v => VObj [(name, v)] | _ => VObj [] end.

Lemma hasTierSegments_Some rows :
  Forall (fun r => row_finite r = true) rows ->
  hasTierSegments (tier_val (Some rows)) = bool_decide (0 < length rows)%nat.
Proof.
  intros F. unfold hasTierSegments. cbn [tier_val].
  by rewrite normalizeTierSegments_val, length_map by done.
Qed.

(** What is read back of a tier: all of it when its category is shown (a
    negative zero becomes zero), nothing of an empty or hidden one. *)
Definition kept_tier (shown : bool) (x : tier) : tier :=
  match x with
  | Some (r :: rows) => if shown then Some (map plus_zero_row (r :: rows)) else None
  | _ => None
  end.

Definition finite_tier (x : tier) : Prop :=
  match x with Some rows => Forall (fun r => row_finite r = true) rows | None => True end.

(** The switches of the page; without them every category is shown. *)
Definition shows (visible : option VisibleCategories) (f : VisibleCategories -> bool) : bool :=
  match visible with Some v => f v | None => true end.

Lemma tier_out_roundtrip name shown x : finite_tier x ->
  tier_of (stored_under name (tier_out shown x)) name = kept_tier shown x.
Proof.
  destruct x as [rows|]; [|by destruct shown]. intros F. cbn [finite_tier] in F.
  unfold tier_out. rewrite hasTierSegments_Some by done.
  destruct shown; [|by destruct rows]. destruct rows as [|r rows]; [done|].
  rewrite bool_decide_true by (cbn; lia). cbn [andb].
  unfold tier_of, stored_under. cbn -[normalizeTierSegments].
  rewrite bool_decide_true by done. cbn -[normalizeTierSegments].
  unfold kept_tier. f_equal. by apply normalizeTierSegments_val.
Qed.

(** C9. What a save keeps of the tiers: for a model whose segments are finite
    numbers, the entry stored for each of the four categories, read back under
    the model's name, is the tier it was saved from (a negative zero bound
    becomes zero) when the tier is not empty and the category is shown; the
    input tier is always kept, and of a hidden category nothing is. *)
Theorem tiers_roundtrip `{Unicode} t m rates visible s :
  finite_tier (modelTierRatio m) -> finite_tier (completionTierRatio m) ->
  finite_tier (cacheTierRatio m) -> finite_tier (createCacheTierRatio m) ->
  serializeModel t m rates visible = inr s ->
  tier_of (stored_under (name m) (ModelTierRatio s)) (name m) = kept_tier true (modelTierRatio m) /\
  tier_of (stored_under (name m) (CompletionTierRatio s)) (name m)
    = kept_tier (shows visible vis_output) (completionTierRatio m) /\
  tier_of (stored_under (name m) (CacheTierRatio s)) (name m)
    = kept_tier (shows visible vis_cache_read) (cacheTierRatio m) /\
  tier_of (stored_under (name m) (CreateCacheTierRatio s)) (name m)
    = kept_tier (shows visible vis_cache_write) (createCacheTierRatio m).
Proof.
  intros H1 H2 H3 H4 E%serializeModel_tiers.
  injection E as -> -> -> ->. unfold serialize_base. cbn -[tier_of tier_out stored_under].
  split_and!; by apply tier_out_roundtrip.
Qed.

(** ** Instances *)

Definition no_translation (s : jsstr) (_ : list (jsstr * jsstr)) : jsstr := s.
Definition sample_rates : CurrencyRates :=
  {| rate_USD := n1; rate_CNY := num_of_Z 7; rate_CUSTOM := n1 |}.

Definition sample_video_row (res price : jsstr) : VideoRow := {|
  resolution := VStr res; tokenPrice := Some price; videoPrice := Some price;
  noAudioPrice := Some []; withAudioPrice := Some []; pixelCompression := Some [];
  audioPricingEnabled := false; hasAudio := false |}.

(** A model with an input price, a per-second table, an image table and an
    input tier. *)
Definition sample_model : Model := EMPTY_MODEL
  <| name := js "m" |> <| inputPrice := js "4" |> <| completionPrice := js "8" |>
  <| audioInputPrice := js "6" |> <| audioOutputPrice := js "12" |>
  <| videoTextToVideoRules :=
       [sample_video_row (js " 720 p") (js "7"); sample_video_row (js "720p") (js "9")] |>
  <| imageTextToImageRules := [{| img_resolution := VStr (js "1K"); img_price := Some (js "3") |}] |>
  <| modelTierRatio := Some [{| up_to := num_of_Z 10; ratio := n1 |}] |>.

(** Only an image table, and no input price. *)
Definition sample_image_model : Model := EMPTY_MODEL
  <| name := js "i" |>
  <| imageTextToImageRules := [{| img_resolution := VStr (js "1K"); img_price := Some (js "3") |}] |>.

Definition saved (m : Model) : Serialized :=
  match serializeModel (H := code_unit_unicode) no_translation m sample_rates None with
  | inr s => s
  | inl _ => empty_serialized
  end.

Lemma video_price_tables_well_formed_witness :
  exists rules, normalizePerSecondRows (videoTextToVideoRules sample_model) = inr rules /\
    length rules = 2%nat /\ Forall rule_ok rules /\ NoDup (map rule_key rules).
Proof.
  eexists. split; [vm_compute; reflexivity|]. split; [reflexivity|].
  apply (video_price_tables_well_formed (videoTextToVideoRules sample_model)).
  left. vm_compute. reflexivity.
Defined.

Lemma serializeModel_throws_iff_witness :
  serializeModel (H := code_unit_unicode) no_translation (EMPTY_MODEL <| cachePrice := js "1" |>)
    sample_rates None
  = inl (missing_input_price no_translation (EMPTY_MODEL <| cachePrice := js "1" |>)).
Proof.
  apply (serializeModel_throws_iff no_translation); [repeat split; apply Forall_nil_2|].
  left. repeat split; vm_compute; reflexivity.
Defined.

Lemma serialized_numbers_finite_witness : Forall num_out_ok (number_entries (saved sample_model)).
Proof.
  apply (serialized_numbers_finite (H := code_unit_unicode) no_translation sample_model
           sample_rates None).
  vm_compute. reflexivity.
Defined.

Lemma image_table_removes_model_price_witness : ModelPrice (saved sample_model) = ORemove.
Proof.
  apply (image_table_removes_model_price (H := code_unit_unicode) no_translation sample_model
           sample_rates None);
    [vm_compute; discriminate|vm_compute; reflexivity|vm_compute; reflexivity].
Defined.

Lemma image_pricing_dropped_without_input_witness :
  existsb image_row_priced (imageTextToImageRules sample_image_model) = true /\
  ImagePricingRules (saved sample_image_model) = ONull /\
  ImagePrice (saved sample_image_model) = ONull.
Proof.
  split; [vm_compute; reflexivity|].
  apply (image_pricing_dropped_without_input (H := code_unit_unicode) no_translation
           sample_image_model sample_rates None); vm_compute; reflexivity.
Defined.

(** An input tier, a shown output tier and a hidden cache tier. *)
Definition sample_tier : tier := Some [{| up_to := num_of_Z 10; ratio := n1 |}].
Definition sample_tiered : Model :=
  sample_model <| completionTierRatio := sample_tier |> <| cacheTierRatio := sample_tier |>.
Definition sample_visible : option VisibleCategories :=
  Some {| vis_output := true; vis_cache_read := false; vis_cache_write := false |}.

Lemma tiers_roundtrip_witness :
  match serializeModel (H := code_unit_unicode) no_translation sample_tiered sample_rates sample_visible with
  | inr s =>
      tier_of (stored_under (js "m") (ModelTierRatio s)) (js "m") = sample_tier /\
      tier_of (stored_under (js "m") (CompletionTierRatio s)) (js "m") = sample_tier /\
      tier_of (stored_under (js "m") (CacheTierRatio s)) (js "m") = None
  | inl _ => False
  end.
Proof.
  destruct (serializeModel (H := code_unit_unicode) no_translation sample_tiered sample_rates sample_visible)
    as [|s] eqn:E; [vm_compute in E; discriminate|].
  destruct (tiers_roundtrip (H := code_unit_unicode) no_translation sample_tiered sample_rates sample_visible s)
    as (A & B & C & _); [repeat constructor..|exact E|].
  split; [exact A|]. split; [exact B|exact C].
Defined.
