(* ===== verification/PricingView.v ===== *)
(** * What the editor shows about a model (useModelPricingEditorState.js)

    [getModelWarnings], [buildSummaryText], [buildOptionalFieldToggles] and
    [buildPreviewRows], and how they relate to [serializeModel]: a model
    without warnings can be saved, and the preview announces the ratios that
    are stored. *)

From Stdlib Require Import SpecFloat.
From stdpp Require Import base list numbers strings.
From S2P Require Import Prelude JsNumber JsString JsValue TierPricing PricingModel PricingSerialize.
Local Open Scope Z_scope.
Local Open Scope js_scope.

#[export] Instance RawRatios_eta : Eta RawRatios := fun r => {|
  raw_modelRatio := raw_modelRatio r; raw_completionRatio := raw_completionRatio r;
  raw_cacheRatio := raw_cacheRatio r; raw_createCacheRatio := raw_createCacheRatio r;
  raw_imageRatio := raw_imageRatio r; raw_audioRatio := raw_audioRatio r;
  raw_audioCompletionRatio := raw_audioCompletionRatio r; raw_videoRatio := raw_videoRatio r;
  raw_videoCompletionRatio := raw_videoCompletionRatio r; raw_videoPrice := raw_videoPrice r;
  raw_videoPricingRules := raw_videoPricingRules r; raw_imagePrice := raw_imagePrice r;
  raw_imagePricingRules := raw_imagePricingRules r |}.

(** ** Warnings *)

Section Duplicates.
Context `{Unicode}.

(** [String(row?.resolution || '').replace(/\s+/g, '').toLowerCase()] *)
Definition row_key (resolution : jsval) : jsstr :=
  resolution_key (to_str (resolution ||| VStr [])).

Fixpoint duplicate_from (seen : list jsstr) (resolutions : list jsval) : bool :=
  match resolutions with
  | [] => false
  | r :: rest =>
      let key := row_key r in
      if negb (str_truthy key) then duplicate_from seen rest
      else if bool_decide (key ∈ seen) then true
      else duplicate_from (key :: seen) rest
  end.

Definition hasDuplicateResolution (resolutions : list jsval) : bool :=
  duplicate_from [] resolutions.
End Duplicates.

Definition video_tables (m : Model) : list (list VideoRow) :=
  [videoTextToVideoRules m; videoImageToVideoRules m; videoUploadRules m; videoGenerateRules m].

Definition image_tables (m : Model) : list (list ImageRow) :=
  [imageTextToImageRules m; imageImageToImageRules m].

Definition invalid_resolution (r : jsval) : bool := hasValue r && negb (isValidVideoResolution r).

(** A price that is filled in and is not a number. *)
Definition invalid_price (p : option jsstr) : bool :=
  hasValue (opt_val p)
  && match toNumberOrNull (opt_val p) with None => true | Some _ => false end.

Definition hasInvalidRule (rows : list VideoRow) : bool :=
  existsb (fun row => invalid_resolution (resolution row)) rows.
Definition hasInvalidPerVideoRow (rows : list VideoRow) : bool :=
  existsb (fun row => invalid_resolution (resolution row) || invalid_price (videoPrice row)) rows.
Definition hasInvalidPerImageRow (rows : list ImageRow) : bool :=
  existsb (fun row => invalid_resolution (img_resolution row) || invalid_price (img_price row)) rows.

Definition has_text (s : jsstr) : bool := hasValue (VStr s).

Definition hasDerivedPricing (m : Model) : bool :=
  existsb has_text [inputPrice m; completionPrice m; cachePrice m; createCachePrice m;
                    imagePrice m; audioInputPrice m; audioOutputPrice m]
  || existsb non_empty (video_tables m).

Definition hasTokenPricing (m : Model) : bool :=
  existsb has_text [inputPrice m; completionPrice m; cachePrice m; createCachePrice m;
                    imagePrice m; audioInputPrice m; audioOutputPrice m; videoFixedPrice m]
  || existsb non_empty (video_tables m).

Definition hasRawExtension (r : RawRatios) : bool :=
  existsb has_text [raw_completionRatio r; raw_cacheRatio r; raw_createCacheRatio r;
                    raw_imageRatio r; raw_audioRatio r; raw_audioCompletionRatio r;
                    raw_videoRatio r; raw_videoCompletionRatio r].

(** [if (c) warnings.push(w)] *)
Definition when {A} (c : bool) (w : A) : list A := if c then [w] else [].

Section Warnings.
Context `{Unicode}.
Variable t : jsstr -> list (jsstr * jsstr) -> jsstr.
Local Abbreviation tr s := (t (js s) []).

Definition duplicate_video (m : Model) : bool :=
  existsb (fun rows => hasDuplicateResolution (map resolution rows)) (video_tables m).
Definition duplicate_image (m : Model) : bool :=
  existsb (fun rows => hasDuplicateResolution (map img_resolution rows)) (image_tables m).

Definition per_second_warnings (m : Model) : list jsstr :=
  if isTokenBillingMode (billingMode m) && videoPerToken m then
    when (existsb hasInvalidRule (video_tables m))
      (tr "视频分辨率行中存在非法格式，请使用如 1280x720、480p 或 2K 的分辨率格式。")
    ++ when (duplicate_video m) (tr "同一规则组内分辨率不能重复，请删除重复项。")
  else [].

Definition per_item_warnings (m : Model) : list jsstr :=
  if isTokenBillingMode (billingMode m) && videoPerVideo m then
    when (existsb hasInvalidPerVideoRow (video_tables m))
      (tr "按视频计费的分辨率行请使用如 1280x720、480p 或 2K 的格式，并填写大于 0 的每条成片价格（与站点额度展示币种一致）。")
    ++ when (duplicate_video m) (tr "同一规则组内分辨率不能重复，请删除重复项。")
  else [].

Definition mixed_pricing_warnings (m : Model) : list jsstr :=
  if hasValue (VStr (fixedPrice m)) && (hasAnyTierPricing m || hasTokenPricing m) then
    [tr "当前模型同时配置了多种计费价格，将按“按次计费 > 阶梯计费 > 按量计费”的优先级生效；按次计费生效时，阶梯计费和按量计费均不会生效。"]
  else when (hasAnyTierPricing m && hasTokenPricing m)
    (tr "阶梯计费仅针对文本 token 生效；如果同时配置了按量计费的图片、音频、视频等扩展价格，这些扩展价格仍会按量生效。").

(** Saving this model would fail for lack of an input price. *)
Definition input_price_warnings (m : Model) : list jsstr :=
  when (isTokenBillingMode (billingMode m) && hasDerivedPricing m
        && negb (has_text (inputPrice m)))
    (tr "按量计费下需要先填写输入价格，才能保存其它价格项。").

Definition audio_price_warnings (m : Model) : list jsstr :=
  when (isTokenBillingMode (billingMode m) && has_text (audioOutputPrice m)
        && negb (has_text (audioInputPrice m)))
    (tr "填写音频输出价格前，需要先填写音频输入价格。").

Definition getModelWarnings (model : option Model) : list jsstr :=
  match model with
  | None => []
  | Some m =>
      mixed_pricing_warnings m
      ++ when (bool_decide (getEffectiveBillingMode m = js "per-request") && hasAnyTierPricing m)
           (tr "当前模型为固定价格计费，阶梯计费规则会被保留但不会生效。")
      ++ when (negb (has_text (inputPrice m)) && hasRawExtension (rawRatios m))
           (tr "当前模型存在未显式设置输入倍率的扩展倍率；填写输入价格后会自动换算为价格字段。")
      ++ input_price_warnings m
      ++ audio_price_warnings m
      ++ per_second_warnings m
      ++ per_item_warnings m
      ++ when (existsb hasInvalidPerImageRow (image_tables m))
           (tr "按图片计费的分辨率行请使用如 1280x720、480p 或 2K 的格式，并填写大于 0 的每张价格（与站点额度展示币种一致）。")
      ++ when (duplicate_image m) (tr "同一规则组内分辨率不能重复，请删除重复项。")
  end.

(** ** Summary *)

Definition summary_parts (m : Model) : list jsstr :=
  when (hasTierSegments (tier_val (modelTierRatio m))) (tr "输入")
  ++ when (hasTierSegments (tier_val (completionTierRatio m))) (tr "输出")
  ++ when (hasTierSegments (tier_val (cacheTierRatio m))) (tr "缓存读取")
  ++ when (hasTierSegments (tier_val (createCacheTierRatio m))) (tr "缓存写入").

Definition buildSummaryText (m : Model) : jsstr :=
  let mode := getEffectiveBillingMode m in
  if bool_decide (mode = js "per-request") && has_text (fixedPrice m) then
    tr "按次" ++ js " $" ++ fixedPrice m ++ js " / " ++ tr "次"
  else if bool_decide (mode = js "tiered") && hasAnyTierPricing m then
    tr "阶梯计费" ++ js "｜" ++ join (js " / ") (summary_parts m)
  else if has_text (inputPrice m) then
    tr "输入" ++ js "：" ++ js "$" ++ inputPrice m ++ js "｜" ++ tr "输出" ++ js "："
    ++ (if has_text (completionPrice m) then js "$" ++ completionPrice m else js "-")
  else tr "未设置价格".
End Warnings.

(** ** Which optional fields are shown *)

Definition has_video_price (rows : list VideoRow) : bool :=
  existsb (fun r => hasValue (opt_val (videoPrice r))) rows.
Definition has_image_price (rows : list ImageRow) : bool :=
  existsb (fun r => hasValue (opt_val (img_price r))) rows.

(** The keys of the toggles in source order, as the object they form. *)
Definition buildOptionalFieldToggles (m : Model) : list (jsstr * bool) :=
  [(js "completionPrice", completionRatioLocked m || has_text (completionPrice m));
   (js "cachePrice", has_text (cachePrice m));
   (js "createCachePrice", has_text (createCachePrice m));
   (js "imagePrice", has_text (imagePrice m));
   (js "audioInputPrice", has_text (audioInputPrice m));
   (js "audioOutputPrice", has_text (audioOutputPrice m));
   (js "video", existsb non_empty (video_tables m) || has_text (videoFixedPrice m)
                || existsb has_video_price (video_tables m));
   (js "imageGeneration", existsb non_empty (image_tables m) || has_text (imageGenFixedPrice m)
                          || existsb has_image_price (image_tables m))].

(** ** Preview *)

Record PreviewRow := { row_name : jsstr; row_value : jsstr }.
Record PreviewSection := {
  section_key : jsstr;
  section_title : jsstr;
  section_description : option jsstr;
  preview_rows : list PreviewRow
}.

Section Preview.
Context `{Unicode}.
Variable t : jsstr -> list (jsstr * jsstr) -> jsstr.
Local Abbreviation tr s := (t (js s) []).

(** The key and the label of a row are the same text. *)
Local Abbreviation row k v := {| row_name := js k; row_value := v |}.

Definition text_or_empty (s : jsstr) : jsstr := if has_text s then s else tr "空".

Definition tier_count (x : tier) : jsstr :=
  match x with
  | Some rows =>
      if hasTierSegments (tier_val x)
      then dec_digits (Z.of_nat (length rows)) ++ tr "档" else tr "空"
  | None => tr "空"
  end.

Definition relative_text (price : option spec_float) (base : spec_float) : jsstr :=
  match price with Some p => formatNumber (VNum (ndiv p base)) | None => tr "空" end.

Definition raw_ratio_rows (raw : RawRatios) : list PreviewRow :=
  [row "ModelRatio" (text_or_empty (raw_modelRatio raw));
   row "CompletionRatio" (text_or_empty (raw_completionRatio raw));
   row "CacheRatio" (text_or_empty (raw_cacheRatio raw));
   row "CreateCacheRatio" (text_or_empty (raw_createCacheRatio raw));
   row "ImageRatio" (text_or_empty (raw_imageRatio raw));
   row "AudioRatio" (text_or_empty (raw_audioRatio raw));
   row "AudioCompletionRatio" (text_or_empty (raw_audioCompletionRatio raw))].

Definition derived_ratio_rows (m : Model) (input : spec_float) : list PreviewRow :=
  let audioIn := number_of (audioInputPrice m) in
  [row "ModelRatio" (formatNumber (VNum (ndiv input (num_of_Z 2))));
   row "CompletionRatio"
     (if completionRatioLocked m
      then str_or (lockedCompletionRatio m) (tr "空") ++ js " (" ++ tr "后端固定" ++ js ")"
      else relative_text (number_of (completionPrice m)) input);
   row "CacheRatio" (relative_text (number_of (cachePrice m)) input);
   row "CreateCacheRatio" (relative_text (number_of (createCachePrice m)) input);
   row "ImageRatio" (relative_text (number_of (imagePrice m)) input);
   row "AudioRatio" (relative_text audioIn input);
   row "AudioCompletionRatio"
     (match number_of (audioOutputPrice m), audioIn with
      | Some out, Some i =>
          if negb (neqb i n0) then formatNumber (VNum (ndiv out i)) else tr "空"
      | _, _ => tr "空"
      end)].

Definition hasPerVideoPricingRuleRows (m : Model) : bool :=
  videoPerVideo m && existsb has_priced_row (video_tables m).

Definition hasPerImagePricingRuleRows (m : Model) : bool :=
  existsb (existsb (fun r => hasValue (img_resolution r) && hasValue (opt_val (img_price r))))
    (image_tables m).

(** The rows pushed after the ratios: video and image generation. *)
Definition media_rows (m : Model) : list PreviewRow :=
  let raw := rawRatios m in
  let fixed := number_of (videoFixedPrice m) in
  let imageFixed := number_of (imageGenFixedPrice m) in
  let perVideoRows := hasPerVideoPricingRuleRows m in
  let perImageRows := hasPerImagePricingRuleRows m in
  [row "VideoRatio"
     (match number_of (inputPrice m), fixed with
      | Some input, Some p =>
          if videoPerToken m then formatNumber (VNum (ndiv p input))
          else text_or_empty (raw_videoRatio raw)
      | _, _ => text_or_empty (raw_videoRatio raw)
      end);
   row "VideoCompletionRatio" (text_or_empty (raw_videoCompletionRatio raw));
   row "VideoPricingRules"
     (if videoPerToken m
           && (existsb non_empty (video_tables m) || is_obj (raw_videoPricingRules raw))
         || perVideoRows
      then tr "已配置" else tr "空");
   row "VideoPrice"
     (match fixed with
      | Some p =>
          if videoPerVideo m && negb perVideoRows then formatNumber (VNum p)
          else if videoPerVideo m && perVideoRows then tr "按分辨率见 VideoPricingRules"
          else tr "空"
      | None =>
          if videoPerVideo m && perVideoRows then tr "按分辨率见 VideoPricingRules"
          else tr "空"
      end);
   row "ImagePricingRules"
     (if perImageRows || is_obj (raw_imagePricingRules raw) then tr "已配置" else tr "空");
   row "ImagePrice"
     (match imageFixed with
      | Some p =>
          if negb perImageRows then formatNumber (VNum p)
          else tr "按分辨率见 ImagePricingRules"
      | None => if perImageRows then tr "按分辨率见 ImagePricingRules" else tr "空"
      end)].

Definition per_token_rows (m : Model) : list PreviewRow :=
  (match number_of (inputPrice m) with
   | None => raw_ratio_rows (rawRatios m)
   | Some input => derived_ratio_rows m input
   end) ++ media_rows m.

Definition tiered_rows (m : Model) : list PreviewRow :=
  [row "ModelTierRatio" (tier_count (modelTierRatio m));
   row "CompletionTierRatio" (tier_count (completionTierRatio m));
   row "CacheTierRatio" (tier_count (cacheTierRatio m));
   row "CreateCacheTierRatio" (tier_count (createCacheTierRatio m))].

Definition buildPreviewRows (model : option Model) : list PreviewSection :=
  match model with
  | None => []
  | Some m =>
      [{| section_key := js "per-request"; section_title := tr "按次计费";
          section_description := None;
          preview_rows := [row "ModelPrice" (text_or_empty (fixedPrice m))] |};
       {| section_key := js "tiered"; section_title := tr "阶梯计费";
          section_description := Some (tr "仅针对文本 token 生效");
          preview_rows := tiered_rows m |};
       {| section_key := js "per-token"; section_title := tr "按量计费";
          section_description := Some (tr "图片、音频、视频等扩展价格会按量生效");
          preview_rows := per_token_rows m |}]
  end.
End Preview.

(** ** Duplicate resolutions *)

Section DuplicatesSpec.
Context `{Unicode}.

Definition non_empty_keys (l : list jsval) : list jsstr :=
  base.filter (fun k => str_truthy k = true) (map row_key l).

Lemma duplicate_from_spec l seen :
  duplicate_from seen l = false <->
  NoDup (non_empty_keys l) /\ (forall k, k ∈ non_empty_keys l -> k ∉ seen).
Proof.
  unfold non_empty_keys. revert seen.
  induction l as [|r l IH]; intros seen; cbn [duplicate_from map].
  { split; [|done]. intros _. split; [constructor|]. by intros k ?%not_elem_of_nil. }
  destruct (str_truthy (row_key r)) eqn:T; cbn [negb].
  - rewrite filter_cons_True by done. case_bool_decide as D.
    + split; [done|]. intros [_ X]. by destruct (X (row_key r) (list_elem_of_here _ _)).
    + rewrite IH, NoDup_cons. split.
      * intros [N S]. split_and!; try done.
        -- intros X. by apply (S _ X), list_elem_of_here.
        -- intros k [->|X]%elem_of_cons; [done|].
           intros Y. by apply (S _ X), list_elem_of_further.
      * intros [[N1 N2] S]. split; [done|]. intros k X [->|Y]%elem_of_cons; [done|].
        by apply (S k); [apply list_elem_of_further|].
  - rewrite filter_cons_False by (by rewrite T). apply IH.
Qed.

(** The duplicate check raises its warning exactly when two rows of a
    table name the same resolution up to white space and case; rows with an
    empty resolution are ignored. *)
Theorem hasDuplicateResolution_spec l :
  hasDuplicateResolution l = false <-> NoDup (non_empty_keys l).
Proof.
  unfold hasDuplicateResolution. rewrite duplicate_from_spec.
  split; [by intros [? _]|]. intros N. split; [done|]. by intros k _ ?%not_elem_of_nil.
Qed.

(** What grouping keeps: the keys are distinct, and each is the key of the
    resolution its item shows. *)
Definition grouped_ok (g : list (jsstr * AudioItem)) : Prop :=
  NoDup (map fst g) /\
  Forall (fun kv => fst kv = resolution_key (item_resolution (snd kv))) g.

Lemma record_row_keys g key res audio value :
  map fst (record_row g key res audio value)
  = if bool_decide (key ∈ map fst g) then map fst g else map fst g ++ [key].
Proof.
  induction g as [|[k item] g IH]; [done|]. cbn [record_row map fst].
  destruct (decide (k = key)) as [->|E].
  - rewrite (bool_decide_true (key = key)) by done. cbn [map fst]. rewrite bool_decide_true by apply list_elem_of_here. done.
  - rewrite (bool_decide_false (k = key)) by done. cbn [map fst].
    rewrite IH. case_bool_decide as D.
    + by rewrite bool_decide_true by by apply list_elem_of_further.
    + rewrite bool_decide_false; [done|]. rewrite elem_of_cons. by intros [?|?].
Qed.

Lemma record_row_ok g res audio value :
  grouped_ok g -> grouped_ok (record_row g (resolution_key res) res audio value).
Proof.
  intros [N F]. split.
  - rewrite record_row_keys. case_bool_decide; [done|].
    apply NoDup_app. split; [done|]. split; [|apply NoDup_singleton].
    by intros x Hx ->%list_elem_of_singleton.
  - clear N. induction F as [|[k item] g E F IH]; cbn [record_row].
    + constructor; [|constructor]. cbn. by destruct value, audio.
    + cbn in E. case_bool_decide; constructor; try done; cbn.
      by destruct value, audio.
Qed.

Lemma group_rows_ok k rows : grouped_ok (fold_left (group_row k) rows []).
Proof.
  assert (G : grouped_ok []) by (split; constructor).
  revert G. generalize (@nil (jsstr * AudioItem)).
  induction rows as [|row rows IH]; intros g G; cbn [fold_left]; [done|].
  apply IH. unfold group_row. case_match; [done|]. by apply record_row_ok.
Qed.

Lemma resolution_key_row s : row_key (VStr s) = resolution_key s.
Proof. unfold row_key, js_or. by destruct s. Qed.

Lemma normalizeAudioPricedRows_keys rows k :
  map row_key (map resolution (normalizeAudioPricedRows rows k))
  = map fst (fold_left (group_row k) (as_arr rows) []).
Proof.
  unfold normalizeAudioPricedRows. rewrite !map_map.
  destruct (group_rows_ok k (as_arr rows)) as [_ F]. induction F as [|kv g E _ IH]; [done|].
  cbn [map]. rewrite IH. f_equal. cbn [resolution audio_row]. by rewrite resolution_key_row.
Qed.

(** A table loaded from the stored rules never has a duplicate
    resolution, whatever the stored rows are: loading merges the rows of
    one resolution, so the duplicate warning is only ever caused by edits. *)
Theorem loaded_table_no_duplicates rows k :
  hasDuplicateResolution (map resolution (normalizeAudioPricedRows rows k)) = false.
Proof.
  apply duplicate_from_spec. unfold non_empty_keys. rewrite normalizeAudioPricedRows_keys.
  split; [|by intros ? _ ?%not_elem_of_nil].
  apply NoDup_filter, group_rows_ok.
Qed.
End DuplicatesSpec.

(** ** Warnings and saving *)

Lemma when_nil {A} c (w : A) : when c w = [] <-> c = false.
Proof. by destruct c. Qed.

Lemma number_of_text s x : number_of s = Some x -> has_text s = true.
Proof. unfold number_of. rewrite toNumberOrNull_eq. unfold has_text. by destruct (hasValue _). Qed.

Lemma has_text_number s : has_text s = false -> number_of s = None.
Proof. destruct s; [done|]. done. Qed.

Lemma has_priced_row_non_empty rows : has_priced_row rows = true -> non_empty rows = true.
Proof. by destruct rows. Qed.

Lemma hasDerivedPricing_dependent m :
  hasDerivedPricing m = false -> hasDependentPrice m = false.
Proof.
  unfold hasDerivedPricing, hasDependentPrice. cbn [existsb video_tables].
  rewrite !orb_false_iff. intros [(_ & C & Ca & Cc & I & A & O & _) (V1 & V2 & V3 & V4 & _)].
  rewrite !has_text_number by done. rewrite V1, V2, V3, V4.
  assert (P : forall rows, non_empty rows = false -> has_priced_row rows = false).
  { intros rows E. destruct (has_priced_row rows) eqn:D; [|done].
    apply has_priced_row_non_empty in D. congruence. }
  rewrite !P by done. by destruct (videoPerToken m), (videoPerVideo m).
Qed.

Section Savable.
Context `{Unicode} (t : jsstr -> list (jsstr * jsstr) -> jsstr).

(** A text box holds nothing or a number. *)
Definition numeric_text (s : jsstr) : Prop := has_text s = true -> number_of s <> None.

(** C10. The warnings announce every failure of a save: a model in a token
    billing mode without warnings is saved without an error, provided its
    input and audio input boxes hold numbers or nothing and the audio input
    price is not zero. *)
Theorem no_warnings_savable m rates visible :
  isTokenBillingMode (billingMode m) = true -> str_rows m ->
  numeric_text (inputPrice m) -> numeric_text (audioInputPrice m) ->
  (forall i, number_of (audioInputPrice m) = Some i -> neqb i n0 = false) ->
  getModelWarnings t (Some m) = [] ->
  exists s, serializeModel t m rates visible = inr s.
Proof.
  intros B W NI NA Z. unfold getModelWarnings, input_price_warnings, audio_price_warnings.
  rewrite B, !app_nil, !when_nil. intros (_ & _ & _ & DI & DA & _).
  apply serializeModel_total; [done|]. unfold unsavable.
  destruct (number_of (inputPrice m)) as [input|] eqn:I.
  - unfold audio_output_without_input.
    destruct (number_of (audioOutputPrice m)) as [o|] eqn:O; [|done].
    apply number_of_text in O. rewrite O in DA. unfold numeric_text in NA.
    destruct (has_text (audioInputPrice m)); [|done].
    destruct (number_of (audioInputPrice m)) as [i|]; [by apply Z|by destruct NA].
  - unfold numeric_text in NI. destruct (has_text (inputPrice m)); [by destruct NI|].
    apply hasDerivedPricing_dependent. by destruct (hasDerivedPricing m).
Qed.
End Savable.

(** ** Preview and saving *)

(** The entry stored for a previewed text. *)
Definition saved_as (text : jsstr) : Out :=
  match text with [] => ONull | _ => OVal (VNum (num_of_str text)) end.

Lemma normalized_saved_as x : normalized x = saved_as (formatNumber (VNum x)).
Proof. unfold normalized, toNormalizedNumber, saved_as. by destruct (formatNumber (VNum x)). Qed.

Section PreviewSpec.
Context `{Unicode} (t : jsstr -> list (jsstr * jsstr) -> jsstr).

(** The text of a locked completion ratio: the fixed ratio and a note. *)
Definition locked_note (m : Model) : jsstr :=
  str_or (lockedCompletionRatio m) (t (js "空") []) ++ js " (" ++ t (js "后端固定") [] ++ js ")".

(** What a preview row tells of the entry that is stored: the placeholder for
    nothing; a number, which is the one that is stored (an empty text when the
    quotient is no number and nothing is stored); without an input price the
    text as it was loaded, which is stored as its number; the note of a locked
    completion ratio, where the loaded ratio is stored again. *)
Inductive announces (m : Model) (row : PreviewRow) : jsstr * Out -> Prop :=
| announces_nothing k :
    row_name row = k -> row_value row = t (js "空") [] -> announces m row (k, ONull)
| announces_number k :
    row_name row = k -> number_of (inputPrice m) <> None -> announces m row (k, saved_as (row_value row))
| announces_loaded k :
    row_name row = k -> number_of (inputPrice m) = None ->
    announces m row (k, normalized_text (row_value row))
| announces_locked :
    row_name row = js "CompletionRatio" -> number_of (inputPrice m) <> None -> completionRatioLocked m = true ->
    row_value row = locked_note m ->
    announces m row (js "CompletionRatio", kept_text (raw_completionRatio (rawRatios m))).

Definition named_ratios (s : Serialized) : list (jsstr * Out) :=
  [(js "ModelRatio", ModelRatio s); (js "CompletionRatio", CompletionRatio s);
   (js "CacheRatio", CacheRatio s); (js "CreateCacheRatio", CreateCacheRatio s);
   (js "ImageRatio", ImageRatio s); (js "AudioRatio", AudioRatio s);
   (js "AudioCompletionRatio", AudioCompletionRatio s)].

Lemma number_announced m k x : number_of (inputPrice m) <> None ->
  announces m {| row_name := k; row_value := formatNumber (VNum x) |} (k, normalized x).
Proof. intros I. rewrite normalized_saved_as. by apply announces_number. Qed.

Lemma relative_announced m k price base : number_of (inputPrice m) <> None ->
  announces m {| row_name := k; row_value := relative_text t price base |} (k, relative price base).
Proof.
  intros I. destruct price as [p|]; cbn [relative_text relative]; [by apply number_announced|by apply announces_nothing].
Qed.

Lemma loaded_announced m k s : number_of (inputPrice m) = None ->
  announces m {| row_name := k; row_value := text_or_empty t s |} (k, kept_text s).
Proof.
  intros I. unfold text_or_empty, kept_text, has_text. destruct (hasValue (VStr s)).
  - by apply (announces_loaded m {| row_name := k; row_value := s |}).
  - by apply announces_nothing.
Qed.

Lemma completion_announced m input : number_of (inputPrice m) = Some input ->
  announces m
    {| row_name := js "CompletionRatio";
       row_value := if completionRatioLocked m then locked_note m
                    else relative_text t (number_of (completionPrice m)) input |}
    (js "CompletionRatio",
     match number_of (completionPrice m) with
     | Some p => if negb (completionRatioLocked m) then normalized (ndiv p input)
                 else kept_text (raw_completionRatio (rawRatios m))
     | None => if completionRatioLocked m then kept_text (raw_completionRatio (rawRatios m)) else ONull
     end).
Proof.
  intros I. assert (N : number_of (inputPrice m) <> None) by congruence.
  destruct (completionRatioLocked m) eqn:L; cbn [negb].
  - destruct (number_of (completionPrice m)); by apply announces_locked.
  - exact (relative_announced m _ (number_of (completionPrice m)) input N).
Qed.

Lemma derived_announced m input base r :
  number_of (inputPrice m) = Some input -> serialize_ratios t m input base = inr r ->
  AudioCompletionRatio base = ONull ->
  Forall2 (announces m) (derived_ratio_rows t m input) (named_ratios r).
Proof.
  intros I R N. pose proof (completion_announced m input I) as C.
  assert (A : forall k price, announces m {| row_name := k; row_value := relative_text t price input |} (k, relative price input))
    by (intros; apply relative_announced; congruence).
  assert (B : forall k x, announces m {| row_name := k; row_value := formatNumber (VNum x) |} (k, normalized x))
    by (intros; apply number_announced; congruence).
  unfold serialize_ratios in R. unfold derived_ratio_rows.
  destruct (number_of (audioOutputPrice m)) as [o|].
  - destruct (number_of (audioInputPrice m)) as [i|] eqn:E; [|done].
    destruct (neqb i n0) eqn:Z; [done|]. injection R as <-.
    repeat (apply Forall2_cons; split); try apply Forall2_nil; try done; first [exact C|apply A|apply B].
  - injection R as <-.
    repeat (apply Forall2_cons; split); try apply Forall2_nil; try exact Logic.I;
      first [exact C|apply A|apply B|change (announces m {| row_name := js "AudioCompletionRatio"; row_value := t (js "空") [] |}
        (js "AudioCompletionRatio", AudioCompletionRatio base)); rewrite N; by apply announces_nothing].
Qed.

Lemma without_input_ratios m rates base s : serialize_without_input t m rates base = inr s ->
  named_ratios s = map (fun '(k, f) => (js k, kept_text (f (rawRatios m))))
    [("ModelRatio"%string, raw_modelRatio); ("CompletionRatio"%string, raw_completionRatio);
     ("CacheRatio"%string, raw_cacheRatio); ("CreateCacheRatio"%string, raw_createCacheRatio);
     ("ImageRatio"%string, raw_imageRatio); ("AudioRatio"%string, raw_audioRatio);
     ("AudioCompletionRatio"%string, raw_audioCompletionRatio)].
Proof.
  unfold serialize_without_input, rbind. repeat case_match; intros; simplify_eq; reflexivity.
Qed.

(** C11. The preview tells what a save stores: for every model that can be
    saved, each of the seven ratio rows shows the placeholder and nothing is
    stored, or shows the number that is stored; without an input price it shows
    the loaded text whose number is stored again, and for a locked completion
    ratio it shows the fixed ratio with a note while the loaded one is stored. *)
Theorem preview_matches_saved_ratios m rates visible s :
  serializeModel t m rates visible = inr s ->
  Forall2 (announces m) (take 7 (per_token_rows t m)) (named_ratios s).
Proof.
  intros S. unfold per_token_rows. destruct (number_of (inputPrice m)) as [input|] eqn:I.
  - destruct (serializeModel_ratios t m rates visible input s I S) as (r & R & E).
    apply derived_announced in R; [|done|done].
    unfold ratio_entries in E. injection E as E1 E2 E3 E4 E5 E6 E7 _ _.
    unfold named_ratios in *. by rewrite E1, E2, E3, E4, E5, E6, E7.
  - unfold serializeModel in S. rewrite I in S. rewrite (without_input_ratios _ _ _ _ S).
    repeat (apply Forall2_cons; split); try apply Forall2_nil; first [exact Logic.I|by apply loaded_announced].
Qed.

(** The preview of [VideoRatio] and [VideoCompletionRatio] does not
    tell what is stored: with an input price, saving never stores either,
    so a model whose preview shows a stored video ratio loses it. *)
Theorem video_ratio_not_saved m rates visible input s :
  number_of (inputPrice m) = Some input ->
  serializeModel t m rates visible = inr s ->
  VideoRatio s = ONull /\ VideoCompletionRatio s = ONull.
Proof.
  intros I S. destruct (serializeModel_ratios t m rates visible input s I S) as (r & R & E).
  injection E as _ _ _ _ _ _ _ -> ->. revert R. unfold serialize_ratios.
  destruct (number_of (audioOutputPrice m)); [|by intros [= <-]].
  destruct (number_of (audioInputPrice m)) as [i|]; [|done].
  destruct (neqb i n0); [done|]. by intros [= <-].
Qed.
End PreviewSpec.

(** ** Instances *)

Lemma no_warnings_savable_witness :
  exists s, serializeModel (H := code_unit_unicode) no_translation
    (EMPTY_MODEL <| inputPrice := js "4" |> <| cachePrice := js "1" |>) sample_rates None = inr s.
Proof.
  apply (no_warnings_savable (H := code_unit_unicode) no_translation);
    [vm_compute; reflexivity|repeat split; apply Forall_nil_2|vm_compute; discriminate
    |vm_compute; discriminate|vm_compute; discriminate|vm_compute; reflexivity].
Defined.

Lemma preview_matches_saved_ratios_witness :
  Forall2 (announces no_translation sample_model) (take 7 (per_token_rows no_translation sample_model))
    (named_ratios (saved sample_model)).
Proof.
  apply (preview_matches_saved_ratios (H := code_unit_unicode) no_translation sample_model
           sample_rates None); vm_compute; reflexivity.
Defined.

(** A model whose stored video ratio the preview shows. *)
Definition sample_ratio_model : Model := EMPTY_MODEL
  <| inputPrice := js "4" |>
  <| rawRatios := EMPTY_RAW_RATIOS <| raw_videoRatio := js "1.5" |> |>.

Lemma video_ratio_not_saved_witness :
  row_value <$> head (media_rows no_translation sample_ratio_model) = Some (js "1.5") /\
  VideoRatio (saved sample_ratio_model) = ONull.
Proof.
  split; [vm_compute; reflexivity|].
  apply (video_ratio_not_saved (H := code_unit_unicode) no_translation sample_ratio_model
           sample_rates None (num_of_Z 4)); vm_compute; reflexivity.
Defined.
