(* ===== verification/VideoPricingJson.v ===== *)
(** * The JSON editor of the video prices
      (web/src/pages/Setting/Ratio/utils/videoPricingJson.js)

    Export of a model's video prices as commented JSON text, parsing of such
    text, and merging it back into the model. *)

From Stdlib Require Import SpecFloat Wf_nat.
From stdpp Require Import base list numbers strings.
From S2P Require Import Prelude JsNumber JsString JsValue JsJson TierPricing PricingModel.
Local Open Scope Z_scope.
Local Open Scope js_scope.

Module VideoJson.

(** ** Resolutions *)

Definition RESOLUTION_TO_CANONICAL : list (jsstr * jsstr) :=
  [(js "480", js "854x480"); (js "480p", js "854x480"); (js "854x480", js "854x480");
   (js "540", js "960x540"); (js "540p", js "960x540"); (js "960x540", js "960x540");
   (js "720", js "1280x720"); (js "720p", js "1280x720"); (js "1280x720", js "1280x720");
   (js "1080", js "1920x1080"); (js "1080p", js "1920x1080"); (js "1920x1080", js "1920x1080");
   (js "2k", js "2560x1440"); (js "2K", js "2560x1440"); (js "2560x1440", js "2560x1440");
   (js "4k", js "3840x2160"); (js "4K", js "3840x2160"); (js "3840x2160", js "3840x2160")].

Definition CANONICAL_TO_SHORT : list (jsstr * jsstr) :=
  [(js "854x480", js "480"); (js "960x540", js "540"); (js "1280x720", js "720");
   (js "1920x1080", js "1080"); (js "2560x1440", js "2k"); (js "3840x2160", js "4k")].

Definition VIDEO_PRICING_JSON_RESOLUTION_KEYS : list jsstr :=
  [js "480"; js "540"; js "720"; js "1080"; js "2k"; js "4k"].

(** [if (value === '' || value === null || value === undefined) return ''], then
    the text of a finite number; unlike the pricing editor's helper, [false]
    is the number 0 here. *)
Definition toNumericString (value : jsval) : jsstr :=
  match value with
  | VUndef | VNull | VStr [] => []
  | _ => let num := to_num value in if isFinite num then str_of_num num else []
  end.

Section Resolutions.
Context `{Unicode}.

Definition normalizeResolutionKey (key : jsval) : jsstr :=
  let raw := trim (to_str (key ||| VStr [])) in
  if negb (str_truthy raw) then []
  else
    let canonical k := assoc_get RESOLUTION_TO_CANONICAL k in
    match canonical (toLowerCase raw) with
    | Some c => c
    | None =>
        match canonical raw with
        | Some c => c
        | None =>
            match (if forallb is_digit raw then canonical (raw ++ js "p") else None) with
            | Some c => c
            | None => remove_ws raw
            end
        end
    end.

Definition resolutionToShortKey (resolution : jsval) : jsstr :=
  let canon := normalizeResolutionKey resolution in
  default canon (assoc_get CANONICAL_TO_SHORT canon).
End Resolutions.

(** ** Comments *)

Inductive StripMode := Outside | InString (escape : bool) | InComment.

(** One pass over the text; a comment ends with its newline, which goes too. *)
Fixpoint strip (mode : StripMode) (text : jsstr) : jsstr :=
  match text with
  | [] => []
  | c :: rest =>
      match mode with
      | InString escape =>
          c :: strip (if escape then InString false
                      else if c =? 92 then InString true
                      else if c =? 34 then Outside else InString false) rest
      | InComment => strip (if c =? 10 then Outside else InComment) rest
      | Outside =>
          if c =? 34 then c :: strip (InString false) rest
          else if (c =? 47) && match rest with d :: _ => d =? 47 | [] => false end
          then strip InComment rest
          else c :: strip Outside rest
      end
  end.

Definition stripJsonLineComments (text : jsstr) : jsstr := strip Outside text.

(** The message of a failed operation, or its result. *)
Definition not_json : jsstr := js "不是合法的 JSON 字符串".

Definition parseVideoPricingJsonText (text : jsstr) : jsstr + jsval :=
  match JSON_parse (stripJsonLineComments (str_or text (js "{}"))) with
  | Some parsed => if is_plain_obj parsed then inr parsed else inl not_json
  | None => inl not_json
  end.

(** ** Export *)

Definition toPriceNumber (value : jsval) : option spec_float :=
  match toNumericString value with [] => None | s => Some (num_of_str s) end.

Section Export.
Context `{Unicode}.

Definition close_prices (a b : spec_float) : bool := nltb (nabs (nsub a b)) eps9.

Definition serializePricesFromRow (row : VideoRow) (perItem : bool)
    : option (jsstr * list spec_float) :=
  if negb (truthy (resolution row)) then None
  else
    let shortKey := resolutionToShortKey (resolution row) in
    if audioPricingEnabled row then
      match toPriceNumber (opt_val (noAudioPrice row)),
            toPriceNumber (opt_val (withAudioPrice row)) with
      | None, None => None
      | Some a, Some b => if close_prices a b then Some (shortKey, [a]) else Some (shortKey, [a; b])
      | Some a, None => Some (shortKey, [a])
      | None, Some b => Some (shortKey, [b])
      end
    else
      match toPriceNumber (opt_val (if perItem then videoPrice row else tokenPrice row)) with
      | None => None
      | Some p => Some (shortKey, [p])
      end.

(** [enabled\[item.key\] = item.prices] for each row *)
Definition enabled_prices (rows : list VideoRow) (perItem : bool)
    (enabled : list (jsstr * list spec_float)) : list (jsstr * list spec_float) :=
  fold_left (fun acc row =>
    match serializePricesFromRow row perItem with
    | Some (k, prices) => assoc_set acc k prices
    | None => acc
    end) rows enabled.

Definition prices_val (prices : list spec_float) : jsval := VArr (map VNum prices).

(** Every resolution key of the editor, [\[\]] when it has no price. *)
Definition section_map (enabled : list (jsstr * list spec_float)) : jsval :=
  VObj (map (fun key => (key, prices_val (default [] (assoc_get enabled key))))
          VIDEO_PRICING_JSON_RESOLUTION_KEYS).

Definition serializeSectionMapFull (rows : list VideoRow) (perItem : bool) : jsval :=
  section_map (enabled_prices rows perItem []).

Definition serializeVideoToVideoSectionFull (uploadRules generateRules : list VideoRow)
    (perItem : bool) : jsval :=
  section_map (enabled_prices generateRules perItem (enabled_prices uploadRules perItem [])).

Definition is_per_item (m : Model) : bool := bool_decide (videoBillingMode m = js "per-item").

Definition buildVideoPricingJsonEditor (m : Model) : jsval :=
  let perItem := is_per_item m in
  VObj [(js "billing_mode", VStr (str_or (videoBillingMode m) (js "per-second")));
        (js "price_unit", VStr (str_or (videoPriceUnit m) (js "USD")));
        (js "fixed_price", VStr (videoFixedPrice m));
        (js "similarity_threshold", VStr (videoSimilarityThreshold m));
        (js "text_to_video", serializeSectionMapFull (videoTextToVideoRules m) perItem);
        (js "image_to_video", serializeSectionMapFull (videoImageToVideoRules m) perItem);
        (js "video_to_video",
           serializeVideoToVideoSectionFull (videoUploadRules m) (videoGenerateRules m) perItem)].

(** [JSON.stringify(v)] of a value that is not undefined *)
Definition json_text (v : jsval) : jsstr := default (js "undefined") (JSON_stringify 0 v).

Definition SECTION_META : list (jsstr * jsstr) :=
  [(js "text_to_video", js "文生视频"); (js "image_to_video", js "图生视频");
   (js "video_to_video", js "视频生视频")].

(** ["    "key": prices,"], the comma on all but the last line *)
Definition price_lines (data : jsval) : list jsstr :=
  let n := length VIDEO_PRICING_JSON_RESOLUTION_KEYS in
  imap (fun i key =>
    js "    " ++ [34] ++ key ++ [34] ++ js ": " ++ json_text (vget data key ??? VArr [])
    ++ (if (i <? n - 1)%nat then js "," else []))
    VIDEO_PRICING_JSON_RESOLUTION_KEYS.

Definition section_lines (data : jsval) : list jsstr :=
  concat (imap (fun i '(key, comment) =>
    [js "  // " ++ comment; js "  " ++ [34] ++ key ++ [34] ++ js ": {"]
    ++ price_lines (vget data key)
    ++ [js "  }" ++ (if (i <? length SECTION_META - 1)%nat then js "," else [])])
    SECTION_META).

Definition field_line (data : jsval) (key : jsstr) : jsstr :=
  js "  " ++ [34] ++ key ++ [34] ++ js ": " ++ json_text (vget data key) ++ js ",".

Definition stringifyVideoPricingJsonEditor (m : Model) : jsstr :=
  let data := buildVideoPricingJsonEditor m in
  join [10] (
    [js "{";
     js "  // billing_mode: per-item（按条）| per-second（按秒）";
     field_line data (js "billing_mode");
     js "  // price_unit: USD | CNY | CUSTOM";
     field_line data (js "price_unit");
     js "  // 无分辨率表时的兜底单价；不需要可留空 " ++ [34; 34];
     field_line data (js "fixed_price");
     js "  // 相似分辨率阈值，仅 per-second 有效，如 " ++ [34] ++ js "0.35" ++ [34];
     field_line data (js "similarity_threshold");
     js "  // 三大类：文生 / 图生 / 视频生视频；各分辨率 [] 未启用，[价] 统一，[无音轨, 有音轨] 分开"]
    ++ section_lines data ++ [js "}"]).
End Export.

(** ** Import *)

Inductive Section_ := SText | SImage | SVideoUpload.

Definition defaultCompression (section : Section_) : jsstr :=
  match section with
  | SImage => DEFAULT_IMAGE_VIDEO_PIXEL_COMPRESSION
  | SText => DEFAULT_TEXT_VIDEO_PIXEL_COMPRESSION
  | SVideoUpload => DEFAULT_VIDEO_VIDEO_PIXEL_COMPRESSION
  end.

Section Import_.
Context `{Unicode}.

(** [obj.a ?? obj.b] *)
Definition either (obj : jsval) (a b : jsstr) : jsval := vget obj a ??? vget obj b.

Definition parseLegacyRow (row : jsval) (perItem : bool) (section : Section_) : option VideoRow :=
  if negb (is_plain_obj row) then None
  else
    let audioEnabled := truthy (either row (js "audio_pricing_enabled") (js "audioPricingEnabled")) in
    let compression :=
      toNumericString (either row (js "pixel_compression") (js "pixelCompression")
                       ??? VStr (defaultCompression section)) in
    let price a b := Some (toNumericString (either row a b)) in
    let side (b : bool) a a' := if b then price a a' else Some [] in
    Some {|
      resolution := VStr (normalizeResolutionKey (vget row (js "resolution") ||| VStr []));
      tokenPrice :=
        if perItem then None
        else side (negb audioEnabled) (js "token_price") (js "tokenPrice");
      videoPrice :=
        if perItem then side (negb audioEnabled) (js "video_price") (js "videoPrice") else None;
      noAudioPrice := side audioEnabled (js "no_audio_price") (js "noAudioPrice");
      withAudioPrice := side audioEnabled (js "with_audio_price") (js "withAudioPrice");
      pixelCompression := if perItem then None else Some compression;
      audioPricingEnabled := audioEnabled;
      hasAudio := false |}.

Definition parseLegacyRowList (rows : jsval) (perItem : bool) (section : Section_)
    : list VideoRow :=
  base.filter (fun row => truthy (resolution row) = true)
    (omap (fun row => parseLegacyRow row perItem section) (as_arr rows)).

Definition normalizePriceArray (prices : jsval) : list spec_float :=
  match prices with
  | VNull | VUndef => []
  | VArr l => omap toPriceNumber l
  | v => omap toPriceNumber [v]
  end.

Definition price_row (perItem : bool) (section : Section_) (res : jsstr)
    (nums : list spec_float) : list VideoRow :=
  let row := {| resolution := VStr res; tokenPrice := Some []; videoPrice := Some [];
                noAudioPrice := Some []; withAudioPrice := Some [];
                pixelCompression := Some (defaultCompression section);
                audioPricingEnabled := false; hasAudio := false |} in
  match nums with
  | [] => []
  | [p] => [if perItem then row <| videoPrice := Some (str_of_num p) |>
            else row <| tokenPrice := Some (str_of_num p) |>]
  | a :: b :: _ =>
      [row <| noAudioPrice := Some (str_of_num a) |>
           <| withAudioPrice := Some (str_of_num b) |>
           <| audioPricingEnabled := true |>]
  end.

Definition parse_entry (perItem : bool) (section : Section_) (kv : jsstr * jsval)
    : list VideoRow :=
  let res := normalizeResolutionKey (VStr (fst kv)) in
  if negb (str_truthy res) then []
  else price_row perItem section res (normalizePriceArray (snd kv)).

Definition parseSectionMap (data : jsval) (perItem : bool) (section : Section_)
    : list VideoRow :=
  match data with
  | VArr _ => parseLegacyRowList data perItem section
  | VObj entries => concat (map (parse_entry perItem section) entries)
  | _ => []
  end.

(** The prices of a legacy row, for the merged table. *)
Definition legacy_prices (row : VideoRow) : list spec_float :=
  if audioPricingEnabled row then
    omap toPriceNumber [opt_val (noAudioPrice row); opt_val (withAudioPrice row)]
  else omap toPriceNumber [opt_val (videoPrice row) ||| opt_val (tokenPrice row)].

Definition applyMap (perItem : bool) (data : jsval) (merged : list (jsstr * jsval))
    : list (jsstr * jsval) :=
  match data with
  | VArr _ =>
      fold_left (fun merged row =>
        let sk := resolutionToShortKey (resolution row) in
        if negb (str_truthy sk) then merged
        else match legacy_prices row with
             | [] => merged
             | prices => assoc_set merged sk (prices_val prices)
             end) (parseLegacyRowList data perItem SVideoUpload) merged
  | VObj entries =>
      fold_left (fun merged '(rawKey, rawPrices) =>
        let sk := resolutionToShortKey (VStr rawKey) in
        if str_truthy sk then assoc_set merged sk rawPrices else merged) entries merged
  | _ => merged
  end.

Definition parseVideoToVideoFromJson (jsonObj : jsval) (perItem : bool) : list VideoRow :=
  let primary := either jsonObj (js "video_to_video") (js "videoToVideo") in
  match primary with
  | VUndef | VArr _ =>
      let legacyUpload := either jsonObj (js "video_upload") (js "videoUpload") in
      let legacyGen := either jsonObj (js "video_generate") (js "videoGenerate") in
      let mergedObj := applyMap perItem legacyGen (applyMap perItem legacyUpload []) in
      match mergedObj with
      | [] => []
      | _ => parseSectionMap (VObj mergedObj) perItem SVideoUpload
      end
  | _ => parseSectionMap primary perItem SVideoUpload
  end.

Definition merged_billing_mode (m : Model) (jsonObj : jsval) : jsstr :=
  let billingModeRaw :=
    trim (to_str (either jsonObj (js "billing_mode") (js "billingMode")
                  ??? VStr (videoBillingMode m))) in
  if bool_decide (billingModeRaw = js "per-item") then js "per-item"
  else if bool_decide (billingModeRaw = js "per-second") then js "per-second"
  else str_or (videoBillingMode m) (js "per-second").

Definition merged_price_unit (m : Model) (jsonObj : jsval) : jsstr :=
  let priceUnitRaw :=
    toUpperCase (trim (to_str (either jsonObj (js "price_unit") (js "priceUnit")
                               ??? VStr (videoPriceUnit m)))) in
  resolve_unit priceUnitRaw (videoPriceUnit m).

Definition mergeVideoPricingFromJsonEditor (model : option Model) (jsonObj : jsval)
    : jsstr + Model :=
  match model with
  | None => inl (js "未选择模型")
  | Some m =>
      if negb (is_plain_obj jsonObj) then inl not_json
      else
        let mode := merged_billing_mode m jsonObj in
        let perItem := bool_decide (mode = js "per-item") in
        let v2v := parseVideoToVideoFromJson jsonObj perItem in
        inr (m
          <| videoBillingMode := mode |>
          <| videoPriceUnit := merged_price_unit m jsonObj |>
          <| videoFixedPrice :=
               toNumericString (either jsonObj (js "fixed_price") (js "fixedPrice")
                                ??? VStr (videoFixedPrice m)) |>
          <| videoSimilarityThreshold :=
               toNumericString (either jsonObj (js "similarity_threshold") (js "similarityThreshold")
                                ??? VStr (videoSimilarityThreshold m)) |>
          <| videoTextToVideoRules :=
               parseSectionMap (either jsonObj (js "text_to_video") (js "textToVideo"))
                 perItem SText |>
          <| videoImageToVideoRules :=
               parseSectionMap (either jsonObj (js "image_to_video") (js "imageToVideo"))
                 perItem SImage |>
          <| videoUploadRules := v2v |>
          <| videoGenerateRules := v2v |>)
  end.
End Import_.

(** ** Prices survive export and import *)

(** A number that its text gives back: finite and not negative zero. *)
Definition good_price (p : spec_float) : Prop :=
  valid p /\ isFinite p = true /\ p <> S754_zero true.

Definition good_prices (l : list spec_float) : Prop :=
  match l with
  | [] => True
  | [p] => good_price p
  | [a; b] => good_price a /\ good_price b /\ close_prices a b = false
  | _ => False
  end.


Lemma toPriceNumber_good v p : wf v -> toPriceNumber v = Some p -> good_price p.
Proof.
  intros W. unfold toPriceNumber.
  assert (X : forall x, valid x -> match (if isFinite x then str_of_num x else []) with
    [] => None | s => Some (num_of_str s) end = Some p -> good_price p).
  { intros x V. destruct (isFinite x) eqn:F; [|done].
    pose proof (num_of_str_of_num x V F) as R.
    destruct (str_of_num x) eqn:E; [done|]. rewrite <- E in *. rewrite R. intros [= <-].
    destruct x; try done. }
  destruct v as [| |b|x|[|c s]|l|o]; cbn [toNumericString]; try done; apply X;
    apply (to_num_valid _ W).
Qed.

Section Stable.
Context `{Unicode}.

Lemma opt_val_wf o : wf (opt_val o).
Proof. by destruct o. Qed.

Lemma serializePricesFromRow_good row perItem k l :
  serializePricesFromRow row perItem = Some (k, l) -> good_prices l /\ l <> [].
Proof.
  unfold serializePricesFromRow. case_match; [done|].
  pose proof toPriceNumber_good as G. destruct (audioPricingEnabled row).
  - destruct (toPriceNumber (opt_val (noAudioPrice row))) as [a|] eqn:A;
      destruct (toPriceNumber (opt_val (withAudioPrice row))) as [b|] eqn:B; [| | |done];
      try apply G in A; try apply G in B; try apply opt_val_wf.
    + destruct (close_prices a b) eqn:C; intros [= <- <-]; done.
    + by intros [= <- <-].
    + by intros [= <- <-].
  - destruct (toPriceNumber _) as [p|] eqn:P; [|done]. apply G in P; [|apply opt_val_wf].
    by intros [= <- <-].
Qed.

Lemma enabled_prices_good rows perItem acc :
  (forall k l, assoc_get acc k = Some l -> good_prices l) ->
  forall k l, assoc_get (enabled_prices rows perItem acc) k = Some l -> good_prices l.
Proof.
  unfold enabled_prices. revert acc. induction rows as [|row rows IH]; intros acc A; [exact A|].
  apply IH. destruct (serializePricesFromRow row perItem) as [[k l]|] eqn:S; [|exact A].
  intros k' l'. rewrite assoc_get_set. apply serializePricesFromRow_good in S as [S _].
  destruct (decide (k' = k)); [by intros [= <-]|apply A].
Qed.



Lemma good_prices_Forall l : good_prices l -> Forall good_price l.
Proof.
  destruct l as [|a [|b [|]]]; cbn [good_prices]; [constructor| | |done].
  - intros G. by apply Forall_singleton.
  - intros (? & ? & _). apply Forall_cons. split; [done|]. by apply Forall_singleton.
Qed.





Definition good_table (e : list (jsstr * list spec_float)) : Prop :=
  forall k l, assoc_get e k = Some l -> good_prices l.

Lemma good_table_default e k : good_table e -> good_prices (default [] (assoc_get e k)).
Proof. intros G. destruct (assoc_get e k) eqn:E; cbn; [by eapply G|done]. Qed.


Lemma good_table_nil : good_table [].
Proof. done. Qed.

Lemma good_table_enabled rows perItem e :
  good_table e -> good_table (enabled_prices rows perItem e).
Proof. intros G. exact (enabled_prices_good rows perItem e G). Qed.




Lemma merged_text m :
  either (buildVideoPricingJsonEditor m) (js "text_to_video") (js "textToVideo")
  = serializeSectionMapFull (videoTextToVideoRules m) (is_per_item m).
Proof. reflexivity. Qed.









Lemma reimported_resolutions e perItem sec row : row ∈ parseSectionMap (section_map e) perItem sec ->
  exists k, k ∈ VIDEO_PRICING_JSON_RESOLUTION_KEYS /\ resolution row = VStr (normalizeResolutionKey (VStr k)).
Proof.
  unfold section_map, parseSectionMap. rewrite map_map. intros R%list_elem_of_In%in_concat.
  destruct R as (rows & (k & <- & K)%in_map_iff & R%list_elem_of_In).
  exists k. split; [by apply list_elem_of_In|]. revert R. unfold parse_entry. cbn [fst snd].
  case_match; [by intros ?%not_elem_of_nil|].
  destruct (normalizePriceArray _) as [|a [|b l]]; cbn [price_row];
    [by intros ?%not_elem_of_nil|intros ->%list_elem_of_singleton..]; [|done].
  by case_match.
Qed.


(** The JSON editor only knows six resolutions: importing what was
    exported keeps no row of any other resolution, so applying the
    unchanged text deletes the prices of, say, a 1024x1024 row. *)
Theorem json_editor_drops_other_resolutions m m' row :
  mergeVideoPricingFromJsonEditor (Some m) (buildVideoPricingJsonEditor m) = inr m' ->
  row ∈ videoTextToVideoRules m' ->
  exists k, k ∈ VIDEO_PRICING_JSON_RESOLUTION_KEYS /\
            resolution row = VStr (normalizeResolutionKey (VStr k)).
Proof.
  intros E%(inj inr). apply (f_equal videoTextToVideoRules) in E.
  cbn -[js parseSectionMap either merged_billing_mode buildVideoPricingJsonEditor
    bool_decide] in E.
  rewrite <- E, merged_text. apply reimported_resolutions.
Qed.
End Stable.

(** ** The exported text reads back *)

(** Text outside string literals that has no comment. *)
Definition plain (t : jsstr) : Prop := Forall (fun c => c <> 34 /\ c <> 47) t.

(** Text that comment stripping leaves alone. *)
Definition keeps (t : jsstr) : Prop :=
  forall r, stripJsonLineComments (t ++ r) = t ++ stripJsonLineComments r.

Lemma keeps_app a b : keeps a -> keeps b -> keeps (a ++ b).
Proof. intros A B r. by rewrite <- !app_assoc, A, B. Qed.

Lemma keeps_plain t : plain t -> keeps t.
Proof.
  intros P r. induction P as [|c t [N1 N2] P IH]; [done|]. cbn [app].
  unfold stripJsonLineComments in *. cbn [strip].
  destruct (Z.eqb_spec c 34); [done|]. destruct (Z.eqb_spec c 47); [done|].
  cbn [andb]. by rewrite IH.
Qed.

Definition in_string (t : jsstr) : Prop :=
  forall r, strip (InString false) (t ++ r) = t ++ strip (InString false) r.

Lemma in_string_escape e t : in_string t -> in_string (92 :: e :: t).
Proof. intros I r. cbn [app strip Z.eqb Pos.eqb]. by rewrite I. Qed.

Lemma in_string_char c t : c <> 34 -> c <> 92 -> in_string t -> in_string (c :: t).
Proof.
  intros N1 N2 I r. cbn [app strip]. destruct (Z.eqb_spec c 92); [done|].
  destruct (Z.eqb_spec c 34); [done|]. by rewrite I.
Qed.

Lemma in_string_nil : in_string [].
Proof. done. Qed.

Lemma in_string_unicode c : code_unit c -> in_string (unicode_escape c).
Proof.
  intros [L U]. unfold unicode_escape. apply in_string_escape.
  assert (X : forall n, 0 <= n < 16 -> hex_char n <> 34 /\ hex_char n <> 92)
    by (intros n ?; unfold hex_char; case_match; lia).
  repeat apply in_string_char; try apply in_string_nil; apply X;
    Z.to_euclidean_division_equations; lia.
Qed.

Lemma in_string_app a b : in_string a -> in_string b -> in_string (a ++ b).
Proof. intros A B r. by rewrite <- !app_assoc, A, B. Qed.

Lemma in_string_quote_char c : code_unit c -> in_string (quote_char c).
Proof.
  intros C. unfold quote_char.
  repeat (case_match; [by apply in_string_escape|]).
  case_match; [by apply in_string_unicode|].
  apply in_string_char; [lia|lia|done].
Qed.

Lemma in_string_quote_body s : str_ok s -> in_string (quote_body s).
Proof.
  induction s as [s IH] using (induction_ltof1 _ (@length Z)). unfold ltof in IH. intros S.
  destruct s as [|c s]; [done|]. apply Forall_cons in S as [C S]. cbn [quote_body].
  unfold high_surrogate, low_surrogate.
  destruct ((55296 <=? c) && (c <=? 56319)) eqn:Hc.
  - destruct s as [|d s]; [by apply in_string_unicode|].
    destruct ((56320 <=? d) && (d <=? 57343)) eqn:D.
    + apply Forall_cons in S as [_ S].
      apply in_string_char; [lia|lia|]. apply in_string_char; [lia|lia|].
      apply IH; [cbn; lia|done].
    + apply in_string_app; [by apply in_string_unicode|]. apply IH; [cbn; lia|done].
  - case_match; (apply in_string_app; [|apply IH; [cbn; lia|done]]);
      [by apply in_string_unicode|by apply in_string_quote_char].
Qed.

Lemma keeps_quote s : str_ok s -> keeps (quote s).
Proof.
  intros S r. unfold quote. cbn [app]. rewrite <- !app_assoc.
  unfold stripJsonLineComments. cbn [strip Z.eqb Pos.eqb].
  rewrite (in_string_quote_body s S). cbn [app strip Z.eqb Pos.eqb]. done.
Qed.

(** A line that is an indented comment. *)
Definition comment_line (l : jsstr) : bool :=
  starts_with (js "  //") l && forallb (fun c => negb (c =? 10)) l.

Lemma strip_comment_body l r :
  forallb (fun c => negb (c =? 10)) l = true ->
  strip InComment (l ++ 10 :: r) = strip Outside r.
Proof.
  induction l as [|c l IH]; cbn [app forallb strip]; [done|].
  intros [N L]%andb_true_iff. destruct (c =? 10); [done|]. auto.
Qed.

Lemma strip_comment_line l r : comment_line l = true ->
  stripJsonLineComments (l ++ 10 :: r) = js "  " ++ stripJsonLineComments r.
Proof.
  unfold comment_line. intros [S N]%andb_true_iff. change (js "  //") with [32; 32; 47; 47] in S.
  destruct l as [|a [|b [|c [|d l]]]]; cbn [starts_with] in S;
    rewrite ?andb_false_r in S; try done.
  rewrite andb_true_r, !andb_true_iff, !Z.eqb_eq in S. destruct S as (<- & <- & <- & <-).
  cbn [forallb] in N. rewrite !andb_true_iff in N. destruct N as (_ & _ & _ & _ & N).
  unfold stripJsonLineComments. cbn [app strip Z.eqb Pos.eqb andb].
  rewrite strip_comment_body by done. reflexivity.
Qed.

Lemma join_cons sep a ls : ls <> [] -> join sep (a :: ls) = a ++ sep ++ join sep ls.
Proof. by destruct ls. Qed.

Lemma strip_join_keep l ls : keeps l -> ls <> [] ->
  stripJsonLineComments (join [10] (l :: ls)) = l ++ 10 :: stripJsonLineComments (join [10] ls).
Proof.
  intros K N. rewrite join_cons, K by done. done.
Qed.

Lemma strip_join_comment l ls : comment_line l = true -> ls <> [] ->
  stripJsonLineComments (join [10] (l :: ls)) = js "  " ++ stripJsonLineComments (join [10] ls).
Proof. intros C N. rewrite join_cons by done. by apply strip_comment_line. Qed.

Lemma plain_number p : valid p -> isFinite p = true -> plain (str_of_num p).
Proof.
  intros V F. destruct (str_of_num_token p V F) as (_ & T & _).
  eapply Forall_impl; [exact T|]. intros c C. unfold number_char, is_digit in C. cbn in C. lia.
Qed.

Lemma plain_join sep parts : plain sep -> Forall plain parts -> plain (join sep parts).
Proof.
  intros S. induction 1 as [|a parts A P IH]; [constructor|]. destruct parts; [done|].
  rewrite join_cons by done. repeat apply Forall_app_2; done.
Qed.

Section Text.
Context `{Unicode}.

Lemma prices_json_ok l : good_prices l -> json_ok (prices_val l).
Proof.
  intros G%good_prices_Forall. apply json_ok_arr. unfold prices_val.
  induction G; constructor; done.
Qed.

Lemma plain_prices l : good_prices l -> plain (json_text (prices_val l)).
Proof.
  intros G%good_prices_Forall. unfold json_text, JSON_stringify, prices_val.
  cbn [stringify_at from_option id]. unfold bracket. rewrite map_map.
  destruct (map _ l) as [|t ts] eqn:E; [repeat constructor; lia|].
  cbn [newline app Nat.add]. apply Forall_cons. split; [lia|].
  apply Forall_app_2; [|repeat constructor; lia].
  apply plain_join; [repeat constructor; lia|]. rewrite <- E. clear E.
  induction G as [|p l (V & F & _) _ IH]; [constructor|]. cbn [map]. constructor; [|done].
  cbn. rewrite F. by apply plain_number.
Qed.

Lemma reads_json_text v : json_ok v -> reads (json_text v) v.
Proof.
  intros O. unfold json_text. destruct (JSON_stringify 0 v) eqn:E; cbn.
  - by eapply reads_stringify.
  - by destruct v.
Qed.

(** One line of a section: [    "key": prices]. *)
Definition price_member (e : list (jsstr * list spec_float)) (key : jsstr) : Loose := {|
  lead := 10 :: js "    "; lkey := key;
  ltext := json_text (prices_val (default [] (assoc_get e key)));
  lval := prices_val (default [] (assoc_get e key)) |}.

Definition section_text (e : list (jsstr * list spec_float)) : jsstr :=
  123 :: join [44] (map loose_text (map (price_member e) VIDEO_PRICING_JSON_RESOLUTION_KEYS))
  ++ (10 :: js "  ") ++ [125].

Lemma str_ok_b s : forallb (fun c => (0 <=? c) && (c <? 65536)) s = true -> str_ok s.
Proof.
  intros F. apply Forall_forall. intros c C. rewrite forallb_forall in F.
  specialize (F c (proj1 (list_elem_of_In _ _) C)). unfold code_unit. lia.
Qed.

Lemma canonical_keys_b ks :
  (fix go ks := match ks with
   | [] => true
   | k :: ks => forallb (fun k' => negb (bool_decide (k = k'))
                  && match array_index k, array_index k' with
                     | Some i, Some j => i <? j | None, Some _ => false | _, None => true
                     end) ks && go ks
   end) ks = true -> canonical_keys ks.
Proof.
  induction ks as [|k ks IH]; [constructor|]. intros [F G]%andb_true_iff.
  constructor; [by apply IH|]. apply Forall_forall. intros k' K.
  rewrite forallb_forall in F. specialize (F k' (proj1 (list_elem_of_In _ _) K)).
  apply andb_true_iff in F as [N%negb_true_iff%bool_decide_eq_false O].
  split; [done|]. repeat case_match; try done. lia.
Qed.

Lemma reads_section e : good_table e -> reads (section_text e) (section_map e).
Proof.
  intros G.
  assert (E : section_map e
    = VObj (map loose_entry (map (price_member e) VIDEO_PRICING_JSON_RESOLUTION_KEYS)))
    by reflexivity.
  rewrite E. apply reads_object; [by repeat constructor|done| |].
  - apply Forall_forall. intros m (k & -> & K)%list_elem_of_fmap. split_and!.
    + by repeat constructor.
    + apply list_elem_of_In in K. cbn in K.
      destruct K as [<-|[<-|[<-|[<-|[<-|[<-|[]]]]]]]; apply str_ok_b; reflexivity.
    + apply reads_json_text, prices_json_ok, good_table_default, G.
  - apply canonical_keys_b. vm_compute. reflexivity.
Qed.

(** The members of the document, after the comments are gone. *)
Definition document (m : Model) : list Loose :=
  let perItem := is_per_item m in
  let field k s := {| lead := 10 :: js "    "; lkey := k; ltext := quote s; lval := VStr s |} in
  let part w k e := {| lead := w; lkey := k; ltext := section_text e; lval := section_map e |} in
  [field (js "billing_mode") (str_or (videoBillingMode m) (js "per-second"));
   field (js "price_unit") (str_or (videoPriceUnit m) (js "USD"));
   field (js "fixed_price") (videoFixedPrice m);
   field (js "similarity_threshold") (videoSimilarityThreshold m);
   part (10 :: js "      ") (js "text_to_video")
     (enabled_prices (videoTextToVideoRules m) perItem []);
   part (10 :: js "    ") (js "image_to_video")
     (enabled_prices (videoImageToVideoRules m) perItem []);
   part (10 :: js "    ") (js "video_to_video")
     (enabled_prices (videoGenerateRules m) perItem
        (enabled_prices (videoUploadRules m) perItem []))].

Lemma document_entries m :
  buildVideoPricingJsonEditor m = VObj (map loose_entry (document m)).
Proof. reflexivity. Qed.

Definition strings_ok (m : Model) : Prop :=
  str_ok (videoBillingMode m) /\ str_ok (videoPriceUnit m) /\
  str_ok (videoFixedPrice m) /\ str_ok (videoSimilarityThreshold m).

Lemma str_ok_or a b : str_ok a -> str_ok b -> str_ok (str_or a b).
Proof. unfold str_or. by case_match. Qed.

Lemma tables_good m :
  let perItem := is_per_item m in
  good_table (enabled_prices (videoTextToVideoRules m) perItem []) /\
  good_table (enabled_prices (videoImageToVideoRules m) perItem []) /\
  good_table (enabled_prices (videoGenerateRules m) perItem
                (enabled_prices (videoUploadRules m) perItem [])).
Proof. cbv zeta. auto using good_table_enabled, good_table_nil. Qed.

Lemma document_ok m : strings_ok m -> Forall loose_ok (document m).
Proof.
  intros (B & U & F & S). destruct (tables_good m) as (G1 & G2 & G3). unfold document.
  assert (X : forall s, str_ok s -> reads (quote s) (VStr s))
    by (intros s O; apply (reads_json_text (VStr s)); done).
  repeat apply Forall_cons_2; try apply Forall_nil_2;
    (split; [by repeat constructor|split; [apply str_ok_b; reflexivity|]]);
    cbn [ltext lval]; auto using reads_section; apply X; trivial;
    apply str_ok_or; trivial; apply str_ok_b; reflexivity.
Qed.

Lemma strip_join_keeps lines ls : Forall keeps lines -> ls <> [] ->
  stripJsonLineComments (join [10] (lines ++ ls))
  = concat (map (fun l => l ++ [10]) lines) ++ stripJsonLineComments (join [10] ls).
Proof.
  intros K N. induction K as [|l lines L K IH]; [done|]. cbn [app map concat].
  rewrite strip_join_keep, IH by (trivial; by destruct lines). by rewrite <- !app_assoc.
Qed.

(** The lines of a section. *)
Definition price_line (e : list (jsstr * list spec_float)) (tail key : jsstr) : jsstr :=
  js "    " ++ quote key ++ js ": " ++ json_text (prices_val (default [] (assoc_get e key))) ++ tail.

Lemma price_lines_eq e :
  price_lines (section_map e)
  = [price_line e (js ",") (js "480"); price_line e (js ",") (js "540");
     price_line e (js ",") (js "720"); price_line e (js ",") (js "1080");
     price_line e (js ",") (js "2k"); price_line e [] (js "4k")].
Proof. reflexivity. Qed.

Lemma plain_b t : forallb (fun c => negb (c =? 34) && negb (c =? 47)) t = true -> plain t.
Proof.
  intros F. apply Forall_forall. intros c C. rewrite forallb_forall in F.
  specialize (F c (proj1 (list_elem_of_In _ _) C)). lia.
Qed.

Lemma keeps_price_line e tail key : good_table e -> plain tail -> str_ok key ->
  keeps (price_line e tail key).
Proof.
  intros G T K. unfold price_line. repeat apply keeps_app.
  - by apply keeps_plain, plain_b.
  - by apply keeps_quote.
  - by apply keeps_plain, plain_b.
  - by apply keeps_plain, plain_prices, good_table_default.
  - by apply keeps_plain.
Qed.

Lemma keeps_price_lines e : good_table e -> Forall keeps (price_lines (section_map e)).
Proof.
  intros G. rewrite price_lines_eq.
  repeat apply Forall_cons_2; try apply Forall_nil_2;
    (apply keeps_price_line; [done|by apply plain_b|by apply str_ok_b]).
Qed.

Lemma keeps_field data key s :
  vget data key = VStr s -> str_ok key -> str_ok s -> quote key = 34 :: key ++ [34] ->
  keeps (field_line data key).
Proof.
  intros E K S Q. unfold field_line. rewrite E.
  change (js "  " ++ [34] ++ key ++ [34] ++ js ": " ++ json_text (VStr s) ++ js ",")
    with (js "  " ++ 34 :: (key ++ 34 :: js ": " ++ quote s ++ js ",")).
  replace (34 :: key ++ 34 :: js ": " ++ quote s ++ js ",")
    with (quote key ++ js ": " ++ quote s ++ js ",")
    by (rewrite Q; cbn [app]; by rewrite <- app_assoc).
  repeat apply keeps_app; try (by apply keeps_quote); by apply keeps_plain, plain_b.
Qed.

(** The lines between the document's braces, sections apart. *)
Lemma section_lines_eq data :
  section_lines data
  = [js "  // 文生视频"; js "  " ++ quote (js "text_to_video") ++ js ": {"]
    ++ price_lines (vget data (js "text_to_video"))
    ++ [js "  },"; js "  // 图生视频"; js "  " ++ quote (js "image_to_video") ++ js ": {"]
    ++ price_lines (vget data (js "image_to_video"))
    ++ [js "  },"; js "  // 视频生视频"; js "  " ++ quote (js "video_to_video") ++ js ": {"]
    ++ price_lines (vget data (js "video_to_video")) ++ [js "  }"].
Proof.
  unfold section_lines, SECTION_META. cbn [imap concat length].
  reflexivity.
Qed.

(** The stripped price lines with the line that closes the section. *)
Lemma section_text_lines e w :
  123 :: 10 :: concat (map (fun l => l ++ [10]) (price_lines (section_map e))) ++ js "  }" ++ w
  = section_text e ++ w.
Proof.
  rewrite price_lines_eq. unfold section_text, price_line. cbn [map concat join].
  unfold loose_text, price_member. cbn [lead lkey ltext VIDEO_PRICING_JSON_RESOLUTION_KEYS map join].
  repeat (progress (rewrite <- ?app_assoc; cbn [app])). reflexivity.
Qed.

Lemma keeps_fields m : strings_ok m ->
  let data := buildVideoPricingJsonEditor m in
  keeps (field_line data (js "billing_mode")) /\ keeps (field_line data (js "price_unit")) /\
  keeps (field_line data (js "fixed_price")) /\
  keeps (field_line data (js "similarity_threshold")).
Proof.
  intros (B & U & F & S) data.
  assert (O : forall a b, str_ok a -> forallb (fun c => (0 <=? c) && (c <? 65536)) b = true ->
    str_ok (str_or a b)) by (intros; apply str_ok_or; auto using str_ok_b).
  split_and!; (eapply keeps_field; [reflexivity|apply str_ok_b; reflexivity| |reflexivity]);
    trivial; by apply O.
Qed.

Lemma strip_document m : strings_ok m ->
  stripJsonLineComments (stringifyVideoPricingJsonEditor m)
  = (123 :: join [44] (map loose_text (document m)) ++ [10] ++ [125]) ++ [].
Proof.
  intros (B & U & F & S). destruct (tables_good m) as (G1 & G2 & G3).
  unfold stringifyVideoPricingJsonEditor. set (data := buildVideoPricingJsonEditor m).
  pose proof (keeps_fields m (conj B (conj U (conj F S)))) as K. fold data in K.
  destruct K as (K1 & K2 & K3 & K4).
  assert (KP : forall t, forallb (fun c => negb (c =? 34) && negb (c =? 47)) t = true -> keeps t)
    by (intros; by apply keeps_plain, plain_b).
  assert (KS : forall k, forallb (fun c => (0 <=? c) && (c <? 65536)) k = true ->
    keeps (js "  " ++ quote k ++ js ": {"))
    by (intros; repeat apply keeps_app; auto using keeps_quote, str_ok_b).
  rewrite section_lines_eq.
  change (vget data (js "text_to_video"))
    with (section_map (enabled_prices (videoTextToVideoRules m) (is_per_item m) [])).
  change (vget data (js "image_to_video"))
    with (section_map (enabled_prices (videoImageToVideoRules m) (is_per_item m) [])).
  change (vget data (js "video_to_video"))
    with (section_map (enabled_prices (videoGenerateRules m) (is_per_item m)
            (enabled_prices (videoUploadRules m) (is_per_item m) []))).
  rewrite <- !app_assoc. cbn [app].
  repeat first [rewrite strip_join_comment by done | rewrite strip_join_keep by auto
               | rewrite strip_join_keeps by auto using keeps_price_lines].
  change (stripJsonLineComments (join [10] [js "}"])) with [125].
  change (js ": {") with (js ": " ++ [123]). change (js "  },") with (js "  }" ++ [44]).
  repeat (progress (rewrite <- ?app_assoc; cbn [app])). rewrite !section_text_lines.
  unfold document, loose_text, field_line. cbn [map join lead lkey ltext].
  repeat (progress (rewrite <- ?app_assoc; cbn [app])). reflexivity.
Qed.

(** C12. The JSON editor can always read the text it shows: stripping the
    comments of the exported text and parsing it gives exactly the exported
    data, with every price, for any model. *)
Theorem exported_text_parses m : strings_ok m ->
  parseVideoPricingJsonText (stringifyVideoPricingJsonEditor m)
  = inr (buildVideoPricingJsonEditor m).
Proof.
  intros O. unfold parseVideoPricingJsonText.
  assert (str_or (stringifyVideoPricingJsonEditor m) (js "{}")
          = stringifyVideoPricingJsonEditor m) as -> by reflexivity.
  rewrite strip_document, document_entries by done.
  rewrite (JSON_parse_reads _ (VObj (map loose_entry (document m)))); [done| |constructor].
  apply reads_object; [by repeat constructor|done|by apply document_ok|].
  apply canonical_keys_b. vm_compute. reflexivity.
Qed.
End Text.

(** ** Instances *)

Definition sample_row (res price : jsstr) : VideoRow := {|
  resolution := VStr res; tokenPrice := Some price; videoPrice := Some [];
  noAudioPrice := Some []; withAudioPrice := Some []; pixelCompression := Some [];
  audioPricingEnabled := false; hasAudio := false |}.

(** A row the JSON editor knows and one it does not. *)
Definition sample_model : Model := EMPTY_MODEL
  <| videoFixedPrice := js "2.5" |>
  <| videoTextToVideoRules := [sample_row (js "720p") (js "7"); sample_row (js "1024x1024") (js "9")] |>.

Definition sample_merged : Model :=
  match mergeVideoPricingFromJsonEditor (H := code_unit_unicode) (Some sample_model)
          (buildVideoPricingJsonEditor (H := code_unit_unicode) sample_model) with
  | inr m => m
  | inl _ => EMPTY_MODEL
  end.


Lemma json_editor_drops_other_resolutions_witness :
  map resolution (videoTextToVideoRules sample_merged) = [VStr (js "1280x720")] /\
  forall row, row ∈ videoTextToVideoRules sample_merged ->
    exists k, k ∈ VIDEO_PRICING_JSON_RESOLUTION_KEYS /\
      resolution row = VStr (normalizeResolutionKey (H := code_unit_unicode) (VStr k)).
Proof.
  split; [vm_compute; reflexivity|]. intros row.
  apply (json_editor_drops_other_resolutions (H := code_unit_unicode) sample_model).
  vm_compute. reflexivity.
Defined.

Lemma exported_text_parses_witness :
  parseVideoPricingJsonText
    (stringifyVideoPricingJsonEditor (H := code_unit_unicode) sample_model)
  = inr (buildVideoPricingJsonEditor (H := code_unit_unicode) sample_model).
Proof.
  apply (exported_text_parses (H := code_unit_unicode) sample_model).
  split_and!; by apply str_ok_b.
Defined.

End VideoJson.
