(* ===== verification/PricingEditor.v ===== *)
(** * The pricing editor's state (useModelPricingEditorState.js, the hook)

    The state variables of [useModelPricingEditorState], what the page
    derives from them, the load effect and one definition per handler.  A
    handler maps the state of the render it was created in to the state of
    the next one; [settle] is what the hook's effects do after each render. *)

From Stdlib Require Import SpecFloat.
From stdpp Require Import base list numbers strings.
From S2P Require Import Prelude JsNumber JsString JsValue JsJson TierPricing PricingModel.
From S2P Require Import PricingSerialize PricingView VideoPricingJson.
Local Open Scope Z_scope.
Local Open Scope js_scope.

(** ** Reading the options *)

(** [parseOptionJSON]: text that is missing, blank or not an object is an
    empty map; a value without [trim] is a [TypeError]. *)
Definition parseOptionJSON (rawValue : jsval) : result jsval :=
  if negb (truthy rawValue) then inr (VObj [])
  else match rawValue with
       | VStr s =>
           if bool_decide (trim s = []) then inr (VObj [])
           else match JSON_parse s with
                | Some parsed => inr (if is_obj parsed then parsed else VObj [])
                | None => inr (VObj [])
                end
       | _ => inl TypeError
       end.

(** [toPositiveNumber(value, 1)] *)
Definition toPositiveNumber (value : jsval) (fallback : spec_float) : spec_float :=
  let n := to_num value in
  if isFinite n && nltb n0 n then n else fallback.

(** The arguments of the hook. *)
Record Props := {
  options : jsval;
  candidateModelNames : list jsstr;
  strictCandidateModelNames : bool;
  filterMode : jsstr;
  optionKeys : jsval;
  visibleCategories : option VisibleCategories
}.

#[export] Instance Props_eta : Eta Props := fun p => {|
  options := options p; candidateModelNames := candidateModelNames p;
  strictCandidateModelNames := strictCandidateModelNames p; filterMode := filterMode p;
  optionKeys := optionKeys p; visibleCategories := visibleCategories p |}.

Definition videoCurrencyRates (p : Props) : CurrencyRates := {|
  rate_USD := n1;
  rate_CNY := toPositiveNumber (vget (options p) (js "USDExchangeRate")) n1;
  rate_CUSTOM :=
    toPositiveNumber (vget (options p) (js "general_setting.custom_currency_exchange_rate")) n1 |}.

Definition defaultVideoPriceUnit (p : Props) : jsstr :=
  match vget (options p) (js "general_setting.quota_display_type") with
  | VStr s => if known_unit s then s else js "USD"
  | _ => js "USD"
  end.

(** [optionKeys?.K || 'K'] *)
Definition resolvedOptionKey (p : Props) (k : jsstr) : jsval := vget (optionKeys p) k ||| VStr k.

(** [options\[resolvedOptionKeys.K\]], parsed *)
Definition option_map_of (p : Props) (k : jsstr) : result jsval :=
  parseOptionJSON (vget (options p) (to_str (resolvedOptionKey p k))).

Definition sourceMaps (p : Props) : result SourceMaps :=
  mp <~ option_map_of p (js "ModelPrice") ;;
  mr <~ option_map_of p (js "ModelRatio") ;;
  cr <~ option_map_of p (js "CompletionRatio") ;;
  cm <~ option_map_of p (js "CompletionRatioMeta") ;;
  ca <~ option_map_of p (js "CacheRatio") ;;
  cc <~ option_map_of p (js "CreateCacheRatio") ;;
  ir <~ option_map_of p (js "ImageRatio") ;;
  ar <~ option_map_of p (js "AudioRatio") ;;
  ac <~ option_map_of p (js "AudioCompletionRatio") ;;
  vr <~ option_map_of p (js "VideoRatio") ;;
  vc <~ option_map_of p (js "VideoCompletionRatio") ;;
  vp <~ option_map_of p (js "VideoPrice") ;;
  vpr <~ option_map_of p (js "VideoPricingRules") ;;
  ip <~ option_map_of p (js "ImagePrice") ;;
  ipr <~ option_map_of p (js "ImagePricingRules") ;;
  mt <~ option_map_of p (js "ModelTierRatio") ;;
  ct <~ option_map_of p (js "CompletionTierRatio") ;;
  cat <~ option_map_of p (js "CacheTierRatio") ;;
  cct <~ option_map_of p (js "CreateCacheTierRatio") ;;
  inr {| sm_ModelPrice := mp; sm_ModelRatio := mr; sm_CompletionRatio := cr;
         sm_CompletionRatioMeta := cm; sm_CacheRatio := ca; sm_CreateCacheRatio := cc;
         sm_ImageRatio := ir; sm_AudioRatio := ar; sm_AudioCompletionRatio := ac;
         sm_VideoRatio := vr; sm_VideoCompletionRatio := vc; sm_VideoPrice := vp;
         sm_VideoPricingRules := vpr; sm_ImagePrice := ip; sm_ImagePricingRules := ipr;
         sm_ModelTierRatio := mt; sm_CompletionTierRatio := ct; sm_CacheTierRatio := cat;
         sm_CreateCacheTierRatio := cct; sm_VideoCurrencyRates := videoCurrencyRates p;
         sm_VideoPriceUnit := defaultVideoPriceUnit p |}.

(** The maps in the order the names are collected, the locked-ratio meta
    data apart. *)
Definition priced_maps (sm : SourceMaps) : list jsval :=
  [sm_ModelPrice sm; sm_ModelRatio sm; sm_CompletionRatio sm; sm_CacheRatio sm;
   sm_CreateCacheRatio sm; sm_ImageRatio sm; sm_AudioRatio sm; sm_AudioCompletionRatio sm;
   sm_VideoRatio sm; sm_VideoCompletionRatio sm; sm_VideoPrice sm; sm_VideoPricingRules sm;
   sm_ImagePrice sm; sm_ImagePricingRules sm; sm_ModelTierRatio sm; sm_CompletionTierRatio sm;
   sm_CacheTierRatio sm; sm_CreateCacheTierRatio sm].

(** A [Set] of strings is the list of its elements in insertion order. *)
Definition set_of (names : list jsstr) : list jsstr := dedup_by id [] names.

Definition collectModelNamesFromPricingSourceMaps (sm : SourceMaps) : list jsstr :=
  set_of (concat (map keys_of (priced_maps sm)) ++ keys_of (sm_CompletionRatioMeta sm)).

(** The names the table lists. *)
Definition listed_names (p : Props) (sm : SourceMaps) : list jsstr :=
  if strictCandidateModelNames p then
    if bool_decide (filterMode p = js "unset") then set_of (candidateModelNames p)
    else set_of (base.filter (fun n => n ∈ collectModelNamesFromPricingSourceMaps sm)
                   (candidateModelNames p))
  else set_of (candidateModelNames p ++ concat (map keys_of (priced_maps sm))).

(** ** The state *)

Inductive Toast := ShowError (message : jsstr) | ShowSuccess (message : jsstr).

Abbreviation Toggles := (list (jsstr * list (jsstr * bool))).

Record EditorState := {
  models : list Model;
  initialVisibleModelNames : list jsstr;
  selectedModelName : jsstr;
  selectedModelNames : list jsstr;
  searchText : jsstr;
  currentPage : nat;
  loading : bool;
  pendingDeleteModelNames : list jsstr;
  optionalFieldToggles : Toggles;
  (** the messages shown so far, latest first *)
  toasts : list Toast
}.

#[export] Instance EditorState_eta : Eta EditorState := fun s => {|
  models := models s; initialVisibleModelNames := initialVisibleModelNames s;
  selectedModelName := selectedModelName s; selectedModelNames := selectedModelNames s;
  searchText := searchText s; currentPage := currentPage s; loading := loading s;
  pendingDeleteModelNames := pendingDeleteModelNames s;
  optionalFieldToggles := optionalFieldToggles s; toasts := toasts s |}.

Definition initial_state : EditorState := {|
  models := []; initialVisibleModelNames := []; selectedModelName := [];
  selectedModelNames := []; searchText := []; currentPage := 1; loading := false;
  pendingDeleteModelNames := []; optionalFieldToggles := []; toasts := [] |}.

Definition PAGE_SIZE : nat := 10.

Definition names_of (ms : list Model) : list jsstr := map name ms.

Definition unset_mode (p : Props) : bool := bool_decide (filterMode p = js "unset").

Definition visibleModels (p : Props) (s : EditorState) : list Model :=
  if unset_mode p
  then base.filter (fun m => name m ∈ initialVisibleModelNames s) (models s)
  else models s.

(** [list\[0\]?.name || ''] *)
Definition first_name (ms : list Model) : jsstr := from_option name [] (head ms).

Definition find_model (ms : list Model) (n : jsstr) : option Model :=
  head (base.filter (fun m => name m = n) ms).

Definition selectedModel (p : Props) (s : EditorState) : option Model :=
  find_model (visibleModels p s) (selectedModelName s).

Section Derived.
Context `{Unicode}.

Definition filteredModels (p : Props) (s : EditorState) : list Model :=
  let keyword := toLowerCase (trim (searchText s)) in
  base.filter (fun m => (if str_truthy keyword then includes keyword (toLowerCase (name m)) else true)
                        = true)
    (visibleModels p s).

Definition pagedData (p : Props) (s : EditorState) : list Model :=
  take PAGE_SIZE (drop ((currentPage s - 1) * PAGE_SIZE) (filteredModels p s)).

(** [.sort((a, b) => a.name.localeCompare(b.name))] *)
Definition sort_models (ms : list Model) : list Model :=
  sort_by (fun a b => localeCompare (name a) (name b) <=? 0) ms.

(** ** The load effect *)

Definition load_models (p : Props) (sm : SourceMaps) : list Model :=
  sort_models (map (fun n => buildModelState n sm) (listed_names p sm)).

Definition load (p : Props) (sm : SourceMaps) (s : EditorState) : EditorState :=
  let nextModels := load_models p sm in
  let nextVisible :=
    if unset_mode p then base.filter (fun m => isBasePricingUnset m = true) nextModels
    else nextModels in
  s <| models := nextModels |>
    <| initialVisibleModelNames := names_of nextVisible |>
    <| optionalFieldToggles :=
         fold_left (fun acc m => assoc_set acc (name m) (buildOptionalFieldToggles m)) nextModels [] |>
    <| selectedModelName :=
         if str_truthy (selectedModelName s)
            && bool_decide (selectedModelName s ∈ names_of nextModels)
         then selectedModelName s else first_name nextVisible |>
    <| pendingDeleteModelNames := [] |>.
End Derived.

(** The effects that watch the visible models: ticked rows and the selected
    row stay among them. *)
Definition settle (p : Props) (s : EditorState) : EditorState :=
  let visible := names_of (visibleModels p s) in
  s <| selectedModelNames := base.filter (fun n => n ∈ visible) (selectedModelNames s) |>
    <| selectedModelName :=
         match visible with
         | [] => []
         | first :: _ =>
             if bool_decide (selectedModelName s ∈ visible) then selectedModelName s else first
         end |>.

(** The effect that goes back to the first page. *)
Definition reset_page (s : EditorState) : EditorState := s <| currentPage := 1%nat |>.

(** ** Handlers *)

Definition upsert (n : jsstr) (updater : Model -> Model) (ms : list Model) : list Model :=
  map (fun m => if bool_decide (name m = n) then updater m else m) ms.

Definition upsertModel (n : jsstr) (updater : Model -> Model) (s : EditorState) : EditorState :=
  s <| models := upsert n updater (models s) |>.

(** [if (!selectedModel) return; upsertModel(selectedModel.name, updater)] *)
Definition update_selected (p : Props) (updater : Model -> Model) (s : EditorState) : EditorState :=
  match selectedModel p s with
  | None => s
  | Some m => upsertModel (name m) updater s
  end.

(** *** Optional fields *)

Inductive OptionalField :=
  | OCompletionPrice | OCachePrice | OCreateCachePrice | OImagePrice
  | OAudioInputPrice | OAudioOutputPrice | OVideo | OImageGeneration.

Definition optional_key (f : OptionalField) : jsstr :=
  match f with
  | OCompletionPrice => js "completionPrice"
  | OCachePrice => js "cachePrice"
  | OCreateCachePrice => js "createCachePrice"
  | OImagePrice => js "imagePrice"
  | OAudioInputPrice => js "audioInputPrice"
  | OAudioOutputPrice => js "audioOutputPrice"
  | OVideo => js "video"
  | OImageGeneration => js "imageGeneration"
  end.

Definition isOptionalFieldEnabled (s : EditorState) (model : option Model) (f : OptionalField) : bool :=
  match model with
  | None => false
  | Some m =>
      match assoc_get (optionalFieldToggles s) (name m) ≫= fun g => assoc_get g (optional_key f) with
      | Some b => b
      | None => default false (assoc_get (buildOptionalFieldToggles m) (optional_key f))
      end
  end.

Definition set_toggles (n : jsstr) (changes : list (jsstr * bool)) (t : Toggles) : Toggles :=
  assoc_set t n
    (fold_left (fun acc kv => assoc_set acc (fst kv) (snd kv)) changes
       (default [] (assoc_get t n))).

Definition updateOptionalFieldToggle (n : jsstr) (f : OptionalField) (checked : bool)
    (s : EditorState) : EditorState :=
  s <| optionalFieldToggles := set_toggles n [(optional_key f, checked)] (optionalFieldToggles s) |>.

(** What switching a field off clears; a field of the toggles that is not a
    field of the model ([video], [imageGeneration]) only adds an unused
    property. *)
Definition clear_optional (f : OptionalField) (m : Model) : Model :=
  match f with
  | OCompletionPrice => m <| completionPrice := [] |>
  | OCachePrice => m <| cachePrice := [] |>
  | OCreateCachePrice => m <| createCachePrice := [] |>
  | OImagePrice => m <| imagePrice := [] |>
  | OAudioInputPrice => m <| audioInputPrice := [] |> <| audioOutputPrice := [] |>
  | OAudioOutputPrice => m <| audioOutputPrice := [] |>
  | OVideo =>
      m <| videoFixedPrice := [] |> <| videoTextToVideoRules := [] |>
        <| videoImageToVideoRules := [] |> <| videoUploadRules := [] |>
        <| videoGenerateRules := [] |> <| videoSimilarityThreshold := [] |>
  | OImageGeneration =>
      m <| imageGenFixedPrice := [] |> <| imageTextToImageRules := [] |>
        <| imageImageToImageRules := [] |> <| imageSimilarityThreshold := [] |>
  end.

Definition handleOptionalFieldToggle (p : Props) (f : OptionalField) (checked : bool)
    (s : EditorState) : EditorState :=
  match selectedModel p s with
  | None => s
  | Some m =>
      let s1 := updateOptionalFieldToggle (name m) f checked s in
      if checked then s1
      else
        let s2 := upsertModel (name m) (clear_optional f) s1 in
        match f with
        | OAudioInputPrice =>
            s2 <| optionalFieldToggles :=
              set_toggles (name m)
                [(js "audioInputPrice", false); (js "audioOutputPrice", false)]
                (optionalFieldToggles s2) |>
        | _ => s2
        end
  end.

Definition handleVideoBillingModeChange (p : Props) (value : jsstr) : EditorState -> EditorState :=
  update_selected p (fun m => m <| videoBillingMode := value |>).

Definition handleBillingModeChange (p : Props) (value : jsstr) : EditorState -> EditorState :=
  update_selected p (fun m => m <| billingMode := value |>).

(** *** Currency of the video and image prices *)

(** [videoCurrencyRates\[unit\] || 1] *)
Definition rate_or_one (rates : CurrencyRates) (unit : jsstr) : spec_float :=
  match rate_of rates unit with
  | Some r => if num_truthy r then r else n1
  | None => n1
  end.

(** [convert]: a text that is not a number stays as it is. *)
Definition convert (fromRate toRate : spec_float) (value : option jsstr) : option jsstr :=
  match toNumberOrNull (opt_val value) with
  | None => value
  | Some num => Some (formatNumber (VNum (nmul (ndiv num fromRate) toRate)))
  end.

Definition convert_text (fromRate toRate : spec_float) (value : jsstr) : jsstr :=
  default value (convert fromRate toRate (Some value)).

(** Every price box of a row is converted, from the row before the change. *)
Definition convert_video_row (c : option jsstr -> option jsstr) (row : VideoRow) : VideoRow :=
  row <| tokenPrice := c (tokenPrice row) |>
      <| videoPrice := c (videoPrice row) |>
      <| noAudioPrice := c (noAudioPrice row) |>
      <| withAudioPrice := c (withAudioPrice row) |>.

Definition handleVideoPriceUnitChange (p : Props) (nextUnit : jsstr) (s : EditorState) : EditorState :=
  match selectedModel p s with
  | None => s
  | Some sel =>
      if negb (str_truthy nextUnit) || bool_decide (nextUnit = videoPriceUnit sel) then s
      else
        let rates := videoCurrencyRates p in
        let fromRate := rate_or_one rates (videoPriceUnit sel) in
        let toRate := rate_or_one rates nextUnit in
        let rows := map (convert_video_row (convert fromRate toRate)) in
        upsertModel (name sel) (fun m => m
          <| videoPriceUnit := nextUnit |>
          <| videoFixedPrice := convert_text fromRate toRate (videoFixedPrice m) |>
          <| videoTextToVideoRules := rows (videoTextToVideoRules m) |>
          <| videoImageToVideoRules := rows (videoImageToVideoRules m) |>
          <| videoUploadRules := rows (videoUploadRules m) |>
          <| videoGenerateRules := rows (videoGenerateRules m) |>) s
  end.

Definition handleImageGenPriceUnitChange (p : Props) (nextUnit : jsstr) (s : EditorState)
    : EditorState :=
  match selectedModel p s with
  | None => s
  | Some sel =>
      if negb (str_truthy nextUnit) || bool_decide (nextUnit = imageGenPriceUnit sel) then s
      else
        let rates := videoCurrencyRates p in
        let fromRate := rate_or_one rates (imageGenPriceUnit sel) in
        let toRate := rate_or_one rates nextUnit in
        let rows := map (fun row => row <| img_price := convert fromRate toRate (img_price row) |>) in
        upsertModel (name sel) (fun m => m
          <| imageGenPriceUnit := nextUnit |>
          <| imageGenFixedPrice := convert_text fromRate toRate (imageGenFixedPrice m) |>
          <| imageTextToImageRules := rows (imageTextToImageRules m) |>
          <| imageImageToImageRules := rows (imageImageToImageRules m) |>) s
  end.

(** *** Rows of the price tables *)

(** [^(\d+(\.\d* )?|\.\d* )?$] *)
Definition NUMERIC_INPUT_REGEX (s : jsstr) : bool :=
  match span_digits s with
  | (_, []) => true
  | (_, c :: r) => (c =? 46) && forallb is_digit r
  end.

Inductive VideoSection := SecText | SecImage | SecVideoUpload | SecVideoGenerate.

Definition video_rows (sec : VideoSection) (m : Model) : list VideoRow :=
  match sec with
  | SecText => videoTextToVideoRules m
  | SecImage => videoImageToVideoRules m
  | SecVideoUpload => videoUploadRules m
  | SecVideoGenerate => videoGenerateRules m
  end.

Definition set_video_rows (sec : VideoSection) (rows : list VideoRow) (m : Model) : Model :=
  match sec with
  | SecText => m <| videoTextToVideoRules := rows |>
  | SecImage => m <| videoImageToVideoRules := rows |>
  | SecVideoUpload => m <| videoUploadRules := rows |>
  | SecVideoGenerate => m <| videoGenerateRules := rows |>
  end.

(** An edit of one cell of a row. *)
Inductive VideoCell :=
  | CellResolution (value : jsstr)
  | CellTokenPrice (value : jsstr)
  | CellPixelCompression (value : jsstr)
  | CellVideoPrice (value : jsstr)
  | CellNoAudioPrice (value : jsstr)
  | CellWithAudioPrice (value : jsstr)
  | CellAudioPricingEnabled (value : bool).

(** Whether the text of the edit is accepted. *)
Definition cell_accepted (c : VideoCell) : bool :=
  match c with
  | CellResolution _ | CellAudioPricingEnabled _ => true
  | CellTokenPrice v | CellPixelCompression v | CellVideoPrice v
  | CellNoAudioPrice v | CellWithAudioPrice v => NUMERIC_INPUT_REGEX v
  end.

Definition edit_cell (c : VideoCell) (row : VideoRow) : VideoRow :=
  match c with
  | CellResolution v => row <| resolution := VStr v |>
  | CellTokenPrice v => row <| tokenPrice := Some v |>
  | CellPixelCompression v => row <| pixelCompression := Some v |>
  | CellVideoPrice v => row <| videoPrice := Some v |>
  | CellNoAudioPrice v => row <| noAudioPrice := Some v |>
  | CellWithAudioPrice v => row <| withAudioPrice := Some v |>
  | CellAudioPricingEnabled v =>
      row <| audioPricingEnabled := v |>
          <| tokenPrice := Some (default [] (tokenPrice row)) |>
          <| videoPrice := Some (default [] (videoPrice row)) |>
          <| noAudioPrice := Some (default [] (noAudioPrice row)) |>
          <| withAudioPrice := Some (default [] (withAudioPrice row)) |>
  end.

Definition updateVideoRuleRow (p : Props) (sec : VideoSection) (index : nat) (c : VideoCell)
    (s : EditorState) : EditorState :=
  if cell_accepted c then
    update_selected p (fun m =>
      match video_rows sec m !! index with
      | None => m
      | Some row => set_video_rows sec (<[index := edit_cell c row]> (video_rows sec m)) m
      end) s
  else s.

(** The row added to a table; uploads have no table of their own to add to. *)
Definition new_video_row (sec : VideoSection) (perItem : bool) : VideoRow :=
  if perItem then {|
    resolution := VStr []; tokenPrice := None; videoPrice := Some []; noAudioPrice := Some [];
    withAudioPrice := Some []; pixelCompression := None; audioPricingEnabled := false;
    hasAudio := false |}
  else {|
    resolution := VStr []; tokenPrice := Some []; videoPrice := None; noAudioPrice := Some [];
    withAudioPrice := Some [];
    pixelCompression := Some (match sec with
      | SecImage => DEFAULT_IMAGE_VIDEO_PIXEL_COMPRESSION
      | SecText => DEFAULT_TEXT_VIDEO_PIXEL_COMPRESSION
      | _ => DEFAULT_VIDEO_VIDEO_PIXEL_COMPRESSION end);
    audioPricingEnabled := false; hasAudio := false |}.

Definition addVideoRuleRow (p : Props) (sec : VideoSection) : EditorState -> EditorState :=
  update_selected p (fun m =>
    match sec with
    | SecVideoUpload => m
    | _ => set_video_rows sec (video_rows sec m ++ [new_video_row sec (videoPerVideo m)]) m
    end).

(** [rows.filter((_, i) => i !== index)] *)
Definition remove_row {A} (index : nat) (rows : list A) : list A := delete index rows.

Definition removeVideoRuleRow (p : Props) (sec : VideoSection) (index : nat)
    : EditorState -> EditorState :=
  update_selected p (fun m =>
    match sec with
    | SecVideoUpload => m
    | _ => set_video_rows sec (remove_row index (video_rows sec m)) m
    end).

Definition image_rows (imageToImage : bool) (m : Model) : list ImageRow :=
  if imageToImage then imageImageToImageRules m else imageTextToImageRules m.
Definition set_image_rows (imageToImage : bool) (rows : list ImageRow) (m : Model) : Model :=
  if imageToImage then m <| imageImageToImageRules := rows |>
  else m <| imageTextToImageRules := rows |>.

Inductive ImageCell := CellImageResolution (value : jsstr) | CellImagePrice (value : jsstr).

Definition updateImageRuleRow (p : Props) (imageToImage : bool) (index : nat) (c : ImageCell)
    (s : EditorState) : EditorState :=
  if match c with CellImageResolution _ => true | CellImagePrice v => NUMERIC_INPUT_REGEX v end then
    update_selected p (fun m =>
      match image_rows imageToImage m !! index with
      | None => m
      | Some row =>
          let row' := match c with
                      | CellImageResolution v => row <| img_resolution := VStr v |>
                      | CellImagePrice v => row <| img_price := Some v |>
                      end in
          set_image_rows imageToImage (<[index := row']> (image_rows imageToImage m)) m
      end) s
  else s.

Definition addImageRuleRow (p : Props) (imageToImage : bool) : EditorState -> EditorState :=
  update_selected p (fun m =>
    set_image_rows imageToImage
      (image_rows imageToImage m ++ [{| img_resolution := VStr []; img_price := Some [] |}]) m).

Definition removeImageRuleRow (p : Props) (imageToImage : bool) (index : nat)
    : EditorState -> EditorState :=
  update_selected p (fun m =>
    set_image_rows imageToImage (remove_row index (image_rows imageToImage m)) m).

(** *** The numeric boxes *)

(** [!hasValue(price) && hasValue(ratio) ? formatNumber(base * Number(ratio)) : price] *)
Definition fill_price (base : spec_float) (price ratio : jsstr) : jsstr :=
  if negb (has_text price) && has_text ratio
  then formatNumber (VNum (nmul base (num_of_str ratio))) else price.

Definition fillDerivedPricesFromBase (m : Model) (nextInputPrice : jsstr) : Model :=
  match number_of nextInputPrice with
  | None => m
  | Some base =>
      let raw := rawRatios m in
      m <| completionPrice :=
             if completionRatioLocked m && has_text (lockedCompletionRatio m)
             then formatNumber (VNum (nmul base (num_of_str (lockedCompletionRatio m))))
             else fill_price base (completionPrice m) (raw_completionRatio raw) |>
        <| cachePrice := fill_price base (cachePrice m) (raw_cacheRatio raw) |>
        <| createCachePrice := fill_price base (createCachePrice m) (raw_createCacheRatio raw) |>
        <| imagePrice := fill_price base (imagePrice m) (raw_imageRatio raw) |>
        <| audioInputPrice := fill_price base (audioInputPrice m) (raw_audioRatio raw) |>
        <| audioOutputPrice :=
             if negb (has_text (audioOutputPrice m)) && has_text (raw_audioRatio raw)
                && has_text (raw_audioCompletionRatio raw)
             then formatNumber (VNum (nmul (nmul base (num_of_str (raw_audioRatio raw)))
                                           (num_of_str (raw_audioCompletionRatio raw))))
             else audioOutputPrice m |>
  end.

(** The boxes the page connects to [handleNumericFieldChange]. *)
Inductive NumericField :=
  | NFixedPrice | NInputPrice | NCompletionPrice | NCachePrice | NCreateCachePrice
  | NImagePrice | NAudioInputPrice | NAudioOutputPrice | NVideoFixedPrice
  | NVideoSimilarityThreshold | NImageGenFixedPrice | NImageSimilarityThreshold.

Definition set_numeric (f : NumericField) (value : jsstr) (m : Model) : Model :=
  match f with
  | NFixedPrice => m <| fixedPrice := value |>
  | NInputPrice => m <| inputPrice := value |>
  | NCompletionPrice => m <| completionPrice := value |>
  | NCachePrice => m <| cachePrice := value |>
  | NCreateCachePrice => m <| createCachePrice := value |>
  | NImagePrice => m <| imagePrice := value |>
  | NAudioInputPrice => m <| audioInputPrice := value |>
  | NAudioOutputPrice => m <| audioOutputPrice := value |>
  | NVideoFixedPrice => m <| videoFixedPrice := value |>
  | NVideoSimilarityThreshold => m <| videoSimilarityThreshold := value |>
  | NImageGenFixedPrice => m <| imageGenFixedPrice := value |>
  | NImageSimilarityThreshold => m <| imageSimilarityThreshold := value |>
  end.

Definition handleNumericFieldChange (p : Props) (f : NumericField) (value : jsstr)
    (s : EditorState) : EditorState :=
  if NUMERIC_INPUT_REGEX value then
    update_selected p (fun m =>
      match f with
      | NInputPrice => fillDerivedPricesFromBase (set_numeric f value m) value
      | _ => set_numeric f value m
      end) s
  else s.

(** *** Tiers *)

Inductive TierField := TModel | TCompletion | TCache | TCreateCache.

Definition set_tier (f : TierField) (x : tier) (m : Model) : Model :=
  match f with
  | TModel => m <| modelTierRatio := x |>
  | TCompletion => m <| completionTierRatio := x |>
  | TCache => m <| cacheTierRatio := x |>
  | TCreateCache => m <| createCacheTierRatio := x |>
  end.

(** [tier ? normalizeTierSegments(tier) : null] *)
Definition normalized_tier (v : jsval) : tier :=
  if truthy v then Some (normalizeTierSegments v) else None.

(** [updateModelTierRatio], [updateCompletionTierRatio],
    [updateCacheTierRatio] and [updateCreateCacheTierRatio] *)
Definition updateTierRatio (p : Props) (f : TierField) (v : jsval) : EditorState -> EditorState :=
  update_selected p (set_tier f (normalized_tier v)).

Definition clearAllTierRatios (p : Props) : EditorState -> EditorState :=
  update_selected p (fun m =>
    set_tier TModel None (set_tier TCompletion None (set_tier TCache None (set_tier TCreateCache None m)))).

(** The tiers of a template; the input tier stays when the template has none. *)
Definition apply_template (rule : TierRule) (m : Model) : Model :=
  let field rows := match rows with [] => None | _ => Some rows end in
  let m1 := match input rule with [] => m | rows => set_tier TModel (Some rows) m end in
  set_tier TCreateCache (field (cache_write rule))
    (set_tier TCache (field (cache_read rule))
      (set_tier TCompletion (field (output rule)) m1)).

Definition applyTierTemplate (p : Props) (template : jsval) (s : EditorState) : EditorState :=
  if truthy template then
    update_selected p
      (apply_template (normalizeTierRule (vget template (js "RequestTierPricingRule") ||| template))) s
  else s.

(** The categories the template opens; the others it closes. *)
Definition categoriesToOpen (rule : TierRule) : list TierCategory :=
  base.filter (fun c => non_empty (cat_rows rule c) = true) [COutput; CCacheRead; CCacheWrite].

(** What is saved: one map of model names per entry. *)
Abbreviation Output := (list (jsstr * list (jsstr * jsval))).

(** *** The set of models *)

Section ModelSet.
Context `{Unicode}.
Variable t : jsstr -> list (jsstr * jsstr) -> jsstr.
Local Abbreviation tr s := (t (js s) []).

Definition toast (x : Toast) (s : EditorState) : EditorState := s <| toasts := x :: toasts s |>.

Definition addModel (modelName : jsstr) (s : EditorState) : bool * EditorState :=
  let trimmedName := trim modelName in
  if negb (str_truthy trimmedName) then (false, toast (ShowError (tr "请输入模型名称")) s)
  else if bool_decide (trimmedName ∈ names_of (models s))
  then (false, toast (ShowError (tr "模型名称已存在")) s)
  else
    let nextModel := EMPTY_MODEL <| name := trimmedName |> in
    (true, s <| models := nextModel :: models s |>
             <| optionalFieldToggles :=
                  assoc_set (optionalFieldToggles s) trimmedName (buildOptionalFieldToggles nextModel) |>
             <| selectedModelName := trimmedName |>
             <| currentPage := 1%nat |>).

Definition markModelForDelete (n : jsstr) (s : EditorState) : EditorState :=
  s <| pendingDeleteModelNames :=
         if bool_decide (n ∈ pendingDeleteModelNames s) then pendingDeleteModelNames s
         else pendingDeleteModelNames s ++ [n] |>
    <| selectedModelNames := base.filter (fun x => x <> n) (selectedModelNames s) |>.

Definition restorePendingDelete (n : jsstr) (s : EditorState) : EditorState :=
  s <| pendingDeleteModelNames := base.filter (fun x => x <> n) (pendingDeleteModelNames s) |>.

Definition removeDeletedModelsFromState (deleted : list jsstr) (s : EditorState) : EditorState :=
  match deleted with
  | [] => s
  | _ =>
      let next := base.filter (fun m => name m ∉ deleted) (models s) in
      s <| models := next |>
        <| selectedModelName :=
             if bool_decide (selectedModelName s ∈ deleted) then first_name next
             else selectedModelName s |>
        <| optionalFieldToggles :=
             fold_left (fun acc n => assoc_delete acc n) deleted (optionalFieldToggles s) |>
        <| selectedModelNames := base.filter (fun x => x ∉ deleted) (selectedModelNames s) |>
  end.

(** *** Copying one model's prices to the ticked models *)

Definition copy_tier (x : tier) : tier :=
  match x with Some _ => Some (normalizeTierSegments (tier_val x)) | None => None end.

Definition copy_pricing (sel m : Model) : Model :=
  let next := m
    <| billingMode := billingMode sel |> <| fixedPrice := fixedPrice sel |>
    <| inputPrice := inputPrice sel |> <| completionPrice := completionPrice sel |>
    <| cachePrice := cachePrice sel |> <| createCachePrice := createCachePrice sel |>
    <| imagePrice := imagePrice sel |> <| audioInputPrice := audioInputPrice sel |>
    <| audioOutputPrice := audioOutputPrice sel |> <| videoBillingMode := videoBillingMode sel |>
    <| videoPriceUnit := videoPriceUnit sel |> <| videoFixedPrice := videoFixedPrice sel |>
    <| videoTextToVideoRules := videoTextToVideoRules sel |>
    <| videoImageToVideoRules := videoImageToVideoRules sel |>
    <| videoUploadRules := videoUploadRules sel |> <| videoGenerateRules := videoGenerateRules sel |>
    <| videoSimilarityThreshold := videoSimilarityThreshold sel |>
    <| imageGenPriceUnit := imageGenPriceUnit sel |> <| imageGenFixedPrice := imageGenFixedPrice sel |>
    <| imageTextToImageRules := imageTextToImageRules sel |>
    <| imageImageToImageRules := imageImageToImageRules sel |>
    <| imageSimilarityThreshold := imageSimilarityThreshold sel |>
    <| modelTierRatio := copy_tier (modelTierRatio sel) |>
    <| completionTierRatio := copy_tier (completionTierRatio sel) |>
    <| cacheTierRatio := copy_tier (cacheTierRatio sel) |>
    <| createCacheTierRatio := copy_tier (createCacheTierRatio sel) |> in
  if isTokenBillingMode (billingMode next) && completionRatioLocked next
     && has_text (inputPrice next) && has_text (lockedCompletionRatio next)
  then next <| completionPrice :=
         formatNumber (VNum (nmul (num_of_str (inputPrice next))
                                  (num_of_str (lockedCompletionRatio next)))) |>
  else next.

Definition copied_toggles (source : list (jsstr * bool)) (target : option Model)
    : list (jsstr * bool) :=
  let on k := default false (assoc_get source (js k)) in
  [(js "completionPrice",
      match target with
      | Some m => if completionRatioLocked m then true else on "completionPrice"
      | None => on "completionPrice"
      end);
   (js "cachePrice", on "cachePrice"); (js "createCachePrice", on "createCachePrice");
   (js "imagePrice", on "imagePrice"); (js "audioInputPrice", on "audioInputPrice");
   (js "audioOutputPrice", on "audioInputPrice" && on "audioOutputPrice");
   (js "video", on "video"); (js "imageGeneration", on "imageGeneration")].

Definition applySelectedModelPricing (p : Props) (s : EditorState) : bool * EditorState :=
  match selectedModel p s with
  | None => (false, toast (ShowError (tr "请先选择一个作为模板的模型")) s)
  | Some sel =>
      match selectedModelNames s with
      | [] => (false, toast (ShowError (tr "请先勾选需要批量设置的模型")) s)
      | ticked =>
          let sourceToggles := default [] (assoc_get (optionalFieldToggles s) (name sel)) in
          (true, toast (ShowSuccess (t (js "已将模型 {{name}} 的价格配置批量应用到 {{count}} 个模型")
                          [(js "name", name sel);
                           (js "count", dec_digits (Z.of_nat (length ticked)))]))
            (s <| models := map (fun m => if bool_decide (name m ∈ ticked)
                                          then copy_pricing sel m else m) (models s) |>
               <| optionalFieldToggles :=
                    fold_left (fun acc n =>
                        assoc_set acc n (copied_toggles sourceToggles (find_model (models s) n)))
                      ticked (optionalFieldToggles s) |>))
      end
  end.

(** *** The JSON editor of the selected model *)

Definition applyVideoPricingJson (p : Props) (jsonText : jsstr) (s : EditorState)
    : option jsstr * EditorState :=
  match selectedModel p s with
  | None => (Some (js "未选择模型"), s)
  | Some sel =>
      match VideoJson.parseVideoPricingJsonText jsonText with
      | inl message => (Some message, s)
      | inr data =>
          match VideoJson.mergeVideoPricingFromJsonEditor (Some sel) data with
          | inl message => (Some message, s)
          | inr merged => (None, upsertModel (name sel) (fun _ => merged) s)
          end
      end
  end.

Definition getVideoPricingJsonText (p : Props) (s : EditorState) : jsstr :=
  match selectedModel p s with
  | Some sel => VideoJson.stringifyVideoPricingJsonEditor sel
  | None => js "{}"
  end.

(** *** Saving *)

Definition serialized_entries (r : Serialized) : list (jsstr * Out) :=
  [(js "ModelPrice", ModelPrice r); (js "ModelRatio", ModelRatio r);
   (js "CompletionRatio", CompletionRatio r); (js "CacheRatio", CacheRatio r);
   (js "CreateCacheRatio", CreateCacheRatio r); (js "ImageRatio", ImageRatio r);
   (js "AudioRatio", AudioRatio r); (js "AudioCompletionRatio", AudioCompletionRatio r);
   (js "VideoRatio", VideoRatio r); (js "VideoCompletionRatio", VideoCompletionRatio r);
   (js "VideoPrice", VideoPrice r); (js "VideoPricingRules", VideoPricingRules r);
   (js "ImagePrice", ImagePrice r); (js "ImagePricingRules", ImagePricingRules r);
   (js "ModelTierRatio", ModelTierRatio r); (js "CompletionTierRatio", CompletionTierRatio r);
   (js "CacheTierRatio", CacheTierRatio r); (js "CreateCacheTierRatio", CreateCacheTierRatio r)].

Definition empty_output : Output :=
  map (fun e => (fst e, [])) (serialized_entries empty_serialized).

(** [value === REMOVE ? delete map\[name\] : value !== null && (map\[name\] = value)] *)
Definition record_entry (n : jsstr) (o : Out) (mp : list (jsstr * jsval)) : list (jsstr * jsval) :=
  match o with
  | ORemove => assoc_delete mp n
  | OVal v => assoc_set mp n v
  | ONull => mp
  end.

Definition record_model (n : jsstr) (r : Serialized) (output : Output) : Output :=
  zip_with (fun e kv => (fst kv, record_entry n (snd e) (snd kv))) (serialized_entries r) output.

Fixpoint build_output (p : Props) (modelList : list Model) (output : Output) : result Output :=
  match modelList with
  | [] => inr output
  | m :: rest =>
      r <~ serializeModel t m (videoCurrencyRates p) (visibleCategories p) ;;
      build_output p rest (record_model (name m) r output)
  end.

Definition buildPricingOutputFromModels (p : Props) (modelList : list Model) : result Output :=
  build_output p modelList empty_output.

(** The bodies of the requests that [persistPricingOutput] sends. *)
Definition persist_requests (p : Props) (output : Output) : list (jsval * option jsstr) :=
  map (fun kv => (resolvedOptionKey p (fst kv), JSON_stringify 2 (VObj (snd kv)))) output.

(** The check of the responses: the message of the first that did not succeed. *)
Fixpoint failed_response (responses : list jsval) : option jsval :=
  match responses with
  | [] => None
  | res :: rest =>
      let data := vget res (js "data") in
      if truthy (vget data (js "success")) then failed_response rest
      else Some (vget data (js "message") ||| VStr (tr "保存失败，请重试"))
  end.

Definition modelsToSave (s : EditorState) : list Model :=
  base.filter (fun m => name m ∉ pendingDeleteModelNames s) (models s).

Definition error_message (e : js_error) (type_error : jsstr) : jsstr :=
  match e with Error m => m | TypeError => type_error end.

(** [handleSubmit] up to the request: the output to send, or the failure
    (with the text of a [TypeError] given by the engine).  The models and the
    deletions are those of the render the handler was created in ([seen]);
    the updates go to the current state. *)
Definition handleSubmit_from (p : Props) (type_error : jsstr) (seen s : EditorState)
    : option Output * EditorState :=
  match buildPricingOutputFromModels p (modelsToSave seen) with
  | inr output => (Some output, s <| loading := true |>)
  | inl e =>
      (None, toast (ShowError (str_or (error_message e type_error) (tr "保存失败，请重试")))
               (s <| loading := false |>))
  end.

Definition handleSubmit_start (p : Props) (type_error : jsstr) (s : EditorState)
    : option Output * EditorState := handleSubmit_from p type_error s s.

(** After the save and the reload of the options succeeded. *)
Definition handleSubmit_saved (deletedNames : list jsstr) (s : EditorState) : EditorState :=
  toast (ShowSuccess (tr "保存成功"))
    ((removeDeletedModelsFromState deletedNames s)
       <| pendingDeleteModelNames := [] |> <| loading := false |>).

Definition handleSubmit_failed (message : jsstr) (s : EditorState) : EditorState :=
  toast (ShowError (str_or message (tr "保存失败，请重试"))) (s <| loading := false |>).
End ModelSet.

(** ** The pages of the table *)

Section Pages.
Context `{Unicode}.

(** The table loses no model: the pages, each of at most ten rows, are in
    order the models that match the search, and each page beyond the last one
    is empty. *)
Theorem pages_cover p s k :
  (length (filteredModels p s) <= k * PAGE_SIZE)%nat ->
  concat (map (fun i => pagedData p (s <| currentPage := i |>)) (seq 1 k)) = filteredModels p s /\
  (forall i, (length (pagedData p (s <| currentPage := i |>)) <= PAGE_SIZE)%nat) /\
  (forall i, (k < i)%nat -> pagedData p (s <| currentPage := i |>) = []).
Proof.
  intros L. split_and!.
  - rewrite <- (pages_concat PAGE_SIZE (filteredModels p s) k L) at 1.
    rewrite <- seq_shift, map_map. f_equal. apply map_ext. intros i. unfold pagedData. cbn [currentPage setf].
    replace (S i - 1)%nat with i by lia. done.
  - intros i. unfold pagedData. rewrite length_take. lia.
  - intros i I. unfold pagedData. rewrite drop_ge; [apply take_nil|].
    change (currentPage (s <| currentPage := i |>)) with i.
    change (filteredModels p (s <| currentPage := i |>)) with (filteredModels p s). nia.
Qed.
End Pages.

Lemma pages_cover_witness :
  let p := {| options := VObj []; candidateModelNames := []; strictCandidateModelNames := false;
              filterMode := js "all"; optionKeys := VUndef; visibleCategories := None |} in
  let s := initial_state <| models := replicate 23 EMPTY_MODEL |> in
  concat (map (fun i => pagedData (H := code_unit_unicode) p (s <| currentPage := i |>)) (seq 1 3))
  = replicate 23 EMPTY_MODEL.
Proof.
  intros p s. apply (pages_cover (H := code_unit_unicode) p s 3). vm_compute. lia.
Defined.
