(* ===== verification/PricingPage.v ===== *)
(** * The pricing page (ModelPricingEditor.jsx)

    What the page adds to the hook: which tier categories are shown, the JSON
    mode of the video prices, the dialogs, the save button, and the texts of
    the tier table. *)

From Stdlib Require Import SpecFloat.
From stdpp Require Import base list numbers strings.
From S2P Require Import Prelude JsNumber JsString JsValue JsJson TierPricing PricingModel.
From S2P Require Import PricingSerialize PricingView VideoPricingJson PricingEditor.
Local Open Scope Z_scope.
Local Open Scope js_scope.

(** ** Tier templates and the tier table *)

(** [Object.fromEntries(parsed.map((item, index) => \[`tpl_${index + 1}`, item\]))] *)
Definition numbered_templates (items : list jsval) : jsval :=
  VObj (fold_left (fun o kv => assoc_set o (fst kv) (snd kv))
          (zip_with (fun i item => (js "tpl_" ++ dec_digits (Z.of_nat i + 1), item))
             (seq 0 (length items)) items) []).

(** [parseJSONMap]; [JSON.parse] reads the text of whatever it is given. *)
Definition parseJSONMap (raw : jsval) : jsval :=
  if negb (truthy raw) || bool_decide (trim (to_str raw) = []) then VObj []
  else match JSON_parse (to_str raw) with
       | Some (VArr items) => numbered_templates items
       | Some (VObj o) => VObj o
       | _ => VObj []
       end.

Definition formatTierDetailPrice (r : spec_float) : jsstr :=
  if num_truthy r
  then js "$" ++ str_of_num (num_of_str (to_fixed 6 (nmul r (num_of_Z 2))))
  else js "-".

(** [`${idx === 0 ? 0 : segments\[idx - 1\]?.up_to || 0}～${row.up_to || '∞'}`] *)
Fixpoint tier_ranges (previous : spec_float) (segments : list TierRow) : list jsstr :=
  match segments with
  | [] => []
  | row :: rest =>
      (str_of_num (if num_truthy previous then previous else n0) ++ js "～"
         ++ (if num_truthy (up_to row) then str_of_num (up_to row) else js "∞"))
      :: tier_ranges (up_to row) rest
  end.

Record PageSegment := { seg_range : jsstr; seg_price : jsstr; seg_ratio : spec_float }.

Definition page_segments (rows : list TierRow) : list PageSegment :=
  let segments := ensureFinalInfinityTierSegments rows in
  zip_with (fun range row =>
      {| seg_range := range; seg_price := formatTierDetailPrice (ratio row); seg_ratio := ratio row |})
    (tier_ranges n0 segments) segments.

(** [buildTierSegmentDetails], for the summary column *)
Definition buildTierSegmentDetails (x : tier) : list PageSegment :=
  if hasTierSegments (tier_val x) then page_segments (default [] x) else [].

Record PageDetail := { det_key : jsstr; det_label : jsstr; det_segments : list PageSegment }.

(** ** Resolutions *)

Definition VIDEO_RESOLUTION_OPTIONS : list (jsstr * jsstr) :=
  [(js "480p", js "854x480"); (js "540p", js "960x540"); (js "720p", js "1280x720");
   (js "1080p", js "1920x1080"); (js "2K", js "2560x1440"); (js "4K", js "3840x2160")].

(** The resolutions offered in a row: those no other row has. *)
Definition getSelectableResolutionOptions (rows : list VideoRow) (currentIndex : nat)
    : list (jsstr * jsstr) :=
  let used := map resolution (delete currentIndex rows) in
  base.filter (fun item => existsb (fun r => is_str r (snd item)) used = false)
    VIDEO_RESOLUTION_OPTIONS.

(** [getRuleByResolution] for a text *)
Definition getRuleByResolution (rows : list VideoRow) (r : jsstr) : option VideoRow :=
  head (base.filter (fun row => is_str (resolution row) r = true) rows).

(** ** Texts *)

Section Texts.
Variable t : jsstr -> list (jsstr * jsstr) -> jsstr.
Local Abbreviation tr s := (t (js s) []).

(** The colour and the label of a billing mode. *)
Definition getBillingModeMeta (mode : jsstr) : jsstr * jsstr :=
  if bool_decide (mode = js "per-request") then (js "teal", tr "按次计费")
  else if bool_decide (mode = js "tiered") then (js "purple", tr "阶梯计费")
  else (js "violet", tr "按量计费").

Definition page_detail (key label : jsstr) (shown : bool) (x : tier) : list PageDetail :=
  match x with
  | Some (row :: rest) =>
      if shown
      then [{| det_key := key; det_label := label; det_segments := page_segments (row :: rest) |}]
      else []
  | _ => []
  end.

Definition tierPriceDetails (model : option Model) (c : VisibleCategories) : list PageDetail :=
  match model with
  | None => []
  | Some m =>
      page_detail (js "model") (tr "输入价格") true (modelTierRatio m)
      ++ page_detail (js "completion") (tr "输出价格") (vis_output c) (completionTierRatio m)
      ++ page_detail (js "cache") (tr "缓存读取价格") (vis_cache_read c) (cacheTierRatio m)
      ++ page_detail (js "createCache") (tr "缓存写入价格") (vis_cache_write c) (createCacheTierRatio m)
  end.
End Texts.

(** [formatPriceByUnit] *)
Definition formatPriceByUnit (amount : spec_float) (unit customSymbol suffix : jsstr) : jsstr :=
  if negb (isFinite amount) || nleb amount n0 then js "-"
  else
    let text := to_fixed 6 amount in
    if bool_decide (unit = js "USD") then js "$" ++ text ++ suffix
    else if bool_decide (unit = js "CNY") then js "¥" ++ text ++ suffix
    else if bool_decide (unit = js "CUSTOM") then customSymbol ++ text ++ suffix
    else if bool_decide (unit = js "TOKENS") then text ++ js " Token" ++ suffix
    else text ++ suffix.

(** What [getCurrencyConfig] returns, from the browser's storage. *)
Record CurrencyConfig := { cur_type : jsstr; cur_symbol : jsstr }.

(** The unit a price suffix shows: the model's own, or the displayed one. *)
Definition suffix_unit (own : jsstr) (cur : CurrencyConfig) : jsstr :=
  if known_unit own then own else cur_type cur.

Definition perVideoPriceSuffix (own : jsstr) (cur : CurrencyConfig) : jsstr :=
  let unit := suffix_unit own cur in
  if bool_decide (unit = js "USD") then js "$"
  else if bool_decide (unit = js "CNY") then js "¥"
  else if bool_decide (unit = js "CUSTOM") then str_or (cur_symbol cur) (js "¤")
  else str_or (cur_symbol cur) (js "$").

Definition flatPerVideoPriceSuffix (own : jsstr) (cur : CurrencyConfig) : jsstr :=
  let unit := suffix_unit own cur in
  if bool_decide (unit = js "USD") then js "$/视频"
  else if bool_decide (unit = js "CNY") then js "¥/视频"
  else if bool_decide (unit = js "CUSTOM") then str_or (cur_symbol cur) (js "¤") ++ js "/视频"
  else js "$/视频".

(** ** The state of the page *)

Record Page := {
  editor : EditorState;
  categories : VisibleCategories;
  videoEditMode : jsstr;
  videoJsonDraft : jsstr;
  addVisible : bool;
  batchVisible : bool;
  newModelName : jsstr
}.

#[export] Instance Page_eta : Eta Page := fun x => {|
  editor := editor x; categories := categories x; videoEditMode := videoEditMode x;
  videoJsonDraft := videoJsonDraft x; addVisible := addVisible x;
  batchVisible := batchVisible x; newModelName := newModelName x |}.

Definition no_categories : VisibleCategories :=
  {| vis_output := false; vis_cache_read := false; vis_cache_write := false |}.

Definition initial_page : Page := {|
  editor := initial_state; categories := no_categories; videoEditMode := js "visual";
  videoJsonDraft := []; addVisible := false; batchVisible := false; newModelName := [] |}.

(** The page passes its own categories to the hook. *)
Definition hook_props (p : Props) (x : Page) : Props := p <| visibleCategories := Some (categories x) |>.

Definition has_tier (x : tier) : bool := hasTierSegments (tier_val x).

(** The effect that shows the categories the selected model has tiers in. *)
Definition open_categories (sel : option Model) (prev : VisibleCategories) : VisibleCategories :=
  match sel with
  | None => prev
  | Some m =>
      {| vis_output := if has_tier (completionTierRatio m) then true else vis_output prev;
         vis_cache_read := if has_tier (cacheTierRatio m) then true else vis_cache_read prev;
         vis_cache_write := if has_tier (createCacheTierRatio m) then true else vis_cache_write prev |}
  end.

(** The switch of a category. *)
Definition switch_category (c : TierCategory) (checked : bool) (v : VisibleCategories)
    : VisibleCategories :=
  match c with
  | CInput => v
  | COutput => {| vis_output := checked; vis_cache_read := vis_cache_read v;
                  vis_cache_write := vis_cache_write v |}
  | CCacheRead => {| vis_output := vis_output v; vis_cache_read := checked;
                     vis_cache_write := vis_cache_write v |}
  | CCacheWrite => {| vis_output := vis_output v; vis_cache_read := vis_cache_read v;
                      vis_cache_write := checked |}
  end.

(** The effect on a new selection: back to the visual mode. *)
Definition reset_json (x : Page) : Page :=
  x <| videoEditMode := js "visual" |> <| videoJsonDraft := [] |>.

(** ** Handlers *)

Section Handlers.
Context `{Unicode}.
Variable t : jsstr -> list (jsstr * jsstr) -> jsstr.
Local Abbreviation tr s := (t (js s) []).

(** The selection in the template box: the tiers of the template, and the
    categories it opens and closes. *)
Definition choose_template (p : Props) (template : jsval) (x : Page) : Page :=
  if truthy template then
    match selectedModel p (editor x) with
    | None => x
    | Some _ =>
        let rule := normalizeTierRule (vget template (js "RequestTierPricingRule") ||| template) in
        x <| editor := applyTierTemplate p template (editor x) |>
          <| categories := {|
               vis_output := bool_decide (COutput ∈ categoriesToOpen rule);
               vis_cache_read := bool_decide (CCacheRead ∈ categoriesToOpen rule);
               vis_cache_write := bool_decide (CCacheWrite ∈ categoriesToOpen rule) |} |>
    end
  else x.

Definition handleAddModel (x : Page) : Page :=
  let '(added, s) := addModel t (newModelName x) (editor x) in
  if added then x <| editor := s |> <| newModelName := [] |> <| addVisible := false |>
  else x <| editor := s |>.

(** The confirmation of the batch dialog. *)
Definition confirm_batch (p : Props) (x : Page) : Page :=
  let '(applied, s) := applySelectedModelPricing t p (editor x) in
  if applied then x <| editor := s |> <| batchVisible := false |> else x <| editor := s |>.

(** [syncVideoJsonBeforeSave]: in the JSON mode, the draft is applied to the
    selected model; a draft that cannot be applied stops the caller. *)
Definition syncVideoJsonBeforeSave (p : Props) (x : Page) : bool * Page :=
  match selectedModel p (editor x) with
  | Some m =>
      if bool_decide (videoEditMode x = js "json") && isOptionalFieldEnabled (editor x) (Some m) OVideo
      then
        let '(failure, s) := applyVideoPricingJson p (videoJsonDraft x) (editor x) in
        match failure with
        | Some message =>
            (false, x <| editor := toast (ShowError
               (if bool_decide (message = js "不是合法的 JSON 字符串")
                then tr "不是合法的 JSON 字符串" else message)) s |>)
        | None => (true, x <| editor := s |>)
        end
      else (true, x)
  | None => (true, x)
  end.

Definition switchVideoToJsonMode (p : Props) (x : Page) : Page :=
  match selectedModel p (editor x) with
  | None => x
  | Some _ =>
      x <| videoJsonDraft := getVideoPricingJsonText p (editor x) |> <| videoEditMode := js "json" |>
  end.

Definition switchVideoToVisualMode (p : Props) (x : Page) : Page :=
  let '(ok, x') := syncVideoJsonBeforeSave p x in
  if ok then x' <| videoEditMode := js "visual" |> else x'.

(** [handleApplyChanges]: the draft is applied with [setModels], then
    [handleSubmit] of the same render runs, which still sees the models from
    before. *)
Definition handleApplyChanges (p : Props) (type_error : jsstr) (x : Page) : option Output * Page :=
  let '(ok, x') := syncVideoJsonBeforeSave p x in
  if ok then
    let '(out, s) := handleSubmit_from t (hook_props p x) type_error (editor x) (editor x') in
    (out, x' <| editor := s |>)
  else (None, x').
End Handlers.

(** ** The row options keep the tables free of duplicates *)

Section Options.
Context `{Unicode}.

Lemma options_keys : Forall (fun item => row_key (VStr (snd item)) = snd item /\ snd item <> [])
  VIDEO_RESOLUTION_OPTIONS.
Proof. repeat constructor; done || (vm_compute; reflexivity). Qed.

Lemma non_empty_keys_perm l l' : l ≡ₚ l' -> non_empty_keys l ≡ₚ non_empty_keys l'.
Proof. intros P. unfold non_empty_keys. by rewrite P. Qed.

Lemma duplicates_perm l l' : l ≡ₚ l' ->
  hasDuplicateResolution l = false -> hasDuplicateResolution l' = false.
Proof.
  unfold hasDuplicateResolution. rewrite !duplicate_from_spec. intros P [N _].
  split; [|by intros k _ ?%not_elem_of_nil]. by rewrite <- (non_empty_keys_perm l l' P).
Qed.

Lemma duplicates_cons r l :
  row_key r ∉ non_empty_keys l ->
  hasDuplicateResolution l = false -> hasDuplicateResolution (r :: l) = false.
Proof.
  unfold hasDuplicateResolution. rewrite !duplicate_from_spec. intros K [N _].
  split; [|by intros k _ ?%not_elem_of_nil]. unfold non_empty_keys in *. cbn [map].
  rewrite filter_cons. case_decide; [|done]. by apply NoDup_cons.
Qed.

Lemma duplicates_tail r l :
  hasDuplicateResolution (r :: l) = false -> hasDuplicateResolution l = false.
Proof.
  unfold hasDuplicateResolution. rewrite !duplicate_from_spec. intros [N _].
  split; [|by intros k _ ?%not_elem_of_nil]. unfold non_empty_keys in *. cbn [map] in N.
  rewrite filter_cons in N. case_decide; [|done]. by apply NoDup_cons in N as [_ N].
Qed.

Lemma insert_perm {A} (l : list A) i x y : l !! i = Some y -> <[i := x]> l ≡ₚ x :: delete i l.
Proof.
  intros L. rewrite insert_take_drop by (by eapply lookup_lt_Some).
  rewrite delete_take_drop. apply Permutation_sym, Permutation_middle.
Qed.

(** A resolution in the form the page's options have. *)
Definition plain_resolution (r : jsval) : Prop := exists s, r = VStr s /\ row_key r = s.

(** The options keep a price table free of duplicates: in a table
    without duplicate resolutions, all written as the options are, choosing
    for any row one of the options that [getSelectableResolutionOptions]
    offers leaves a table without duplicates. *)
Theorem offered_resolution_keeps_distinct rows i row item :
  rows !! i = Some row -> Forall (fun r => plain_resolution (resolution r)) rows ->
  hasDuplicateResolution (map resolution rows) = false ->
  item ∈ getSelectableResolutionOptions rows i ->
  hasDuplicateResolution
    (map resolution (<[i := edit_cell (CellResolution (snd item)) row]> rows)) = false.
Proof.
  intros L P N [O I]%list_elem_of_filter.
  pose proof (delete_Permutation rows i row L) as D.
  eapply duplicates_perm; [symmetry; apply fmap_Permutation, (insert_perm _ _ _ _ L)|].
  assert (N' : hasDuplicateResolution (map resolution (delete i rows)) = false).
  { eapply (duplicates_tail (resolution row)), duplicates_perm; [|exact N].
    exact (fmap_Permutation resolution _ _ D). }
  apply duplicates_cons; [|exact N'].
  pose proof options_keys as K. eapply Forall_forall in K as [K _]; [|exact I]. cbn. rewrite K.
  intros [_ (r & E & R)%list_elem_of_fmap]%list_elem_of_filter.
  pose proof R as R'. apply list_elem_of_fmap in R' as (row' & -> & R').
  assert (M : row' ∈ rows) by (rewrite D; by apply list_elem_of_further).
  eapply Forall_forall in P as (s & S & S'); [|exact M].
  apply not_true_iff_false in O. apply O, existsb_exists. exists (resolution row').
  split; [by apply list_elem_of_In|]. rewrite S. cbn. rewrite bool_decide_true; [done|].
  by rewrite E, S'.
Qed.
End Options.

Lemma offered_resolution_keeps_distinct_witness :
  let row s := (new_video_row SecText true) <| resolution := VStr (js s) |> in
  hasDuplicateResolution (H := code_unit_unicode)
    (map resolution (<[1%nat := edit_cell (CellResolution (js "1920x1080")) (row "854x480")]>
       [row "1280x720"; row "854x480"])) = false.
Proof.
  intros row.
  apply (offered_resolution_keeps_distinct (H := code_unit_unicode)
           [row "1280x720"; row "854x480"] 1 (row "854x480") (js "1080p", js "1920x1080")).
  - reflexivity.
  - repeat apply Forall_cons_2; [exists (js "1280x720")|exists (js "854x480")|apply Forall_nil_2];
      (split; [reflexivity|vm_compute; reflexivity]).
  - vm_compute. reflexivity.
  - apply (bool_decide_unpack _). vm_compute. exact I.
Defined.
