(* ===== verification/PricingMachine.v ===== *)
(** * The pricing page as a state machine

    The user's actions, the reloads and the asynchronous save as steps over
    the state of PricingPage.v, in any interleaving, and the invariants of
    every reachable state: distinct model names, a selection and ticks among
    the visible models, pending deletions among the models. *)

From Stdlib Require Import SpecFloat.
From stdpp Require Import base list numbers strings relations.
From S2P Require Import Prelude JsNumber JsString JsValue JsJson TierPricing PricingModel.
From S2P Require Import PricingSerialize PricingView VideoPricingJson PricingEditor PricingPage.
Local Open Scope Z_scope.

Section Machine.
Context `{Unicode}.
Variable t : jsstr -> list (jsstr * jsstr) -> jsstr.

(** What changes the state of the hook. *)
Inductive Action :=
  | ASelect (n : jsstr)
  | ATick (names : list jsstr)
  | ASearch (text : jsstr)
  | APage (page : nat)
  | AToggle (f : OptionalField) (checked : bool)
  | ANumeric (f : NumericField) (value : jsstr)
  | ABillingMode (value : jsstr)
  | AVideoMode (value : jsstr)
  | AVideoUnit (unit : jsstr)
  | ACell (sec : VideoSection) (index : nat) (c : VideoCell)
  | AAddRow (sec : VideoSection)
  | ARemoveRow (sec : VideoSection) (index : nat)
  | AImageUnit (unit : jsstr)
  | AImageCell (imageToImage : bool) (index : nat) (c : ImageCell)
  | AAddImageRow (imageToImage : bool)
  | ARemoveImageRow (imageToImage : bool) (index : nat)
  | ATier (f : TierField) (v : jsval)
  | AClearTiers
  | ATemplate (template : jsval)
  | AAddModel (n : jsstr)
  | AMark (n : jsstr)
  | ARestore (n : jsstr)
  | ACopy
  | AJson (text : jsstr).

Definition act (p : Props) (a : Action) (s : EditorState) : EditorState :=
  match a with
  | ASelect n => s <| selectedModelName := n |>
  | ATick names => s <| selectedModelNames := names |>
  | ASearch text => reset_page (s <| searchText := text |>)
  | APage page => s <| currentPage := page |>
  | AToggle f checked => handleOptionalFieldToggle p f checked s
  | ANumeric f value => handleNumericFieldChange p f value s
  | ABillingMode value => handleBillingModeChange p value s
  | AVideoMode value => handleVideoBillingModeChange p value s
  | AVideoUnit unit => handleVideoPriceUnitChange p unit s
  | ACell sec index c => updateVideoRuleRow p sec index c s
  | AAddRow sec => addVideoRuleRow p sec s
  | ARemoveRow sec index => removeVideoRuleRow p sec index s
  | AImageUnit unit => handleImageGenPriceUnitChange p unit s
  | AImageCell i2i index c => updateImageRuleRow p i2i index c s
  | AAddImageRow i2i => addImageRuleRow p i2i s
  | ARemoveImageRow i2i index => removeImageRuleRow p i2i index s
  | ATier f v => updateTierRatio p f v s
  | AClearTiers => clearAllTierRatios p s
  | ATemplate template => applyTierTemplate p template s
  | AAddModel n => snd (addModel t n s)
  | AMark n => markModelForDelete n s
  | ARestore n => restorePendingDelete n s
  | ACopy => snd (applySelectedModelPricing t p s)
  | AJson text => snd (applyVideoPricingJson p text s)
  end.

(** The rows the page offers: ticks and deletions only concern listed models. *)
Definition enabled (p : Props) (a : Action) (s : EditorState) : Prop :=
  match a with
  | ATick names => Forall (fun n => n ∈ names_of (visibleModels p s)) names
  | AMark n => n ∈ names_of (visibleModels p s)
  | _ => True
  end.

(** *** The page *)

Inductive PageAction :=
  | PEdit (a : Action)
  | PTemplate (template : jsval)
  | PCategory (c : TierCategory) (checked : bool)
  | PAddDialog
  | PCancelAdd
  | PNewName (text : jsstr)
  | PAddModel
  | PBatchDialog (open : bool)
  | PBatch
  | PJsonMode
  | PDraft (text : jsstr)
  | PVisualMode.

Definition page_act (p : Props) (a : PageAction) (x : Page) : Page :=
  match a with
  | PEdit a => x <| editor := act p a (editor x) |>
  | PTemplate template => choose_template p template x
  | PCategory c checked => x <| categories := switch_category c checked (categories x) |>
  | PAddDialog => x <| addVisible := true |>
  | PCancelAdd => x <| addVisible := false |> <| newModelName := [] |>
  | PNewName text => x <| newModelName := text |>
  | PAddModel => handleAddModel t x
  | PBatchDialog open => x <| batchVisible := open |>
  | PBatch => confirm_batch t p x
  | PJsonMode => switchVideoToJsonMode p x
  | PDraft text => x <| videoJsonDraft := text |>
  | PVisualMode => switchVideoToVisualMode t p x
  end.

(** The actions the page binds to the hook directly; the others go through
    its own handlers. *)
Definition direct (a : Action) : bool :=
  match a with ATemplate _ | AAddModel _ | ACopy | AJson _ => false | _ => true end.

Definition page_enabled (p : Props) (a : PageAction) (x : Page) : Prop :=
  match a with PEdit a => direct a = true /\ enabled p a (editor x) | _ => True end.

(** The tiers the category effect watches. *)
Definition watched_tiers (p : Props) (s : EditorState) : option (tier * tier * tier) :=
  m ← selectedModel p s; Some (completionTierRatio m, cacheTierRatio m, createCacheTierRatio m).

(** The effects after an update: the hook's, the return to the visual mode on
    a new selection and, when it runs, the one that shows categories. *)
Definition effects (p : Props) (old new : Page) (shows : bool) : Page :=
  let s := settle p (editor new) in
  let x := new <| editor := s |> in
  let x := if bool_decide (selectedModelName s = selectedModelName (editor old)) then x
           else reset_json x in
  if shows then x <| categories := open_categories (selectedModel p s) (categories x) |> else x.

(** The category effect compares references: it runs at least when a watched
    tier has changed. *)
Definition must_show (p p' : Props) (old new : Page) (shows : bool) : Prop :=
  watched_tiers p' (settle p' (editor new)) <> watched_tiers p (editor old) -> shows = true.

Record Sys := {
  props : Props;
  page : Page;
  (** the deletions of the save that is under way *)
  in_flight : option (list jsstr);
  (** what has been sent to the server, latest first *)
  sent : list Output
}.

(** One step: an action on the page, new properties (reloaded options or
    another list of candidates, with or without a return to the first page),
    a click on the save button, or the end of a save. *)
Inductive step : Sys -> Sys -> Prop :=
  | step_page x a shows new :
      page_enabled (props x) a (page x) ->
      new = page_act (props x) a (page x) ->
      must_show (props x) (props x) (page x) new shows ->
      step x {| props := props x; page := effects (props x) (page x) new shows;
                in_flight := in_flight x; sent := sent x |}
  | step_reload x p' sm (reset : bool) shows new :
      sourceMaps p' = inr sm ->
      new = (page x) <| editor := load p' sm (if reset then reset_page (editor (page x))
                                              else editor (page x)) |> ->
      must_show (props x) p' (page x) new shows ->
      step x {| props := p'; page := effects p' (page x) new shows;
                in_flight := in_flight x; sent := sent x |}
  | step_apply x type_error out shows new :
      loading (editor (page x)) = false ->
      handleApplyChanges t (props x) type_error (page x) = (out, new) ->
      must_show (props x) (props x) (page x) new shows ->
      step x {| props := props x; page := effects (props x) (page x) new shows;
                in_flight := match out with
                             | Some _ => Some (pendingDeleteModelNames (editor (page x)))
                             | None => in_flight x
                             end;
                sent := match out with Some o => o :: sent x | None => sent x end |}
  | step_saved x deleted shows new :
      in_flight x = Some deleted ->
      new = (page x) <| editor := handleSubmit_saved t deleted (editor (page x)) |> ->
      must_show (props x) (props x) (page x) new shows ->
      step x {| props := props x; page := effects (props x) (page x) new shows;
                in_flight := None; sent := sent x |}
  | step_failed x deleted message shows new :
      in_flight x = Some deleted ->
      new = (page x) <| editor := handleSubmit_failed t message (editor (page x)) |> ->
      must_show (props x) (props x) (page x) new shows ->
      step x {| props := props x; page := effects (props x) (page x) new shows;
                in_flight := None; sent := sent x |}.

(** The page opens with the initial state and loads its options. *)
Inductive reachable : Sys -> Prop :=
  | reach_open p sm :
      sourceMaps p = inr sm ->
      reachable {| props := p;
                   page := effects p initial_page
                             (initial_page <| editor := load p sm initial_state |>) true;
                   in_flight := None; sent := [] |}
  | reach_step x y : reachable x -> step x y -> reachable y.
End Machine.

(** ** Model names stay distinct *)

Lemma set_of_NoDup l : NoDup (set_of l).
Proof. unfold set_of. rewrite <- (map_id (dedup_by id [] l)). apply dedup_by_NoDup. Qed.

Section Names.
Context `{Unicode}.

Lemma load_models_names p sm : names_of (load_models p sm) ≡ₚ listed_names p sm.
Proof.
  unfold names_of, load_models. unfold sort_models. rewrite sort_by_perm, map_map.
  cbn. by rewrite map_id.
Qed.

Lemma listed_names_NoDup p sm : NoDup (listed_names p sm).
Proof. unfold listed_names. repeat case_match; apply set_of_NoDup. Qed.

Lemma load_models_NoDup p sm : NoDup (names_of (load_models p sm)).
Proof. rewrite load_models_names. apply listed_names_NoDup. Qed.
End Names.

(** The names after an update that keeps them. *)
Lemma upsert_names n f ms :
  (forall m, name m = n -> name (f m) = n) -> names_of (upsert n f ms) = names_of ms.
Proof.
  intros F. unfold names_of, upsert. rewrite map_map. apply map_ext. intros m.
  case_bool_decide as E; [|done]. rewrite E. auto.
Qed.

(** A handler that leaves the set of models, the deletions and the progress
    of the save alone. *)
Definition in_place (s s' : EditorState) : Prop :=
  names_of (models s') = names_of (models s) /\
  pendingDeleteModelNames s' = pendingDeleteModelNames s /\
  loading s' = loading s.

#[export] Instance in_place_preorder : PreOrder in_place.
Proof. split; [done|]. intros x y z (? & ? & ?) (? & ? & ?). repeat split; congruence. Qed.

Lemma in_place_upsert n f s :
  (forall m, name m = n -> name (f m) = n) -> in_place s (upsertModel n f s).
Proof. intros F. split_and!; try done. by apply upsert_names. Qed.

Lemma in_place_update p f s : (forall m, name (f m) = name m) -> in_place s (update_selected p f s).
Proof.
  intros F. unfold update_selected. destruct (selectedModel p s) as [sel|]; [|done].
  apply in_place_upsert. intros m <-. apply F.
Qed.

Lemma set_video_rows_name sec rows m : name (set_video_rows sec rows m) = name m.
Proof. by destruct sec. Qed.
Lemma set_image_rows_name i2i rows m : name (set_image_rows i2i rows m) = name m.
Proof. by destruct i2i. Qed.
Lemma set_tier_name f x m : name (set_tier f x m) = name m.
Proof. by destruct f. Qed.
Lemma apply_template_name rule m : name (apply_template rule m) = name m.
Proof. unfold apply_template. rewrite !set_tier_name. case_match; [done|]. apply set_tier_name. Qed.
Lemma set_numeric_name f v m : name (set_numeric f v m) = name m.
Proof. by destruct f. Qed.
Lemma fillDerived_name m v : name (fillDerivedPricesFromBase m v) = name m.
Proof. unfold fillDerivedPricesFromBase. by destruct (number_of v). Qed.
Lemma clear_optional_name f m : name (clear_optional f m) = name m.
Proof. by destruct f. Qed.
Lemma copy_pricing_name sel m : name (copy_pricing sel m) = name m.
Proof. unfold copy_pricing. by case_match. Qed.
Lemma merge_name `{Unicode} m data m' :
  VideoJson.mergeVideoPricingFromJsonEditor (Some m) data = inr m' -> name m' = name m.
Proof.
  unfold VideoJson.mergeVideoPricingFromJsonEditor. case_match; [done|].
  intros E%(inj inr). by rewrite <- E.
Qed.

Create HintDb names.
Create Rewrite HintDb names.
#[export] Hint Rewrite set_video_rows_name set_image_rows_name set_tier_name apply_template_name
  set_numeric_name fillDerived_name clear_optional_name copy_pricing_name : names.
#[export] Hint Resolve in_place_upsert in_place_update : names.

(** Closes the goal that an updater keeps the name of a model. *)
Ltac keeps_name :=
  intros; repeat case_match; cbn; autorewrite with names; first [done | congruence].

Section Steps.
Context `{Unicode} (t : jsstr -> list (jsstr * jsstr) -> jsstr).

Lemma toggle_in_place p f checked s : in_place s (handleOptionalFieldToggle p f checked s).
Proof.
  unfold handleOptionalFieldToggle. destruct (selectedModel p s) as [sel|]; [|done].
  destruct checked; [done|].
  assert (U : in_place s (upsertModel (name sel) (clear_optional f)
                            (updateOptionalFieldToggle (name sel) f false s)))
    by (etransitivity; [|apply in_place_upsert; keeps_name]; done).
  by destruct f.
Qed.

Lemma unit_in_place p unit s : in_place s (handleVideoPriceUnitChange p unit s).
Proof.
  unfold handleVideoPriceUnitChange. repeat case_match; try done. by apply in_place_upsert.
Qed.

Lemma image_unit_in_place p unit s : in_place s (handleImageGenPriceUnitChange p unit s).
Proof.
  unfold handleImageGenPriceUnitChange. repeat case_match; try done. by apply in_place_upsert.
Qed.

Lemma json_in_place p text s : in_place s (snd (applyVideoPricingJson p text s)).
Proof.
  unfold applyVideoPricingJson. destruct (selectedModel p s) as [sel|]; [|done].
  destruct (VideoJson.parseVideoPricingJsonText text) as [|data]; [done|].
  destruct (VideoJson.mergeVideoPricingFromJsonEditor (Some sel) data) as [|m'] eqn:M; [done|].
  apply in_place_upsert. intros _ _. by eapply merge_name.
Qed.

Lemma copy_in_place p s : in_place s (snd (applySelectedModelPricing t p s)).
Proof.
  unfold applySelectedModelPricing. destruct (selectedModel p s) as [sel|]; [|done].
  destruct (selectedModelNames s) as [|n ns]; [done|]. split_and!; try done.
  cbn. unfold names_of. rewrite map_map. apply map_ext. intros m.
  case_match; [apply copy_pricing_name|done].
Qed.

(** The actions that change the set of models or the deletions; every other
    one works in place. *)
Definition changes_models (a : Action) : bool :=
  match a with AAddModel _ | AMark _ | ARestore _ => true | _ => false end.

Lemma act_in_place p a s : changes_models a = false -> in_place s (act t p a s).
Proof.
  destruct a; intros A; try done; cbn [act].
  - apply toggle_in_place.
  - unfold handleNumericFieldChange. case_match; [|done]. apply in_place_update.
    intros m. destruct f; autorewrite with names; done.
  - by apply in_place_update.
  - by apply in_place_update.
  - apply unit_in_place.
  - unfold updateVideoRuleRow. case_match; [|done]. apply in_place_update. keeps_name.
  - apply in_place_update. keeps_name.
  - apply in_place_update. keeps_name.
  - apply image_unit_in_place.
  - unfold updateImageRuleRow. case_match; [|done]. apply in_place_update. keeps_name.
  - apply in_place_update. keeps_name.
  - apply in_place_update. keeps_name.
  - apply in_place_update. keeps_name.
  - apply in_place_update. keeps_name.
  - unfold applyTierTemplate. destruct (truthy template); [|done].
    apply in_place_update. intros m. apply apply_template_name.
  - apply copy_in_place.
  - apply json_in_place.
Qed.
End Steps.

(** ** The invariant *)

(** What the handlers must keep: distinct model names, and deletions that
    are distinct and name models of the list. *)
Definition core (s : EditorState) : Prop :=
  NoDup (names_of (models s)) /\ NoDup (pendingDeleteModelNames s) /\
  (forall n, n ∈ pendingDeleteModelNames s -> n ∈ names_of (models s)).

(** What the effects restore: the selected and the ticked models are visible. *)
Definition selection_ok (p : Props) (s : EditorState) : Prop :=
  match names_of (visibleModels p s) with
  | [] => selectedModelName s = []
  | visible => selectedModelName s ∈ visible
  end /\
  Forall (fun n => n ∈ names_of (visibleModels p s)) (selectedModelNames s).

Lemma settle_visible p s : visibleModels p (settle p s) = visibleModels p s.
Proof. done. Qed.

Lemma settle_core p s : core s -> core (settle p s).
Proof. done. Qed.

Lemma settle_selection p s : selection_ok p (settle p s).
Proof.
  unfold selection_ok. rewrite settle_visible. split.
  - unfold settle. cbn. destruct (names_of (visibleModels p s)) as [|n ns]; [done|].
    case_bool_decide; [done|]. apply list_elem_of_here.
  - unfold settle. cbn. apply Forall_forall. by intros n [? _]%list_elem_of_filter.
Qed.

(** Settling a settled state changes nothing. *)
Lemma settle_id p s : selection_ok p s -> settle p s = s.
Proof.
  intros [S T]. unfold settle. destruct s as [ms iv sel ticked sx cp ld pd tg ts]. cbn in *.
  rewrite filter_all by done.
  assert (E : forall l, l = names_of (visibleModels p
      {| models := ms; initialVisibleModelNames := iv; selectedModelName := sel;
         selectedModelNames := ticked; searchText := sx; currentPage := cp; loading := ld;
         pendingDeleteModelNames := pd; optionalFieldToggles := tg; toasts := ts |}) ->
    match l with [] => [] | first :: _ => if bool_decide (sel ∈ l) then sel else first end = sel).
  { intros l ->. destruct (names_of _); [done|]. by rewrite bool_decide_true. }
  unfold setf. cbn. by rewrite (E _ eq_refl).
Qed.

Lemma core_ext s s' :
  names_of (models s') = names_of (models s) ->
  pendingDeleteModelNames s' = pendingDeleteModelNames s -> core s -> core s'.
Proof. unfold core. by intros -> ->. Qed.

Lemma in_place_core s s' : in_place s s' -> core s -> core s'.
Proof. intros (N & P & _). by apply core_ext. Qed.

Section Invariant.
Context `{Unicode} (t : jsstr -> list (jsstr * jsstr) -> jsstr).

Lemma visible_names_incl p s n : n ∈ names_of (visibleModels p s) -> n ∈ names_of (models s).
Proof.
  unfold visibleModels, names_of. case_match; [|done].
  intros (m & -> & [_ M]%list_elem_of_filter)%list_elem_of_fmap. by apply list_elem_of_fmap_2.
Qed.

Lemma act_core p a s : enabled p a s -> core s -> core (act t p a s).
Proof.
  intros E C.
  destruct (changes_models a) eqn:A; [|by eapply in_place_core; [apply act_in_place|]].
  destruct C as (N & D & I). destruct a; try done; cbn [act].
  - unfold addModel. case_match; [done|]. case_bool_decide as F; [done|].
    split_and!; cbn; [by apply NoDup_cons|done|].
    intros x X. apply list_elem_of_further. by apply I.
  - unfold markModelForDelete. split_and!; cbn; [done|case_match; [done|]|].
    + apply NoDup_app. split; [done|]. split; [|apply NoDup_singleton].
      case_bool_decide; [done|]. by intros x X ->%list_elem_of_singleton.
    + intros x. case_match; [apply I|]. intros [X|X]%elem_of_app; [by apply I|].
      apply list_elem_of_singleton in X as ->. by eapply visible_names_incl.
  - split_and!; cbn; [done|by apply NoDup_filter|]. intros x [_ X]%list_elem_of_filter. by apply I.
Qed.

Lemma load_core p sm s : core (load p sm s).
Proof.
  split_and!; cbn; [apply load_models_NoDup|constructor|]. by intros n ?%not_elem_of_nil.
Qed.

Lemma removeDeleted_models deleted s :
  models (removeDeletedModelsFromState deleted s)
  = base.filter (fun m => name m ∉ deleted) (models s).
Proof.
  destruct deleted as [|d ds]; [|done]. cbn. symmetry. apply filter_all.
  apply Forall_forall. intros m _. apply not_elem_of_nil.
Qed.

Lemma filter_names_NoDup (P : Model -> Prop) `{!forall m, Decision (P m)} ms :
  NoDup (names_of ms) -> NoDup (names_of (base.filter P ms)).
Proof.
  intros N. eapply sublist_NoDup; [exact N|]. apply (fmap_sublist name), sublist_filter.
Qed.

Lemma saved_core deleted s : core s -> core (handleSubmit_saved t deleted s).
Proof.
  intros (N & _ & _). split_and!.
  - change (NoDup (names_of (models (removeDeletedModelsFromState deleted s)))).
    rewrite removeDeleted_models. by apply filter_names_NoDup.
  - exact (NoDup_nil_2).
  - by intros n ?%not_elem_of_nil.
Qed.

(** The invariant of the machine: the core, a selection among the visible
    models, and a save under way exactly while the page shows it. *)
Definition sys_ok (x : Sys) : Prop :=
  core (editor (page x)) /\ selection_ok (props x) (editor (page x)) /\
  loading (editor (page x)) = match in_flight x with Some _ => true | None => false end.

Lemma act_loading p a s : loading (act t p a s) = loading s.
Proof.
  destruct (changes_models a) eqn:A; [|by apply act_in_place].
  destruct a; try done; cbn [act]. unfold addModel. by repeat case_match.
Qed.

(** What every handler of the page does to the editor keeps the core and
    the progress of the save. *)
Definition keeps (s s' : EditorState) : Prop := (core s -> core s') /\ loading s' = loading s.

Lemma keeps_act p a s : enabled p a s -> keeps s (act t p a s).
Proof. intros E. split; [by apply act_core|apply act_loading]. Qed.

Lemma keeps_toast x s s' : keeps s s' -> keeps s (toast x s').
Proof. done. Qed.

Lemma sync_keeps p x : keeps (editor x) (editor (snd (syncVideoJsonBeforeSave t p x))).
Proof.
  unfold syncVideoJsonBeforeSave. destruct (selectedModel p (editor x)) as [m|]; [|done].
  case_match; [|done]. pose proof (keeps_act p (AJson (videoJsonDraft x)) (editor x) I) as K.
  cbn [act] in K. destruct (applyVideoPricingJson p (videoJsonDraft x) (editor x)) as [[message|] s];
    [by apply keeps_toast|done].
Qed.

Lemma page_act_keeps p a x : page_enabled p a x -> keeps (editor x) (editor (page_act t p a x)).
Proof.
  intros E. destruct a; try done; cbn [page_act].
  - by apply keeps_act, E.
  - unfold choose_template. repeat case_match; try done.
    by apply (keeps_act p (ATemplate template)).
  - unfold handleAddModel. pose proof (keeps_act p (AAddModel (newModelName x)) (editor x) I) as K.
    cbn [act] in K. by destruct (addModel t (newModelName x) (editor x)) as [[] s].
  - unfold confirm_batch. pose proof (keeps_act p ACopy (editor x) I) as K.
    cbn [act] in K. by destruct (applySelectedModelPricing t p (editor x)) as [[] s].
  - unfold switchVideoToJsonMode. by case_match.
  - unfold switchVideoToVisualMode. pose proof (sync_keeps p x) as K.
    by destruct (syncVideoJsonBeforeSave t p x) as [[] x'].
Qed.

Lemma effects_editor p old new shows :
  editor (effects p old new shows) = settle p (editor new).
Proof. unfold effects. by destruct shows; case_bool_decide. Qed.

Lemma sys_ok_effects p old new shows fl out :
  core (editor new) ->
  loading (editor new) = match fl with Some _ => true | None => false end ->
  sys_ok {| props := p; page := effects p old new shows; in_flight := fl; sent := out |}.
Proof.
  intros C L. unfold sys_ok. cbn. rewrite effects_editor.
  split_and!; [by apply settle_core|apply settle_selection|exact L].
Qed.

Lemma removeDeleted_loading deleted s :
  loading (removeDeletedModelsFromState deleted s) = loading s.
Proof. by destruct deleted. Qed.

(** The click on the save button: the editor's models stay, and the save is
    shown exactly when something was sent. *)
Lemma apply_keeps p te x out new :
  loading (editor x) = false -> handleApplyChanges t p te x = (out, new) ->
  (core (editor x) -> core (editor new)) /\
  loading (editor new) = match out with Some _ => true | None => false end.
Proof.
  unfold handleApplyChanges. intros L. destruct (sync_keeps p x) as [C P].
  destruct (syncVideoJsonBeforeSave t p x) as [[] x']; cbn [snd] in C, P;
    [|by intros [= <- <-]; split; [|congruence]].
  unfold handleSubmit_from.
  by destruct (buildPricingOutputFromModels _ _ _); intros [= <- <-].
Qed.

Lemma step_ok x y : step t x y -> sys_ok x -> sys_ok y.
Proof.
  intros S (C & _ & L). destruct S; subst; apply sys_ok_effects.
  - by apply page_act_keeps.
  - rewrite <- L. by apply page_act_keeps.
  - apply load_core.
  - rewrite <- L. by destruct reset.
  - by eapply apply_keeps.
  - match goal with A : handleApplyChanges _ _ _ _ = _ |- _ => apply apply_keeps in A as [_ ->]; [|done] end.
    destruct out; [done|congruence].
  - by apply saved_core.
  - done.
  - done.
  - done.
Qed.

(** C1. In every state the editor can reach, by any interleaving of edits,
    reloads and saves: no two models share a name; the models marked for
    deletion are distinct models of the list; the selected model is a visible
    one (and no model is selected only when none is visible); every ticked
    model is visible; and the page shows a save exactly while one is under
    way. *)
Theorem reachable_invariant x : reachable t x -> sys_ok x.
Proof.
  induction 1 as [p sm SM|x y R IH S]; [|by eapply step_ok].
  apply sys_ok_effects; [apply load_core|done].
Qed.
End Invariant.

(** ** A run of the page *)

(** Two models, "a" and "b"; "b" has an output tier in the stored options. *)
Definition sample_tiers : jsval :=
  VObj [(js "b", segments_val [{| up_to := n0; ratio := n1 |}])].

Definition sample_props : Props := {|
  options := VObj [(js "CompletionTierRatio", VStr (default [] (JSON_stringify 2 sample_tiers)))];
  candidateModelNames := [js "a"; js "b"]; strictCandidateModelNames := false;
  filterMode := js "all"; optionKeys := VUndef; visibleCategories := None |}.

Definition sample_maps : SourceMaps := {|
  sm_ModelPrice := VObj []; sm_ModelRatio := VObj []; sm_CompletionRatio := VObj [];
  sm_CompletionRatioMeta := VObj []; sm_CacheRatio := VObj []; sm_CreateCacheRatio := VObj [];
  sm_ImageRatio := VObj []; sm_AudioRatio := VObj []; sm_AudioCompletionRatio := VObj [];
  sm_VideoRatio := VObj []; sm_VideoCompletionRatio := VObj []; sm_VideoPrice := VObj [];
  sm_VideoPricingRules := VObj []; sm_ImagePrice := VObj []; sm_ImagePricingRules := VObj [];
  sm_ModelTierRatio := VObj []; sm_CompletionTierRatio := sample_tiers; sm_CacheTierRatio := VObj [];
  sm_CreateCacheTierRatio := VObj []; sm_VideoCurrencyRates := videoCurrencyRates sample_props;
  sm_VideoPriceUnit := js "USD" |}.

Definition sample_open : Sys := {|
  props := sample_props;
  page := effects sample_props initial_page
            (initial_page <| editor := load (H := code_unit_unicode) sample_props sample_maps initial_state |>)
            true;
  in_flight := None; sent := [] |}.

Lemma sample_open_reachable : reachable (H := code_unit_unicode) no_translation sample_open.
Proof. apply reach_open. vm_compute. reflexivity. Qed.

(** Marking the selected model "a" for deletion. *)
Definition sample_marked : Sys := {|
  props := sample_props;
  page := effects sample_props (page sample_open)
            (page_act (H := code_unit_unicode) no_translation sample_props (PEdit (AMark (js "a")))
               (page sample_open)) true;
  in_flight := None; sent := [] |}.

Lemma reachable_invariant_witness :
  pendingDeleteModelNames (editor (page sample_marked)) = [js "a"] /\ sys_ok sample_marked.
Proof.
  split; [vm_compute; reflexivity|].
  apply (reachable_invariant (H := code_unit_unicode) no_translation).
  apply (reach_step _ sample_open); [apply sample_open_reachable|].
  apply step_page with (a := PEdit (AMark (js "a"))); [|reflexivity|done].
  split; [reflexivity|]. unfold enabled. apply (bool_decide_unpack _). vm_compute. exact I.
Defined.
