(* ===== verification/PricingSave.v ===== *)
(** * Saving the list of models (useModelPricingEditorState.js)

    What [buildPricingOutputFromModels] puts in the option maps, when it
    fails, and that the request bodies read back as those maps. *)

From Stdlib Require Import SpecFloat.
From stdpp Require Import base list numbers strings.
From S2P Require Import Prelude JsNumber JsString JsValue JsJson TierPricing PricingModel.
From S2P Require Import PricingSerialize PricingView VideoPricingJson PricingEditor PricingPage PricingMachine.
Local Open Scope Z_scope.

(** ** Lookups in the output *)

(** What is stored for a model under an entry. *)
Definition saved_at (out : Output) (k n : jsstr) : option jsval :=
  assoc_get out k ≫= fun mp => assoc_get mp n.

Definition entry_of (r : Serialized) (k : jsstr) : option Out := assoc_get (serialized_entries r) k.

Definition entry_keys : list jsstr := map fst (serialized_entries empty_serialized).

Lemma entry_keys_eq r : map fst (serialized_entries r) = entry_keys.
Proof. done. Qed.

Lemma zip_get n es (out : Output) k : map fst es = map fst out ->
  assoc_get (zip_with (fun (e : jsstr * Out) kv => (fst kv, record_entry n (snd e) (snd kv))) es out) k
  = o ← assoc_get es k; record_entry n o <$> assoc_get out k.
Proof.
  revert out. induction es as [|[k1 o] es IH]; intros [|[k2 mp] out]; try done.
  intros [= <- E]. cbn. case_bool_decide; [done|]. by apply IH.
Qed.

Lemma assoc_get_keys {A B} (l1 : list (jsstr * A)) (l2 : list (jsstr * B)) k :
  map fst l2 = map fst l1 ->
  match assoc_get l1 k, assoc_get l2 k with
  | Some _, Some _ | None, None => True
  | _, _ => False
  end.
Proof.
  revert l2. induction l1 as [|[k1 a] l1 IH]; intros [|[k2 b] l2]; try done.
  intros [= -> E]. cbn. case_bool_decide; [done|]. by apply IH.
Qed.

Lemma record_model_keys n r out : map fst out = entry_keys -> map fst (record_model n r out) = entry_keys.
Proof.
  intros E. unfold record_model. rewrite <- (entry_keys_eq r) in *. revert out E.
  generalize (serialized_entries r). intros es. induction es as [|[k o] es IH]; intros [|[k' mp] out];
    try done. intros [= -> E]. cbn. f_equal. by apply IH.
Qed.

Lemma record_entry_get n o mp n' :
  assoc_get (record_entry n o mp) n'
  = if decide (n' = n) then match o with OVal v => Some v | ORemove => None | ONull => assoc_get mp n end
    else assoc_get mp n'.
Proof.
  destruct o; cbn; rewrite ?assoc_get_delete, ?assoc_get_set; [|done|done]. by case_decide; subst.
Qed.

Lemma record_model_saved n r out k n' : map fst out = entry_keys ->
  saved_at (record_model n r out) k n'
  = if decide (n' = n)
    then match entry_of r k with
         | Some (OVal v) => Some v
         | Some ONull => saved_at out k n
         | _ => None
         end
    else saved_at out k n'.
Proof.
  intros E. unfold saved_at, record_model, entry_of.
  rewrite zip_get by (by rewrite entry_keys_eq).
  pose proof (assoc_get_keys (serialized_entries r) out k E) as G.
  destruct (assoc_get (serialized_entries r) k) as [o|], (assoc_get out k) as [mp|]; try done; cbn.
  - rewrite record_entry_get. by destruct o; destruct (decide (n' = n)).
  - by destruct (decide (n' = n)).
Qed.

Section Save.
Context `{Unicode} (t : jsstr -> list (jsstr * jsstr) -> jsstr) (p : Props).

Local Abbreviation serialize m := (serializeModel t m (videoCurrencyRates p) (visibleCategories p)).

(** The value a saved model contributes to an entry. *)
Definition contributes (m : Model) (k : jsstr) : option jsval :=
  match serialize m with
  | inr r => match entry_of r k with Some (OVal v) => Some v | _ => None end
  | inl _ => None
  end.

Lemma build_output_spec ms out0 out :
  NoDup (names_of ms) -> map fst out0 = entry_keys ->
  (forall k n, n ∈ names_of ms -> saved_at out0 k n = None) ->
  build_output t p ms out0 = inr out ->
  map fst out = entry_keys /\
  (forall k m, m ∈ ms -> saved_at out k (name m) = contributes m k) /\
  (forall k n, n ∉ names_of ms -> saved_at out k n = saved_at out0 k n).
Proof.
  revert out0. induction ms as [|m ms IH]; intros out0 N K F E; cbn in E.
  { injection E as <-. split_and!; [done|by intros k m ?%not_elem_of_nil|done]. }
  apply NoDup_cons in N as [N1 N2].
  destruct (serialize m) as [|r] eqn:S; cbn [rbind] in E; [done|].
  pose proof (record_model_saved (name m) r out0) as R.
  apply IH in E as (K' & M & O); [|done|by apply record_model_keys|].
  - split_and!; [done| |].
    + intros k m' [->|Hm]%elem_of_cons; [|by apply M].
      rewrite O, R by done. case_decide; [|done]. unfold contributes. rewrite S.
      rewrite F by apply list_elem_of_here. by destruct (entry_of r k) as [[]|].
    + intros k n Hn. rewrite O, R by (done || (intros X; by apply Hn, list_elem_of_further)).
      case_decide; [|done]. subst. by destruct Hn; apply list_elem_of_here.
  - intros k n Hn. rewrite R by done. case_decide; [by subst|].
    by apply F, list_elem_of_further.
Qed.

Lemma empty_output_saved k n : saved_at empty_output k n = None.
Proof.
  unfold saved_at, empty_output. generalize (serialized_entries empty_serialized). intros es.
  induction es as [|[k' o] es IH]; [done|]. cbn. by case_bool_decide.
Qed.

(** C3. The saved maps hold exactly the prices of the saved models: for a
    list of models with distinct names, each entry holds for each model the
    value [serializeModel] gives it (nothing where it gives none or a removal
    mark), and nothing for any other name; in particular a model marked for
    deletion leaves every map. *)
Theorem output_holds_exactly_saved_models ms out k :
  NoDup (names_of ms) -> buildPricingOutputFromModels t p ms = inr out ->
  (forall m, m ∈ ms -> saved_at out k (name m) = contributes m k) /\
  (forall n, n ∉ names_of ms -> saved_at out k n = None).
Proof.
  intros N E. apply build_output_spec in E as (_ & M & O); auto using empty_output_saved.
  split; [auto|]. intros n Hn. rewrite O by done. apply empty_output_saved.
Qed.

Lemma build_output_error ms out0 e :
  build_output t p ms out0 = inl e <->
  exists l1 m l2, ms = l1 ++ m :: l2 /\ serialize m = inl e /\
    Forall (fun m => exists r, serialize m = inr r) l1.
Proof.
  revert out0. induction ms as [|m ms IH]; intros out0; cbn.
  { split; [done|]. intros (l1 & m & l2 & X & _). by destruct l1. }
  destruct (serialize m) as [e'|r] eqn:S; cbn [rbind].
  - split.
    + intros [= ->]. exists [], m, ms. split_and!; [done|done|constructor].
    + intros ([|m1 l1] & m' & l2 & X & E & F); simplify_eq/=; [congruence|].
      apply Forall_inv in F as [r F]. congruence.
  - rewrite IH. split.
    + intros (l1 & m' & l2 & -> & E & F). exists (m :: l1), m', l2.
      split_and!; [done|done|]. constructor; [eauto|done].
    + intros ([|m1 l1] & m' & l2 & X & E & F); simplify_eq/=; [congruence|].
      exists l1, m', l2. split_and!; [done|done|]. by apply Forall_cons in F as [_ F].
Qed.

(** C4. A save is all or nothing: building the maps fails exactly when some
    model cannot be serialised, with the error of the first such model, and
    then nothing is sent and the editor's models are unchanged. *)
Theorem save_all_or_nothing type_error s e :
  buildPricingOutputFromModels t p (modelsToSave s) = inl e <->
  (exists l1 m l2, modelsToSave s = l1 ++ m :: l2 /\ serialize m = inl e /\
     Forall (fun m => exists r, serialize m = inr r) l1) /\
  fst (handleSubmit_start t p type_error s) = None /\
  models (snd (handleSubmit_start t p type_error s)) = models s.
Proof.
  unfold handleSubmit_start, handleSubmit_from, buildPricingOutputFromModels. rewrite build_output_error. split.
  - intros E. split; [done|]. apply (build_output_error _ empty_output) in E as ->. done.
  - by intros [E _].
Qed.

(** ** The request bodies read back *)

(** The entries that hold plain numbers, by name. *)
Definition number_keys : list jsstr :=
  [js "ModelPrice"; js "ModelRatio"; js "CompletionRatio"; js "CacheRatio"; js "CreateCacheRatio";
   js "ImageRatio"; js "AudioRatio"; js "AudioCompletionRatio"; js "VideoRatio";
   js "VideoCompletionRatio"; js "VideoPrice"; js "ImagePrice"].

Definition entry_ok (e : jsstr * Out) : Prop := fst e ∈ number_keys -> num_out_ok (snd e).

(** A saved map: property order, names that are strings, and JSON numbers in
    the number entries. *)
Definition map_ok (kv : jsstr * list (jsstr * jsval)) : Prop :=
  canonical_keys (map fst (snd kv)) /\ Forall (fun e => str_ok (fst e)) (snd kv) /\
  (fst kv ∈ number_keys -> Forall (fun e => json_ok (snd e)) (snd kv)).

Lemma record_entry_ok k n o mp :
  str_ok n -> entry_ok (k, o) -> map_ok (k, mp) -> map_ok (k, record_entry n o mp).
Proof.
  intros N E (C & S & J). destruct o as [| |v]; cbn; [done| |].
  - split_and!; [by apply assoc_delete_canonical|by apply assoc_delete_Forall|].
    intros K. by apply (assoc_delete_Forall (fun e => json_ok (snd e))), J.
  - split_and!; [by apply assoc_set_canonical|by apply assoc_set_Forall|].
    intros K. apply assoc_set_Forall; [|by apply J]. specialize (E K). by destruct v.
Qed.

Lemma number_entries_ok r :
  Forall num_out_ok (number_entries r) -> Forall entry_ok (serialized_entries r).
Proof.
  intros F. unfold number_entries in F.
  repeat match goal with
  | H : Forall num_out_ok (_ :: _) |- _ => apply Forall_cons in H; destruct H
  end.
  assert (D : forall k o, bool_decide (k ∈ number_keys) = false -> entry_ok (k, o))
    by (intros k o B%bool_decide_eq_false K; done).
  unfold serialized_entries.
  repeat apply Forall_cons_2; try apply Forall_nil_2;
    first [by intros _ | by apply D; vm_compute].
Qed.

Lemma record_model_ok n r out : str_ok n -> map fst out = entry_keys ->
  Forall entry_ok (serialized_entries r) -> Forall map_ok out -> Forall map_ok (record_model n r out).
Proof.
  intros N K E. unfold record_model. rewrite <- (entry_keys_eq r) in K. revert out K.
  induction E as [|[k o] es Eo E IH]; intros [|[k' mp] out] K F; try by constructor.
  injection K as -> K. apply Forall_cons in F as [Fo F]. constructor; [|by apply IH].
  by apply record_entry_ok.
Qed.

Lemma build_output_ok ms out0 out :
  Forall (fun m => str_ok (name m)) ms -> map fst out0 = entry_keys -> Forall map_ok out0 ->
  build_output t p ms out0 = inr out -> Forall map_ok out.
Proof.
  intros N. revert out0. induction N as [|m ms Nm N IH]; intros out0 K F E; cbn in E.
  { by simplify_eq. }
  destruct (serialize m) as [|r] eqn:S; cbn [rbind] in E; [done|].
  apply IH in E; [done|by apply record_model_keys|].
  apply record_model_ok; [done|done| |done]. by eapply number_entries_ok, serializeModel_nums.
Qed.

Lemma parseOptionJSON_text o :
  json_ok (VObj o) -> exists text,
  JSON_stringify 2 (VObj o) = Some text /\ parseOptionJSON (VStr text) = inr (VObj o).
Proof.
  intros J. destruct (JSON_parse_stringify 2 _ J) as (text & E & P). exists text. split; [done|].
  assert (exists r, text = 123 :: r) as [r ->].
  { injection E as <-. unfold bracket. case_match; by eexists. }
  unfold parseOptionJSON. cbn [truthy str_truthy negb]. rewrite P, bool_decide_false; [done|].
  by apply trim_non_empty.
Qed.

Lemma number_key_entry k : k ∈ number_keys -> k ∈ entry_keys.
Proof.
  intros K. assert (F : Forall (fun k => k ∈ entry_keys) number_keys).
  { apply (bool_decide_unpack _). vm_compute. done. }
  by eapply Forall_forall in F.
Qed.

(** C2. What is saved is what is loaded: the request sent for a number entry
    carries a text which, stored as the option of that name, is loaded as a
    map that holds for each saved model exactly the number [serializeModel]
    gave it, and nothing for any other name. *)
Theorem saved_numbers_reload ms out k :
  NoDup (names_of ms) -> Forall (fun m => str_ok (name m)) ms -> k ∈ number_keys ->
  buildPricingOutputFromModels t p ms = inr out ->
  exists text mp,
    (resolvedOptionKey p k, Some text) ∈ persist_requests p out /\
    (forall p', vget (options p') (to_str (resolvedOptionKey p' k)) = VStr text ->
       option_map_of p' k = inr (VObj mp)) /\
    (forall m, m ∈ ms -> assoc_get mp (name m) = contributes m k) /\
    (forall n, n ∉ names_of ms -> assoc_get mp n = None).
Proof.
  intros N S K E. unfold buildPricingOutputFromModels in E.
  assert (M : Forall map_ok out).
  { eapply build_output_ok; [done| | |exact E]; [done|].
    apply Forall_forall. intros ? (e & -> & _)%list_elem_of_fmap. split_and!; intros; constructor. }
  apply build_output_spec in E as (D & L & O); auto using empty_output_saved.
  destruct (assoc_get out k) as [mp|] eqn:G.
  2: { apply assoc_get_None_fresh in G. rewrite D in G. by apply number_key_entry in K. }
  pose proof (assoc_get_Some_In _ _ _ G) as I.
  eapply Forall_forall in M as (C & F & J); [|exact I].
  destruct (parseOptionJSON_text mp) as (text & T & P).
  { apply json_ok_obj. split; [done|]. apply Forall_and. split; [done|]. by apply J. }
  exists text, mp. split_and!.
  - unfold persist_requests. apply list_elem_of_fmap. exists (k, mp). split; [|exact I]. by cbn [fst snd]; rewrite T.
  - intros p' V. unfold option_map_of. by rewrite V.
  - intros m Hm. rewrite <- (L k m Hm). unfold saved_at. by rewrite G.
  - intros n Hn. specialize (O k n Hn). rewrite empty_output_saved in O. unfold saved_at in O.
    by rewrite G in O.
Qed.
End Save.

(** ** The save button *)

Section Apply.
Context `{Unicode} (t : jsstr -> list (jsstr * jsstr) -> jsstr).

Definition tier_entry (c : TierCategory) : jsstr :=
  match c with
  | CInput => js "ModelTierRatio"
  | COutput => js "CompletionTierRatio"
  | CCacheRead => js "CacheTierRatio"
  | CCacheWrite => js "CreateCacheTierRatio"
  end.

Definition shown (v : VisibleCategories) (c : TierCategory) : bool :=
  match c with
  | CInput => true
  | COutput => vis_output v
  | CCacheRead => vis_cache_read v
  | CCacheWrite => vis_cache_write v
  end.

Lemma hidden_contributes p m v c :
  visibleCategories p = Some v -> shown v c = false -> contributes t p m (tier_entry c) = None.
Proof.
  intros V S. unfold contributes. rewrite V.
  destruct (serializeModel t m (videoCurrencyRates p) (Some v)) as [|r] eqn:E; [done|].
  apply serializeModel_tiers in E. injection E as E1 E2 E3 E4.
  destruct c; [done|..]; cbn in S; unfold serialize_base in *; cbn in E2, E3, E4; rewrite S in *;
    unfold entry_of; cbn -[js]; [rewrite E2|rewrite E3|rewrite E4]; done.
Qed.

(** What a click on the save button sends. *)
Lemma apply_sends p te x out new :
  handleApplyChanges t p te x = (Some out, new) ->
  buildPricingOutputFromModels t (hook_props p x) (modelsToSave (editor x)) = inr out /\
  syncVideoJsonBeforeSave t p x = (true, new <| editor := (editor new) <| loading := loading
    (editor (snd (syncVideoJsonBeforeSave t p x))) |> |>).
Proof.
  unfold handleApplyChanges. destruct (syncVideoJsonBeforeSave t p x) as [[] x']; [|done].
  unfold handleSubmit_from. cbn [snd].
  destruct (buildPricingOutputFromModels _ _ _) as [|o]; [done|]. intros [= <- <-].
  split; [done|]. by destruct x' as [[] ? ? ? ? ? ?].
Qed.

(** C37. A tier category that the page does not show is not saved for any
    model: when the switch of a category is off, whatever model is selected,
    a save sends no tier of that category, so the stored tiers of every model
    are deleted.  The page opens with the three categories hidden and shows
    only those of the selected model. *)
Theorem hidden_tiers_dropped p te x out new c n :
  NoDup (names_of (models (editor x))) -> shown (categories x) c = false ->
  handleApplyChanges t p te x = (Some out, new) -> saved_at out (tier_entry c) n = None.
Proof.
  intros N S [B _]%apply_sends. apply build_output_spec in B as (_ & M & O);
    [|by apply filter_names_NoDup|done|intros; apply empty_output_saved].
  destruct (decide (n ∈ names_of (modelsToSave (editor x)))) as [I|I].
  - apply list_elem_of_fmap in I as (m & -> & I). rewrite M by done.
    by eapply hidden_contributes.
  - rewrite O by done. apply empty_output_saved.
Qed.

(** A save in the JSON mode sends the prices from before the draft: the
    draft is merged into the selected model of the editor, but the request is
    built from the models of the render the click came from, so what is sent
    does not contain the draft. *)
Theorem json_draft_not_sent p te x out new m :
  selectedModel p (editor x) = Some m -> videoEditMode x = js "json" ->
  isOptionalFieldEnabled (editor x) (Some m) OVideo = true ->
  handleApplyChanges t p te x = (Some out, new) ->
  buildPricingOutputFromModels t (hook_props p x) (modelsToSave (editor x)) = inr out /\
  exists data merged,
    VideoJson.parseVideoPricingJsonText (videoJsonDraft x) = inr data /\
    VideoJson.mergeVideoPricingFromJsonEditor (Some m) data = inr merged /\
    models (editor new) = upsert (name m) (fun _ => merged) (models (editor x)).
Proof.
  intros M J V [B S]%apply_sends. split; [done|]. revert S.
  unfold syncVideoJsonBeforeSave, applyVideoPricingJson. rewrite M, J, V.
  rewrite bool_decide_true by done. cbn [andb].
  destruct (VideoJson.parseVideoPricingJsonText (videoJsonDraft x)) as [|data]; [done|].
  destruct (VideoJson.mergeVideoPricingFromJsonEditor (Some m) data) as [|merged] eqn:G; [done|].
  intros E%(f_equal (fun y => models (editor (snd y)))). exists data, merged.
  split_and!; [done|done|]. symmetry. exact E.
Qed.
End Apply.

(** ** Runs of the page *)

Local Abbreviation saved_in out k n := (saved_at out (js k) (js n)).

(** A click on the save button right after the page of [sample_open] opened:
    "a" is selected, "b" has a stored output tier. *)
Local Abbreviation click x :=
  (handleApplyChanges (H := code_unit_unicode) no_translation sample_props [] x).

Lemma hidden_tiers_dropped_witness :
  match fst (click (page sample_open)) with
  | Some out => saved_in out "CompletionTierRatio" "b" = None
  | None => False
  end /\ tier_of sample_tiers (js "b") <> None.
Proof.
  split; [|vm_compute; discriminate].
  destruct (fst (click (page sample_open))) as [out|] eqn:E; [|vm_compute in E; discriminate].
  apply (hidden_tiers_dropped (H := code_unit_unicode) no_translation sample_props [] (page sample_open)
           out (snd (click (page sample_open))) COutput (js "b")).
  - apply (bool_decide_unpack _). vm_compute. exact I.
  - vm_compute. reflexivity.
  - rewrite <- E. apply surjective_pairing.
Defined.

(** The same model with another price in its table. *)
Definition sample_priced (price : jsstr) : Model := EMPTY_MODEL
  <| name := js "a" |> <| inputPrice := js "4" |> <| videoBillingMode := js "per-item" |>
  <| videoPriceUnit := js "USD" |>
  <| videoTextToVideoRules := [sample_video_row (js "1280x720") price] |>.

(** The JSON mode with a draft that changes the price from 1 to 2. *)
Definition sample_json_page : Page := initial_page
  <| editor := initial_state <| models := [sample_priced (js "1")] |>
                 <| selectedModelName := js "a" |> |>
  <| videoEditMode := js "json" |>
  <| videoJsonDraft := VideoJson.stringifyVideoPricingJsonEditor (H := code_unit_unicode)
       (sample_priced (js "2")) |>.

Lemma json_draft_not_sent_witness :
  match fst (click sample_json_page) with
  | Some out =>
      buildPricingOutputFromModels (H := code_unit_unicode) no_translation
        (hook_props sample_props sample_json_page) [sample_priced (js "1")] = inr out
  | None => False
  end /\
  head (map (fun m => map videoPrice (videoTextToVideoRules m))
    (models (editor (snd (click sample_json_page))))) = Some [Some (js "2")].
Proof.
  split; [|vm_compute; reflexivity].
  destruct (fst (click sample_json_page)) as [out|] eqn:E; [|vm_compute in E; discriminate].
  apply (json_draft_not_sent (H := code_unit_unicode) no_translation sample_props [] sample_json_page
           out (snd (click sample_json_page)) (sample_priced (js "1"))).
  - vm_compute. reflexivity.
  - reflexivity.
  - vm_compute. reflexivity.
  - rewrite <- E. apply surjective_pairing.
Defined.

Lemma output_holds_exactly_saved_models_witness :
  match buildPricingOutputFromModels (H := code_unit_unicode) no_translation sample_props
          [sample_priced (js "1")] with
  | inr out =>
      saved_in out "ModelRatio" "a"
      = contributes (H := code_unit_unicode) no_translation sample_props (sample_priced (js "1"))
          (js "ModelRatio") /\
      saved_in out "ModelRatio" "b" = None
  | inl _ => False
  end.
Proof.
  destruct (buildPricingOutputFromModels _ _ _) as [e|out] eqn:E; [vm_compute in E; discriminate|].
  destruct (output_holds_exactly_saved_models (H := code_unit_unicode) no_translation sample_props
              [sample_priced (js "1")] out (js "ModelRatio")) as [A B].
  - apply NoDup_singleton.
  - exact E.
  - split; [exact (A (sample_priced (js "1")) (list_elem_of_here _ _))|]. apply B. apply (bool_decide_unpack _). vm_compute. exact I.
Defined.

Lemma saved_numbers_reload_witness :
  match buildPricingOutputFromModels (H := code_unit_unicode) no_translation sample_props
          [sample_priced (js "1")] with
  | inr out => exists text mp,
      (resolvedOptionKey sample_props (js "ModelRatio"), Some text) ∈ persist_requests sample_props out /\
      (forall p', vget (options p') (to_str (resolvedOptionKey p' (js "ModelRatio"))) = VStr text ->
         option_map_of p' (js "ModelRatio") = inr (VObj mp)) /\
      (forall m, m ∈ [sample_priced (js "1")] -> assoc_get mp (name m)
         = contributes (H := code_unit_unicode) no_translation sample_props m (js "ModelRatio")) /\
      (forall n, n ∉ [js "a"] -> assoc_get mp n = None)
  | inl _ => False
  end.
Proof.
  destruct (buildPricingOutputFromModels _ _ _) as [e|out] eqn:E; [vm_compute in E; discriminate|].
  apply (saved_numbers_reload (H := code_unit_unicode) no_translation sample_props
           [sample_priced (js "1")]); [apply NoDup_singleton| | |exact E].
  - apply Forall_singleton. repeat constructor; vm_compute; congruence.
  - apply (bool_decide_unpack _). vm_compute. exact I.
Defined.
