(* ===== verification/StatusCodes.v ===== *)
(** * Status code rules (helpers/statusCodeRules.js, statusCodeRiskGuard.js)

    The lists of HTTP status codes that disable or retry a channel, and the
    guard on a channel's status code mapping. *)

From Stdlib Require Import SpecFloat Sorting.Sorted.
From stdpp Require Import base list numbers strings.
From S2P Require Import Prelude JsNumber JsString JsValue JsJson JsReprint.
Local Open Scope Z_scope.
Local Open Scope js_scope.

(** ** Lists of codes and ranges (statusCodeRules.js) *)

Record Range := { start : Z; stop : Z }.

(** [/^\d+$/] *)
Definition isNumber (s : jsstr) : bool := str_truthy s && forallb is_digit s.

(** The range of two bounds.  [parseInt] is exact below 2^53 and never
    decreases, so what it loses above that is refused as well. *)
Definition range_of (a b : Z) : option Range :=
  if b <? a then None else if (a <? 100) || (599 <? b) then None else Some {| start := a; stop := b |}.

Definition parseToken (token : jsstr) : option Range :=
  let cleaned := base.filter (fun c => c <> 32) (trim token) in
  if negb (str_truthy cleaned) then None
  else if bool_decide (45 ∈ cleaned) then
    match split_on 45 cleaned with
    | [a; b] => if isNumber a && isNumber b then range_of (digits_val a) (digits_val b) else None
    | _ => None
    end
  else if isNumber cleaned then range_of (digits_val cleaned) (digits_val cleaned) else None.

(** The order of the sort: by start, then by end. *)
Definition range_le (a b : Range) : bool :=
  if start a =? start b then stop a <=? stop b else start a <=? start b.

(** The loop of [mergeRanges] from the last merged range on.  The loop
    extends the first object in place; nothing reads that object again. *)
Fixpoint merge_from (last : Range) (rest : list Range) : list Range :=
  match rest with
  | [] => [last]
  | current :: rest =>
      if start current <=? stop last + 1
      then merge_from {| start := start last; stop := Z.max (stop last) (stop current) |} rest
      else last :: merge_from current rest
  end.

Definition mergeRanges (ranges : list Range) : list Range :=
  match sort_by range_le ranges with
  | [] => []
  | first :: rest => merge_from first rest
  end.

Definition range_token (r : Range) : jsstr :=
  if start r =? stop r then dec_digits (start r)
  else dec_digits (start r) ++ js "-" ++ dec_digits (stop r).

Record Rules := {
  ok : bool;
  ranges : list Range;
  tokens : list jsstr;
  normalized : jsstr;
  invalidTokens : list jsstr
}.

(** The trimmed segments between commas, ASCII or full width. *)
Definition segments (raw : jsstr) : list jsstr :=
  base.filter (fun s => str_truthy s = true)
    (map trim (split_on 44 (map (fun c => if c =? 65292 then 44 else c) raw))).

Definition parseHttpStatusCodeRules (input : jsval) : Rules :=
  let raw := trim (to_str (input ??? VStr [])) in
  if negb (str_truthy raw) then
    {| ok := true; ranges := []; tokens := []; normalized := []; invalidTokens := [] |}
  else
    let invalid := base.filter (fun s => parseToken s = None) (segments raw) in
    match invalid with
    | _ :: _ =>
        {| ok := false; ranges := []; tokens := []; normalized := raw; invalidTokens := invalid |}
    | [] =>
        let merged := mergeRanges (omap parseToken (segments raw)) in
        {| ok := true; ranges := merged; tokens := map range_token merged;
           normalized := join [44] (map range_token merged); invalidTokens := [] |}
    end.

(** ** The guard on status code mappings (statusCodeRiskGuard.js) *)

Definition NON_REDIRECTABLE_STATUS_CODES : list Z := [504; 524].

(** [/^[1-5]\d{2}$/] *)
Definition status_code_regex (s : jsstr) : bool :=
  match s with
  | [a; b; c] => (49 <=? a) && (a <=? 53) && is_digit b && is_digit c
  | _ => false
  end.

Definition parseStatusCodeKey (rawKey : jsstr) : option Z :=
  let normalized := trim rawKey in
  if status_code_regex normalized then Some (digits_val normalized) else None.

(** The value of a number with [Number.isInteger]. *)
Definition integer_of (x : spec_float) : option Z :=
  match x with
  | S754_zero _ => Some 0
  | _ => match num_ratio x with
         | Some (s, p, q) => if p mod q =? 0 then Some (signed s (p / q)) else None
         | None => None
         end
  end.

Definition in_code_range (c : Z) : option Z := if (100 <=? c) && (c <=? 599) then Some c else None.

Definition parseStatusCodeMappingTarget (rawValue : jsval) : option Z :=
  match rawValue with
  | VNum x => integer_of x ≫= in_code_range
  | VStr s =>
      let normalized := trim s in
      if status_code_regex normalized then in_code_range (digits_val normalized) else None
  | _ => None
  end.

(** The entries of the mapping: none when the text is blank, not JSON or not
    an object. *)
Definition mapping_entries (statusCodeMappingStr : jsval) : list (jsstr * jsval) :=
  match statusCodeMappingStr with
  | VStr s =>
      if bool_decide (trim s = []) then []
      else match JSON_parse s with Some (VObj o) => o | _ => [] end
  | _ => []
  end.

Definition collectInvalidStatusCodeEntries (statusCodeMappingStr : jsval) : list jsstr :=
  omap (fun '(rawKey, rawValue) =>
      match parseStatusCodeKey rawKey, parseStatusCodeMappingTarget rawValue with
      | Some _, Some _ => None
      | _, _ => Some (rawKey ++ js " → " ++ to_str rawValue)
      end)
    (mapping_entries statusCodeMappingStr).

Definition redirect_text (from to : Z) : jsstr := dec_digits from ++ js " -> " ++ dec_digits to.

(** The risky redirect of an entry. *)
Definition risky_entry (entry : jsstr * jsval) : option jsstr :=
  fromCode ← parseStatusCodeKey (fst entry);
  toCode ← parseStatusCodeMappingTarget (snd entry);
  if bool_decide (fromCode ∈ NON_REDIRECTABLE_STATUS_CODES) && negb (fromCode =? toCode)
  then Some (redirect_text fromCode toCode) else None.

(** [arr.sort()] on strings *)
Definition string_le (a b : jsstr) : bool := code_unit_compare a b <=? 0.

Definition collectDisallowedStatusCodeRedirects (statusCodeMappingStr : jsval) : list jsstr :=
  sort_by string_le (dedup_by id [] (omap risky_entry (mapping_entries statusCodeMappingStr))).

Definition collectNewDisallowedStatusCodeRedirects (original current : jsval) : list jsstr :=
  let originalRisky := collectDisallowedStatusCodeRedirects original in
  base.filter (fun m => m ∉ originalRisky) (collectDisallowedStatusCodeRedirects current).

(** ** The normal form of a list of ranges *)

Definition in_range (n : Z) (r : Range) : Prop := start r <= n <= stop r.
Definition covers (rs : list Range) (n : Z) : Prop := Exists (in_range n) rs.

Definition range_ok (r : Range) : Prop := 100 <= start r <= stop r /\ stop r <= 599.

(** Valid ranges in ascending order with a gap between any two. *)
Definition normal (rs : list Range) : Prop :=
  Forall range_ok rs /\ StronglySorted (fun a b => stop a + 1 < start b) rs.

Lemma range_of_ok a b r : range_of a b = Some r -> range_ok r.
Proof.
  unfold range_of, range_ok. destruct (Z.ltb_spec b a); [done|].
  destruct (Z.ltb_spec a 100); [done|]. destruct (Z.ltb_spec 599 b); [done|].
  intros [= <-]. cbn. lia.
Qed.

Lemma parseToken_ok s r : parseToken s = Some r -> range_ok r.
Proof. unfold parseToken. repeat case_match; try done; apply range_of_ok. Qed.

Lemma range_le_total a b : range_le a b = false -> range_le b a = true.
Proof. unfold range_le. rewrite (Z.eqb_sym (start b)). case_match; lia. Qed.

Lemma range_le_trans a b c : range_le a b = true -> range_le b c = true -> range_le a c = true.
Proof.
  unfold range_le. repeat match goal with |- context [?u =? ?v] => destruct (Z.eqb_spec u v) end; lia.
Qed.

Lemma range_le_start a b : range_le a b = true -> start a <= start b.
Proof. unfold range_le. destruct (Z.eqb_spec (start a) (start b)); lia. Qed.

(** Merging keeps the covered codes, the smallest start, and the bounds. *)
Lemma merge_from_spec rest last :
  range_ok last -> Forall range_ok rest ->
  Forall (fun r => start last <= start r) rest -> StronglySorted (fun a b => range_le a b = true) rest ->
  (forall n, covers (merge_from last rest) n <-> in_range n last \/ covers rest n) /\
  Forall (fun r => start last <= start r) (merge_from last rest) /\ normal (merge_from last rest).
Proof.
  revert last. induction rest as [|c rest IH]; intros last L R F S; cbn.
  - split; [|split; [|split]].
    + intros n. unfold covers. by rewrite Exists_cons.
    + apply Forall_singleton. lia.
    + by apply Forall_singleton.
    + repeat constructor.
  - apply Forall_cons in R as [Rc R]. apply Forall_cons in F as [Fc F].
    inversion S as [|? ? S' C]; subst. unfold range_ok in L, Rc.
    assert (C' : Forall (fun r => start c <= start r) rest)
      by (eapply Forall_impl; [exact C|apply range_le_start]).
    destruct (Z.leb_spec (start c) (stop last + 1)) as [O|O].
    + destruct (IH {| start := start last; stop := Z.max (stop last) (stop c) |}) as (A & B & D);
        [split; cbn; lia|done|done|done|].
      split; [|done]. intros n. rewrite A. unfold covers. rewrite Exists_cons.
      unfold in_range. cbn [start stop]. intuition lia.
    + destruct (IH c) as (A & B & D & E); try done. split; [|split].
      * intros n. unfold covers in *. rewrite !Exists_cons, A. done.
      * constructor; [lia|]. eapply Forall_impl; [exact B|]. cbn. lia.
      * split; constructor; [done|done|done|]. eapply Forall_impl; [exact B|]. cbn. lia.
Qed.

Lemma mergeRanges_spec rs : Forall range_ok rs ->
  (forall n, covers (mergeRanges rs) n <-> covers rs n) /\ normal (mergeRanges rs).
Proof.
  intros R. unfold mergeRanges.
  pose proof (sort_by_perm range_le rs) as P.
  pose proof (sort_by_sorted range_le range_le_total range_le_trans rs) as S.
  assert (R' : Forall range_ok (sort_by range_le rs)) by (by rewrite P).
  assert (Q : forall n, covers (sort_by range_le rs) n <-> covers rs n)
    by (intros n; unfold covers; by rewrite P).
  destruct (sort_by range_le rs) as [|a rest]; [split; [done|split; constructor]|].
  apply Forall_cons in R' as [Ra R']. inversion S as [|? ? S' F]; subst.
  destruct (merge_from_spec rest a) as (A & _ & B); try done.
  { eapply Forall_impl; [exact F|apply range_le_start]. }
  split; [|done]. intros n. rewrite A, <- Q. unfold covers. by rewrite Exists_cons.
Qed.

(** A set of codes has one normal form. *)
Lemma covers_tail a rs n : normal (a :: rs) ->
  covers rs n <-> covers (a :: rs) n /\ stop a < n.
Proof.
  intros [_ S]. inversion S as [|? ? _ F]; subst. unfold covers. rewrite Exists_cons. split.
  - intros E. split; [by right|]. apply Exists_exists in E as (r & I & ?).
    eapply Forall_forall in F; [|exact I]. unfold in_range in *. lia.
  - intros [[I|E] L]; [|done]. unfold in_range in I. lia.
Qed.

Lemma normal_head_least a rs n : normal (a :: rs) -> covers (a :: rs) n -> start a <= n.
Proof.
  intros N. destruct N as [R S]. inversion S as [|? ? _ F]; subst.
  apply Forall_cons in R as [Ra _]. unfold covers. rewrite Exists_cons.
  intros [I|E]; [unfold in_range in I; lia|]. apply Exists_exists in E as (r & I & ?).
  eapply Forall_forall in F; [|exact I]. unfold in_range, range_ok in *. lia.
Qed.

Lemma normal_head_gap a rs : normal (a :: rs) -> ~ covers (a :: rs) (stop a + 1).
Proof.
  intros [_ S]. inversion S as [|? ? _ F]; subst. unfold covers. rewrite Exists_cons.
  intros [I|E]; [unfold in_range in I; lia|]. apply Exists_exists in E as (r & I & ?).
  eapply Forall_forall in F; [|exact I]. unfold in_range in *. lia.
Qed.

Lemma covers_head a rs n : in_range n a -> covers (a :: rs) n.
Proof. intros I. by apply Exists_cons; left. Qed.

(** The head of one list is not shorter than the head of the other. *)
Lemma normal_head_stop a rs b rs' : normal (a :: rs) -> normal (b :: rs') -> start a = start b ->
  (forall n, covers (a :: rs) n <-> covers (b :: rs') n) -> stop b <= stop a.
Proof.
  intros N M E C. apply Z.le_ngt. intros L. apply (normal_head_gap a rs N), C, covers_head.
  destruct N as [R _]. apply Forall_cons in R as [[Ra _] _]. unfold in_range. lia.
Qed.

Lemma normal_unique rs rs' : normal rs -> normal rs' ->
  (forall n, covers rs n <-> covers rs' n) -> rs = rs'.
Proof.
  revert rs'. induction rs as [|a rs IH]; intros [|b rs'] N M C; [done|..].
  - exfalso. assert (X : covers (b :: rs') (start b)).
    { apply covers_head. destruct M as [R _]. apply Forall_cons in R as [[? _] _]. unfold in_range. lia. }
    apply C in X. inversion X.
  - exfalso. assert (X : covers (a :: rs) (start a)).
    { apply covers_head. destruct N as [R _]. apply Forall_cons in R as [[? _] _]. unfold in_range. lia. }
    apply C in X. inversion X.
  - assert (Ra : range_ok a) by (destruct N as [R _]; by apply Forall_inv in R).
    assert (Rb : range_ok b) by (destruct M as [R _]; by apply Forall_inv in R).
    unfold range_ok in *.
    assert (start b <= start a) by (apply (normal_head_least b rs' _ M), C, covers_head; unfold in_range; lia).
    assert (start a <= start b) by (apply (normal_head_least a rs _ N), C, covers_head; unfold in_range; lia).
    assert (stop b <= stop a) by (apply (normal_head_stop a rs b rs'); [done|done|lia|done]).
    assert (stop a <= stop b)
      by (apply (normal_head_stop b rs' a rs); [done|done|lia|intros n; by rewrite C]).
    assert (a = b) as -> by (destruct a, b; cbn in *; f_equal; lia).
    f_equal. apply IH.
    + destruct N as [R S]. apply Forall_cons in R as [_ R]. by inversion S.
    + destruct M as [R S]. apply Forall_cons in R as [_ R]. by inversion S.
    + intros n. by rewrite (covers_tail b rs n), (covers_tail b rs' n), C.
Qed.

Lemma mergeRanges_normal rs : normal rs -> mergeRanges rs = rs.
Proof.
  intros [R S]. unfold mergeRanges. rewrite sort_by_id.
  - clear R. destruct rs as [|a rs]; [done|].
    revert a S. induction rs as [|b rs IH]; intros a S; [done|]. cbn.
    inversion S as [|? ? S' F]; subst. apply Forall_inv in F as F1.
    destruct (Z.leb_spec (start b) (stop a + 1)); [lia|]. by rewrite IH.
  - revert R. induction S as [|a rs S IH F]; intros R; [constructor|].
    apply Forall_cons in R as [Ra R]. constructor; [by apply IH|]. rewrite Forall_forall in F |- *.
    intros b B. specialize (F b B). unfold range_ok in Ra. unfold range_le.
    destruct (Z.eqb_spec (start a) (start b)); lia.
Qed.

(** ** Tokens read back *)

(** The characters of a token. *)
Definition token_char (c : Z) : Prop := is_digit c = true \/ c = 45.

Lemma token_char_range c : token_char c -> 45 <= c <= 57 /\ c <> 46 /\ c <> 47.
Proof. unfold token_char, is_digit. lia. Qed.

Lemma token_char_not_ws c : token_char c -> is_ws c = false.
Proof.
  intros T%token_char_range. unfold is_ws.
  repeat (apply orb_false_iff; split); try apply andb_false_iff; lia.
Qed.

Lemma dec_digits_number z : 0 <= z ->
  isNumber (dec_digits z) = true /\ digits_val (dec_digits z) = z /\
  Forall (fun c => is_digit c = true) (dec_digits z).
Proof.
  intros Z0. destruct (dec_digits_spec z Z0) as (d & ds & -> & D & _ & V).
  split_and!; [|done|done]. unfold isNumber. cbn [str_truthy andb].
  apply forallb_forall. intros x X%list_elem_of_In. by eapply Forall_forall in D.
Qed.

Lemma digits_no_dash s : Forall (fun c => is_digit c = true) s -> 45 ∉ s.
Proof. intros D I. eapply Forall_forall in D; [|exact I]. done. Qed.

Lemma range_token_chars r : range_ok r -> Forall token_char (range_token r) /\ range_token r <> [].
Proof.
  intros R. unfold range_ok in R. unfold range_token.
  assert (W : forall z, 0 <= z -> Forall token_char (dec_digits z) /\ dec_digits z <> []).
  { intros z Z0. destruct (dec_digits_spec z Z0) as (d & ds & -> & D & _).
    split; [|done]. eapply Forall_impl; [exact D|]. intros c. by left. }
  destruct (W (start r) ltac:(lia)) as [A1 A2], (W (stop r) ltac:(lia)) as [B1 B2].
  case_match; [done|]. split; [|by destruct (dec_digits (start r))].
  apply Forall_app. split; [done|]. constructor; [by right|done].
Qed.

Lemma range_of_bounds r : range_ok r -> range_of (start r) (stop r) = Some r.
Proof.
  intros R. unfold range_ok in R. unfold range_of.
  destruct (Z.ltb_spec (stop r) (start r)), (Z.ltb_spec (start r) 100), (Z.ltb_spec 599 (stop r));
    try lia. by destruct r.
Qed.

Lemma parse_range_token r : range_ok r -> parseToken (range_token r) = Some r.
Proof.
  intros R. destruct (range_token_chars r R) as [C N].
  pose proof (range_of_bounds r R) as B. unfold range_ok in R.
  unfold parseToken. rewrite trim_id by (eapply Forall_impl; [exact C|apply token_char_not_ws]).
  rewrite filter_all by (eapply Forall_impl; [exact C|]; intros c X%token_char_range; lia).
  destruct (dec_digits_number (start r) ltac:(lia)) as (I1 & V1 & D1).
  destruct (dec_digits_number (stop r) ltac:(lia)) as (I2 & V2 & D2).
  unfold range_token in *. destruct (Z.eqb_spec (start r) (stop r)) as [E|E].
  - destruct (dec_digits (start r)) as [|d ds] eqn:G; [done|]. rewrite <- G in *. cbn [str_truthy negb].
    rewrite G. cbn [str_truthy negb]. rewrite <- G. rewrite bool_decide_false by (by apply digits_no_dash).
    rewrite I1, V1. by rewrite <- E in B.
  - destruct (dec_digits (start r) ++ js "-" ++ dec_digits (stop r)) as [|d ds] eqn:G; [done|].
    cbn [str_truthy negb]. rewrite <- G.
    rewrite bool_decide_true by (apply elem_of_app; right; apply list_elem_of_here).
    change (js "-" ++ dec_digits (stop r)) with (45 :: dec_digits (stop r)).
    rewrite split_on_app, split_on_part by (by apply digits_no_dash).
    by rewrite I1, I2, V1, V2.
Qed.

(** ** Parsing a list of codes *)

(** The text that is parsed. *)
Definition raw_text (input : jsval) : jsstr := trim (to_str (input ??? VStr [])).

Definition accepted (raw : jsstr) : Prop := Forall (fun s => parseToken s <> None) (segments raw).

Definition accepted_rules (merged : list Range) : Rules :=
  {| ok := true; ranges := merged; tokens := map range_token merged;
     normalized := join [44] (map range_token merged); invalidTokens := [] |}.

Lemma parse_accepted input : accepted (raw_text input) ->
  parseHttpStatusCodeRules input
  = accepted_rules (mergeRanges (omap parseToken (segments (raw_text input)))).
Proof.
  intros A. unfold parseHttpStatusCodeRules. fold (raw_text input).
  destruct (raw_text input) as [|c raw] eqn:E; [done|]. cbn [str_truthy negb].
  rewrite filter_none; [done|]. exact A.
Qed.

Lemma parse_ok input : ok (parseHttpStatusCodeRules input) = true <-> accepted (raw_text input).
Proof.
  split; [|by intros A; rewrite parse_accepted].
  unfold parseHttpStatusCodeRules, accepted. fold (raw_text input).
  destruct (raw_text input) as [|c raw] eqn:E; [constructor|]. cbn [str_truthy negb].
  destruct (base.filter _ (segments (c :: raw))) as [|s ss] eqn:F; [|done]. intros _.
  apply Forall_forall. intros s I N. assert (X : s ∈ []); [|by apply not_elem_of_nil in X].
  rewrite <- F. by apply list_elem_of_filter.
Qed.

Lemma parsed_ranges_ok raw : Forall range_ok (omap parseToken (segments raw)).
Proof.
  apply Forall_forall. intros r (s & _ & E)%list_elem_of_omap. by eapply parseToken_ok.
Qed.

Lemma parse_covers input : accepted (raw_text input) ->
  let r := parseHttpStatusCodeRules input in
  normal (ranges r) /\
  forall n, covers (ranges r) n <->
    exists token range, token ∈ segments (raw_text input) /\ parseToken token = Some range /\
                        in_range n range.
Proof.
  intros A r. subst r. rewrite parse_accepted by done. cbn [accepted_rules ranges].
  destruct (mergeRanges_spec _ (parsed_ranges_ok (raw_text input))) as [C N].
  split; [done|]. intros n. rewrite C. unfold covers. rewrite Exists_exists. split.
  - intros (g & (s & I & E)%list_elem_of_omap & R). eauto.
  - intros (s & g & I & E & R). exists g. split; [|done]. apply list_elem_of_omap. eauto.
Qed.

(** ** What a list of codes means *)

(** A decimal numeral and its value. *)
Inductive numeral : jsstr -> Z -> Prop :=
| numeral_digit d : 48 <= d <= 57 -> numeral [d] (d - 48)
| numeral_snoc ds d n : numeral ds n -> 48 <= d <= 57 -> numeral (ds ++ [d]) (10 * n + (d - 48)).

(** A part without its spaces. *)
Definition squeezed (part : jsstr) : jsstr := base.filter (fun c => c <> 32) (trim part).

(** A part denotes the codes from [a] to [b]: it is a numeral, or two with a
    dash between them, within 100 to 599. *)
Definition denotes (part : jsstr) (a b : Z) : Prop :=
  100 <= a <= b /\ b <= 599 /\
  (numeral (squeezed part) a /\ a = b \/
   exists x y, squeezed part = x ++ 45 :: y /\ numeral x a /\ numeral y b).

(** The parts of a text between commas, ASCII or full width. *)
Definition comma (c : Z) : Prop := c = 44 \/ c = 65292.
Definition ends_here (post : jsstr) : Prop := post = [] \/ exists c post', comma c /\ post = c :: post'.
Definition starts_here (pre : jsstr) : Prop := pre = [] \/ exists c pre', comma c /\ pre = pre' ++ [c].
Definition part_of (raw part : jsstr) : Prop :=
  exists pre post, raw = pre ++ part ++ post /\ Forall (fun c => ~ comma c) part /\ starts_here pre /\ ends_here post.

Lemma digits_val_snoc ds d : digits_val (ds ++ [d]) = 10 * digits_val ds + (d - 48).
Proof. unfold digits_val, digits_val_from. rewrite fold_left_app. cbn. lia. Qed.

Lemma numeral_spec s n : numeral s n <-> isNumber s = true /\ digits_val s = n.
Proof.
  unfold isNumber. split.
  - induction 1 as [d D|ds d n _ [I V] D].
    + split; [|unfold digits_val, digits_val_from; cbn; lia]. cbn. unfold is_digit. lia.
    + split; [|by rewrite digits_val_snoc, V]. apply andb_prop in I as [_ I]. rewrite forallb_app, I.
      cbn. unfold is_digit. destruct ds; cbn; lia.
  - intros [[T F]%andb_prop <-]. induction s as [|d s IH] using rev_ind; [done|].
    rewrite forallb_app in F. apply andb_prop in F as [F D]. cbn in D. unfold is_digit in D.
    rewrite digits_val_snoc. destruct s as [|c s]; [|by apply numeral_snoc; [apply IH|lia]].
    change (numeral [d] (d - 48)). apply numeral_digit. lia.
Qed.

Lemma numeral_no_dash s n : numeral s n -> 45 ∉ s.
Proof.
  intros [[_ F]%andb_prop _]%numeral_spec I%list_elem_of_In. rewrite forallb_forall in F. by apply F in I.
Qed.

Lemma split_on_join_back c s : join [c] (split_on c s) = s.
Proof.
  induction s as [|x s IH]; [done|]. cbn [split_on].
  destruct (split_on c s) as [|p ps] eqn:E; [by destruct s as [|y s]; cbn in E; repeat case_match|].
  destruct (Z.eqb_spec x c) as [->|N].
  - change (join [c] ([] :: p :: ps)) with (c :: join [c] (p :: ps)). by rewrite IH.
  - destruct ps; cbn in *; by rewrite IH.
Qed.

Lemma range_of_spec a b r : range_of a b = Some r <-> r = {| start := a; stop := b |} /\ 100 <= a <= b /\ b <= 599.
Proof.
  unfold range_of. destruct (Z.ltb_spec b a), (Z.ltb_spec a 100), (Z.ltb_spec 599 b); cbn [orb];
    (split; [intros [=]|intros (-> & ? & ?)]); subst; repeat split; lia.
Qed.

Lemma parseToken_denotes s r : parseToken s = Some r <-> denotes s (start r) (stop r).
Proof.
  unfold parseToken, denotes. fold (squeezed s). set (q := squeezed s). split.
  - destruct (str_truthy q) eqn:T; [|done]. cbn [negb]. case_bool_decide as D.
    + pose proof (split_on_join_back 45 q) as J. destruct (split_on 45 q) as [|a [|b [|]]]; try done.
      destruct (isNumber a) eqn:A, (isNumber b) eqn:B; try done. cbn [andb].
      intros (-> & ? & ?)%range_of_spec. cbn [start stop]. repeat split; try lia. right. exists a, b.
      split; [by rewrite <- J|]. split; by apply numeral_spec.
    + destruct (isNumber q) eqn:N; [|done]. intros (-> & ? & ?)%range_of_spec. cbn [start stop].
      repeat split; try lia. left. split; [by apply numeral_spec|done].
  - intros (B & U & [[N E]|(x & y & E & X & Y)]).
    + pose proof (numeral_no_dash q _ N) as D. apply numeral_spec in N as [I V].
      assert (T : str_truthy q = true) by (by apply andb_prop in I as [? _]). rewrite T. cbn [negb].
      rewrite bool_decide_false, I, V by done. apply range_of_spec. rewrite <- E in *. by destruct r; cbn in *; subst.
    + assert (T : str_truthy q = true) by (rewrite E; by destruct x). rewrite T. cbn [negb].
      rewrite bool_decide_true by (rewrite E; apply elem_of_app; right; apply list_elem_of_here).
      rewrite E, split_on_app by (by eapply numeral_no_dash). rewrite split_on_part by (by eapply numeral_no_dash).
      apply numeral_spec in X as [-> ->], Y as [-> ->]. apply range_of_spec. by destruct r.
Qed.

(** The first part of a text, and the parts after it. *)
Definition first_part (raw p : jsstr) : Prop :=
  exists post, raw = p ++ post /\ Forall (fun c => ~ comma c) p /\ ends_here post.
Definition later_part (raw p : jsstr) : Prop :=
  exists pre c post, raw = pre ++ c :: p ++ post /\ comma c /\ Forall (fun c => ~ comma c) p /\ ends_here post.

Lemma part_of_cases raw p : part_of raw p <-> first_part raw p \/ later_part raw p.
Proof.
  split.
  - intros (pre & post & E & N & [->|(c & pre' & C & ->)] & S); [left; by exists post|].
    right. exists pre', c, post. by rewrite <- app_assoc in E.
  - intros [(post & E & N & S)|(pre & c & post & E & C & N & S)].
    + exists [], post. split_and!; [done|done|by left|done].
    + exists (pre ++ [c]), post. rewrite <- app_assoc. split_and!; [done|done|right; eauto|done].
Qed.

Definition ascii_comma (c : Z) : Z := if c =? 65292 then 44 else c.

Lemma ascii_comma_spec c : (ascii_comma c =? 44) = true <-> comma c.
Proof. unfold ascii_comma, comma. destruct (Z.eqb_spec c 65292); lia. Qed.

Lemma split_parts raw : exists q qs, split_on 44 (map ascii_comma raw) = q :: qs /\
  (forall p, p = q <-> first_part raw p) /\ (forall p, p ∈ qs <-> later_part raw p).
Proof.
  induction raw as [|x r (q & qs & E & F & L)].
  { exists [], []. split; [done|]. split; intros p.
    - split; [intros ->; exists []; split_and!; [done|constructor|by left]|].
      intros (post & X & _). by destruct p.
    - split; [by intros ?%not_elem_of_nil|]. intros (pre & c & post & X & _). by destruct pre. }
  cbn [map split_on]. rewrite E. destruct (ascii_comma x =? 44) eqn:C.
  - apply ascii_comma_spec in C. exists [], (q :: qs). split; [done|]. split; intros p.
    + split; [intros ->; exists (x :: r); split_and!; [done|constructor|right; eauto]|].
      intros (post & X & N & _). destruct p as [|y p]; [done|]. injection X as -> X. by apply Forall_inv in N.
    + rewrite elem_of_cons, F, L. split.
      * intros [(post & -> & N & S)|(pre & c & post & -> & D & N & S)]; [by exists [], x, post|by exists (x :: pre), c, post].
      * intros (pre & c & post & X & D & N & S). destruct pre as [|y pre]; injection X as -> X.
        -- left. by exists post.
        -- right. by exists pre, c, post.
  - assert (D : ~ comma x) by (intros D%ascii_comma_spec; congruence).
    assert (A : ascii_comma x = x) by (unfold ascii_comma, comma in *; destruct (Z.eqb_spec x 65292); lia).
    exists (x :: q), qs. rewrite A. split; [done|]. split; intros p.
    + split.
      * intros ->. destruct (proj1 (F q) eq_refl) as (post & -> & N & S). exists post. by split_and!; [|constructor|].
      * intros (post & X & N & S). destruct p as [|y p].
        -- destruct S as [->|(c & post' & K & ->)]; [done|]. by injection X as -> _.
        -- injection X as <- X. f_equal. apply F. exists post. apply Forall_cons in N as [_ N]. done.
    + rewrite L. split.
      * intros (pre & c & post & -> & K & N & S). by exists (x :: pre), c, post.
      * intros (pre & c & post & X & K & N & S). destruct pre as [|y pre]; injection X as -> X; [done|]. by exists pre, c, post.
Qed.

Lemma segments_parts raw s : s ∈ segments raw <-> exists p, part_of raw p /\ s = trim p /\ trim p <> [].
Proof.
  unfold segments. rewrite list_elem_of_filter. fold ascii_comma. destruct (split_parts raw) as (q & qs & E & F & L).
  change (map (fun c => if c =? 65292 then 44 else c) raw) with (map ascii_comma raw). rewrite E.
  assert (M : forall p, p ∈ q :: qs <-> part_of raw p) by (intros p; by rewrite elem_of_cons, F, L, part_of_cases).
  split.
  - intros [T (p & -> & P)%list_elem_of_fmap]. exists p. split; [by apply M|]. split; [done|]. by destruct (trim p).
  - intros (p & P & -> & T). split; [by destruct (trim p)|]. by apply (list_elem_of_fmap_2 trim), M.
Qed.

Lemma denotes_trim p a b : denotes (trim p) a b <-> denotes p a b.
Proof. unfold denotes, squeezed. by rewrite trim_idem. Qed.

Lemma denotes_nonblank p a b : denotes p a b -> trim p <> [].
Proof.
  intros (_ & _ & D) E. unfold squeezed in D. rewrite E in D. destruct D as [[N _]|(x & y & X & _)]; [|by destruct x].
  by apply numeral_spec in N as [N _].
Qed.

Lemma accepted_denotes raw : accepted raw <-> forall p, part_of raw p -> trim p <> [] -> exists a b, denotes p a b.
Proof.
  unfold accepted. rewrite Forall_forall. split.
  - intros A p P T. specialize (A (trim p)). destruct (parseToken (trim p)) as [r|] eqn:E.
    + exists (start r), (stop r). by apply denotes_trim, parseToken_denotes.
    + destruct A; [apply segments_parts; eauto|done].
  - intros A s (p & P & -> & T)%segments_parts N. destruct (A p P T) as (a & b & D%denotes_trim).
    apply (parseToken_denotes (trim p) {| start := a; stop := b |}) in D. congruence.
Qed.

(** C38. A list of status codes is accepted exactly when every part between
    commas that is not blank is, without spaces, a numeral or two numerals with
    a dash between them, in ascending order and within 100 to 599; the
    resulting ranges then are valid, ascending and separated by gaps, and
    contain a code exactly when some part denotes it. *)
Theorem status_rules_exact input :
  let r := parseHttpStatusCodeRules input in
  let raw := raw_text input in
  (ok r = true <-> forall p, part_of raw p -> trim p <> [] -> exists a b, denotes p a b) /\
  (ok r = true ->
   normal (ranges r) /\
   forall n, covers (ranges r) n <-> exists p a b, part_of raw p /\ denotes p a b /\ a <= n <= b).
Proof.
  intros r raw. split; [unfold r; by rewrite parse_ok, accepted_denotes|].
  intros O%parse_ok. destruct (parse_covers input O) as [N C]. split; [exact N|]. intros n. unfold r. rewrite C. split.
  - intros (s & g & (p & P & -> & T)%segments_parts & E & I). exists p, (start g), (stop g).
    by rewrite <- denotes_trim, <- parseToken_denotes.
  - intros (p & a & b & P & D & I). exists (trim p), {| start := a; stop := b |}.
    split; [apply segments_parts; eauto using denotes_nonblank|]. split; [|exact I].
    by apply parseToken_denotes, denotes_trim.
Qed.

(** The normalised text is canonical: two accepted inputs that contain
    the same codes, in whatever order and overlap, give the same ranges and
    the same normalised text. *)
Theorem status_rules_canonical i j :
  let r := parseHttpStatusCodeRules i in
  let r' := parseHttpStatusCodeRules j in
  ok r = true -> ok r' = true -> (forall n, covers (ranges r) n <-> covers (ranges r') n) ->
  r = r'.
Proof.
  intros r r' Ai%parse_ok Aj%parse_ok C.
  pose proof (normal_unique _ _ (proj1 (parse_covers i Ai)) (proj1 (parse_covers j Aj)) C) as U.
  subst r r'. rewrite (parse_accepted i Ai), (parse_accepted j Aj) in *. cbn [accepted_rules ranges] in U.
  by rewrite U.
Qed.

Lemma join_Forall (P : Z -> Prop) c parts : P c -> Forall (Forall P) parts -> Forall P (join [c] parts).
Proof.
  intros Pc. induction 1 as [|p parts Pp F IH]; [constructor|].
  destruct parts as [|q parts]; [done|].
  change (join [c] (p :: q :: parts)) with (p ++ c :: join [c] (q :: parts)).
  apply Forall_app. split; [done|]. by constructor.
Qed.

Lemma segments_join parts :
  parts <> [] -> Forall (fun p => Forall token_char p /\ p <> []) parts ->
  segments (join [44] parts) = parts.
Proof.
  intros N F. unfold segments.
  assert (T : Forall (Forall token_char) parts) by (eapply Forall_impl; [exact F|]; by intros p []).
  assert (J : Forall (fun c => c <> 65292) (join [44] parts)).
  { apply join_Forall; [done|]. eapply Forall_impl; [exact T|]. intros p P.
    eapply Forall_impl; [exact P|]. intros c C%token_char_range. lia. }
  assert (map (fun c => if c =? 65292 then 44 else c) (join [44] parts) = join [44] parts) as ->.
  { rewrite <- (map_id (join [44] parts)) at 2. apply map_ext_Forall.
    eapply Forall_impl; [exact J|]. intros c C. cbn. by destruct (Z.eqb_spec c 65292). }
  rewrite split_on_join; [|done|].
  2: { eapply Forall_impl; [exact T|]. intros p P I. eapply Forall_forall in P; [|exact I].
       apply token_char_range in P. lia. }
  assert (map trim parts = parts) as ->.
  { rewrite <- (map_id parts) at 2. apply map_ext_Forall. eapply Forall_impl; [exact T|].
    intros p P. apply trim_id. eapply Forall_impl; [exact P|apply token_char_not_ws]. }
  apply filter_all. eapply Forall_impl; [exact F|]. by intros [] [].
Qed.

Lemma tokens_ok rs : Forall range_ok rs ->
  Forall (fun p => Forall token_char p /\ p <> []) (map range_token rs).
Proof. intros R. apply Forall_map. eapply Forall_impl; [exact R|]. apply range_token_chars. Qed.

Lemma parse_tokens rs : Forall range_ok rs -> omap parseToken (map range_token rs) = rs.
Proof. induction 1 as [|r rs R F IH]; [done|]. cbn. by rewrite parse_range_token, IH. Qed.

Lemma raw_join parts : Forall (fun p => Forall token_char p /\ p <> []) parts ->
  raw_text (VStr (join [44] parts)) = join [44] parts.
Proof.
  intros F. unfold raw_text. cbn. apply trim_id. apply join_Forall; [done|].
  eapply Forall_impl; [exact F|]. intros p [P _]. eapply Forall_impl; [exact P|apply token_char_not_ws].
Qed.

(** The normalised text of an accepted list is a fixed point: parsing it
    gives the same result, so what the page stores is read back as it is. *)
Theorem status_rules_roundtrip input :
  ok (parseHttpStatusCodeRules input) = true ->
  parseHttpStatusCodeRules (VStr (normalized (parseHttpStatusCodeRules input)))
  = parseHttpStatusCodeRules input.
Proof.
  intros A%parse_ok. pose proof (proj1 (parse_covers input A)) as N. revert N.
  rewrite (parse_accepted input A). cbn [accepted_rules ranges normalized].
  generalize (mergeRanges (omap parseToken (segments (raw_text input)))). intros rs N.
  pose proof N as [R _]. pose proof (tokens_ok rs R) as T.
  destruct rs as [|g rs]; [done|].
  assert (S : segments (raw_text (VStr (join [44] (map range_token (g :: rs))))) = map range_token (g :: rs))
    by (rewrite raw_join, segments_join; done).
  rewrite parse_accepted; unfold accepted; rewrite S.
  - by rewrite parse_tokens, mergeRanges_normal.
  - apply Forall_map. eapply Forall_impl; [exact R|]. intros x X. by rewrite parse_range_token.
Qed.

(** ** The guard *)

Lemma code_unit_compare_sym a b : code_unit_compare a b = - code_unit_compare b a.
Proof.
  revert b. induction a as [|x a IH]; intros [|y b]; cbn; try done.
  destruct (Z.ltb_spec x y), (Z.ltb_spec y x); try lia. apply IH.
Qed.

Lemma string_le_total a b : string_le a b = false -> string_le b a = true.
Proof. unfold string_le. rewrite (code_unit_compare_sym b a). lia. Qed.

Lemma string_le_trans a b c : string_le a b = true -> string_le b c = true -> string_le a c = true.
Proof.
  unfold string_le. revert b c. induction a as [|x a IH]; intros [|y b] [|z c]; cbn; try done.
  destruct (Z.ltb_spec x y), (Z.ltb_spec y x), (Z.ltb_spec y z), (Z.ltb_spec z y),
    (Z.ltb_spec x z), (Z.ltb_spec z x); try done; try lia. apply IH.
Qed.

Lemma regex_code s : status_code_regex s = true -> 100 <= digits_val s <= 599.
Proof.
  destruct s as [|a [|b [|c [|]]]]; cbn; try done. unfold is_digit, digits_val. cbn. lia.
Qed.

Lemma key_code k f : parseStatusCodeKey k = Some f -> 100 <= f <= 599.
Proof.
  unfold parseStatusCodeKey. case_match eqn:E; [|done]. intros [= <-]. by apply regex_code.
Qed.

Lemma target_code v c : parseStatusCodeMappingTarget v = Some c -> 100 <= c <= 599.
Proof.
  assert (R : forall z, in_code_range z = Some c -> 100 <= c <= 599).
  { intros z. unfold in_code_range. case_match eqn:E; [|done]. intros [= <-]. lia. }
  destruct v as [| | |x|s| |]; cbn; try done.
  - destruct (integer_of x); cbn; [apply R|done].
  - case_match; [apply R|done].
Qed.

Lemma redirect_text_inj f t f' t' : 0 <= f -> 0 <= t -> 0 <= f' -> 0 <= t' ->
  redirect_text f t = redirect_text f' t' -> f = f' /\ t = t'.
Proof.
  intros F T F' T' E%(f_equal (split_on 32)).
  assert (D : forall z, 0 <= z -> 32 ∉ dec_digits z).
  { intros z (_ & _ & Z0)%dec_digits_number I. eapply Forall_forall in Z0; [|exact I]. done. }
  assert (S : forall a b, 0 <= a -> 0 <= b ->
    split_on 32 (redirect_text a b) = [dec_digits a; js "->"; dec_digits b]).
  { intros a b A B. unfold redirect_text.
    change (js " -> " ++ dec_digits b) with (32 :: js "->" ++ 32 :: dec_digits b).
    rewrite split_on_app by auto. rewrite split_on_app by (apply (bool_decide_unpack _); vm_compute; exact I).
    by rewrite split_on_part by auto. }
  rewrite !S in E by done. injection E as E1 E2.
  destruct (dec_digits_number f F) as (_ & <- & _), (dec_digits_number t T) as (_ & <- & _),
    (dec_digits_number f' F') as (_ & <- & _), (dec_digits_number t' T') as (_ & <- & _).
  by rewrite E1, E2.
Qed.

(** The mapping redirects a gateway timeout [f] to another code [t]. *)
Definition redirects (s : jsval) (f t : Z) : Prop :=
  exists k v, (k, v) ∈ mapping_entries s /\ parseStatusCodeKey k = Some f /\
    parseStatusCodeMappingTarget v = Some t /\ f ∈ NON_REDIRECTABLE_STATUS_CODES /\ f <> t.

Lemma risky_entry_Some k v x : risky_entry (k, v) = Some x <->
  exists f t, parseStatusCodeKey k = Some f /\ parseStatusCodeMappingTarget v = Some t /\
    f ∈ NON_REDIRECTABLE_STATUS_CODES /\ f <> t /\ x = redirect_text f t.
Proof.
  unfold risky_entry. cbn [fst snd].
  destruct (parseStatusCodeKey k) as [f|]; cbn; [|by split; [|intros (? & ? & ? & _)]].
  destruct (parseStatusCodeMappingTarget v) as [t|]; cbn; [|by split; [|intros (? & ? & _ & ? & _)]].
  destruct (bool_decide_reflect (f ∈ NON_REDIRECTABLE_STATUS_CODES)) as [N|N], (Z.eqb_spec f t);
    cbn; (split; [|intros (? & ? & [= <-] & [= <-] & ? & ? & ->)]; try done).
  intros [= <-]. by exists f, t.
Qed.

Lemma disallowed_elem s x : x ∈ collectDisallowedStatusCodeRedirects s <->
  exists f t, redirects s f t /\ x = redirect_text f t.
Proof.
  unfold collectDisallowedStatusCodeRedirects. rewrite sort_by_perm.
  rewrite dedup_id_elem, list_elem_of_omap. split.
  - intros [([k v] & I & (f & t & A & B & C & D & ->)%risky_entry_Some) _].
    exists f, t. split; [|done]. by exists k, v.
  - intros (f & t & (k & v & I & A & B & C & D) & ->). split; [|by intros ?%not_elem_of_nil].
    exists (k, v). split; [done|]. apply risky_entry_Some. by exists f, t.
Qed.

Lemma redirects_codes s f t : redirects s f t -> 100 <= f <= 599 /\ 100 <= t <= 599.
Proof. intros (k & v & _ & K & V & _). split; [by eapply key_code|by eapply target_code]. Qed.

Lemma disallowed_iff s f t : 0 <= f -> 0 <= t ->
  redirect_text f t ∈ collectDisallowedStatusCodeRedirects s <-> redirects s f t.
Proof.
  intros F T. rewrite disallowed_elem. split; [|by eauto].
  intros (f' & t' & R & E). pose proof (redirects_codes s f' t' R) as C.
  apply redirect_text_inj in E as [-> ->]; [done|lia..].
Qed.

(** C39. The guard asks for a confirmation exactly when it should: it reports
    the redirects of 504 and 524 to another code that the current mapping has
    and the original one had not, and reports nothing exactly when every such
    redirect was there before; its list is sorted and free of duplicates. *)
Theorem risk_guard_exact original current :
  let risky := collectNewDisallowedStatusCodeRedirects original current in
  (forall f t, 0 <= f -> 0 <= t ->
     redirect_text f t ∈ risky <-> redirects current f t /\ ~ redirects original f t) /\
  (risky = [] <-> forall f t, redirects current f t -> redirects original f t) /\
  NoDup risky /\ StronglySorted (fun a b => string_le a b = true) risky.
Proof.
  intros risky. unfold risky, collectNewDisallowedStatusCodeRedirects.
  assert (E : forall f t, 0 <= f -> 0 <= t ->
    redirect_text f t ∈ risky <-> redirects current f t /\ ~ redirects original f t).
  { intros f t F T. unfold risky, collectNewDisallowedStatusCodeRedirects.
    rewrite list_elem_of_filter, !disallowed_iff by done. tauto. }
  split; [exact E|]. split; [split|split].
  - intros N f t R. pose proof (redirects_codes current f t R) as C.
    destruct (decide (redirect_text f t ∈ collectDisallowedStatusCodeRedirects original)) as [D|D];
      [by apply disallowed_iff in D; [|lia..]|].
    assert (X : redirect_text f t ∈ risky).
    { apply E; [lia|lia|]. split; [done|]. by rewrite <- disallowed_iff by lia. }
    unfold risky, collectNewDisallowedStatusCodeRedirects in X. rewrite N in X.
    by apply not_elem_of_nil in X.
  - intros A. apply filter_none. apply Forall_forall. intros x (f & t & R & ->)%disallowed_elem N.
    apply N. apply disallowed_elem. eauto.
  - apply NoDup_filter. unfold collectDisallowedStatusCodeRedirects. rewrite sort_by_perm.
    rewrite <- (map_id (dedup_by _ _ _)). apply dedup_by_NoDup.
  - apply StronglySorted_filter. apply sort_by_sorted; [apply string_le_total|apply string_le_trans].
Qed.

(** A mapping is reported valid exactly when each of its entries maps a
    status code between 100 and 599 to a status code between 100 and 599. *)
Theorem status_mapping_valid_iff s :
  collectInvalidStatusCodeEntries s = [] <->
  Forall (fun e => exists f t, parseStatusCodeKey (fst e) = Some f /\
            parseStatusCodeMappingTarget (snd e) = Some t /\ 100 <= f <= 599 /\ 100 <= t <= 599)
    (mapping_entries s).
Proof.
  unfold collectInvalidStatusCodeEntries. generalize (mapping_entries s). intros o.
  induction o as [|[k v] o IH]; [by split|]. rewrite Forall_cons, <- IH. cbn -[to_str js].
  destruct (parseStatusCodeKey k) as [f|] eqn:K; [|split; [done|by intros [(? & ? & ? & _) _]]].
  destruct (parseStatusCodeMappingTarget v) as [t|] eqn:V;
    [|split; [done|by intros [(? & ? & _ & ? & _) _]]].
  split; [|by intros [_ ?]]. intros N. split; [|done]. exists f, t.
  split_and!; try done; first [by eapply key_code|by eapply target_code].
Qed.

(** ** Instances *)

Lemma status_rules_canonical_witness :
  normalized (parseHttpStatusCodeRules (VStr (js "500-503, 429,501-510")))
  = normalized (parseHttpStatusCodeRules (VStr (js "429，500-510"))).
Proof.
  rewrite (status_rules_canonical (VStr (js "500-503, 429,501-510")) (VStr (js "429，500-510")));
    [reflexivity|vm_compute; reflexivity|vm_compute; reflexivity|].
  assert (ranges (parseHttpStatusCodeRules (VStr (js "500-503, 429,501-510")))
          = ranges (parseHttpStatusCodeRules (VStr (js "429，500-510")))) as -> by (vm_compute; reflexivity).
  intros n. split; exact (fun x => x).
Defined.

Lemma status_rules_roundtrip_witness :
  parseHttpStatusCodeRules (VStr (js "401-403,500"))
  = parseHttpStatusCodeRules (VStr (js "500, 401 - 402,403")).
Proof.
  assert (E : normalized (parseHttpStatusCodeRules (VStr (js "500, 401 - 402,403"))) = js "401-403,500")
    by (vm_compute; reflexivity).
  rewrite <- E at 1. apply (status_rules_roundtrip (VStr (js "500, 401 - 402,403"))).
  vm_compute. reflexivity.
Defined.
