(* ===== verification/BillingFormula.v ===== *)
(** * Channel prices (helpers/billingFormula.js, helpers/utils.jsx)

    What a channel costs and what it is sold for: the discount and markup
    formula of the home page, of the usage log and of the cost view. *)

From Stdlib Require Import SpecFloat.
From stdpp Require Import base list numbers strings.
From S2P Require Import Prelude JsNumber JsOrder JsString JsValue JsJson.
Local Open Scope Z_scope.
Local Open Scope js_scope.

(** ** Channel-scoped values (utils.jsx) *)

Definition formatMatchingModelName (name : jsval) : jsstr :=
  if nullish name then []
  else
    let n := to_str name in
    if starts_with (js "gpt-4-gizmo") n then js "gpt-4-gizmo-*"
    else if starts_with (js "gpt-4o-gizmo") n then js "gpt-4o-gizmo-*"
    else n.

(** [typeof v === 'number' && Number.isFinite(v)] *)
Definition finite_number (v : jsval) : option spec_float :=
  match v with VNum x => if isFinite x then Some x else None | _ => None end.

Definition readChannelScopedModelFloat (byChannel modelName : jsval) : option spec_float :=
  if negb (is_obj byChannel) || nullish modelName then None
  else match finite_number (vget byChannel (to_str modelName)) with
       | Some v => Some v
       | None => finite_number (vget byChannel (formatMatchingModelName modelName))
       end.

Definition pickChannelScopedModelFloat (channelMap channelId modelName : jsval) : option spec_float :=
  if negb (truthy channelMap) || nullish modelName then None
  else readChannelScopedModelFloat (vget channelMap (to_str channelId)) modelName.

(** ** Numbers (billingFormula.js) *)

Definition n2 : spec_float := num_of_Z 2.
Definition n100 : spec_float := num_of_Z 100.
Definition minus_one : spec_float := num_of_Z (-1).

(** [6 / 3.75] *)
Definition CLAUDE_CACHE_CREATE_1H_GLOBAL_MULT : spec_float :=
  ndiv (num_of_Z 6) (dec_num false 375 (-2)).

Definition costDiscountMultiplier (percent : jsval) : spec_float :=
  let n := to_num percent in
  if negb (isFinite n) || nleb n n0 then n1 else ndiv n n100.

Definition markupRateFromPercent (percent : jsval) : spec_float :=
  let n := to_num percent in
  ndiv (if num_truthy n then n else n0) n100.

Definition numOrZero (value : jsval) : spec_float :=
  if nullish value || is_str value [] then n0
  else let n := to_num value in if isFinite n then n else n0.

Definition hasBillingRatioValue (value : jsval) : bool :=
  negb (nullish value) && negb (is_str value []) && isFinite (to_num value).

(** The channel's own option, then the channel map, then the global value. *)
Definition resolveCostOptionChannelScalar
    (optionChannelValue channelMap channelId modelName globalValue : jsval) : option spec_float :=
  if hasBillingRatioValue optionChannelValue then Some (to_num optionChannelValue)
  else match pickChannelScopedModelFloat channelMap channelId modelName with
       | Some v => Some v
       | None => if hasBillingRatioValue globalValue then Some (to_num globalValue) else None
       end.

Definition modelRatioToDisplayUsdPerM (modelRatio : spec_float) : spec_float := nmul modelRatio n2.

(** A parameter of an options object, with its default. *)
Definition arg (args : jsval) (k : string) (d : jsval) : jsval :=
  match vget args (js k) with VUndef => d | v => v end.
Definition num_arg (z : Z) : jsval := VNum (num_of_Z z).

(** ** Cost items *)

Record CostItem := {
  item_key : jsstr;
  labelKey : jsstr;
  displayUsdPerM : spec_float;
  isFixedPrice : bool;
  fixedUnitKey : option jsstr
}.

Definition token_item (key label : jsstr) (usdPerM : spec_float) : CostItem :=
  {| item_key := key; labelKey := label; displayUsdPerM := usdPerM; isFixedPrice := false;
     fixedUnitKey := None |}.

Definition pushTokenCostItem (key label : jsstr) (usdPerM : spec_float) : list CostItem :=
  if negb (isFinite usdPerM) || nleb usdPerM n0 then [] else [token_item key label usdPerM].

Definition pushFixedCostItem (costDisc : spec_float) (key label : jsstr) (usdAmount : spec_float)
    (unit : jsstr) : list CostItem :=
  if negb (isFinite usdAmount) || nltb usdAmount n0 then []
  else [{| item_key := key; labelKey := label; displayUsdPerM := nmul usdAmount costDisc;
           isFixedPrice := true; fixedUnitKey := Some unit |}].

Section Cost.
Variable args : jsval.

Local Abbreviation costDisc := (costDiscountMultiplier (arg args "priceDiscountPercent" (num_arg 100))).

(** The value of a ratio or price for the channel and the model. *)
Definition resolve (option_key map_key : string) (globalValue : jsval) : option spec_float :=
  resolveCostOptionChannelScalar (arg args option_key VUndef) (arg args map_key VUndef)
    (arg args "channelId" VUndef) (arg args "modelName" VUndef) globalValue.

(** A ratio that is only used when the global value exists. *)
Definition scoped_ratio (option_key map_key : string) (globalValue : jsval) : option spec_float :=
  if hasBillingRatioValue globalValue then resolve option_key map_key globalValue else None.

(** [modelRatioToDisplayUsdPerM(baseMr) * ratio * costDisc] *)
Definition scaled (baseMr r : spec_float) : spec_float :=
  nmul (nmul (modelRatioToDisplayUsdPerM baseMr) r) costDisc.
Definition scaled2 (baseMr r r' : spec_float) : spec_float :=
  nmul (nmul (nmul (modelRatioToDisplayUsdPerM baseMr) r) r') costDisc.

(** [hasBillingRatioValue(v) && Number(v) >= 0 ? Number(v) : null] *)
Definition price_fallback (v : jsval) : jsval :=
  if hasBillingRatioValue v && nleb n0 (to_num v) then VNum (to_num v) else VNull.

(** A flat price per image or per video. *)
Definition flat_item (skip option_key map_key global_key : string) (key label unit : jsstr)
    : list CostItem :=
  if truthy (arg args skip (VBool false)) then []
  else match resolve option_key map_key (price_fallback (arg args global_key (num_arg (-1)))) with
       | Some usd => if nltb n0 usd then pushFixedCostItem costDisc key label usd unit else []
       | None => []
       end.

(** An input price with the output price that depends on it. *)
Definition media_items (baseMr : spec_float) (option_in map_in global_in option_out map_out global_out : string)
    (key_in label_in key_out label_out : jsstr) : list CostItem :=
  match scoped_ratio option_in map_in (arg args global_in VUndef) with
  | None => []
  | Some r =>
      pushTokenCostItem key_in label_in (scaled baseMr r)
      ++ match scoped_ratio option_out map_out (arg args global_out VUndef) with
         | Some r' => pushTokenCostItem key_out label_out (scaled2 baseMr r r')
         | None => []
         end
  end.

Definition per_token_items (baseMr : spec_float) : list CostItem :=
  [token_item (js "input") (js "输入价格") (nmul (modelRatioToDisplayUsdPerM baseMr) costDisc)]
  ++ match scoped_ratio "optionCompletionRatio" "channelCompletionRatioMap"
             (arg args "globalCompletionRatio" (num_arg 0)) with
     | Some r => [token_item (js "output") (js "输出价格") (scaled baseMr r)]
     | None => []
     end
  ++ match scoped_ratio "optionCacheRatio" "channelCacheRatioMap"
             (arg args "globalCacheRatio" (num_arg 0)) with
     | Some r => [token_item (js "cache_read") (js "缓存读取价格") (scaled baseMr r)]
     | None => []
     end
  ++ match scoped_ratio "optionCreateCacheRatio" "channelCreateCacheRatioMap"
             (arg args "globalCreateCacheRatio" (num_arg 0)) with
     | Some r => pushTokenCostItem (js "cache_create") (js "缓存创建价格") (scaled baseMr r)
     | None => []
     end
  ++ (if truthy (arg args "skipImageTokenPricing" (VBool false)) then []
      else match scoped_ratio "optionImageRatio" "channelImageRatioMap"
                   (arg args "globalImageRatio" VUndef) with
           | Some r => pushTokenCostItem (js "image") (js "图片输入价格") (scaled baseMr r)
           | None => []
           end)
  ++ flat_item "skipImageFlatSimple" "optionImagePrice" "channelImagePriceMap" "globalImagePrice"
       (js "image_flat") (js "图片价格") (js "张")
  ++ media_items baseMr "optionAudioRatio" "channelAudioRatioMap" "globalAudioRatio"
       "optionAudioCompletionRatio" "channelAudioCompletionRatioMap" "globalAudioCompletionRatio"
       (js "audio_input") (js "音频输入价格") (js "audio_output") (js "音频输出价格")
  ++ (if truthy (arg args "skipVideoTokenPricing" (VBool false)) then []
      else media_items baseMr "optionVideoRatio" "channelVideoRatioMap" "globalVideoRatio"
             "optionVideoCompletionRatio" "channelVideoCompletionRatioMap" "globalVideoCompletionRatio"
             (js "video_input") (js "视频输入价格") (js "video_output") (js "视频输出价格"))
  ++ flat_item "skipVideoFlatSimple" "optionVideoPrice" "channelVideoPriceMap" "globalVideoPrice"
       (js "video_flat") (js "视频价格") (js "次").

(** [quotaType === 0] *)
Definition isPerToken : bool :=
  match arg args "quotaType" (num_arg 0) with VNum x => neqb x n0 | _ => false end.

Definition computeChannelCostRates : list CostItem :=
  if isPerToken then
    match resolve "optionModelRatio" "channelModelRatioMap" (arg args "globalModelRatio" (num_arg 0)) with
    | None => []
    | Some baseMr => per_token_items baseMr
    end
  else
    match resolve "optionModelPrice" "channelModelPriceMap" (arg args "globalModelPrice" (num_arg 0)) with
    | Some baseMp =>
        if nleb n0 baseMp
        then [{| item_key := js "model_price"; labelKey := js "模型价格";
                 displayUsdPerM := nmul baseMp costDisc; isFixedPrice := true; fixedUnitKey := None |}]
        else []
    | None => []
    end.
End Cost.

(** ** Selling rates *)

Record BillingRates := {
  costDisc : spec_float;
  markupRate : spec_float;
  effInputRate : spec_float;
  effOutputRate : spec_float;
  effCacheReadRate : spec_float;
  effCacheCreateRate : spec_float;
  effCacheCreate5mRate : spec_float;
  effCacheCreate1hRate : spec_float;
  effModelPrice : spec_float;
  inputRatioPrice : spec_float;
  completionRatioPrice : spec_float;
  cacheRatioPrice : spec_float;
  cacheCreationRatioPrice : spec_float;
  cacheCreationRatioPrice5m : spec_float;
  cacheCreationRatioPrice1h : spec_float;
  mp : spec_float;
  mr : spec_float
}.

(** [v === -1 || v === undefined || v === null] *)
Definition no_price (v : jsval) : bool :=
  nullish v || match v with VNum x => neqb x minus_one | _ => false end.

(** A ratio of the arguments. *)
Definition ratio_arg (args : jsval) (k : string) : spec_float := numOrZero (arg args k (num_arg 0)).

(** [v != null ? numOrZero(v) : createCacheR] *)
Definition split_ratio (args : jsval) (k : string) : spec_float :=
  let v := vget args (js k) in
  if nullish v then ratio_arg args "channelCreateCacheRatio" else numOrZero v.

(** The channel's rate at cost plus the global rate as markup. *)
Definition eff (channelPart disc globalPart markup : spec_float) : spec_float :=
  nadd (nmul channelPart disc) (nmul globalPart markup).

Definition computeChannelBillingRates (args : jsval) : BillingRates :=
  let disc := costDiscountMultiplier (arg args "priceDiscountPercent" (num_arg 100)) in
  let markup := markupRateFromPercent (arg args "markupDiscountPercent" (num_arg 0)) in
  let chMr := ratio_arg args "channelModelRatio" in
  let globalMr := ratio_arg args "globalModelRatio" in
  let cr := ratio_arg args "channelCompletionRatio" in
  let cacheR := ratio_arg args "channelCacheRatio" in
  let createCacheR := ratio_arg args "channelCreateCacheRatio" in
  let createCacheR5m := split_ratio args "channelCreateCacheRatio5m" in
  let createCacheR1h := split_ratio args "channelCreateCacheRatio1h" in
  let globalCR := ratio_arg args "globalCompletionRatio" in
  let globalCacheR := ratio_arg args "globalCacheRatio" in
  let globalCreateCacheR := ratio_arg args "globalCreateCacheRatio" in
  let globalCreateCacheR1h := nmul globalCreateCacheR CLAUDE_CACHE_CREATE_1H_GLOBAL_MULT in
  let input := eff chMr disc globalMr markup in
  let output := eff (nmul chMr cr) disc (nmul globalMr globalCR) markup in
  let cacheRead := eff (nmul chMr cacheR) disc (nmul globalMr globalCacheR) markup in
  let cacheCreate := eff (nmul chMr createCacheR) disc (nmul globalMr globalCreateCacheR) markup in
  let cacheCreate5m := eff (nmul chMr createCacheR5m) disc (nmul globalMr globalCreateCacheR) markup in
  let cacheCreate1h := eff (nmul chMr createCacheR1h) disc (nmul globalMr globalCreateCacheR1h) markup in
  let channelModelPrice := arg args "channelModelPrice" (num_arg (-1)) in
  let price :=
    if no_price channelModelPrice then minus_one
    else eff (numOrZero channelModelPrice) disc (ratio_arg args "globalModelPrice") markup in
  {| costDisc := disc; markupRate := markup; effInputRate := input; effOutputRate := output;
     effCacheReadRate := cacheRead; effCacheCreateRate := cacheCreate;
     effCacheCreate5mRate := cacheCreate5m; effCacheCreate1hRate := cacheCreate1h;
     effModelPrice := price; inputRatioPrice := nmul input n2;
     completionRatioPrice := nmul output n2; cacheRatioPrice := nmul cacheRead n2;
     cacheCreationRatioPrice := nmul cacheCreate n2;
     cacheCreationRatioPrice5m := nmul cacheCreate5m n2;
     cacheCreationRatioPrice1h := nmul cacheCreate1h n2; mp := price; mr := input |}.

(** [v != null ? v : d] *)
Definition or_else (v d : jsval) : jsval := if nullish v then d else v.

(** The arguments the log passes on: what the entry recorded, or else what
    the caller knows. *)
Definition consume_log_args (args : jsval) : jsval :=
  let billingMeta := arg args "billingMeta" VNull in
  let meta := if is_obj billingMeta then billingMeta else VObj [] in
  let m k := vget meta (js k) in
  let modelPrice := arg args "modelPrice" (num_arg (-1)) in
  VObj
    [(js "channelModelRatio", or_else (m "model_ratio"%string) (arg args "modelRatio" (num_arg 0)));
     (js "channelCompletionRatio",
        or_else (m "completion_ratio"%string) (arg args "completionRatio" (num_arg 0)));
     (js "channelCacheRatio", or_else (m "cache_ratio"%string) (arg args "cacheRatio" (num_arg 0)));
     (js "channelCreateCacheRatio",
        or_else (m "cache_creation_ratio"%string) (arg args "cacheCreationRatio" (num_arg 0)));
     (js "channelCreateCacheRatio5m",
        or_else (m "cache_creation_ratio_5m"%string) (vget args (js "cacheCreationRatio5m")));
     (js "channelCreateCacheRatio1h",
        or_else (m "cache_creation_ratio_1h"%string) (vget args (js "cacheCreationRatio1h")));
     (js "channelModelPrice", if no_price (m "model_price"%string) then modelPrice else m "model_price"%string);
     (js "priceDiscountPercent",
        m "channel_price_discount_percent"%string
        ??? arg args "channelPriceDiscountPercent" (num_arg 100) ??? num_arg 100);
     (js "markupDiscountPercent", m "markup_discount_rate"%string);
     (js "globalModelRatio", m "global_model_ratio"%string);
     (js "globalModelPrice", m "global_model_price"%string);
     (js "globalCompletionRatio", m "global_completion_ratio"%string);
     (js "globalCacheRatio", m "global_cache_ratio"%string);
     (js "globalCreateCacheRatio", m "global_create_cache_ratio"%string)].

Definition resolveConsumeLogBillingRates (args : jsval) : BillingRates :=
  computeChannelBillingRates (consume_log_args args).

(** ** Display *)

(** The entries of the browser's storage that the display reads. *)
Record Storage := { quota_display_type : option jsstr; status : option jsstr }.

Record Currency := { symbol : jsval; rate : jsval; cur_kind : jsstr }.

(** [JSON.parse(statusStr)] for a text that is present and parses *)
Definition parsed_status (st : Storage) : option jsval :=
  s ← status st; if str_truthy s then JSON_parse s else None.

Definition getBillingCurrencyConfig (st : Storage) : Currency :=
  let quotaDisplayType := str_or (default [] (quota_display_type st)) (js "USD") in
  if bool_decide (quotaDisplayType = js "CNY") then
    {| symbol := VStr (js "¥");
       rate := match parsed_status st with
               | Some s => vget s (js "usd_exchange_rate") ||| num_arg 7
               | None => num_arg 1
               end;
       cur_kind := quotaDisplayType |}
  else if bool_decide (quotaDisplayType = js "CUSTOM") then
    match parsed_status st with
    | Some s =>
        {| symbol := vget s (js "custom_currency_symbol") ||| VStr (js "¤");
           rate := vget s (js "custom_currency_exchange_rate") ||| num_arg 1;
           cur_kind := quotaDisplayType |}
    | None => {| symbol := VStr (js "$"); rate := num_arg 1; cur_kind := quotaDisplayType |}
    end
  else {| symbol := VStr (js "$"); rate := num_arg 1; cur_kind := quotaDisplayType |}.

Definition formatBillingUsdDisplay (st : Storage) (usdAmount : jsval) (tokenUnit : jsstr) : jsstr :=
  let cur := getBillingCurrencyConfig st in
  let unitDivisor := if bool_decide (tokenUnit = js "K") then num_of_Z 1000 else n1 in
  let n := to_num usdAmount in
  let raw := nmul (if num_truthy n then n else n0) (to_num (rate cur)) in
  if isFinite raw
  then to_str (symbol cur) ++ str_of_num (num_of_str (to_fixed 2 (ndiv raw unitDivisor)))
  else to_str (symbol cur) ++ js "0".

(** ** Discount and markup *)

(** The channel's part and the global part of each token rate. *)
Definition parts (args : jsval) : list (spec_float * spec_float) :=
  let chMr := ratio_arg args "channelModelRatio" in
  let globalMr := ratio_arg args "globalModelRatio" in
  let globalCreate := ratio_arg args "globalCreateCacheRatio" in
  [(chMr, globalMr);
   (nmul chMr (ratio_arg args "channelCompletionRatio"),
    nmul globalMr (ratio_arg args "globalCompletionRatio"));
   (nmul chMr (ratio_arg args "channelCacheRatio"), nmul globalMr (ratio_arg args "globalCacheRatio"));
   (nmul chMr (ratio_arg args "channelCreateCacheRatio"), nmul globalMr globalCreate);
   (nmul chMr (split_ratio args "channelCreateCacheRatio5m"), nmul globalMr globalCreate);
   (nmul chMr (split_ratio args "channelCreateCacheRatio1h"),
    nmul globalMr (nmul globalCreate CLAUDE_CACHE_CREATE_1H_GLOBAL_MULT))].

Definition token_rates (r : BillingRates) : list spec_float :=
  [effInputRate r; effOutputRate r; effCacheReadRate r; effCacheCreateRate r;
   effCacheCreate5mRate r; effCacheCreate1hRate r].

Lemma token_rates_eq args :
  token_rates (computeChannelBillingRates args)
  = map (fun xy => eff (fst xy) (costDisc (computeChannelBillingRates args)) (snd xy)
                     (markupRate (computeChannelBillingRates args))) (parts args).
Proof. reflexivity. Qed.

(** A finite number that is not negative. *)
Definition amount (x : spec_float) : Prop := pos0 x = true /\ isFinite x = true /\ valid x.

Lemma eff_ge x d y m : amount x -> amount d -> amount y -> amount m -> nleb (nmul x d) (eff x d y m) = true.
Proof.
  intros (Px & Fx & Vx) (Pd & Fd & Vd) (Py & Fy & Vy) (Pm & Fm & Vm).
  apply nadd_ge; auto using nmul_pos0, nmul_valid.
Qed.

Lemma eff_mono x d d' y m m' : amount x -> amount y -> amount d -> amount d' -> amount m -> amount m' ->
  nleb d d' = true -> nleb m m' = true -> nleb (eff x d y m) (eff x d' y m') = true.
Proof.
  intros (Px & Fx & Vx) (Py & Fy & Vy) (Pd & Fd & Vd) (Pd' & Fd' & Vd') (Pm & Fm & Vm) (Pm' & Fm' & Vm') D M.
  apply nadd_mono; auto using nmul_pos0, nmul_valid; apply nmul_mono; auto using nleb_refl.
Qed.

(** The arguments are numbers and percentages that make sense: no part is
    negative or overflows. *)
Definition sensible (args : jsval) : Prop :=
  Forall (fun xy => amount (fst xy) /\ amount (snd xy)) (parts args) /\
  amount (costDisc (computeChannelBillingRates args)) /\
  amount (markupRate (computeChannelBillingRates args)).

(** Markup never lowers a price: each token rate the formula returns is
    at least the channel's own rate at its discounted cost. *)
Theorem markup_covers_cost args :
  sensible args ->
  Forall2 (fun xy rate =>
      nleb (nmul (fst xy) (costDisc (computeChannelBillingRates args))) rate = true)
    (parts args) (token_rates (computeChannelBillingRates args)).
Proof.
  intros (P & D & M). rewrite token_rates_eq. apply Forall2_fmap_r, Forall_Forall2_diag.
  eapply Forall_impl; [exact P|]. intros [x y] [X Y]. by apply eff_ge.
Qed.

Lemma n100_amount : amount n100 /\ vden n100 <= vnum n100 /\ n100 <> S754_zero false.
Proof.
  split; [split; [|split]|]; [reflexivity|reflexivity|apply num_of_Z_valid|].
  split; [apply Z.leb_le|]; vm_compute; done.
Qed.

Lemma percent_amount n : amount n -> amount (ndiv n n100).
Proof.
  intros (P & F & V). destruct n100_amount as ((P' & F' & V') & G & _).
  destruct (ndiv_finite n n100 P F V P' F' G) as [A B].
  split; [exact A|split; [exact B|apply ndiv_valid]].
Qed.

Lemma percent_mono n n' : amount n -> amount n' -> nleb n n' = true ->
  nleb (ndiv n n100) (ndiv n' n100) = true.
Proof.
  intros (P & F & V) (P' & F' & V') L. destruct n100_amount as ((Q & G & W) & _ & N).
  by apply ndiv_mono.
Qed.

Lemma discount_percent v : amount (to_num v) -> to_num v <> S754_zero false ->
  costDiscountMultiplier v = ndiv (to_num v) n100.
Proof.
  intros (P & F & _) N. unfold costDiscountMultiplier. rewrite F.
  by destruct (to_num v) as [[]|[]| |[] m e].
Qed.

Lemma markup_percent v : amount (to_num v) -> markupRateFromPercent v = ndiv (to_num v) n100.
Proof.
  intros (P & F & _). unfold markupRateFromPercent. by destruct (to_num v) as [[]|[]| |[] m e].
Qed.

Section Monotone.
Local Abbreviation discount a := (to_num (arg a "priceDiscountPercent" (num_arg 100))).
Local Abbreviation markup a := (to_num (arg a "markupDiscountPercent" (num_arg 0))).

(** Prices follow the percentages: of two sets of arguments with the same
    ratios, the one with the higher cost percentage and the higher markup
    percentage has no lower token rate. *)
Theorem rates_follow_percentages a a' :
  parts a = parts a' -> Forall (fun xy => amount (fst xy) /\ amount (snd xy)) (parts a) ->
  amount (discount a) -> amount (discount a') -> discount a <> S754_zero false ->
  amount (markup a) -> amount (markup a') ->
  nleb (discount a) (discount a') = true -> nleb (markup a) (markup a') = true ->
  Forall2 (fun r r' => nleb r r' = true)
    (token_rates (computeChannelBillingRates a)) (token_rates (computeChannelBillingRates a')).
Proof.
  intros E P D D' N M M' Ld Lm.
  assert (N' : discount a' <> S754_zero false).
  { intros X. rewrite X in Ld. destruct D as (Pd & _). by destruct (discount a) as [[]|[]| |[] m e]. }
  rewrite !token_rates_eq, <- E. cbn [costDisc markupRate computeChannelBillingRates].
  rewrite !discount_percent, !markup_percent by done.
  apply Forall2_fmap_l, Forall2_fmap_r, Forall_Forall2_diag.
  eapply Forall_impl; [exact P|]. intros [x y] [X Y].
  apply eff_mono; auto using percent_amount, percent_mono.
Qed.
End Monotone.

(** ** The usage log *)

Lemma nadd_zero x : amount x -> nadd x (S754_zero false) = x.
Proof. intros (P & F & _). by destruct x as [[]|[]| |[] m e]. Qed.

Lemma eff_no_markup x d : amount (nmul x d) -> eff x d n0 n0 = nmul x d.
Proof. apply nadd_zero. Qed.

Lemma arg_given args k d v : vget args (js k) = v -> v <> VUndef -> arg args k d = v.
Proof. unfold arg. intros -> N. by destruct v. Qed.

Lemma arg_defined args k d : d <> VUndef -> arg args k d <> VUndef.
Proof. unfold arg. by case_match. Qed.

Section NoMeta.
Variable args : jsval.
Hypothesis no_meta : is_obj (arg args "billingMeta" VNull) = false.

Lemma log_channel_ratios :
  ratio_arg (consume_log_args args) "channelModelRatio" = ratio_arg args "modelRatio" /\
  ratio_arg (consume_log_args args) "channelCompletionRatio" = ratio_arg args "completionRatio" /\
  ratio_arg (consume_log_args args) "channelCacheRatio" = ratio_arg args "cacheRatio".
Proof.
  unfold consume_log_args. rewrite no_meta. unfold ratio_arg.
  split_and!; f_equal; apply arg_given; [reflexivity|by apply arg_defined|reflexivity|by apply arg_defined
    |reflexivity|by apply arg_defined].
Qed.

Lemma log_global_ratios :
  ratio_arg (consume_log_args args) "globalModelRatio" = n0 /\
  ratio_arg (consume_log_args args) "globalCompletionRatio" = n0 /\
  ratio_arg (consume_log_args args) "globalCacheRatio" = n0 /\
  markupRateFromPercent (arg (consume_log_args args) "markupDiscountPercent" (num_arg 0)) = n0.
Proof. unfold consume_log_args. rewrite no_meta. split_and!; vm_compute; reflexivity. Qed.

Lemma log_discount :
  arg (consume_log_args args) "priceDiscountPercent" (num_arg 100)
  = arg args "channelPriceDiscountPercent" (num_arg 100) ??? num_arg 100.
Proof.
  unfold consume_log_args. rewrite no_meta. apply arg_given; [reflexivity|].
  unfold js_nullish_or. by destruct (arg args "channelPriceDiscountPercent" (num_arg 100)).
Qed.
End NoMeta.

(** A log entry without billing data shows the channel's discounted
    rates: no global ratio and no markup enters. *)
Theorem log_rates_without_meta args :
  is_obj (arg args "billingMeta" VNull) = false ->
  let r := resolveConsumeLogBillingRates args in
  let disc := costDiscountMultiplier
                (arg args "channelPriceDiscountPercent" (num_arg 100) ??? num_arg 100) in
  let mr := ratio_arg args "modelRatio" in
  let out := nmul mr (ratio_arg args "completionRatio") in
  let cache := nmul mr (ratio_arg args "cacheRatio") in
  amount (nmul mr disc) -> amount (nmul out disc) -> amount (nmul cache disc) ->
  costDisc r = disc /\ markupRate r = n0 /\ effInputRate r = nmul mr disc /\
  effOutputRate r = nmul out disc /\ effCacheReadRate r = nmul cache disc.
Proof.
  intros B r disc mr out cache A1 A2 A3. subst r. unfold resolveConsumeLogBillingRates.
  destruct (log_channel_ratios args B) as (C1 & C2 & C3).
  destruct (log_global_ratios args B) as (G1 & G2 & G3 & M).
  cbn [costDisc markupRate effInputRate effOutputRate effCacheReadRate computeChannelBillingRates].
  rewrite log_discount, C1, C2, C3, G1, G2, G3, M by done.
  split_and!; [done|done|by apply eff_no_markup|by apply eff_no_markup|by apply eff_no_markup].
Qed.

(** ** Cost items *)

Definition cost_keys : list jsstr :=
  [js "input"; js "output"; js "cache_read"; js "cache_create"; js "image"; js "image_flat";
   js "audio_input"; js "audio_output"; js "video_input"; js "video_output"; js "video_flat"].

Lemma push_token_key key label x : sublist (map item_key (pushTokenCostItem key label x)) [key].
Proof. unfold pushTokenCostItem. case_match; cbn; [apply sublist_nil_l|done]. Qed.

Lemma push_fixed_key d key label x unit : sublist (map item_key (pushFixedCostItem d key label x unit)) [key].
Proof. unfold pushFixedCostItem. case_match; cbn; [apply sublist_nil_l|done]. Qed.

Lemma flat_item_key args skip o m g key label unit :
  sublist (map item_key (flat_item args skip o m g key label unit)) [key].
Proof.
  unfold flat_item. repeat case_match; cbn; try apply sublist_nil_l. apply push_fixed_key.
Qed.

Lemma media_items_key args b oi mi gi oo mo go ki li ko lo :
  sublist (map item_key (media_items args b oi mi gi oo mo go ki li ko lo)) [ki; ko].
Proof.
  unfold media_items. case_match; cbn; [|apply sublist_nil_l]. rewrite map_app.
  apply (sublist_app _ [ki] _ [ko]); [apply push_token_key|].
  case_match; cbn; [apply push_token_key|apply sublist_nil_l].
Qed.

(** The keys of one optional entry of the list. *)
Ltac item_keys :=
  repeat case_match; cbn [map]; first
    [apply sublist_nil_l | apply push_token_key | apply flat_item_key | apply media_items_key | done].

Lemma per_token_keys args b : sublist (map item_key (per_token_items args b)) cost_keys.
Proof.
  unfold per_token_items, cost_keys. rewrite !map_app.
  apply (sublist_app _ [_]); [item_keys|]. apply (sublist_app _ [_]); [item_keys|].
  apply (sublist_app _ [_]); [item_keys|]. apply (sublist_app _ [_]); [item_keys|].
  apply (sublist_app _ [_]); [item_keys|]. apply (sublist_app _ [_]); [item_keys|].
  apply (sublist_app _ [_; _]); [item_keys|]. apply (sublist_app _ [_; _]); item_keys.
Qed.

Lemma resolve_finite o m c n g x : resolveCostOptionChannelScalar o m c n g = Some x -> isFinite x = true.
Proof.
  unfold resolveCostOptionChannelScalar, hasBillingRatioValue.
  assert (P : forall x, pickChannelScopedModelFloat m c n = Some x -> isFinite x = true).
  { intros y. unfold pickChannelScopedModelFloat, readChannelScopedModelFloat.
    assert (Fn : forall v z, finite_number v = Some z -> isFinite z = true).
    { intros [| | |w| | |] z; cbn; try done. case_match eqn:E; [|done]. by intros [= <-]. }
    case_match; [done|]. case_match; [done|].
    destruct (finite_number (vget _ (to_str n))) eqn:E; [intros [= <-]|]; by eapply Fn. }
  case_match eqn:E; [intros [= <-]; by apply andb_true_iff in E as [_ E]|].
  destruct (pickChannelScopedModelFloat m c n) as [v|]; [intros [= <-]; by apply P|].
  case_match eqn:E'; [|done]. intros [= <-]. by apply andb_true_iff in E' as [_ ?].
Qed.

(** The cost view lists each price at most once and in a fixed order; it
    starts with the input price, shows nothing exactly when no base ratio is
    known, and every ratio it uses is a finite number. *)
Theorem cost_items_ordered args :
  isPerToken args = true ->
  let base := resolve args "optionModelRatio" "channelModelRatioMap"
                (arg args "globalModelRatio" (num_arg 0)) in
  sublist (map item_key (computeChannelCostRates args)) cost_keys /\
  NoDup (map item_key (computeChannelCostRates args)) /\
  match base with
  | None => computeChannelCostRates args = []
  | Some r => isFinite r = true /\ head (map item_key (computeChannelCostRates args)) = Some (js "input")
  end.
Proof.
  intros P base. unfold computeChannelCostRates. rewrite P. fold base.
  assert (S : sublist (map item_key (match base with None => [] | Some b => per_token_items args b end))
                cost_keys) by (case_match; [apply per_token_keys|apply sublist_nil_l]).
  split_and!; [done| |].
  - eapply sublist_NoDup; [|exact S]. apply (bool_decide_unpack _). vm_compute. exact I.
  - destruct base as [r|] eqn:E; [|done]. split; [by eapply resolve_finite|done].
Qed.

(** ** Instances *)

(** A channel at [discount] percent of its price with [markup] percent. *)
Definition sample_args (discount markup : Z) : jsval := VObj
  [(js "channelModelRatio", num_arg 2); (js "channelCompletionRatio", num_arg 4);
   (js "globalModelRatio", num_arg 3); (js "globalCompletionRatio", num_arg 4);
   (js "priceDiscountPercent", num_arg discount); (js "markupDiscountPercent", num_arg markup)].

(** Decides [amount] of a closed number. *)
Ltac closed_amount :=
  split; [vm_compute; reflexivity|split; [vm_compute; reflexivity|]]; vm_compute;
  first [exact I | repeat split; first [discriminate | left; discriminate]].

Lemma markup_covers_cost_witness :
  nleb (nmul (num_of_Z 2) (dec_num false 8 (-1)))
    (effInputRate (computeChannelBillingRates (sample_args 80 10))) = true.
Proof.
  pose proof (markup_covers_cost (sample_args 80 10)) as W.
  assert (S : sensible (sample_args 80 10)).
  { split; [|split; closed_amount].
    repeat apply Forall_cons_2; try apply Forall_nil_2; (split; closed_amount). }
  specialize (W S). apply Forall2_cons in W as [W _]. exact W.
Defined.

Lemma rates_follow_percentages_witness :
  Forall2 (fun r r' => nleb r r' = true)
    (token_rates (computeChannelBillingRates (sample_args 80 10)))
    (token_rates (computeChannelBillingRates (sample_args 90 20))).
Proof.
  apply (rates_follow_percentages (sample_args 80 10) (sample_args 90 20));
    [vm_compute; reflexivity| |closed_amount|closed_amount|vm_compute; discriminate|closed_amount
    |closed_amount|vm_compute; reflexivity|vm_compute; reflexivity].
  repeat apply Forall_cons_2; try apply Forall_nil_2; (split; closed_amount).
Defined.

Lemma log_rates_without_meta_witness :
  effInputRate (resolveConsumeLogBillingRates (VObj
    [(js "modelRatio", num_arg 3); (js "channelPriceDiscountPercent", num_arg 50)]))
  = dec_num false 15 (-1).
Proof.
  destruct (log_rates_without_meta (VObj
    [(js "modelRatio", num_arg 3); (js "channelPriceDiscountPercent", num_arg 50)]))
    as (_ & _ & -> & _); [vm_compute; reflexivity|closed_amount..|vm_compute; reflexivity].
Defined.

Lemma cost_items_ordered_witness :
  sublist (map item_key (computeChannelCostRates (VObj [(js "globalModelRatio", num_arg 2)]))) cost_keys.
Proof.
  refine (proj1 (cost_items_ordered (VObj [(js "globalModelRatio", num_arg 2)]) _)).
  vm_compute. reflexivity.
Defined.
