(* ===== verification/PricingFilter.v ===== *)
(** * Filters of the model market (hooks/model-pricing)

    The list of models behind each group of filter buttons
    (usePricingFilterCounts.js: for each facet, the models that pass every
    filter but its own), and the filters of the page itself
    (useModelPricingData.jsx). *)

From Stdlib Require Import SpecFloat.
From stdpp Require Import base list numbers strings.
From S2P Require Import Prelude JsNumber JsString JsValue.
Local Open Scope Z_scope.
Local Open Scope js_scope.

(** A channel of a model, and a model, as the pricing interface returns them;
    [None] is an absent field. *)
Record MarketChannel := {
  supplier_type : option jsstr;
  supplier_alias : option jsstr
}.

Record MarketModel := {
  model_name : option jsstr;
  description : option jsstr;
  tags : option jsstr;
  vendor_name : option jsstr;
  quota_type : jsval;
  enable_groups : option (list jsstr);
  supported_endpoint_types : option (list jsstr);
  channel_list : option (list MarketChannel)
}.

Record Filters := {
  filterGroup : jsstr;
  filterQuotaType : jsval;
  filterEndpointType : jsstr;
  filterVendor : jsstr;
  filterTag : jsstr;
  filterSupplierType : jsstr;
  (** known to the page only *)
  filterSupplier : jsstr;
  searchValue : jsstr
}.

Inductive Facet := FGroup | FQuota | FEndpoint | FVendor | FTag | FSupplierType | FSearch.

#[export] Instance Facet_eq_dec : EqDecision Facet.
Proof. solve_decision. Defined.

Definition facets : list Facet := [FGroup; FQuota; FEndpoint; FVendor; FTag; FSupplierType; FSearch].

Section Filter.
Context `{Unicode}.

(** [/\[,;|\]+/]: the empty parts a run of separators adds are dropped with
    the other empty tags. *)
Definition tag_separator (c : Z) : bool := (c =? 44) || (c =? 59) || (c =? 124).

Definition normalizeTags (tags : jsstr) : list jsstr :=
  base.filter (fun x => str_truthy x = true)
    (map trim (split_on 44 (map (fun c => if tag_separator c then 44 else c) (toLowerCase tags)))).

(** [field && field.toLowerCase().includes(term)] *)
Definition field_includes (term : jsstr) (field : option jsstr) : bool :=
  let text := default [] field in str_truthy text && includes term (toLowerCase text).

(** The test of one facet on a model; a facet set to 'all' lets all pass. *)
Definition passes (f : Filters) (facet : Facet) (m : MarketModel) : bool :=
  let all := js "all" in
  match facet with
  | FGroup =>
      bool_decide (filterGroup f = all)
      || match enable_groups m with Some gs => bool_decide (filterGroup f ∈ gs) | None => false end
  | FQuota => is_str (filterQuotaType f) all || strict_eq (quota_type m) (filterQuotaType f)
  | FEndpoint =>
      bool_decide (filterEndpointType f = all)
      || match supported_endpoint_types m with
         | Some es => bool_decide (filterEndpointType f ∈ es)
         | None => false
         end
  | FVendor =>
      bool_decide (filterVendor f = all)
      || (if bool_decide (filterVendor f = js "unknown")
          then negb (str_truthy (default [] (vendor_name m)))
          else bool_decide (vendor_name m = Some (filterVendor f)))
  | FTag =>
      bool_decide (filterTag f = all)
      || bool_decide (toLowerCase (filterTag f) ∈ normalizeTags (default [] (tags m)))
  | FSupplierType =>
      bool_decide (filterSupplierType f = all)
      || match channel_list m with
         | Some cs => existsb (fun c => bool_decide (default [] (supplier_type c) = filterSupplierType f)) cs
         | None => false
         end
  | FSearch =>
      negb (str_truthy (searchValue f))
      || (let term := toLowerCase (searchValue f) in
          field_includes term (model_name m) || field_includes term (description m)
          || field_includes term (tags m) || field_includes term (vendor_name m))
  end.

(** [matchesFilters]: each test unless it is ignored, in order *)
Definition matchesFilters (f : Filters) (m : MarketModel) (ignore : list Facet) : bool :=
  forallb (fun facet => bool_decide (facet ∈ ignore) || passes f facet m) facets.

(** [quotaTypeModels], [endpointTypeModels], [vendorModels], [tagModels],
    [groupCountModels] and [supplierTypeModels] *)
Definition facetModels (f : Filters) (facet : Facet) (allModels : list MarketModel)
    : list MarketModel :=
  base.filter (fun m => matchesFilters f m [facet] = true) allModels.

(** [result.filter(test)] when a filter is set *)
Definition when_set (setting : jsstr) (test : MarketModel -> bool) (result : list MarketModel)
    : list MarketModel :=
  if bool_decide (setting = js "all") then result else base.filter (fun m => test m = true) result.

(** The tests of the page's own filters, as it writes them. *)
Definition has_endpoint (f : Filters) (m : MarketModel) : bool :=
  match supported_endpoint_types m with
  | Some es => bool_decide (filterEndpointType f ∈ es)
  | None => false
  end.

Definition has_vendor (f : Filters) (m : MarketModel) : bool :=
  if bool_decide (filterVendor f = js "unknown")
  then negb (str_truthy (default [] (vendor_name m)))
  else bool_decide (vendor_name m = Some (filterVendor f)).

Definition has_channel (test : MarketChannel -> bool) (m : MarketModel) : bool :=
  match channel_list m with
  | None | Some [] => false
  | Some cs => existsb test cs
  end.

Definition has_tag (f : Filters) (m : MarketModel) : bool :=
  match tags m with
  | Some text =>
      str_truthy text && bool_decide (toLowerCase (filterTag f) ∈ normalizeTags text)
  | None => false
  end.

Definition has_term (f : Filters) (m : MarketModel) : bool :=
  let term := toLowerCase (searchValue f) in
  field_includes term (model_name m) || field_includes term (description m)
  || field_includes term (tags m) || field_includes term (vendor_name m).

(** The filters after the one by group. *)
Definition filter_rest (f : Filters) (models : list MarketModel) : list MarketModel :=
  let quota := fun m => is_str (filterQuotaType f) (js "all")
                        || strict_eq (quota_type m) (filterQuotaType f) in
  let result := base.filter (fun m => quota m = true) models in
  let result := when_set (filterEndpointType f) (has_endpoint f) result in
  let result := when_set (filterVendor f) (has_vendor f) result in
  let result := when_set (filterSupplier f)
    (has_channel (fun c => bool_decide (default [] (supplier_alias c) = filterSupplier f))) result in
  let result := when_set (filterSupplierType f)
    (has_channel (fun c => bool_decide (default [] (supplier_type c) = filterSupplierType f))) result in
  let result := when_set (filterTag f) (has_tag f) result in
  if str_truthy (searchValue f) then base.filter (fun m => has_term f m = true) result else result.

(** [filteredModels] before sorting: the models that the page lists.  [None]
    is the TypeError of [model.enable_groups.includes] on a model without
    groups. *)
Definition filteredModels (f : Filters) (models : list MarketModel) : option (list MarketModel) :=
  if bool_decide (filterGroup f = js "all") then Some (filter_rest f models)
  else if forallb (fun m => match enable_groups m with Some _ => true | None => false end) models
  then Some (filter_rest f
         (base.filter (fun m => match enable_groups m with
                                | Some gs => bool_decide (filterGroup f ∈ gs)
                                | None => false
                                end = true) models))
  else None.

(** The settings the memo of a facet depends on: all but its own. *)
Definition same_but (facet : Facet) (f f' : Filters) : Prop :=
  (facet = FGroup \/ filterGroup f = filterGroup f') /\
  (facet = FQuota \/ filterQuotaType f = filterQuotaType f') /\
  (facet = FEndpoint \/ filterEndpointType f = filterEndpointType f') /\
  (facet = FVendor \/ filterVendor f = filterVendor f') /\
  (facet = FTag \/ filterTag f = filterTag f') /\
  (facet = FSupplierType \/ filterSupplierType f = filterSupplierType f') /\
  (facet = FSearch \/ searchValue f = searchValue f').

Lemma facets_all facet : facet ∈ facets.
Proof. destruct facet; apply (bool_decide_unpack _); vm_compute; exact I. Qed.

Lemma matches_iff f m ignore :
  matchesFilters f m ignore = true <-> forall g, g ∉ ignore -> passes f g m = true.
Proof.
  unfold matchesFilters. rewrite forallb_forall. split.
  - intros A g N. specialize (A g (proj1 (list_elem_of_In _ _) (facets_all g))).
    by rewrite bool_decide_false in A.
  - intros A g _. destruct (decide (g ∈ ignore)); [by rewrite bool_decide_true|].
    rewrite A by done. apply orb_true_r.
Qed.

Lemma matches_split f m facet :
  matchesFilters f m [] = true <-> matchesFilters f m [facet] = true /\ passes f facet m = true.
Proof.
  rewrite !matches_iff. split.
  - intros A. split; [|apply A, not_elem_of_nil]. intros g _. apply A, not_elem_of_nil.
  - intros [A P] g _. destruct (decide (g = facet)) as [->|N]; [done|].
    apply A. by rewrite list_elem_of_singleton.
Qed.

Lemma passes_same facet f f' g m : same_but facet f f' -> g <> facet -> passes f g m = passes f' g m.
Proof.
  intros (A & B & C & D & E & F & G) N. destruct g; cbn [passes];
    [destruct A as [|A]|destruct B as [|B]|destruct C as [|C]|destruct D as [|D]
    |destruct E as [|E]|destruct F as [|F]|destruct G as [|G]]; try congruence;
    first [by rewrite A|by rewrite B|by rewrite C|by rewrite D|by rewrite E|by rewrite F|by rewrite G].
Qed.

Lemma facetModels_same facet f f' models : same_but facet f f' ->
  facetModels f facet models = facetModels f' facet models.
Proof.
  intros S. apply list_filter_iff. intros m. rewrite !matches_iff.
  split; intros A g N; specialize (A g N); rewrite list_elem_of_singleton in N;
    [rewrite <- (passes_same facet f f')|rewrite (passes_same facet f f')]; done.
Qed.

(** A chain of filters is one filter. *)
Lemma filter_bool (p : MarketModel -> bool) l : base.filter (fun m => p m = true) l = List.filter p l.
Proof.
  induction l as [|x l IH]; [done|]. rewrite filter_cons, IH. cbn.
  by destruct (p x) eqn:E; [rewrite decide_True|rewrite decide_False by congruence].
Qed.

Lemma filter_and (p q : MarketModel -> bool) l :
  List.filter q (List.filter p l) = List.filter (fun m => p m && q m) l.
Proof.
  induction l as [|x l IH]; [done|]. cbn. destruct (p x) eqn:E; cbn; [|done].
  by destruct (q x); rewrite IH.
Qed.

Lemma when_set_filter setting test l :
  when_set setting test l = List.filter (fun m => bool_decide (setting = js "all") || test m) l.
Proof.
  unfold when_set. case_bool_decide; [|by rewrite filter_bool].
  cbn. induction l as [|x l IH]; cbn; congruence.
Qed.

Lemma has_channel_existsb test m :
  has_channel test m = match channel_list m with Some cs => existsb test cs | None => false end.
Proof. unfold has_channel. by destruct (channel_list m) as [[|]|]. Qed.

Lemma normalizeTags_nil : normalizeTags [] = [].
Proof. reflexivity. Qed.

Lemma has_tag_spec f m :
  has_tag f m = bool_decide (toLowerCase (filterTag f) ∈ normalizeTags (default [] (tags m))).
Proof.
  unfold has_tag. destruct (tags m) as [[|c s]|]; cbn [default str_truthy andb]; [..|done];
    done.
Qed.

Lemma search_filter f l :
  (if str_truthy (searchValue f) then base.filter (fun m => has_term f m = true) l else l)
  = List.filter (passes f FSearch) l.
Proof.
  rewrite filter_bool. destruct (str_truthy (searchValue f)) eqn:E.
  - apply List.filter_ext. intros m. cbn [passes]. by rewrite E.
  - symmetry. apply List.forallb_filter_id, forallb_forall. intros m _. cbn [passes]. by rewrite E.
Qed.

(** The page tests the same facets. *)
Lemma filter_rest_spec f models : filterSupplier f = js "all" ->
  filter_rest f models =
    List.filter (fun m => passes f FQuota m && passes f FEndpoint m && passes f FVendor m
                          && passes f FSupplierType m && passes f FTag m && passes f FSearch m) models.
Proof.
  intros S. unfold filter_rest.
  rewrite search_filter, !when_set_filter, filter_bool, S, !filter_and.
  rewrite (bool_decide_true (js "all" = js "all")) by done.
  apply List.filter_ext. intros m. rewrite !has_channel_existsb, has_tag_spec.
  rewrite orb_true_l, andb_true_l, !andb_assoc. reflexivity.
Qed.

Lemma filteredModels_spec f models shown : filterSupplier f = js "all" ->
  filteredModels f models = Some shown ->
  shown = base.filter (fun m => matchesFilters f m [] = true) models.
Proof.
  intros S E. unfold filteredModels in E.
  assert (shown = List.filter (fun m => passes f FGroup m &&
      (passes f FQuota m && passes f FEndpoint m && passes f FVendor m
       && passes f FSupplierType m && passes f FTag m && passes f FSearch m)) models) as ->.
  { case_bool_decide as A.
    - injection E as <-. rewrite filter_rest_spec by done. apply List.filter_ext. intros m.
      cbn [passes]. rewrite (bool_decide_true (filterGroup f = js "all")) by exact A. reflexivity.
    - destruct (forallb _ models); [|done]. injection E as <-.
      rewrite filter_rest_spec, filter_bool, filter_and by done. apply List.filter_ext. intros m.
      cbn [passes]. by rewrite (bool_decide_false (filterGroup f = js "all")). }
  rewrite filter_bool. apply List.filter_ext. intros m. apply Bool.eq_iff_eq_true.
  rewrite matches_iff, !andb_true_iff. split.
  - intros (A & ((((B & C) & D) & F) & G) & I) g _. by destruct g.
  - intros A. split_and!; apply A, not_elem_of_nil.
Qed.

(** C40. The counts beside the filter buttons are right: the models listed
    under a facet are those that pass every other filter; when no supplier is
    selected the page shows exactly the ones of them that pass the facet's own
    filter, in the same order; and the list of a facet does not change with
    its own setting, so the memo that leaves it out of its dependencies is
    never stale. *)
Theorem facet_models_exact f facet models shown :
  filterSupplier f = js "all" -> filteredModels f models = Some shown ->
  (forall m, m ∈ facetModels f facet models <->
     m ∈ models /\ forall g, g <> facet -> passes f g m = true) /\
  shown = base.filter (fun m => passes f facet m = true) (facetModels f facet models) /\
  (forall f', same_but facet f f' -> facetModels f' facet models = facetModels f facet models).
Proof.
  intros S P. split_and!.
  - intros m. unfold facetModels. rewrite list_elem_of_filter, matches_iff.
    split; [intros [A I]; split; [done|]|intros [I A]; split; [|done]]; intros g N; apply A.
    + by rewrite list_elem_of_singleton.
    + by rewrite list_elem_of_singleton in N.
  - rewrite (filteredModels_spec f models shown S P). unfold facetModels.
    rewrite list_filter_filter. apply list_filter_iff.
    intros m. rewrite (matches_split f m facet). tauto.
  - intros f' E. symmetry. by apply facetModels_same.
Qed.
End Filter.

(** ** Instances *)

Definition sample_model (name tag : string) : MarketModel := {|
  model_name := Some (js name); description := None; tags := Some (js tag); vendor_name := None;
  quota_type := VNum n0; enable_groups := Some [js "default"];
  supported_endpoint_types := None;
  channel_list := Some [{| supplier_type := Some (js "official"); supplier_alias := None |}] |}.

Definition sample_filters : Filters := {|
  filterGroup := js "default"; filterQuotaType := VNum n0; filterEndpointType := js "all";
  filterVendor := js "unknown"; filterTag := js "chat"; filterSupplierType := js "official";
  filterSupplier := js "all"; searchValue := js "gpt" |}.

Definition sample_models : list MarketModel :=
  [sample_model "gpt-4" "chat;code"; sample_model "gpt-5" "code"; sample_model "o1" "chat"].

Lemma facet_models_exact_witness :
  exists shown, length shown = 1%nat /\
    shown = base.filter (fun m => passes (H := code_unit_unicode) sample_filters FTag m = true)
      (facetModels (H := code_unit_unicode) sample_filters FTag sample_models).
Proof.
  exists [sample_model "gpt-4" "chat;code"]. split; [reflexivity|].
  refine (proj1 (proj2 (facet_models_exact (H := code_unit_unicode) sample_filters FTag sample_models _ _ _)));
    vm_compute; reflexivity.
Defined.
