(* ===== verification/MarketPrice.v ===== *)
(** * Prices of the model market (helpers/utils.jsx)

    The group a price is shown for, the range over the channels of a model,
    the displayed prices, and the commission percentages.  Records of models
    and ratio maps are the objects the pricing interface returns. *)

From Stdlib Require Import SpecFloat.
From stdpp Require Import base list numbers strings.
From S2P Require Import Prelude JsNumber JsOrder JsString JsValue JsJson BillingFormula.
Local Open Scope Z_scope.
Local Open Scope js_scope.

(** ** [parseFloat] *)

(** The exponent a literal goes on with, if it is complete. *)
Definition exponent_prefix (s : jsstr) : jsstr :=
  match s with
  | c :: r =>
      if (c =? 101) || (c =? 69) then
        let '(sign, digits) := match r with
                               | d :: r' => if (d =? 43) || (d =? 45) then ([d], r') else ([], r)
                               | [] => ([], [])
                               end in
        match fst (span_digits digits) with [] => [] | ds => c :: sign ++ ds end
      else []
  | [] => []
  end.

(** The longest prefix that is a decimal literal. *)
Definition decimal_prefix (s : jsstr) : jsstr :=
  let '(ip, r) := span_digits s in
  let '(fp, r') := match r with
                   | c :: r' => if c =? 46 then span_digits r' else ([], r)
                   | [] => ([], [])
                   end in
  match ip, fp with
  | [], [] => []
  | _, [] => ip ++ exponent_prefix (match r with c :: _ => if c =? 46 then r' else r | [] => [] end)
  | _, _ => ip ++ 46 :: fp ++ exponent_prefix r'
  end.

Definition parseFloat (s : jsstr) : spec_float :=
  let t := drop_ws s in
  let '(sign, u) := match t with
                    | c :: r => if c =? 43 then ([], r) else if c =? 45 then ([45], r) else ([], t)
                    | [] => ([], [])
                    end in
  if starts_with (js "Infinity") u then S754_infinity (str_truthy sign)
  else match decimal_prefix u with [] => nan | d => num_of_str (sign ++ d) end.

(** ** The group of a price *)

(** [a < b] *)
Definition js_lt (a b : jsval) : bool :=
  match a, b with
  | VStr x, VStr y => code_unit_compare x y <? 0
  | _, _ => nltb (to_num a) (to_num b)
  end.

Definition is_undef (v : jsval) : bool := match v with VUndef => true | _ => false end.

(** The loop over the groups: the least ratio so far, its group and itself. *)
Fixpoint cheapest_group (groupRatio : jsval) (groups : list jsval) (minR usedGroup usedRatio : jsval)
    : jsval * jsval :=
  match groups with
  | [] => (usedGroup, usedRatio)
  | g :: rest =>
      let r := vget groupRatio (to_str g) in
      if negb (is_undef r) && js_lt r minR then cheapest_group groupRatio rest r g r
      else cheapest_group groupRatio rest minR usedGroup usedRatio
  end.

Definition getUsedGroupContext (record selectedGroup groupRatio : jsval) : jsval * jsval :=
  let selectedRatio := vget groupRatio (to_str selectedGroup) in
  if is_str selectedGroup (js "all") || is_undef selectedRatio then
    let '(g, r) := cheapest_group groupRatio (as_arr (vget record (js "enable_groups")))
                     (VNum (S754_infinity false)) selectedGroup selectedRatio in
    (g, if is_undef r then num_arg 1 else r)
  else (selectedGroup, selectedRatio).

(** ** The range over the channels *)

Definition pick (channels : list jsval) (key : string) : list spec_float :=
  base.filter (fun v => isFinite v = true) (map (fun c => to_num (vget c (js key))) channels).

(** [Math.min(...l)] and [Math.max(...l)] of a list that is not empty *)
Definition least (l : list spec_float) : option spec_float :=
  match l with [] => None | x :: r => Some (fold_left nmin r x) end.
Definition greatest (l : list spec_float) : option spec_float :=
  match l with [] => None | x :: r => Some (fold_left nmax r x) end.

Record Bounds := {
  minModelRatio : spec_float;
  maxModelRatio : spec_float;
  minCompletionRatio : option spec_float;
  maxCompletionRatio : option spec_float;
  minModelPrice : option spec_float;
  maxModelPrice : option spec_float
}.

Definition getBoundsFromChannelList (record : jsval) : option Bounds :=
  let ch := as_arr (vget record (js "channel_list")) in
  let ratios := pick ch "model_ratio" in
  let completions := pick ch "completion_ratio" in
  let prices := pick ch "model_price" in
  match least ratios, greatest ratios with
  | Some lo, Some hi => Some {|
      minModelRatio := lo; maxModelRatio := hi;
      minCompletionRatio := least completions; maxCompletionRatio := greatest completions;
      minModelPrice := least prices; maxModelPrice := greatest prices |}
  | _, _ => None
  end.

(** ** Displayed prices *)

(** [Object.prototype.hasOwnProperty.call(map, key)] for a map of the
    pricing interface *)
Definition has_own (map key : jsval) : bool :=
  match map with
  | VObj o => match assoc_get o (to_str key) with Some _ => true | None => false end
  | _ => false
  end.

Definition formatRatio (value : jsval) : option spec_float :=
  if hasBillingRatioValue value then Some (num_of_str (to_fixed 6 (to_num value))) else None.

(** The symbol of the displayed currency. *)
Definition currency_symbol (currency : jsstr) (statusText : option jsstr) : jsval :=
  if bool_decide (currency = js "CNY") then VStr (js "¥")
  else if bool_decide (currency = js "CUSTOM") then
    match statusText with
    | Some s =>
        if str_truthy s then
          match JSON_parse s with
          | Some v => vget v (js "custom_currency_symbol") ||| VStr (js "¤")
          | None => VStr (js "¤")
          end
        else VStr (js "¤")
    | None => VStr (js "¤")
    end
  else VStr (js "$").

(** [rawDisplayPrice.replace(/\[^0-9.\]/g, '')] *)
Definition keep_numeric (s : jsstr) : jsstr := base.filter (fun c => is_digit c || (c =? 46) = true) s.

Record TokenRatios := {
  inputRatio : option spec_float;
  completionRatio : option spec_float;
  cacheRatio : option spec_float;
  createCacheRatio : option spec_float;
  imageRatio : option spec_float;
  audioInputRatio : option spec_float;
  audioOutputRatio : option spec_float
}.

Record TokenPrices := {
  inputPrice : jsstr;
  inputPriceMin : option jsstr;
  inputPriceMax : option jsstr;
  completionPrice : jsstr;
  completionPriceMin : option jsstr;
  completionPriceMax : option jsstr;
  cachePrice : option jsstr;
  createCachePrice : option jsstr;
  imagePrice : option jsstr;
  audioInputPrice : option jsstr;
  audioOutputPrice : option jsstr;
  unitLabel : jsstr;
  hasRange : bool
}.

Inductive PriceKind :=
  | Ratios (r : TokenRatios) (source : jsstr)
  | Prices (p : TokenPrices) (source : jsstr)
  | PerCall (price : jsstr) (source : jsstr)
  | Unknown.

Record PriceData := { kind : PriceKind; usedGroup : jsval; usedGroupRatio : jsval }.

(** [displayPrice] of the page (hooks/model-pricing/useModelPricingData.jsx):
    a price in dollars as text in the displayed currency. *)
Definition displayPrice (showWithRecharge : bool) (currency : jsstr)
    (priceRate usdExchangeRate customExchangeRate customCurrencySymbol : jsval)
    (usdPrice : spec_float) : jsstr :=
  let priceInUSD :=
    if showWithRecharge then ndiv (nmul usdPrice (to_num priceRate)) (to_num usdExchangeRate)
    else usdPrice in
  let rounded (x : spec_float) := str_of_num (parseFloat (to_fixed 2 x)) in
  if bool_decide (currency = js "CNY")
  then js "¥" ++ rounded (nmul priceInUSD (to_num usdExchangeRate))
  else if bool_decide (currency = js "CUSTOM")
  then to_str customCurrencySymbol ++ rounded (nmul priceInUSD (to_num customExchangeRate))
  else js "$" ++ rounded priceInUSD.

Section Price.
(** The function the page passes as [displayPrice]. *)
Variable display : spec_float -> jsstr.

Section TokenPrice.
Variables (record : jsval) (tokenUnit currency : jsstr) (statusText : option jsstr) (precision : Z).
Variables (effectiveModelRatio groupFactor : spec_float).

Local Abbreviation field k := (vget record (js k)).

Definition formatTokenPrice (priceUSD : spec_float) : jsstr :=
  let unitDivisor := if bool_decide (tokenUnit = js "K") then num_of_Z 1000 else n1 in
  let numericPrice := ndiv (parseFloat (keep_numeric (display priceUSD))) unitDivisor in
  to_str (currency_symbol currency statusText)
    ++ str_of_num (parseFloat (to_fixed precision numericPrice)).

(** The least and greatest model and completion ratios the price covers. *)
Definition price_bounds : spec_float * spec_float * spec_float * spec_float * bool :=
  let completion := to_num (field "completion_ratio") in
  match getBoundsFromChannelList record with
  | Some b =>
      let lo := default completion (minCompletionRatio b) in
      let hi := default completion (maxCompletionRatio b) in
      (minModelRatio b, maxModelRatio b, lo, hi,
       negb (neqb (minModelRatio b) (maxModelRatio b)) || negb (neqb lo hi))
  | None => (effectiveModelRatio, effectiveModelRatio, completion, completion, false)
  end.

(** A price relative to the input price, when its ratio is a number. *)
Definition relative_price (input : spec_float) (v : jsval) : option jsstr :=
  if hasBillingRatioValue v then Some (formatTokenPrice (nmul input (to_num v))) else None.

Definition token_prices : TokenPrices :=
  let '(lo, hi, clo, chi, ranged) := price_bounds in
  let usd r := nmul (nmul r n2) groupFactor in
  let input := usd lo in
  let when (p : jsstr) := if ranged then Some p else None in
  let audioInput := relative_price input (field "audio_ratio") in
  {| inputPrice := formatTokenPrice input;
     inputPriceMin := when (formatTokenPrice (usd lo));
     inputPriceMax := when (formatTokenPrice (usd hi));
     completionPrice := formatTokenPrice (nmul input clo);
     completionPriceMin := when (formatTokenPrice (nmul (usd lo) clo));
     completionPriceMax := when (formatTokenPrice (nmul (usd hi) chi));
     cachePrice := relative_price input (field "cache_ratio");
     createCachePrice := relative_price input (field "create_cache_ratio");
     imagePrice := relative_price input (field "image_ratio");
     audioInputPrice := audioInput;
     audioOutputPrice :=
       match audioInput with
       | Some a =>
           if str_truthy a && hasBillingRatioValue (field "audio_completion_ratio")
           then Some (formatTokenPrice
                        (nmul (nmul input (to_num (field "audio_ratio")))
                           (to_num (field "audio_completion_ratio"))))
           else None
       | None => None
       end;
     unitLabel := if bool_decide (tokenUnit = js "K") then js "K" else js "M";
     hasRange := ranged |}.

Definition token_ratios : TokenRatios :=
  let '(lo, _, _, _, _) := price_bounds in
  {| inputRatio := formatRatio (VNum lo);
     completionRatio := formatRatio (field "completion_ratio");
     cacheRatio := formatRatio (field "cache_ratio");
     createCacheRatio := formatRatio (field "create_cache_ratio");
     imageRatio := formatRatio (field "image_ratio");
     audioInputRatio := formatRatio (field "audio_ratio");
     audioOutputRatio := formatRatio (field "audio_completion_ratio") |}.
End TokenPrice.

Definition calculateModelPrice (record selectedGroup groupRatio groupModelPrice groupModelRatio : jsval)
    (tokenUnit currency quotaDisplayType : jsstr) (statusText : option jsstr) (precision : Z)
    : PriceData :=
  let '(group, factor) := getUsedGroupContext record selectedGroup groupRatio in
  let name := vget record (js "model_name") in
  let groupPriceMap := vget groupModelPrice (to_str group) ||| VObj [] in
  let groupRatioMap := vget groupModelRatio (to_str group) ||| VObj [] in
  let hasGroupModelPrice := has_own groupPriceMap name in
  let hasGroupModelRatio := has_own groupRatioMap name in
  let effectiveModelPrice :=
    to_num (if hasGroupModelPrice then vget groupPriceMap (to_str name)
            else vget record (js "model_price")) in
  let effectiveModelRatio :=
    to_num (if hasGroupModelRatio then vget groupRatioMap (to_str name)
            else vget record (js "model_ratio")) in
  let source (own : bool) := if own then js "group" else js "global" in
  {| kind :=
       match vget record (js "quota_type") with
       | VNum q =>
           if neqb q n0 then
             if bool_decide (quotaDisplayType = js "TOKENS")
             then Ratios (token_ratios record effectiveModelRatio) (source hasGroupModelRatio)
             else Prices (token_prices record tokenUnit currency statusText precision
                            effectiveModelRatio (to_num factor)) (source hasGroupModelRatio)
           else if neqb q n1
           then PerCall (display (nmul effectiveModelPrice (to_num factor)))
                  (source hasGroupModelPrice)
           else Unknown
       | _ => Unknown
       end;
     usedGroup := group; usedGroupRatio := factor |}.

(** The range over the channels, as ratios or as prices. *)
Inductive PriceRange :=
  | RatioRange (minRatio maxRatio : jsstr)
  | UsdRange (minPrice maxPrice : jsstr) (isPerToken : bool).

Definition calculatePriceRange (record : jsval) (quotaDisplayType : jsstr) : option PriceRange :=
  match getBoundsFromChannelList record, vget record (js "quota_type") with
  | Some b, VNum q =>
      if neqb q n0 then
        if bool_decide (quotaDisplayType = js "TOKENS")
        then Some (RatioRange (to_fixed 6 (minModelRatio b)) (to_fixed 6 (maxModelRatio b)))
        else Some (UsdRange (display (nmul (minModelRatio b) n2))
                     (display (nmul (maxModelRatio b) n2)) true)
      else if neqb q n1 then
        match minModelPrice b, maxModelPrice b with
        | Some lo, Some hi => Some (UsdRange (display lo) (display hi) false)
        | _, _ => None
        end
      else None
  | _, _ => None
  end.
End Price.

(** ** The items of a price card *)

Record PriceItem := { item_id : jsstr; item_label : jsstr; item_value : jsstr; item_suffix : jsstr }.

Section Items.
Variable t : jsstr -> list (jsstr * jsstr) -> jsstr.
Local Abbreviation tr s := (t (js s) []).

Definition price_item (key label suffix : jsstr) (value : option jsstr) : list PriceItem :=
  match value with
  | Some (c :: v) =>
      [{| item_id := key; item_label := label; item_value := c :: v; item_suffix := suffix |}]
  | _ => []
  end.

Definition ratio_item (key label : jsstr) (value : option spec_float) : list PriceItem :=
  price_item key label (js "x") (str_of_num <$> value).

(** A price, or the range it covers. *)
Definition formatPriceValue (ranged : bool) (price : jsstr) (lo hi : option jsstr) : jsstr :=
  match lo, hi with
  | Some a, Some b =>
      if ranged && str_truthy a && str_truthy b && negb (bool_decide (a = b))
      then a ++ js " ~ " ++ b else price
  | _, _ => price
  end.

(** The values of ratios are numbers in the source, shown as text; with the
    ratio display the prices of another display have no ratio to show. *)
Definition getModelPriceItems (k : PriceKind) (quotaDisplayType : jsstr) : list PriceItem :=
  match k with
  | Ratios r _ =>
      ratio_item (js "input-ratio") (tr "输入倍率") (inputRatio r)
      ++ ratio_item (js "completion-ratio") (tr "输出倍率") (completionRatio r)
      ++ ratio_item (js "cache-ratio") (tr "缓存读取倍率") (cacheRatio r)
      ++ ratio_item (js "create-cache-ratio") (tr "缓存创建倍率") (createCacheRatio r)
      ++ ratio_item (js "image-ratio") (tr "图片输入倍率") (imageRatio r)
      ++ ratio_item (js "audio-input-ratio") (tr "音频输入倍率") (audioInputRatio r)
      ++ ratio_item (js "audio-output-ratio") (tr "音频输出倍率") (audioOutputRatio r)
  | Prices p _ =>
      if bool_decide (quotaDisplayType = js "TOKENS") then [] else
      let suffix := js " / 1" ++ unitLabel p ++ js " Tokens" in
      price_item (js "input") (tr "输入价格") suffix
        (Some (formatPriceValue (hasRange p) (inputPrice p) (inputPriceMin p) (inputPriceMax p)))
      ++ price_item (js "completion") (tr "输出价格") suffix
           (Some (formatPriceValue (hasRange p) (completionPrice p)
                    (completionPriceMin p) (completionPriceMax p)))
      ++ price_item (js "image") (tr "图片输入价格") suffix (imagePrice p)
      ++ price_item (js "audio-input") (tr "音频输入价格") suffix (audioInputPrice p)
      ++ price_item (js "audio-output") (tr "音频输出价格") suffix (audioOutputPrice p)
  | PerCall price _ => price_item (js "fixed") (tr "模型价格") (js " / " ++ tr "次") (Some price)
  | Unknown => price_item (js "fixed") (tr "模型价格") (js " / " ++ tr "次") (Some (js "-"))
  end.
End Items.

(** ** Commission percentages *)

(** [s.replace(/\.?0+$/, '')] *)
Definition strip_fraction_zeros (s : jsstr) : jsstr :=
  let fix drop_zeros (r : jsstr) : jsstr :=
    match r with c :: r' => if c =? 48 then drop_zeros r' else r | [] => [] end in
  let r := reverse s in
  match r with
  | 48 :: _ => match drop_zeros r with
               | 46 :: r' => reverse r'
               | r' => reverse r'
               end
  | _ => s
  end.

Definition formatCommissionRatioPercent (bps : jsval) : jsstr :=
  let n := to_num bps in
  if nullish bps || match n with S754_nan => true | _ => false end then js "—"
  else
    let p := ndiv n n100 in
    if isFinite p then strip_fraction_zeros (to_fixed 8 p) ++ js "%" else js "—".

Definition commissionBpsToPercentInputString (bps : jsval) : jsstr :=
  if nullish bps || neqb (to_num bps) n0 then js "0"
  else
    let p := ndiv (to_num bps) n100 in
    if isFinite p then strip_fraction_zeros (to_fixed 8 p) else js "0".

Definition parseCommissionPercentStringToBps (s : jsval) : spec_float :=
  let text := trim (to_str (s ??? VStr [])) in
  if bool_decide (text = []) || bool_decide (text = js "-") then n0
  else
    let p := parseFloat text in
    match p with
    | S754_nan => nan
    | _ => if nltb p n0 || nltb n100 p then nan else math_round (nmul p n100)
    end.

(** ** The cheapest group *)

(** A ratio map whose values are finite numbers. *)
Definition ratio_of (groupRatio g : jsval) (x : spec_float) : Prop :=
  vget groupRatio (to_str g) = VNum x /\ isFinite x = true.

Definition numeric_groups (groupRatio : jsval) (groups : list jsval) : Prop :=
  Forall (fun g => vget groupRatio (to_str g) = VUndef \/ exists x, ratio_of groupRatio g x) groups.

Lemma nleb_trans x y z : nleb x y = true -> nleb y z = true -> nleb x z = true.
Proof.
  unfold nleb, SFleb.
  destruct x as [a|[]| |[] m e], y as [b|[]| |[] m' e'], z as [c|[]| |[] m'' e''];
    cbn; try discriminate; trivial;
  change (Pos.compare_cont Eq) with Pos.compare;
  destruct (Z.compare_spec e e'), (Z.compare_spec e' e''), (Z.compare_spec e e'');
    try lia; cbn; trivial; try discriminate; subst;
  destruct (Pos.compare_spec m m'), (Pos.compare_spec m' m''), (Pos.compare_spec m m'');
    cbn; try discriminate; trivial; lia.
Qed.

Lemma nltb_le x y : nltb x y = true -> nleb x y = true.
Proof. unfold nltb, nleb, SFltb, SFleb. by destruct (SFcompare x y) as [[]|]. Qed.

Lemma finite_refl x : isFinite x = true -> nleb x x = true.
Proof.
  unfold nleb, SFleb. destruct x as [a|[]| |[] m e]; cbn; try done; intros _;
    change (Pos.compare_cont Eq) with Pos.compare; by rewrite Z.compare_refl, Pos.compare_refl.
Qed.

(** Once a group was found, the loop ends with one that is no dearer than it
    and than the groups it still visits. *)
Lemma cheapest_from groupRatio groups g x :
  numeric_groups groupRatio groups -> ratio_of groupRatio g x ->
  exists g' y, cheapest_group groupRatio groups (VNum x) g (VNum x) = (g', VNum y) /\
    (g' = g \/ g' ∈ groups) /\ ratio_of groupRatio g' y /\ nleb y x = true /\
    (forall h z, h ∈ groups -> ratio_of groupRatio h z -> nleb y z = true).
Proof.
  revert g x. induction groups as [|h groups IH]; intros g x N R.
  { exists g, x. split_and!; [done|by left|done|by apply finite_refl, R|].
    by intros h z ?%not_elem_of_nil. }
  apply Forall_cons in N as [H N]. cbn [cheapest_group].
  destruct H as [U|(z & Z & Fz)].
  - rewrite U. cbn [is_undef negb andb]. destruct (IH g x N R) as (g' & y & E & I & R' & L & M).
    exists g', y. split_and!; [done|destruct I; [by left|right; by apply list_elem_of_further]|done|done|].
    intros h' z' [->|J]%elem_of_cons [W F]; [congruence|]. by apply (M h').
  - rewrite Z. cbn [is_undef negb andb js_lt to_num].
    destruct (nltb z x) eqn:C.
    + destruct (IH h z N) as (g' & y & E & I & R' & L & M); [done|].
      exists g', y. split_and!; [done| |done|eapply nleb_trans; [exact L|by apply nltb_le]|].
      * destruct I as [->|I]; right; [apply list_elem_of_here|by apply list_elem_of_further].
      * intros h' z' [->|J]%elem_of_cons [W F]; [congruence|]. by apply (M h').
    + destruct (IH g x N R) as (g' & y & E & I & R' & L & M).
      exists g', y. split_and!; [done|destruct I; [by left|right; by apply list_elem_of_further]|done|done|].
      intros h' z' [->|J]%elem_of_cons [W F]; [|by apply (M h')].
      assert (z' = z) as -> by congruence. eapply nleb_trans; [exact L|].
      rewrite nltb_nleb by (done || apply R). by rewrite C.
Qed.

(** Until then it changes nothing. *)
Lemma cheapest_first groupRatio groups g0 r0 :
  numeric_groups groupRatio groups ->
  (exists g x, g ∈ groups /\ ratio_of groupRatio g x) ->
  exists g' y, cheapest_group groupRatio groups (VNum (S754_infinity false)) g0 r0 = (g', VNum y) /\
    g' ∈ groups /\ ratio_of groupRatio g' y /\
    (forall h z, h ∈ groups -> ratio_of groupRatio h z -> nleb y z = true).
Proof.
  induction groups as [|h groups IH]; intros N (g & x & I & R); [by apply not_elem_of_nil in I|].
  apply Forall_cons in N as [H N]. cbn [cheapest_group]. destruct H as [U|(z & Z & Fz)].
  - rewrite U. cbn [is_undef negb andb].
    destruct IH as (g' & y & E & I' & R' & M); [done| |].
    { apply elem_of_cons in I as [->|I]; [destruct R; congruence|]. by exists g, x. }
    exists g', y. split_and!; [done|by apply list_elem_of_further|done|].
    intros h' z' [->|J]%elem_of_cons [W F]; [congruence|]. by apply (M h').
  - rewrite Z. cbn [is_undef negb andb js_lt to_num].
    assert (nltb z (S754_infinity false) = true) as -> by (by destruct z as [a|[]| |[] m e]).
    destruct (cheapest_from groupRatio groups h z N) as (g' & y & E & I' & R' & L & M); [done|].
    exists g', y. split_and!; [done| |done|].
    + destruct I' as [->|I']; [apply list_elem_of_here|by apply list_elem_of_further].
    + intros h' z' [->|J]%elem_of_cons [W F]; [|by apply (M h')]. congruence.
Qed.

(** Without a usable selected group, a model's price is shown for the
    cheapest of its groups: when some enabled group has a ratio, the group
    used is an enabled one, the ratio used is its ratio, and no enabled group
    has a lower one. *)
Theorem used_group_cheapest record selectedGroup groupRatio :
  is_str selectedGroup (js "all") || is_undef (vget groupRatio (to_str selectedGroup)) = true ->
  let groups := as_arr (vget record (js "enable_groups")) in
  numeric_groups groupRatio groups -> (exists g x, g ∈ groups /\ ratio_of groupRatio g x) ->
  exists g x, getUsedGroupContext record selectedGroup groupRatio = (g, VNum x) /\
    g ∈ groups /\ ratio_of groupRatio g x /\
    (forall h y, h ∈ groups -> ratio_of groupRatio h y -> nleb x y = true).
Proof.
  intros S groups N E. unfold getUsedGroupContext. rewrite S. fold groups.
  destruct (cheapest_first groupRatio groups selectedGroup (vget groupRatio (to_str selectedGroup)) N E)
    as (g & x & -> & I & R & M).
  by exists g, x.
Qed.

(** ** The range over the channels *)

(** [nmin] and [nmax] choose one of two finite numbers, the least and the
    greatest. *)
Lemma nmin_spec x y : isFinite x = true -> isFinite y = true ->
  (nmin x y = x \/ nmin x y = y) /\ nleb (nmin x y) x = true /\ nleb (nmin x y) y = true.
Proof.
  intros Fx Fy. pose proof (finite_refl x Fx) as X. pose proof (finite_refl y Fy) as Y.
  destruct (nltb y x) eqn:C.
  - pose proof (nltb_le _ _ C).
    destruct x as [a|[]| |[] m e], y as [b|[]| |[] m' e']; try discriminate;
      unfold nmin; rewrite ?C; auto.
  - pose proof (nltb_nleb y x Fy Fx) as L. rewrite C in L.
    destruct x as [a|[]| |[] m e], y as [b|[]| |[] m' e']; try discriminate;
      unfold nmin; rewrite ?C; auto.
    destruct a, b; auto.
Qed.

Lemma nmax_spec x y : isFinite x = true -> isFinite y = true ->
  (nmax x y = x \/ nmax x y = y) /\ nleb x (nmax x y) = true /\ nleb y (nmax x y) = true.
Proof.
  intros Fx Fy. pose proof (finite_refl x Fx) as X. pose proof (finite_refl y Fy) as Y.
  destruct (nltb x y) eqn:C.
  - pose proof (nltb_le _ _ C).
    destruct x as [a|[]| |[] m e], y as [b|[]| |[] m' e']; try discriminate;
      unfold nmax; rewrite ?C; auto.
  - pose proof (nltb_nleb x y Fx Fy) as L. rewrite C in L.
    destruct x as [a|[]| |[] m e], y as [b|[]| |[] m' e']; try discriminate;
      unfold nmax; rewrite ?C; auto.
    destruct a, b; auto.
Qed.

(** Folding an operation that chooses an extreme of two finite numbers finds
    the extreme of all. *)
Section Extreme.
Variables (op : spec_float -> spec_float -> spec_float) (R : spec_float -> spec_float -> Prop).
Hypothesis op_spec : forall x y, isFinite x = true -> isFinite y = true ->
  (op x y = x \/ op x y = y) /\ R (op x y) x /\ R (op x y) y.
Hypothesis R_refl : forall x, isFinite x = true -> R x x.
Hypothesis R_trans : forall x y z, R x y -> R y z -> R x z.

Lemma fold_extreme l x : Forall (fun v => isFinite v = true) (x :: l) ->
  fold_left op l x ∈ x :: l /\ forall v, v ∈ x :: l -> R (fold_left op l x) v.
Proof.
  revert x. induction l as [|y l IH]; intros x F.
  { apply Forall_cons in F as [F _]. split; [apply list_elem_of_here|].
    intros v ->%list_elem_of_singleton. by apply R_refl. }
  apply Forall_cons in F as [Fx F]. apply Forall_cons in F as [Fy F]. cbn [fold_left].
  destruct (op_spec x y Fx Fy) as (C & Rx & Ry).
  destruct (IH (op x y)) as [I M]; [constructor; [destruct C as [-> | ->]|]; done|].
  split.
  - apply elem_of_cons in I as [I|I]; [rewrite I|by do 2 apply list_elem_of_further].
    destruct C as [-> | ->]; [apply list_elem_of_here|apply list_elem_of_further, list_elem_of_here].
  - intros v [->|[->|J]%elem_of_cons]%elem_of_cons.
    + eapply R_trans; [apply M, list_elem_of_here|exact Rx].
    + eapply R_trans; [apply M, list_elem_of_here|exact Ry].
    + by apply M, list_elem_of_further.
Qed.
End Extreme.

(** [lo] and [hi] are the extremes of [l], absent when it is empty. *)
Definition tight (l : list spec_float) (lo hi : option spec_float) : Prop :=
  match lo, hi with
  | Some a, Some b => a ∈ l /\ b ∈ l /\ forall v, v ∈ l -> nleb a v = true /\ nleb v b = true
  | None, None => l = []
  | _, _ => False
  end.

Lemma extremes_tight l : Forall (fun v => isFinite v = true) l -> tight l (least l) (greatest l).
Proof.
  destruct l as [|x l]; [done|]. intros F. cbn [least greatest tight].
  destruct (fold_extreme nmin (fun a b => nleb a b = true)
    nmin_spec finite_refl nleb_trans l x F) as [I M].
  destruct (fold_extreme nmax (fun a b => nleb b a = true)
    nmax_spec finite_refl (fun a b c p q => nleb_trans _ _ _ q p) l x F) as [I' M'].
  split; [exact I|]. split; [exact I'|]. auto.
Qed.

Lemma pick_finite ch key : Forall (fun v => isFinite v = true) (pick ch key).
Proof. apply Forall_forall. intros v [F _]%list_elem_of_filter. exact F. Qed.

(** The price range of a model over its channels is exact: there is one
    exactly when some channel has a finite model ratio, and then the least and
    greatest model ratio, completion ratio and price are values of channels
    and bound the finite values of every channel (both are absent when no
    channel has one). *)
Theorem channel_bounds_tight record :
  let ch := as_arr (vget record (js "channel_list")) in
  match getBoundsFromChannelList record with
  | None => pick ch "model_ratio" = []
  | Some b =>
      tight (pick ch "model_ratio") (Some (minModelRatio b)) (Some (maxModelRatio b)) /\
      tight (pick ch "completion_ratio") (minCompletionRatio b) (maxCompletionRatio b) /\
      tight (pick ch "model_price") (minModelPrice b) (maxModelPrice b)
  end.
Proof.
  intros ch. unfold getBoundsFromChannelList. fold ch.
  pose proof (extremes_tight _ (pick_finite ch "model_ratio")) as T.
  destruct (least (pick ch "model_ratio")) as [lo|] eqn:L,
    (greatest (pick ch "model_ratio")) as [hi|] eqn:G; try done.
  split; [exact T|]. split; apply extremes_tight, pick_finite.
Qed.

(** ** Instances *)

Definition sample_group_ratio : jsval :=
  VObj [(js "default", num_arg 1); (js "vip", VNum (dec_num false 8 (-1)))].
Definition sample_record : jsval :=
  VObj [(js "enable_groups", VArr [VStr (js "default"); VStr (js "vip"); VStr (js "beta")])].

Lemma used_group_cheapest_witness :
  exists g x, getUsedGroupContext sample_record (VStr (js "all")) sample_group_ratio = (g, VNum x) /\
    nleb x n1 = true /\ nleb x (dec_num false 8 (-1)) = true.
Proof.
  assert (D : ratio_of sample_group_ratio (VStr (js "default")) n1) by (split; vm_compute; reflexivity).
  assert (V : ratio_of sample_group_ratio (VStr (js "vip")) (dec_num false 8 (-1)))
    by (split; vm_compute; reflexivity).
  destruct (used_group_cheapest sample_record (VStr (js "all")) sample_group_ratio)
    as (g & x & E & I & R & M).
  - vm_compute. reflexivity.
  - repeat apply Forall_cons_2; [right; exists n1; exact D|right; eexists; exact V
      |left; vm_compute; reflexivity|apply Forall_nil_2].
  - exists (VStr (js "default")), n1. split; [apply list_elem_of_here|exact D].
  - exists g, x. split; [exact E|]. split; [apply (M (VStr (js "default")))|apply (M (VStr (js "vip")))];
      [apply list_elem_of_here|exact D|apply list_elem_of_further, list_elem_of_here|exact V].
Defined.
