(* ===== verification/MarketSort.v ===== *)
(** * The model market: loading and order

    Of [hooks/model-pricing/useModelPricingData.jsx]: the keys and the order of
    the rows of a reply, and the sort orders of the page.  Rows are JavaScript
    objects; the filters of the page are in [PricingFilter], its state in
    [MarketPage]. *)

From Stdlib Require Import SpecFloat Sorting.Sorted.
From stdpp Require Import base list numbers strings.
From S2P Require Import Prelude JsNumber JsString JsValue JsOrder MarketPrice.
Local Open Scope Z_scope.
Local Open Scope js_scope.

(** ** Sort keys *)

Definition pos_inf : spec_float := S754_infinity false.

(** [/^P(\d+)$/i] on a text: the digits *)
Definition grade_digits (s : jsstr) : option jsstr :=
  match s with
  | c :: ds =>
      if ((c =? 80) || (c =? 112)) && negb (bool_decide (ds = [])) && forallb is_digit ds then Some ds else None
  | [] => None
  end.

Definition supplierGradeRank (alias : jsval) : spec_float :=
  if truthy alias then
    match grade_digits (trim (to_str alias)) with
    | Some ds => dec_num false (digits_val ds) 0
    | None => pos_inf
    end
  else pos_inf.

(** The least of the values that count, from [best] on. *)
Definition least_of (counts : spec_float -> bool) (values : list spec_float) (best : spec_float) : spec_float :=
  fold_left (fun best v => if counts v && nltb v best then v else best) values best.

Definition channels (m : jsval) : list jsval := as_arr (vget m (js "channel_list")).

Definition fixed_price (m : jsval) : bool := strict_eq (vget m (js "quota_type")) (VNum n1).
Definition price_field (m : jsval) : jsstr := if fixed_price m then js "model_price" else js "model_ratio".

Definition modelUnitPrice (m : jsval) : spec_float :=
  let imageMin := to_num (vget (vget m (js "image_per_image_hint")) (js "min_usd_after_channel_discount")) in
  if isFinite imageMin && nltb n0 imageMin then imageMin
  else
    let best := least_of isFinite (map (fun ch => to_num (vget ch (price_field m))) (channels m)) pos_inf in
    if neqb best pos_inf then
      let v := to_num (vget m (price_field m)) in if isFinite v then v else best
    else best.

Definition modelMinSupplierRank (m : jsval) : spec_float :=
  least_of (fun _ => true) (map (fun ch => supplierGradeRank (vget ch (js "supplier_alias"))) (channels m)) pos_inf.

Definition modelMinLatency (m : jsval) : spec_float :=
  least_of (fun v => isFinite v && nltb n0 v) (map (fun ch => to_num (vget ch (js "test_response_time_ms"))) (channels m)) pos_inf.

Definition getTierDiscountRatio (row : jsval) : spec_float :=
  let current := to_num (vget row (js "usd_after_channel_discount") ||| VNum n0) in
  let official := to_num (vget row (js "usd_official") ||| VNum n0) in
  if negb (isFinite current) || negb (isFinite official) || nleb official n0 || nleb official current then n0
  else nsub n1 (ndiv current official).

Definition getMaxTierDiscountRatio (hint : jsval) : spec_float :=
  fold_left (fun best row => let d := getTierDiscountRatio row in if nltb best d then d else best)
    (as_arr (vget hint (js "tiers"))) n0.

Definition channel_discount (m channel : jsval) : spec_float :=
  let isFixedPrice := fixed_price m || fixed_price channel in
  let k := if isFixedPrice then js "model_price" else js "model_ratio" in
  let channelBase := to_num (vget channel k) in
  let rootBase := to_num (vget m k) in
  if negb (isFinite channelBase) || negb (isFinite rootBase) || nleb rootBase n0 then n0
  else
    let percent := vget channel (js "price_discount_percent") in
    let costDisc := ndiv (if nullish percent then num_of_Z 100 else to_num percent) (num_of_Z 100) in
    let markup := to_num (vget channel (js "markup_discount_rate")) in
    let markupRate := ndiv (if num_truthy markup then markup else n0) (num_of_Z 100) in
    let effective := nadd (nmul channelBase costDisc) (nmul rootBase markupRate) in
    if negb (isFinite effective) || nleb rootBase effective then n0 else nsub n1 (ndiv effective rootBase).

Definition modelDiscountRatio (m : jsval) : spec_float :=
  let videoTierDiscount := getMaxTierDiscountRatio (vget m (js "video_flat_clip_hint")) in
  if nltb n0 videoTierDiscount then videoTierDiscount
  else
    let imageTierDiscount := getMaxTierDiscountRatio (vget m (js "image_per_image_hint")) in
    if nltb n0 imageTierDiscount then imageTierDiscount
    else match channels m with
         | channel :: _ => if truthy channel then channel_discount m channel else n0
         | [] => n0
         end.

(** The heat of the first channel; the list is an array of objects or missing. *)
Definition modelHeatScore (m : jsval) : jsval :=
  match as_arr (vget m (js "channel_list") ??? vget m (js "ChannelList") ??? VArr []) with
  | first :: _ => vget first (js "channel_heat_score") ??? vget first (js "ChannelHeatScore") ??? VNum n0
  | [] => VNum n0
  end.

(** ** Comparators, by sign *)

Section Order.
Context `{Unicode}.

(** The sign of a difference; [sort] takes a NaN for zero. *)
Definition sign_of (x : spec_float) : Z := if nltb n0 x then 1 else if nltb x n0 then -1 else 0.

Definition tieBreak (a b : jsval) : Z :=
  let qa := vget a (js "quota_type") in
  let qb := vget b (js "quota_type") in
  if negb (strict_eq qa qb) then sign_of (nsub (to_num qa) (to_num qb))
  else localeCompare (to_str (vget a (js "model_name"))) (to_str (vget b (js "model_name"))).

Definition cmpAsc (av bv a b : jsval) : Z :=
  if strict_eq av bv then tieBreak a b else if js_lt av bv then -1 else 1.

Definition cmpDesc (av bv a b : jsval) : Z :=
  if strict_eq av bv then tieBreak a b else if js_lt bv av then -1 else 1.

Definition cmpDiscount (a b : jsval) : Z :=
  let discountA := modelDiscountRatio a in
  let discountB := modelDiscountRatio b in
  if negb (neqb discountA discountB) then if nltb discountB discountA then -1 else 1
  else cmpDesc (modelHeatScore a) (modelHeatScore b) a b.

Inductive SortKey := SDefault | SHot | SPrice | SSupplierGrade | SLatency | SDiscount | SOther.

Definition compare_by (key : SortKey) (a b : jsval) : Z :=
  match key with
  | SHot => cmpDesc (modelHeatScore a) (modelHeatScore b) a b
  | SPrice => cmpAsc (VNum (modelUnitPrice a)) (VNum (modelUnitPrice b)) a b
  | SSupplierGrade => cmpAsc (VNum (modelMinSupplierRank a)) (VNum (modelMinSupplierRank b)) a b
  | SLatency => cmpAsc (VNum (modelMinLatency a)) (VNum (modelMinLatency b)) a b
  | SDiscount => cmpDiscount a b
  | SDefault | SOther => tieBreak a b
  end.

(** The order of the page: the rows of the filters, sorted unless the order is
    the default one. *)
Definition sortedModels (key : SortKey) (result : list jsval) : list jsval :=
  match key with
  | SDefault => result
  | _ => sort_by (fun a b => compare_by key a b <=? 0) result
  end.

(** ** The rows of a reply *)

Definition part_text (v : jsval) : jsstr := if nullish v then [] else to_str v.

Definition getModelRowKey (m : jsval) (index : nat) : jsstr :=
  let endpoints := vget m (js "supported_endpoint_types") in
  join (js "::") [part_text (vget m (js "model_name")); part_text (vget m (js "quota_type")); part_text (vget m (js "vendor_id"));
                  if is_arr endpoints then to_str endpoints else []; dec_digits (Z.of_nat index)].

(** [m.k = v] on a row *)
Definition set_field (k : jsstr) (v : jsval) (m : jsval) : jsval :=
  match m with VObj o => VObj (assoc_set o k v) | v => v end.

Definition format_model (groupRatio vendorMap : jsval) (index : nat) (m : jsval) : jsval :=
  let m1 := set_field (js "key") (VStr (getModelRowKey m index)) m in
  let m2 := set_field (js "group_ratio") (vget groupRatio (to_str (vget m (js "model_name")))) m1 in
  let vendor := vget vendorMap (to_str (vget m (js "vendor_id"))) in
  let m3 := if truthy (vget m (js "vendor_id")) && truthy vendor then
              set_field (js "vendor_description") (vget vendor (js "description"))
                (set_field (js "vendor_icon") (vget vendor (js "icon"))
                  (set_field (js "vendor_name") (vget vendor (js "name")) m2))
            else m2 in
  if truthy (vget m3 (js "channel_list")) then m3 else set_field (js "channel_list") (VArr []) m3.

Definition by_quota (a b : jsval) : Z :=
  sign_of (nsub (to_num (vget a (js "quota_type"))) (to_num (vget b (js "quota_type")))).

Definition is_gpt (m : jsval) : bool := starts_with (js "gpt") (to_str (vget m (js "model_name"))).

Definition by_name (a b : jsval) : Z :=
  if is_gpt a && negb (is_gpt b) then -1
  else if negb (is_gpt a) && is_gpt b then 1
  else localeCompare (to_str (vget a (js "model_name"))) (to_str (vget b (js "model_name"))).

(** [setModelsFormat(models, groupRatio, vendorMap)]: two stable sorts, one after
    the other; the names of rows are texts. *)
Definition setModelsFormat (models : list jsval) (groupRatio vendorMap : jsval) : list jsval :=
  sort_by (fun a b => by_name a b <=? 0)
    (sort_by (fun a b => by_quota a b <=? 0) (imap (format_model groupRatio vendorMap) models)).

(** [vendorMap\[v.id\] = v] for each vendor *)
Definition vendor_map (vendors : jsval) : jsval :=
  VObj (fold_left (fun acc v => assoc_set acc (to_str (vget v (js "id"))) v) (as_arr vendors) []).

(** [copyText(keys)]: the names of the ticked rows, a line each *)
Definition copied_text (models : list jsval) (keys : list jsstr) : jsstr :=
  join [10] (map (fun key =>
    match List.find (fun m => is_str (vget m (js "key")) key) models with
    | Some m => to_str (vget m (js "model_name") ??? VStr key)
    | None => key
    end) keys).

(** ** What is relied on *)

(** Locales order texts: [localeCompare] is a total preorder (ECMA-402). *)
Class LocaleOrder : Prop := {
  locale_total : forall a b, 0 < localeCompare a b -> localeCompare b a <= 0;
  locale_trans : forall a b c, localeCompare a b <= 0 -> localeCompare b c <= 0 -> localeCompare a c <= 0
}.

Definition row_name (m : jsval) : jsstr := to_str (vget m (js "model_name")).
Definition key_of_row (m : jsval) : jsstr := to_str (vget m (js "key")).
Definition quota (m : jsval) : Z := if fixed_price m then 1 else 0.

(** A model of the reply: an object with a name and one of the two quota types *)
Definition row_ok (m : jsval) : Prop :=
  (exists o, m = VObj o) /\ vget m (js "model_name") = VStr (row_name m) /\
  vget m (js "quota_type") = VNum (num_of_Z (quota m)).

(** The order of the loaded rows: gpt models first, by name, then by quota type *)
Definition listed_before (a b : jsval) : Prop :=
  (is_gpt b = true -> is_gpt a = true) /\
  (is_gpt a = is_gpt b -> localeCompare (row_name a) (row_name b) <= 0 /\
    (localeCompare (row_name b) (row_name a) <= 0 -> quota a <= quota b)).

(** ** The rows of a reply: proofs *)

(** The fields a load writes *)
Definition written : list jsstr :=
  [js "key"; js "group_ratio"; js "vendor_name"; js "vendor_icon"; js "vendor_description"; js "channel_list"].

Definition formatted (m : jsval) (key : jsstr) (m' : jsval) : Prop :=
  (exists o, m' = VObj o) /\ vget m' (js "key") = VStr key /\
  forall k, k ∉ written -> vget m' k = vget m k.

Lemma vget_set_field k v o k' :
  vget (set_field k v (VObj o)) k' = if decide (k' = k) then v else vget (VObj o) k'.
Proof. cbn. rewrite assoc_get_set. by case_decide. Qed.

Lemma formatted_set m key m' k v : k ∈ written -> k <> js "key" ->
  formatted m key m' -> formatted m key (set_field k v m').
Proof.
  intros W N ([o ->] & K & F). split; [by eexists|]. split.
  - rewrite vget_set_field, decide_False; auto.
  - intros k' W'. rewrite vget_set_field, decide_False; [auto|]. by intros ->.
Qed.

Ltac field_written :=
  apply formatted_set; [apply (bool_decide_unpack _); vm_compute; exact Logic.I
                       |apply (bool_decide_unpack _); vm_compute; exact Logic.I|].

Lemma format_model_spec g vm i m : (exists o, m = VObj o) ->
  formatted m (getModelRowKey m i) (format_model g vm i m).
Proof.
  intros [o E]. assert (B : formatted m (getModelRowKey m i) (set_field (js "key") (VStr (getModelRowKey m i)) m)).
  { rewrite E. split; [by eexists|]. split.
    - by rewrite vget_set_field, decide_True.
    - intros k W. rewrite vget_set_field, decide_False; [done|]. intros ->. apply W. apply list_elem_of_here. }
  unfold format_model. cbv zeta. repeat case_match; repeat field_written; exact B.
Qed.

Lemma formatted_row m key m' : formatted m key m' -> row_ok m -> row_ok m' /\ key_of_row m' = key.
Proof.
  intros (O & K & F) (_ & N & Q). split.
  - split; [done|]. unfold row_name, quota, fixed_price in *. rewrite !F; [done|..];
    apply (bool_decide_unpack _); vm_compute; exact Logic.I.
  - unfold key_of_row. by rewrite K.
Qed.

Lemma imap_rows g vm models : Forall row_ok models -> Forall row_ok (imap (format_model g vm) models).
Proof.
  rewrite !Forall_lookup. intros F i m' E. rewrite list_lookup_imap in E.
  destruct (models !! i) as [m|] eqn:L; [|done]. injection E as <-. specialize (F i m L).
  apply (formatted_row m (getModelRowKey m i)); [|done]. apply format_model_spec. apply F.
Qed.

Lemma quota_compare a b : row_ok a -> row_ok b ->
  strict_eq (vget a (js "quota_type")) (vget b (js "quota_type")) = (quota a =? quota b) /\
  by_quota a b = quota a - quota b.
Proof.
  intros (_ & _ & A) (_ & _ & B). unfold by_quota. rewrite A, B. unfold quota.
  destruct (fixed_price a), (fixed_price b); split; reflexivity.
Qed.

Lemma by_quota_sign a b : row_ok a -> row_ok b -> (by_quota a b <=? 0) = (quota a <=? quota b).
Proof. intros A B. destruct (quota_compare a b A B) as [_ ->]. lia. Qed.

Lemma by_name_listed `{!LocaleOrder} a b : (by_name a b <=? 0) = true <->
  (is_gpt b = true -> is_gpt a = true) /\
  (is_gpt a = is_gpt b -> localeCompare (row_name a) (row_name b) <= 0).
Proof.
  unfold by_name, row_name. rewrite Z.leb_le.
  destruct (is_gpt a), (is_gpt b); cbn; intuition (congruence || lia).
Qed.

Lemma by_name_total `{!LocaleOrder} a b : (by_name a b <=? 0) = false -> (by_name b a <=? 0) = true.
Proof.
  unfold by_name. rewrite Z.leb_gt, Z.leb_le. pose proof (locale_total (row_name a) (row_name b)) as T.
  unfold row_name in T. destruct (is_gpt a), (is_gpt b); cbn; lia.
Qed.

Lemma by_name_trans `{!LocaleOrder} a b c :
  (by_name a b <=? 0) = true -> (by_name b c <=? 0) = true -> (by_name a c <=? 0) = true.
Proof.
  rewrite !by_name_listed. pose proof (locale_trans (row_name a) (row_name b) (row_name c)) as T.
  destruct (is_gpt a), (is_gpt b), (is_gpt c); intuition congruence.
Qed.

(** A load lists every model of the reply once, with its own fields, and
    orders them by two successive sorts: gpt models come first, then rows are in
    the order of their names, and rows with equal names in the order of their
    quota types. *)
Theorem loaded_rows_ordered `{!LocaleOrder} models groupRatio vendorMap :
  Forall row_ok models ->
  let rows := setModelsFormat models groupRatio vendorMap in
  rows ≡ₚ imap (format_model groupRatio vendorMap) models /\
  StronglySorted listed_before rows.
Proof.
  intros F rows. pose proof (imap_rows groupRatio vendorMap models F) as G.
  unfold rows, setModelsFormat. set (fs := imap _ _) in *.
  assert (Q : StronglySorted (fun a b => quota a <= quota b) (sort_by (fun a b => by_quota a b <=? 0) fs)).
  { apply (StronglySorted_weaken (stably (fun a b => by_quota a b <=? 0) (fun _ _ => True))).
    - intros a b A B [L _]. rewrite sort_by_perm in A, B. rewrite Forall_forall in G.
      rewrite by_quota_sign in L by auto. lia.
    - apply (sort_by_stable _ row_ok); [..|done|].
      + intros x y X Y. rewrite !by_quota_sign by done. lia.
      + intros x y z X Y Z. rewrite !by_quota_sign by done. lia.
      + apply StronglySorted_True. }
  split; [by rewrite !sort_by_perm|].
  eapply StronglySorted_weaken; [|apply (sort_by_stable _ (fun _ => True)), Q].
  - intros a b _ _ [L S]. apply by_name_listed in L as [L1 L2]. split; [done|]. intros E.
    split; [auto|]. intros N. apply S. apply by_name_listed. rewrite E. auto.
  - intros x y _ _. apply by_name_total.
  - intros x y z _ _ _. apply by_name_trans.
  - by apply Forall_true.
Qed.

(** *** Keys *)

Lemma row_key_split m i : exists pre, getModelRowKey m i = pre ++ 58 :: dec_digits (Z.of_nat i).
Proof.
  unfold getModelRowKey. cbn [join]. set (x := if is_arr _ then _ else _).
  eexists (part_text _ ++ js "::" ++ part_text _ ++ js "::" ++ part_text _ ++ js "::" ++ x ++ [58]).
  rewrite <- !app_assoc. reflexivity.
Qed.

Lemma row_key_inj m m' i j : getModelRowKey m i = getModelRowKey m' j -> i = j.
Proof.
  destruct (row_key_split m i) as [a ->], (row_key_split m' j) as [b ->]. intros E.
  apply Nat2Z.inj, dec_digits_inj; [lia..|]. eapply (last_sep 58); [..|exact E];
  (intros I; destruct (dec_digits_spec (Z.of_nat i)) as (? & ? & D & F & _); [lia|];
   destruct (dec_digits_spec (Z.of_nat j)) as (? & ? & D' & F' & _); [lia|];
   rewrite D in I || rewrite D' in I; rewrite Forall_forall in F, F'; (apply F in I || apply F' in I); done).
Qed.

Lemma row_keys_NoDup g vm models : Forall row_ok models ->
  NoDup (map key_of_row (imap (format_model g vm) models)).
Proof.
  intros F. rewrite Forall_lookup in F. apply NoDup_alt. intros i j k.
  change (map key_of_row ?l) with (key_of_row <$> l). rewrite !list_lookup_fmap, !list_lookup_imap.
  destruct (models !! i) as [m|] eqn:I; [|done]. destruct (models !! j) as [m'|] eqn:J; [|done].
  intros [= <-] [= E]. symmetry. apply (row_key_inj m' m).
  rewrite <- (proj2 (formatted_row m' _ _ (format_model_spec g vm j m' (proj1 (F j m' J))) (F j m' J))).
  rewrite <- (proj2 (formatted_row m _ _ (format_model_spec g vm i m (proj1 (F i m I))) (F i m I))).
  done.
Qed.

Lemma find_row_key (rows : list jsval) m : NoDup (map key_of_row rows) ->
  Forall (fun m => vget m (js "key") = VStr (key_of_row m)) rows -> m ∈ rows ->
  List.find (fun m' => is_str (vget m' (js "key")) (key_of_row m)) rows = Some m.
Proof.
  induction rows as [|r rows IH]; intros N F M; [by apply not_elem_of_nil in M|].
  apply Forall_cons in F as [R F]. apply NoDup_cons in N as [N0 N]. cbn [List.find]. rewrite R. cbn [is_str].
  case_bool_decide as E; apply elem_of_cons in M as [->|M].
  - done.
  - destruct N0. rewrite E. by apply (list_elem_of_fmap_2 key_of_row).
  - done.
  - by apply IH.
Qed.

Lemma loaded_row g vm models m : Forall row_ok models -> m ∈ setModelsFormat models g vm ->
  row_ok m /\ vget m (js "key") = VStr (key_of_row m).
Proof.
  intros F M. unfold setModelsFormat in M. rewrite !sort_by_perm in M.
  apply list_elem_of_lookup in M as [i M]. rewrite list_lookup_imap in M. rewrite Forall_lookup in F.
  destruct (models !! i) as [m0|] eqn:L; [|done]. injection M as <-. specialize (F i m0 L).
  pose proof (format_model_spec g vm i m0 (proj1 F)) as S. split; [by apply (formatted_row m0 _ _ S)|].
  unfold key_of_row. destruct S as (_ & -> & _). done.
Qed.

(** The rows of the page have distinct keys, so the names copied for the
    ticked rows are exactly their names, one a line, in the order ticked. *)
Theorem ticked_rows_copied models groupRatio vendorMap ticked :
  Forall row_ok models ->
  let rows := setModelsFormat models groupRatio vendorMap in
  (forall m, m ∈ ticked -> m ∈ rows) ->
  NoDup (map key_of_row rows) /\
  copied_text rows (map key_of_row ticked) = join [10] (map row_name ticked).
Proof.
  intros F rows T.
  assert (N : NoDup (map key_of_row rows)).
  { unfold rows, setModelsFormat. rewrite !sort_by_perm. by apply row_keys_NoDup. }
  split; [done|]. unfold copied_text. f_equal. rewrite map_map. apply map_ext_in.
  intros m M. apply list_elem_of_In, T in M. destruct (loaded_row _ _ _ m F M) as [(_ & R & _) _].
  rewrite find_row_key; [by rewrite R|done| |done].
  rewrite Forall_forall. intros m' M'. by apply (loaded_row _ _ _ m' F M').
Qed.

(** *** The sort orders of the page *)

(** A comparison by a number first: [before] is [<] or [>]. *)
Section Lex.
Context (before : spec_float -> spec_float -> bool) (key : jsval -> spec_float).
Context (tie : jsval -> jsval -> bool) (P : jsval -> Prop).
Hypothesis before_lt : before = nltb \/ before = (fun x y => nltb y x).
Hypothesis key_number : forall m, P m -> key m <> nan.
Hypothesis tie_total : forall a b, P a -> P b -> tie a b = false -> tie b a = true.
Hypothesis tie_trans : forall a b c, P a -> P b -> P c -> tie a b = true -> tie b c = true -> tie a c = true.

Definition lex (a b : jsval) : bool := if neqb (key a) (key b) then tie a b else before (key a) (key b).

Lemma neqb_swap x y : neqb x y = neqb y x.
Proof.
  destruct (neqb x y) eqn:E; [symmetry; by apply neqb_sym|].
  destruct (neqb y x) eqn:E'; [|done]. apply neqb_sym in E'. congruence.
Qed.

Lemma lex_total a b : P a -> P b -> lex a b = false -> lex b a = true.
Proof.
  intros A B. unfold lex. rewrite (neqb_swap (key b)). destruct (neqb (key a) (key b)) eqn:E; [by apply tie_total|].
  pose proof (num_compare _ _ (key_number a A) (key_number b B) E) as T.
  destruct before_lt as [-> | ->]; [|]; destruct (nltb (key a) (key b)), (nltb (key b) (key a)); done.
Qed.

Lemma lex_trans a b c : P a -> P b -> P c -> lex a b = true -> lex b c = true -> lex a c = true.
Proof.
  intros A B C. unfold lex.
  destruct (neqb (key a) (key b)) eqn:AB.
  - rewrite (neqb_neqb _ _ _ AB). destruct (neqb (key b) (key c)) eqn:BC; [by apply tie_trans|].
    destruct before_lt as [-> | ->]; [by rewrite (neqb_nltb_l _ _ _ AB)|by rewrite (neqb_nltb_r _ _ _ AB)].
  - destruct (neqb (key b) (key c)) eqn:BC.
    + rewrite neqb_swap, <- (neqb_neqb _ _ _ BC), neqb_swap, AB.
      destruct before_lt as [-> | ->]; [by rewrite (neqb_nltb_r _ _ _ BC)|by rewrite (neqb_nltb_l _ _ _ BC)].
    + intros L1 L2. destruct (neqb (key a) (key c)) eqn:AC.
      * exfalso. destruct before_lt as [-> | ->].
        -- rewrite (neqb_nltb_l _ _ _ AC) in L1. pose proof (nltb_trans _ _ _ L1 L2). by rewrite nltb_irrefl in *.
        -- rewrite (neqb_nltb_r _ _ _ AC) in L1. pose proof (nltb_trans _ _ _ L1 L2). by rewrite nltb_irrefl in *.
      * destruct before_lt as [-> | ->]; eauto using nltb_trans.
Qed.
End Lex.

Lemma least_of_number counts vs best : best <> nan -> least_of counts vs best <> nan.
Proof.
  unfold least_of. revert best. induction vs as [|v vs IH]; intros best B; cbn; [done|].
  apply IH. destruct (counts v && nltb v best) eqn:E; [|done]. apply andb_prop in E as [_ E].
  by intros ->.
Qed.

Lemma finite_number x : isFinite x = true -> x <> nan.
Proof. by intros F ->. Qed.

Lemma modelUnitPrice_number m : modelUnitPrice m <> nan.
Proof.
  unfold modelUnitPrice. cbv zeta. case_match eqn:E.
  - apply andb_prop in E as [E _]. by apply finite_number.
  - repeat case_match; first [by apply finite_number|by apply least_of_number].
Qed.

Lemma nltb_number x y : nltb x y = true -> y <> nan.
Proof. intros L ->. by destruct x as [|[]| |[]]. Qed.

Lemma channel_discount_number m channel : channel_discount m channel <> nan.
Proof.
  unfold channel_discount. cbv zeta. set (root := to_num (vget m _)). set (eff := nadd _ _).
  case_match eqn:E; [done|]. apply orb_false_elim in E as [E R]. apply orb_false_elim in E as [_ F].
  case_match eqn:G; [done|]. apply orb_false_elim in G as [G _]. apply negb_false_iff in F, G.
  apply nsub_number; [done|]. apply ndiv_number; [done| |done].
  by rewrite nltb_nleb, negb_false_iff in R.
Qed.

Lemma modelDiscountRatio_number m : modelDiscountRatio m <> nan.
Proof.
  unfold modelDiscountRatio. cbv zeta. case_match eqn:V; [by apply nltb_number in V|].
  case_match eqn:I; [by apply nltb_number in I|].
  repeat case_match; first [done|apply channel_discount_number].
Qed.

(** A row that can be sorted: its heat, where it counts, is a number. *)
Definition heat (m : jsval) : spec_float := to_num (modelHeatScore m).
Definition sortable (m : jsval) : Prop := row_ok m /\ modelHeatScore m = VNum (heat m) /\ heat m <> nan.

(** The order by quota type, then name *)
Definition tie_before (a b : jsval) : Prop :=
  quota a < quota b \/ quota a = quota b /\ localeCompare (row_name a) (row_name b) <= 0.

(** Larger numbers first, ties by [R] *)
Definition larger_first (f : jsval -> spec_float) (R : jsval -> jsval -> Prop) (a b : jsval) : Prop :=
  nltb (f b) (f a) = true \/ neqb (f a) (f b) = true /\ R a b.
Definition smaller_first (f : jsval -> spec_float) (R : jsval -> jsval -> Prop) (a b : jsval) : Prop :=
  nltb (f a) (f b) = true \/ neqb (f a) (f b) = true /\ R a b.

(** What each order of the page means *)
Definition ranked (key : SortKey) : jsval -> jsval -> Prop :=
  match key with
  | SHot => larger_first heat tie_before
  | SPrice => smaller_first modelUnitPrice tie_before
  | SSupplierGrade => smaller_first modelMinSupplierRank tie_before
  | SLatency => smaller_first modelMinLatency tie_before
  | SDiscount => larger_first modelDiscountRatio (larger_first heat tie_before)
  | SDefault | SOther => tie_before
  end.

Definition tie_le (a b : jsval) : bool := tieBreak a b <=? 0.

Lemma tie_le_spec a b : row_ok a -> row_ok b -> tie_le a b = true <-> tie_before a b.
Proof.
  intros A B. destruct (quota_compare a b A B) as [E D]. unfold tie_le, tieBreak. rewrite E.
  unfold by_quota in D. rewrite D. fold (row_name a) (row_name b). unfold tie_before.
  destruct (Z.eqb_spec (quota a) (quota b)); cbn [negb]; rewrite Z.leb_le; lia.
Qed.

Lemma tie_le_total `{!LocaleOrder} a b : row_ok a -> row_ok b -> tie_le a b = false -> tie_le b a = true.
Proof.
  intros A B E. apply tie_le_spec; [done|done|].
  assert (N : ~ tie_before a b) by (rewrite <- tie_le_spec by done; congruence).
  pose proof (locale_total (row_name a) (row_name b)). unfold tie_before in *. lia.
Qed.

Lemma tie_le_trans `{!LocaleOrder} a b c : row_ok a -> row_ok b -> row_ok c ->
  tie_le a b = true -> tie_le b c = true -> tie_le a c = true.
Proof.
  intros A B C. rewrite !tie_le_spec by done. unfold tie_before.
  pose proof (locale_trans (row_name a) (row_name b) (row_name c)). lia.
Qed.

Definition ngtb (x y : spec_float) : bool := nltb y x.

Definition order_of (key : SortKey) : jsval -> jsval -> bool :=
  match key with
  | SHot => lex ngtb heat tie_le
  | SPrice => lex nltb modelUnitPrice tie_le
  | SSupplierGrade => lex nltb modelMinSupplierRank tie_le
  | SLatency => lex nltb modelMinLatency tie_le
  | SDiscount => lex ngtb modelDiscountRatio (lex ngtb heat tie_le)
  | SDefault | SOther => tie_le
  end.

Lemma compare_by_order key a b : sortable a -> sortable b ->
  (compare_by key a b <=? 0) = order_of key a b.
Proof.
  intros (_ & HA & _) (_ & HB & _).
  destruct key; cbn [compare_by order_of]; unfold cmpDiscount, cmpAsc, cmpDesc, lex, ngtb, tie_le; rewrite ?HA, ?HB;
    cbn [strict_eq js_lt to_num]; try done; repeat case_match; done.
Qed.

Lemma order_of_laws `{!LocaleOrder} key :
  (forall a b, sortable a -> sortable b -> order_of key a b = false -> order_of key b a = true) /\
  (forall a b c, sortable a -> sortable b -> sortable c ->
     order_of key a b = true -> order_of key b c = true -> order_of key a c = true).
Proof.
  assert (T : forall a b, sortable a -> sortable b -> tie_le a b = false -> tie_le b a = true)
    by (intros a b [] []; by apply tie_le_total).
  assert (T' : forall a b c, sortable a -> sortable b -> sortable c -> tie_le a b = true -> tie_le b c = true -> tie_le a c = true)
    by (intros a b c [] [] []; by apply tie_le_trans).
  assert (K : forall m, sortable m -> heat m <> nan) by (by intros m (_ & _ & ?)).
  assert (L : forall counts vs, least_of counts vs pos_inf <> nan) by (intros; by apply least_of_number).
  assert (G : ngtb = nltb \/ ngtb = (fun x y => nltb y x)) by by right.
  assert (G' : nltb = nltb \/ nltb = (fun x y => nltb y x)) by by left.
  destruct key; cbn [order_of]; split; trivial;
    first [eapply lex_total | eapply lex_trans]; eauto using modelUnitPrice_number, modelDiscountRatio_number;
    first [by apply lex_total | by apply lex_trans | intros; apply L].
Qed.

Lemma order_of_ranked key a b : sortable a -> sortable b -> order_of key a b = true -> ranked key a b.
Proof.
  intros [A _] [B _]. destruct key; cbn [order_of ranked]; unfold lex, larger_first, smaller_first, ngtb;
    repeat case_match; rewrite ?tie_le_spec by done; auto.
Qed.

(** C30. Sorting keeps every row that passed the filters; the default order
    leaves them as loaded, and each other order is what its name says: popular
    models and large discounts first, cheap, well graded and fast ones first,
    ties by heat (for discounts), quota type and name. *)
Theorem sorted_models_ranked `{!LocaleOrder} key result :
  Forall sortable result ->
  sortedModels key result ≡ₚ result /\
  (key = SDefault -> sortedModels key result = result) /\
  (key <> SDefault -> StronglySorted (ranked key) (sortedModels key result)).
Proof.
  intros F. split_and!.
  - destruct key; cbn [sortedModels]; by rewrite ?sort_by_perm.
  - by intros ->.
  - intros N. assert (E : sortedModels key result = sort_by (fun a b => compare_by key a b <=? 0) result)
      by (by destruct key). rewrite E. destruct (order_of_laws key) as [T R]. rewrite Forall_forall in F.
    eapply (StronglySorted_weaken (stably _ (fun _ _ => True))); [|apply (sort_by_stable _ sortable)].
    + intros a b A B [L _]. rewrite sort_by_perm in A, B. apply order_of_ranked; [auto..|].
      by rewrite <- compare_by_order by auto.
    + intros x y X Y. rewrite !compare_by_order by done. auto.
    + intros x y z X Y Z. rewrite !compare_by_order by done. eauto.
    + by apply Forall_forall.
    + apply StronglySorted_True.
Qed.
End Order.

(** ** An example *)

(** Two models of one price and a cheaper one *)
Definition sample_row (name : jsstr) (q price : Z) : jsval :=
  VObj [(js "model_name", VStr name); (js "quota_type", VNum (num_of_Z q));
        (js "model_ratio", VNum (num_of_Z price)); (js "model_price", VNum (num_of_Z price))].

Definition sample_rows : list jsval :=
  [sample_row (js "qwen") 1 3; sample_row (js "gpt-5") 0 3; sample_row (js "kimi") 0 2].

Lemma code_unit_antisym a b : 0 < code_unit_compare a b -> code_unit_compare b a <= 0.
Proof. revert b. induction a as [|x a IH]; intros [|y b]; cbn; try lia. repeat case_match; try lia. auto. Qed.

Lemma code_unit_trans a b c : code_unit_compare a b <= 0 -> code_unit_compare b c <= 0 -> code_unit_compare a c <= 0.
Proof.
  revert b c. induction a as [|x a IH]; intros [|y b] [|z c]; cbn; try lia.
  repeat case_match; try lia. apply IH.
Qed.

#[export] Instance code_unit_order : @LocaleOrder code_unit_unicode.
Proof. split; [exact code_unit_antisym|exact code_unit_trans]. Defined.

Lemma sample_sortable : Forall sortable sample_rows.
Proof.
  repeat constructor; try (by eexists); try (by vm_compute); by intros ?.
Qed.

Lemma sorted_models_ranked_witness :
  sortedModels (H := code_unit_unicode) SPrice sample_rows
    = [sample_row (js "kimi") 0 2; sample_row (js "gpt-5") 0 3; sample_row (js "qwen") 1 3] /\
  sortedModels (H := code_unit_unicode) SPrice sample_rows ≡ₚ sample_rows /\
  StronglySorted (ranked (H := code_unit_unicode) SPrice) (sortedModels (H := code_unit_unicode) SPrice sample_rows).
Proof.
  split; [vm_compute; reflexivity|].
  destruct (sorted_models_ranked (H := code_unit_unicode) SPrice sample_rows sample_sortable) as (P & _ & S).
  split; [exact P|]. apply S. discriminate.
Defined.
