(* ===== verification/MarketPage.v ===== *)
(** * The model market: the page

    The state of [hooks/model-pricing/useModelPricingData.jsx], its handlers,
    effects and the reply of its request, as a state machine, with the rows of
    [MarketSort] and the filters of [PricingFilter]. *)

From Stdlib Require Import SpecFloat Sorting.Sorted.
From stdpp Require Import base list numbers strings.
From S2P Require Import Prelude JsNumber JsString JsValue JsOrder PricingFilter MarketPrice MarketSort.
Local Open Scope Z_scope.
Local Open Scope js_scope.

(** ** State *)

(** What is shown on top of the page: an error of the backend, or the notice
    of a change of the group with the ratio of the group. *)
Inductive MarketToast :=
| TError (message : jsval)
| TAllGroups
| TGroup (group : jsstr) (ratio : jsval).

Record Market := {
  filters : Filters;
  sortKey : SortKey;
  isComposition : bool;
  selectedRowKeys : list jsstr;
  modalImageUrl : jsstr;
  isModalOpenurl : bool;
  selectedGroup : jsstr;
  showModelDetail : bool;
  selectedModel : option jsval;
  (** the timers of [closeModelDetail] that have not run *)
  timers : nat;
  pageSize : Z;
  currentPage : Z;
  currency : jsstr;
  showWithRecharge : bool;
  tokenUnit : jsstr;
  models : list jsval;
  vendorsMap : jsval;
  loading : bool;
  groupRatio : jsval;
  (** the tables of the reply, by their names there *)
  tables : list (jsstr * jsval);
  pricingChannels : jsval;
  usableGroup : jsval;
  endpointMap : jsval;
  autoGroups : jsval;
  toasts : list MarketToast
}.

#[export] Instance eta_Market : Eta Market := fun m =>
  {| filters := filters m; sortKey := sortKey m; isComposition := isComposition m;
     selectedRowKeys := selectedRowKeys m; modalImageUrl := modalImageUrl m; isModalOpenurl := isModalOpenurl m;
     selectedGroup := selectedGroup m; showModelDetail := showModelDetail m;
     selectedModel := selectedModel m; timers := timers m; pageSize := pageSize m; currentPage := currentPage m;
     currency := currency m; showWithRecharge := showWithRecharge m; tokenUnit := tokenUnit m; models := models m;
     vendorsMap := vendorsMap m; loading := loading m; groupRatio := groupRatio m; tables := tables m;
     pricingChannels := pricingChannels m; usableGroup := usableGroup m; endpointMap := endpointMap m;
     autoGroups := autoGroups m; toasts := toasts m |}.

#[export] Instance eta_Filters : Eta Filters := fun f =>
  {| filterGroup := filterGroup f; filterQuotaType := filterQuotaType f; filterEndpointType := filterEndpointType f;
     filterVendor := filterVendor f; filterTag := filterTag f; filterSupplierType := filterSupplierType f;
     filterSupplier := filterSupplier f; searchValue := searchValue f |}.

Definition table_names : list jsstr :=
  [js "group_model_price"; js "group_model_ratio"; js "channel_model_price"; js "channel_model_ratio";
   js "channel_completion_ratio"; js "channel_cache_ratio"; js "channel_create_cache_ratio"; js "channel_image_ratio";
   js "channel_image_price"; js "channel_audio_ratio"; js "channel_audio_completion_ratio"; js "channel_video_ratio";
   js "channel_video_completion_ratio"; js "channel_video_price"].

Definition no_filters : Filters :=
  {| filterGroup := js "all"; filterQuotaType := VStr (js "all"); filterEndpointType := js "all"; filterVendor := js "all";
     filterTag := js "all"; filterSupplierType := js "all"; filterSupplier := js "all"; searchValue := [] |}.

(** The page when it opens; [model] is the decoded search parameter, if any. *)
Definition start (defaultSortKey : SortKey) (model : option jsstr) : Market :=
  {| filters := no_filters <| searchValue := default [] model |>; sortKey := defaultSortKey; isComposition := false;
     selectedRowKeys := []; modalImageUrl := []; isModalOpenurl := false; selectedGroup := js "all"; showModelDetail := false; selectedModel := None; timers := 0;
     pageSize := 20; currentPage := 1; currency := js "USD"; showWithRecharge := false; tokenUnit := js "M";
     models := []; vendorsMap := VObj []; loading := true; groupRatio := VObj [];
     tables := map (fun k => (k, VObj [])) table_names; pricingChannels := VArr []; usableGroup := VObj [];
     endpointMap := VObj []; autoGroups := VArr []; toasts := [] |}.

Section Page.
Context `{Unicode}.

(** ** Values of the status *)

Definition priceRate (status : jsval) : jsval := vget status (js "price") ??? VNum n1.
Definition usdExchangeRate (status : jsval) : jsval := vget status (js "usd_exchange_rate") ??? priceRate status.
Definition customExchangeRate (status : jsval) : jsval := vget status (js "custom_currency_exchange_rate") ??? VNum n1.
Definition customCurrencySymbol (status : jsval) : jsval := vget status (js "custom_currency_symbol") ??? VStr (js "¤").
Definition siteDisplayType (status : jsval) : jsval := vget status (js "quota_display_type") ||| VStr (js "USD").

(** The effects of a new display type *)
Definition display_type_effect (status : jsval) (m : Market) : Market :=
  match siteDisplayType status with
  | VStr s =>
      let m := if bool_decide (s ∈ [js "USD"; js "CNY"; js "CUSTOM"]) then m <| currency := s |> else m in
      if bool_decide (s = js "TOKENS") then m <| showWithRecharge := false |> <| currency := js "USD" |> else m
  | _ => m
  end.

(** The price text of the page in its present state *)
Definition shown_price (status : jsval) (m : Market) (usdPrice : spec_float) : jsstr :=
  displayPrice (showWithRecharge m) (currency m) (priceRate status) (usdExchangeRate status)
    (customExchangeRate status) (customCurrencySymbol status) usdPrice.

(** ** Handlers *)

Definition setSearchValue (v : jsstr) (m : Market) : Market := m <| filters := (filters m) <| searchValue := v |> |>.

Definition handleChange (v : jsstr) (m : Market) : Market := setSearchValue v m <| isComposition := false |>.
Definition handleCompositionStart (m : Market) : Market := m <| isComposition := true |>.
Definition handleCompositionEnd (v : jsstr) (m : Market) : Market := setSearchValue v (m <| isComposition := false |>).

Definition handleGroupClick (group : jsstr) (m : Market) : Market :=
  let m' := m <| selectedGroup := group |> <| filters := (filters m) <| filterGroup := group |> |> in
  m' <| toasts := toasts m ++
    [if bool_decide (group = js "all") then TAllGroups
     else TGroup group (vget (groupRatio m) group ??? VNum n1)] |>.

Definition openModelDetail (row : jsval) (m : Market) : Market :=
  m <| selectedModel := Some row |> <| showModelDetail := true |>.
Definition closeModelDetail (m : Market) : Market := m <| showModelDetail := false |> <| timers := S (timers m) |>.
(** 300 ms after a close *)
Definition close_timer (m : Market) : Market :=
  match timers m with O => m | S n => m <| timers := n |> <| selectedModel := None |> end.

(** ** Loading *)

Definition loadPricing (m : Market) : Market := m <| loading := true |>.

Definition loaded_vendors (reply : jsval) : jsval := vendor_map (vget reply (js "vendors")).

(** The reply of the backend; [data] is an array and [group_ratio] an object. *)
Definition pricing_reply (reply : jsval) (m : Market) : Market :=
  let get k := vget reply (js k) in
  let m' :=
    if truthy (get "success") then
      m <| groupRatio := get "group_ratio" |>
        <| tables := map (fun k => (k, vget reply k ||| VObj [])) table_names |>
        <| pricingChannels := get "channels" ||| VArr [] |>
        <| usableGroup := get "usable_group" |>
        <| selectedGroup := js "all" |>
        <| vendorsMap := loaded_vendors reply |>
        <| endpointMap := get "supported_endpoint" ||| VObj [] |>
        <| autoGroups := get "auto_groups" ||| VArr [] |>
        <| models := setModelsFormat (as_arr (get "data")) (get "group_ratio") (loaded_vendors reply) |>
    else m <| toasts := toasts m ++ [TError (get "message")] |> in
  m' <| loading := false |>.

(** ** The page as a machine *)

Inductive MarketAction :=
| ASearch (v : jsstr) | ACompositionStart | ACompositionEnd (v : jsstr)
| AGroup (group : jsstr) | AQuota (v : jsval) | AEndpoint (v : jsstr) | AVendor (v : jsstr) | ATag (v : jsstr)
| ASupplierType (v : jsstr) | ASupplier (v : jsstr) | ASort (k : SortKey)
| APageSize (n : Z) | ACurrentPage (n : Z) | ATick (keys : list jsstr)
| AImageUrl (u : jsstr) | AImageOpen (b : bool)
| ACurrency (c : jsstr) | ARecharge (b : bool) | AUnit (u : jsstr) | AStatus (status : jsval)
| AOpen (row : jsval) | AClose | ATimer
| ALoad | AReply (reply : jsval).

Definition act (a : MarketAction) (m : Market) : Market :=
  let on (f : Filters) := m <| filters := f |> in
  match a with
  | ASearch v => handleChange v m
  | ACompositionStart => handleCompositionStart m
  | ACompositionEnd v => handleCompositionEnd v m
  | AGroup g => handleGroupClick g m
  | AQuota v => on ((filters m) <| filterQuotaType := v |>)
  | AEndpoint v => on ((filters m) <| filterEndpointType := v |>)
  | AVendor v => on ((filters m) <| filterVendor := v |>)
  | ATag v => on ((filters m) <| filterTag := v |>)
  | ASupplierType v => on ((filters m) <| filterSupplierType := v |>)
  | ASupplier v => on ((filters m) <| filterSupplier := v |>)
  | ASort k => m <| sortKey := k |>
  | APageSize n => m <| pageSize := n |>
  | ACurrentPage n => m <| currentPage := n |>
  | ATick keys => m <| selectedRowKeys := keys |>
  | AImageUrl u => m <| modalImageUrl := u |>
  | AImageOpen b => m <| isModalOpenurl := b |>
  | ACurrency c => m <| currency := c |>
  | ARecharge b => m <| showWithRecharge := b |>
  | AUnit u => m <| tokenUnit := u |>
  | AStatus status => display_type_effect status m
  | AOpen row => openModelDetail row m
  | AClose => closeModelDetail m
  | ATimer => close_timer m
  | ALoad => loadPricing m
  | AReply reply => pricing_reply reply m
  end.

Definition sort_key_eqb (a b : SortKey) : bool :=
  match a, b with
  | SDefault, SDefault | SHot, SHot | SPrice, SPrice | SSupplierGrade, SSupplierGrade
  | SLatency, SLatency | SDiscount, SDiscount | SOther, SOther => true
  | _, _ => false
  end.

(** The dependencies of the effect that resets the page *)
Definition same_view (m m' : Market) : bool :=
  let f := filters m in let f' := filters m' in
  bool_decide (filterGroup f = filterGroup f') && strict_eq (filterQuotaType f) (filterQuotaType f')
  && bool_decide (filterEndpointType f = filterEndpointType f') && bool_decide (filterVendor f = filterVendor f')
  && bool_decide (filterTag f = filterTag f') && bool_decide (filterSupplier f = filterSupplier f')
  && bool_decide (filterSupplierType f = filterSupplierType f') && bool_decide (searchValue f = searchValue f')
  && sort_key_eqb (sortKey m) (sortKey m').

Definition page_effect (before after : Market) : Market :=
  if same_view before after then after else after <| currentPage := 1 |>.

Definition market_step (m : Market) (a : MarketAction) : Market := page_effect m (act a m).
Definition run_market (m : Market) (actions : list MarketAction) : Market := fold_left market_step actions m.

(** [copyText(selectedRowKeys)] of the present state *)
Definition copyText (m : Market) : jsstr := copied_text (models m) (selectedRowKeys m).

(** ** Reachable states *)

(** A successful reply lists models with a name and a quota type. *)
Definition reply_ok (a : MarketAction) : Prop :=
  match a with
  | AReply reply => truthy (vget reply (js "success")) = true -> Forall row_ok (as_arr (vget reply (js "data")))
  | _ => True
  end.

(** No detail is opened while a timer of an earlier close is running. *)
Fixpoint calm (m : Market) (actions : list MarketAction) : bool :=
  match actions with
  | [] => true
  | a :: rest =>
      match a with AOpen _ => bool_decide (timers m = 0)%nat | _ => true end && calm (market_step m a) rest
  end.

Definition rows_loaded (m : Market) : Prop :=
  exists l g v, Forall row_ok l /\ models m = setModelsFormat l g v.

Definition detail_filled (m : Market) : Prop :=
  showModelDetail m = true -> selectedModel m <> None /\ timers m = 0%nat.

Lemma page_effect_keeps m m' : models (page_effect m m') = models m' /\
  showModelDetail (page_effect m m') = showModelDetail m' /\
  selectedModel (page_effect m m') = selectedModel m' /\ timers (page_effect m m') = timers m'.
Proof. unfold page_effect. by case_match. Qed.

(** Only a successful reply changes the rows. *)
Lemma act_models m a : models (act a m) =
  match a with
  | AReply reply =>
      if truthy (vget reply (js "success"))
      then setModelsFormat (as_arr (vget reply (js "data"))) (vget reply (js "group_ratio")) (loaded_vendors reply)
      else models m
  | _ => models m
  end.
Proof.
  destruct a; try reflexivity; cbn [act].
  - unfold display_type_effect. repeat case_match; reflexivity.
  - unfold close_timer. by case_match.
  - unfold pricing_reply. cbv zeta. by case_match.
Qed.

(** The dialog is changed by its own actions only. *)
Lemma act_detail m a :
  match a with AOpen _ | AClose | ATimer => True | _ => False end \/
  (showModelDetail (act a m) = showModelDetail m /\ selectedModel (act a m) = selectedModel m /\
   timers (act a m) = timers m).
Proof.
  destruct a; auto; right; cbn [act]; try (split_and!; reflexivity).
  - unfold display_type_effect. repeat case_match; split_and!; reflexivity.
  - unfold pricing_reply. cbv zeta. case_match; split_and!; reflexivity.
Qed.

Lemma step_rows m a : reply_ok a -> rows_loaded m -> rows_loaded (market_step m a).
Proof.
  intros R (l & g & v & F & E). unfold rows_loaded, market_step.
  rewrite (proj1 (page_effect_keeps m (act a m))), act_models.
  destruct a; eauto. case_match; [|eauto]. do 3 eexists. split; [|reflexivity]. by apply R.
Qed.

Lemma step_detail m a : calm m [a] = true -> detail_filled m -> detail_filled (market_step m a).
Proof.
  intros C D. unfold detail_filled, market_step.
  destruct (page_effect_keeps m (act a m)) as (_ & -> & -> & ->).
  destruct (act_detail m a) as [A|(-> & -> & ->)]; [|exact D].
  destruct a; try done; cbn [act].
  - cbn [calm] in C. apply andb_prop in C as [C _]. case_bool_decide as T; [|done]. intros _. done.
  - unfold close_timer. unfold detail_filled in D. destruct (timers m) as [|n] eqn:T; cbn; [by rewrite T|].
    intros S. destruct (D S). congruence.
Qed.

Lemma run_rows actions m : Forall reply_ok actions -> rows_loaded m -> rows_loaded (run_market m actions).
Proof.
  revert m. induction actions as [|a rest IH]; intros m F R; [done|]. apply Forall_cons in F as [Fa F].
  cbn. apply IH; [done|]. by apply step_rows.
Qed.

Lemma run_detail actions m : calm m actions = true -> detail_filled m -> detail_filled (run_market m actions).
Proof.
  revert m. induction actions as [|a rest IH]; intros m C D; [done|].
  cbn [calm] in C. apply andb_prop in C as [Ca C]. cbn. apply IH; [done|]. apply step_detail; [|done].
  cbn [calm]. by rewrite Ca.
Qed.

(** C31. In every reachable state of the market page the rows are those of the
    last successful reply: gpt models first, by name and quota type, with
    distinct keys, so that ticking rows and copying gives their names.  The
    detail dialog, when it is open, shows a model, provided it is not opened
    again within 300 ms of being closed. *)
Theorem market_page_invariant `{!LocaleOrder} key model actions :
  Forall reply_ok actions ->
  let m := run_market (start key model) actions in
  StronglySorted listed_before (models m) /\
  NoDup (map key_of_row (models m)) /\
  (forall ticked, (forall r, r ∈ ticked -> r ∈ models m) ->
     copyText (act (ATick (map key_of_row ticked)) m) = join [10] (map row_name ticked)) /\
  (calm (start key model) actions = true -> showModelDetail m = true -> selectedModel m <> None).
Proof.
  intros F m. destruct (run_rows actions (start key model) F) as (l & g & v & L & E).
  { exists [], VUndef, VUndef. split; [constructor|reflexivity]. }
  fold m in E. split_and!.
  - rewrite E. by apply loaded_rows_ordered.
  - rewrite E. apply (ticked_rows_copied l g v []); [done|]. by intros ? ?%not_elem_of_nil.
  - intros ticked T. unfold copyText. cbn [act]. change (copied_text (models m) (map key_of_row ticked) = join [10] (map row_name ticked)).
    rewrite E in *. by apply ticked_rows_copied.
  - intros C. apply run_detail in C; [|done]. intros S. by apply C.
Qed.

(** A dialog opened again before the timer of the last close has run loses its
    model: it stays open and empty. *)
Lemma reopened_detail_blank m row row' : timers m = 0%nat ->
  let m' := run_market m [AOpen row; AClose; AOpen row'; ATimer] in
  showModelDetail m' = true /\ selectedModel m' = None.
Proof.
  intros T. cbn [run_market fold_left]. unfold market_step.
  set (m1 := page_effect m _). set (m2 := page_effect m1 _). set (m3 := page_effect m2 _).
  assert (T3 : timers m3 = 1%nat).
  { unfold m3, m2, m1. repeat (rewrite (proj2 (proj2 (proj2 (page_effect_keeps _ _)))); cbn). by rewrite T. }
  destruct (page_effect_keeps m3 (act ATimer m3)) as (_ & -> & -> & _). cbn [act].
  unfold close_timer. rewrite T3. split; [|reflexivity]. cbn.
  unfold m3. by destruct (page_effect_keeps m2 (act (AOpen row') m2)) as (_ & -> & _).
Qed.
End Page.

(** ** An example *)

Definition sample_reply : jsval :=
  VObj [(js "success", VBool true); (js "data", VArr sample_rows); (js "group_ratio", VObj [])].

Definition sample_run : list MarketAction := [AReply sample_reply; AOpen (sample_row (js "kimi") 0 2); AClose; ATimer; AGroup (js "vip")].

Lemma market_page_invariant_witness :
  let m := run_market (H := code_unit_unicode) (start SDefault None) sample_run in
  map row_name (models m) = [js "gpt-5"; js "kimi"; js "qwen"] /\
  StronglySorted (listed_before (H := code_unit_unicode)) (models m) /\ NoDup (map key_of_row (models m)).
Proof.
  intros m. split; [vm_compute; reflexivity|].
  destruct (market_page_invariant (H := code_unit_unicode) SDefault None sample_run) as (S & N & _).
  - rewrite Forall_forall. intros a A. repeat (apply elem_of_cons in A as [->|A]; [|]); try exact Logic.I; [|by apply not_elem_of_nil in A].
    intros _. apply (Forall_impl _ _ _ sample_sortable). by intros r [R _].
  - split; [exact S|exact N].
Defined.
