(* ===== verification/ParamOverride.v ===== *)
(** * Parameter overrides of a channel: rules, payload and validation

    The functions of components/table/channels/modals/
    ParamOverrideEditorModal.jsx outside its component: an override is a list
    of operations on the request, each with conditions, stored as JSON text.
    The editor shows it as forms whose values are texts ([toValueText]) and
    builds the JSON again from the texts ([parseLooseValue]).

    Operations, conditions and prune rules carry an identifier that
    [nextLocalId] takes from a counter of the module: the computations that
    take identifiers thread the counter ([Gen]). *)

From Stdlib Require Import SpecFloat.
From stdpp Require Import base list numbers strings.
From S2P Require Import Prelude JsNumber JsString JsValue JsJson JsReprint StatusCodes.
Local Open Scope Z_scope.
Local Open Scope js_scope.

(** ** Modes *)

Inductive OpMode :=
  | OpSet | OpDelete | OpAppend | OpPrepend | OpCopy | OpMove | OpReplace | OpRegexReplace
  | OpTrimPrefix | OpTrimSuffix | OpEnsurePrefix | OpEnsureSuffix | OpTrimSpace | OpToLower
  | OpToUpper | OpReturnError | OpPruneObjects | OpPassHeaders | OpSyncFields | OpSetHeader
  | OpDeleteHeader | OpCopyHeader | OpMoveHeader.

#[export] Instance OpMode_eq_dec : EqDecision OpMode.
Proof. solve_decision. Defined.

(** [OPERATION_MODE_OPTIONS]: the values with their labels, in order. *)
Definition OPERATION_MODE_OPTIONS : list (OpMode * (jsstr * jsstr)) :=
  [(OpSet, (js "设置字段", js "set"));
   (OpDelete, (js "删除字段", js "delete"));
   (OpAppend, (js "追加到末尾", js "append"));
   (OpPrepend, (js "追加到开头", js "prepend"));
   (OpCopy, (js "复制字段", js "copy"));
   (OpMove, (js "移动字段", js "move"));
   (OpReplace, (js "字符串替换", js "replace"));
   (OpRegexReplace, (js "正则替换", js "regex_replace"));
   (OpTrimPrefix, (js "裁剪前缀", js "trim_prefix"));
   (OpTrimSuffix, (js "裁剪后缀", js "trim_suffix"));
   (OpEnsurePrefix, (js "确保前缀", js "ensure_prefix"));
   (OpEnsureSuffix, (js "确保后缀", js "ensure_suffix"));
   (OpTrimSpace, (js "去掉空白", js "trim_space"));
   (OpToLower, (js "转小写", js "to_lower"));
   (OpToUpper, (js "转大写", js "to_upper"));
   (OpReturnError, (js "返回自定义错误", js "return_error"));
   (OpPruneObjects, (js "清理对象项", js "prune_objects"));
   (OpPassHeaders, (js "请求头透传", js "pass_headers"));
   (OpSyncFields, (js "字段同步", js "sync_fields"));
   (OpSetHeader, (js "设置请求头", js "set_header"));
   (OpDeleteHeader, (js "删除请求头", js "delete_header"));
   (OpCopyHeader, (js "复制请求头", js "copy_header"));
   (OpMoveHeader, (js "移动请求头", js "move_header"))].

Definition mode_option (m : OpMode) : jsstr * jsstr :=
  default ([], []) (snd <$> List.find (fun o => bool_decide (fst o = m)) OPERATION_MODE_OPTIONS).
Definition mode_label (m : OpMode) : jsstr := fst (mode_option m).
Definition mode_value (m : OpMode) : jsstr := snd (mode_option m).

(** [OPERATION_MODE_VALUES.has(v) ? v : 'set'] *)
Definition mode_of (v : jsval) : OpMode :=
  default OpSet (fst <$> List.find (fun o => is_str v (snd (snd o))) OPERATION_MODE_OPTIONS).

Inductive CondMode := CFull | CPrefix | CSuffix | CContains | CGt | CGte | CLt | CLte.

#[export] Instance CondMode_eq_dec : EqDecision CondMode.
Proof. solve_decision. Defined.

Definition CONDITION_MODE_OPTIONS : list (CondMode * (jsstr * jsstr)) :=
  [(CFull, (js "完全匹配", js "full")); (CPrefix, (js "前缀匹配", js "prefix"));
   (CSuffix, (js "后缀匹配", js "suffix")); (CContains, (js "包含", js "contains"));
   (CGt, (js "大于", js "gt")); (CGte, (js "大于等于", js "gte"));
   (CLt, (js "小于", js "lt")); (CLte, (js "小于等于", js "lte"))].

Definition cond_value (m : CondMode) : jsstr :=
  default [] (snd ∘ snd <$> List.find (fun o => bool_decide (fst o = m)) CONDITION_MODE_OPTIONS).

(** [CONDITION_MODE_VALUES.has(v) ? v : 'full'] *)
Definition cond_mode_of (v : jsval) : CondMode :=
  default CFull (fst <$> List.find (fun o => is_str v (snd (snd o))) CONDITION_MODE_OPTIONS).

(** [MODE_META]: which fields a mode has. *)
Record Meta := {
  m_path : bool; m_pathOptional : bool; m_value : bool; m_keepOrigin : bool;
  m_from : bool; m_to : bool; m_pathAlias : bool
}.

Definition no_meta : Meta := {|
  m_path := false; m_pathOptional := false; m_value := false; m_keepOrigin := false;
  m_from := false; m_to := false; m_pathAlias := false |}.

#[export] Instance Meta_eta : Eta Meta := fun r => {|
  m_path := m_path r; m_pathOptional := m_pathOptional r; m_value := m_value r;
  m_keepOrigin := m_keepOrigin r; m_from := m_from r; m_to := m_to r; m_pathAlias := m_pathAlias r |}.

Definition path_meta : Meta := no_meta <| m_path := true |>.
Definition path_value_meta : Meta := path_meta <| m_value := true |>.
Definition from_to_meta : Meta := (no_meta <| m_from := true |>) <| m_to := true |>.

Definition MODE_META (m : OpMode) : Meta :=
  match m with
  | OpDelete | OpTrimSpace | OpToLower | OpToUpper | OpDeleteHeader => path_meta
  | OpSet | OpAppend | OpPrepend | OpSetHeader => path_value_meta <| m_keepOrigin := true |>
  | OpCopy | OpMove | OpSyncFields => from_to_meta
  | OpReplace | OpRegexReplace => path_meta <| m_from := true |>
  | OpTrimPrefix | OpTrimSuffix | OpEnsurePrefix | OpEnsureSuffix => path_value_meta
  | OpReturnError => no_meta <| m_value := true |>
  | OpPruneObjects => (no_meta <| m_pathOptional := true |>) <| m_value := true |>
  | OpPassHeaders => (no_meta <| m_value := true |>) <| m_keepOrigin := true |>
  | OpCopyHeader | OpMoveHeader =>
      (from_to_meta <| m_keepOrigin := true |>) <| m_pathAlias := true |>
  end.

Definition VALUE_REQUIRED_MODES (m : OpMode) : bool :=
  match m with
  | OpTrimPrefix | OpTrimSuffix | OpEnsurePrefix | OpEnsureSuffix | OpSetHeader | OpReturnError
  | OpPruneObjects | OpPassHeaders => true
  | _ => false
  end.

Definition FROM_REQUIRED_MODES (m : OpMode) : bool :=
  match m with
  | OpCopy | OpMove | OpReplace | OpRegexReplace | OpCopyHeader | OpMoveHeader | OpSyncFields => true
  | _ => false
  end.

Definition TO_REQUIRED_MODES (m : OpMode) : bool :=
  match m with
  | OpCopy | OpMove | OpCopyHeader | OpMoveHeader | OpSyncFields => true
  | _ => false
  end.

Inductive Logic := LAnd | LOr.

#[export] Instance Logic_eq_dec : EqDecision Logic.
Proof. solve_decision. Defined.

Definition logic_value (l : Logic) : jsstr := match l with LAnd => js "AND" | LOr => js "OR" end.

(** ** Data *)

(** A condition of an operation, and a rule of [prune_objects]. *)
Record Condition := {
  c_id : jsstr;
  c_path : jsstr;
  c_mode : CondMode;
  c_value_text : jsstr;
  invert : bool;
  pass_missing_key : bool
}.

#[export] Instance Condition_eta : Eta Condition := fun r => {|
  c_id := c_id r; c_path := c_path r; c_mode := c_mode r; c_value_text := c_value_text r;
  invert := invert r; pass_missing_key := pass_missing_key r |}.

Record Operation := {
  id_ : jsstr;
  description : jsstr;
  path : jsstr;
  mode : OpMode;
  value_text : jsstr;
  keep_origin : bool;
  from : jsstr;
  to : jsstr;
  logic : Logic;
  conditions : list Condition
}.

#[export] Instance Operation_eta : Eta Operation := fun r => {|
  id_ := id_ r; description := description r; path := path r; mode := mode r;
  value_text := value_text r; keep_origin := keep_origin r; from := from r; to := to r;
  logic := logic r; conditions := conditions r |}.

(** The form of a [return_error] value. *)
Record ReturnErrorDraft := {
  message : jsstr;
  statusCode : spec_float;
  code : jsstr;
  type_ : jsstr;
  skipRetry : bool;
  re_simpleMode : bool
}.

#[export] Instance ReturnErrorDraft_eta : Eta ReturnErrorDraft := fun r => {|
  message := message r; statusCode := statusCode r; code := code r; type_ := type_ r;
  skipRetry := skipRetry r; re_simpleMode := re_simpleMode r |}.

(** The form of a [prune_objects] value. *)
Record PruneObjectsDraft := {
  simpleMode : bool;
  typeText : jsstr;
  p_logic : Logic;
  recursive : bool;
  rules : list Condition
}.

#[export] Instance PruneObjectsDraft_eta : Eta PruneObjectsDraft := fun r => {|
  simpleMode := simpleMode r; typeText := typeText r; p_logic := p_logic r;
  recursive := recursive r; rules := rules r |}.

(** ** Identifiers *)

(** A computation that takes identifiers: from the counter [localIdSeed] to a
    result, [None] for a TypeError, and the counter after it. *)
Definition Gen (A : Type) : Type := Z -> option A * Z.

Definition gret {A} (x : A) : Gen A := fun n => (Some x, n).
Definition gfail {A} : Gen A := fun n => (None, n).
Definition gbind {A B} (m : Gen A) (f : A -> Gen B) : Gen B := fun n =>
  match m n with
  | (Some x, n') => f x n'
  | (None, n') => (None, n')
  end.

Notation "x <-- m ;; k" := (gbind m (fun x => k))
  (at level 100, m at next level, right associativity, only parsing) : js_scope.

(** [l.map(f)] *)
Fixpoint gmap_list {A B} (f : A -> Gen B) (l : list A) : Gen (list B) :=
  match l with
  | [] => gret []
  | x :: r => y <-- f x ;; ys <-- gmap_list f r ;; gret (y :: ys)
  end.

(** [v !== undefined] *)
Definition defined (v : jsval) : bool := match v with VUndef => false | _ => true end.

(** [typeof v === 'string' ? v : ''] *)
Definition str_of (v : jsval) : jsstr := match v with VStr s => s | _ => [] end.

Definition is_true (v : jsval) : bool := match v with VBool true => true | _ => false end.
Definition is_false (v : jsval) : bool := match v with VBool false => true | _ => false end.

(** [v && typeof v === 'object' && !Array.isArray(v)] *)
Definition plain_obj (v : jsval) : bool := match v with VObj _ => true | _ => false end.

(** ** Values and their texts *)

Definition toValueText (value : jsval) : jsstr :=
  match value with
  | VUndef => []
  | VStr s => s
  | _ => default [] (JSON_stringify 0 value)
  end.

Definition parseLooseValue (raw : jsstr) : jsval :=
  if str_truthy (trim raw) then default (VStr raw) (JSON_parse raw) else VStr [].

(** [items.map((item) => String(item ?? '').trim()).filter(Boolean)] *)
Definition trimmed_names (items : list jsval) : list jsstr :=
  base.filter (fun s => str_truthy s = true) (map (fun v => trim (to_str (v ??? VStr []))) items).

Definition parsePassHeaderNames (rawValue : jsval) : list jsstr :=
  match rawValue with
  | VArr l => trimmed_names l
  | VObj _ =>
      match vget rawValue (js "headers") with
      | VArr l => trimmed_names l
      | _ =>
          if defined (vget rawValue (js "header"))
          then trimmed_names [vget rawValue (js "header")] else []
      end
  | VStr s => trimmed_names (map VStr (split_on 44 s))
  | _ => []
  end.

(** ** The form of [return_error] *)

(** [Number.isInteger(v) && v >= 100 && v <= 599 ? v : 400] *)
Definition status_or_400 (v : spec_float) : spec_float :=
  match integer_of v ≫= in_code_range with Some _ => v | None => num_of_Z 400 end.

Definition return_error_defaults : ReturnErrorDraft := {|
  message := []; statusCode := num_of_Z 400; code := []; type_ := [];
  skipRetry := true; re_simpleMode := true |}.

(** [String(v || '').trim()] *)
Definition trimmed_or_empty (v : jsval) : jsstr := trim (to_str (v ||| VStr [])).

Definition parseReturnErrorDraft (valueText : jsstr) : ReturnErrorDraft :=
  let raw := trim valueText in
  if negb (str_truthy raw) then return_error_defaults
  else
    match JSON_parse raw with
    | Some (VObj o) =>
        let field k := vget (VObj o) (js k) in
        let statusRaw := if defined (field "status_code") then field "status_code"
                         else field "status" in
        {| message := trimmed_or_empty (field "message" ||| field "msg");
           statusCode := status_or_400 (to_num statusRaw);
           code := trimmed_or_empty (field "code");
           type_ := trimmed_or_empty (field "type");
           skipRetry := negb (is_false (field "skip_retry"));
           re_simpleMode := false |}
    | _ => return_error_defaults <| message := raw |>
    end.

Definition return_error_payload (draft : ReturnErrorDraft) : jsval :=
  VObj ([(js "message", VStr (trim (message draft)));
         (js "status_code", VNum (status_or_400 (statusCode draft)))]
        ++ (if str_truthy (trim (code draft)) then [(js "code", VStr (trim (code draft)))] else [])
        ++ (if str_truthy (trim (type_ draft)) then [(js "type", VStr (trim (type_ draft)))] else [])
        ++ (if skipRetry draft then [] else [(js "skip_retry", VBool false)])).

Definition buildReturnErrorValueText (draft : ReturnErrorDraft) : jsstr :=
  if re_simpleMode draft then trim (message draft)
  else default [] (JSON_stringify 0 (return_error_payload draft)).

(** ** Sync targets *)

(** The text before and after the first [':']. *)
Fixpoint split_colon (s : jsstr) : option (jsstr * jsstr) :=
  match s with
  | [] => None
  | c :: r => if c =? 58 then Some ([], r) else prod_map (cons c) id <$> split_colon r
  end.

Inductive TargetType := TJson | THeader.
Definition target_name (x : TargetType) : jsstr :=
  match x with TJson => js "json" | THeader => js "header" end.

Section Editor.
Context `{Unicode}.

Definition parseSyncTargetSpec (spec : jsstr) : TargetType * jsstr :=
  let raw := trim spec in
  if negb (str_truthy raw) then (TJson, [])
  else
    match split_colon raw with
    | None => (TJson, raw)
    | Some (prefix, key) =>
        (if bool_decide (toLowerCase (trim prefix) = js "header") then THeader else TJson, trim key)
    end.

Definition buildSyncTargetSpec (type : TargetType) (key : jsstr) : jsstr :=
  let normalizedKey := trim key in
  if str_truthy normalizedKey then target_name type ++ 58 :: normalizedKey else [].

(** The time [Date.now()] at which the identifier with a given number is taken. *)
Variable now : Z -> Z.

Definition local_id (n : Z) : jsstr :=
  js "param_override_" ++ dec_digits (now n) ++ 95 :: dec_digits n.
Definition nextLocalId : Gen jsstr := fun n => (Some (local_id n), n + 1).

(** ** Normalisation *)

(** Access to a property of null throws. *)
Definition not_null (v : jsval) : Gen unit := match v with VNull => gfail | _ => gret tt end.

Definition normalizeCondition (condition : jsval) : Gen Condition :=
  c_id <-- nextLocalId ;;
  _ <-- not_null condition ;;
  let field k := vget condition (js k) in
  gret {| c_id := c_id;
          c_path := str_of (field "path");
          c_mode := cond_mode_of (field "mode");
          c_value_text := toValueText (field "value");
          invert := is_true (field "invert");
          pass_missing_key := is_true (field "pass_missing_key") |}.

Definition createDefaultCondition : Gen Condition := normalizeCondition (VObj []).

(** [normalizePruneRule] has the same body. *)
Definition normalizePruneRule (rule : jsval) : Gen Condition := normalizeCondition rule.

Definition normalizeOperation (operation : jsval) : Gen Operation :=
  id_ <-- nextLocalId ;;
  _ <-- not_null operation ;;
  let field k := vget operation (js k) in
  conds <-- (match field "conditions" with
             | VArr l => gmap_list normalizeCondition l
             | _ => gret []
             end) ;;
  gret {| id_ := id_;
          description := str_of (field "description");
          path := str_of (field "path");
          mode := mode_of (field "mode");
          value_text := toValueText (field "value");
          keep_origin := is_true (field "keep_origin");
          from := str_of (field "from");
          to := str_of (field "to");
          logic := if bool_decide (toUpperCase (to_str (field "logic" ||| VStr (js "OR"))) = js "AND")
                   then LAnd else LOr;
          conditions := conds |}.

Definition createDefaultOperation : Gen Operation :=
  normalizeOperation (VObj [(js "mode", VStr (js "set"))]).

(** ** The form of [prune_objects] *)

Definition prune_defaults : PruneObjectsDraft := {|
  simpleMode := true; typeText := []; p_logic := LAnd; recursive := true; rules := [] |}.

(** One rule per entry of an object. *)
Definition entry_rules (v : jsval) : Gen (list Condition) :=
  gmap_list (fun kv => normalizePruneRule
    (VObj [(js "path", VStr (fst kv)); (js "mode", VStr (js "full")); (js "value", snd kv)]))
    (entries_of v).

Definition parsePruneObjectsDraft (valueText : jsstr) : Gen PruneObjectsDraft :=
  let raw := trim valueText in
  if negb (str_truthy raw) then gret prune_defaults
  else
    match JSON_parse raw with
    | None => gret (prune_defaults <| typeText := raw |>)
    | Some (VStr s) => gret (prune_defaults <| typeText := trim s |>)
    | Some (VObj o) =>
        let field k := vget (VObj o) (js k) in
        where_rules <-- (if plain_obj (field "where") then entry_rules (field "where") else gret []) ;;
        condition_rules <--
          (match field "conditions" with
           | VArr l => gmap_list normalizePruneRule (base.filter (fun v => is_obj v = true) l)
           | VObj _ => entry_rules (field "conditions")
           | _ => gret []
           end) ;;
        gret {| simpleMode := negb (defined (field "logic") || defined (field "recursive")
                                    || defined (field "where") || defined (field "conditions"));
                typeText := if defined (field "type") then trim (to_str (field "type")) else [];
                p_logic := if bool_decide (toUpperCase (to_str (field "logic" ||| VStr (js "AND")))
                                           = js "OR") then LOr else LAnd;
                recursive := negb (is_false (field "recursive"));
                rules := where_rules ++ condition_rules |}
    | Some v => gret (prune_defaults <| typeText := trim (to_str (v ??? VStr [])) |>)
    end.

Definition prune_condition_payload (rule : Condition) : jsval :=
  VObj ([(js "path", VStr (trim (c_path rule))); (js "mode", VStr (cond_value (c_mode rule)))]
        ++ (if str_truthy (trim (c_value_text rule))
            then [(js "value", parseLooseValue (trim (c_value_text rule)))] else [])
        ++ (if invert rule then [(js "invert", VBool true)] else [])
        ++ (if pass_missing_key rule then [(js "pass_missing_key", VBool true)] else [])).

Definition buildPruneObjectsValueText (draft : PruneObjectsDraft) : jsstr :=
  let typeText := trim (typeText draft) in
  if simpleMode draft then typeText
  else
    let conditions := map prune_condition_payload
      (base.filter (fun rule => str_truthy (trim (c_path rule)) = true) (rules draft)) in
    let payload :=
      (if str_truthy typeText then [(js "type", VStr typeText)] else [])
      ++ (match p_logic draft with LOr => [(js "logic", VStr (js "OR"))] | LAnd => [] end)
      ++ (if recursive draft then [] else [(js "recursive", VBool false)])
      ++ (match conditions with [] => [] | _ => [(js "conditions", VArr conditions)] end) in
    default [] (JSON_stringify 0
      (if str_truthy typeText || match conditions with [] => false | _ => true end
       then VObj payload else VObj [(js "logic", VStr (js "AND"))])).

(** ** Order and display *)

(** The index of the first operation with an identifier. *)
Definition index_of (x : jsstr) (ops : list Operation) : option nat :=
  fst <$> list_find (fun o => id_ o = x) ops.

Inductive Position := Before | After.

Definition reorderOperations (ops : list Operation) (sourceId targetId : jsstr) (position : Position)
    : list Operation :=
  if negb (str_truthy sourceId) || negb (str_truthy targetId) || bool_decide (sourceId = targetId)
  then ops
  else
    match index_of sourceId ops with
    | None => ops
    | Some i =>
        match ops !! i with
        | None => ops
        | Some moved =>
            let next := take i ops ++ drop (S i) ops in
            match index_of targetId next with
            | None => ops
            | Some j =>
                let at_ := match position with After => S j | Before => j end in
                take at_ next ++ moved :: drop at_ next
            end
        end
    end.

Definition getOperationSummary (op : Operation) (index : Z) : jsstr :=
  let dash s := str_or s (js "-") in
  let target := if bool_decide (mode op = OpSyncFields)
                then str_or (trim (from op)) (dash (trim (to op)))
                else str_or (trim (path op)) (str_or (trim (from op)) (dash (trim (to op)))) in
  dec_digits (index + 1) ++ js ". " ++ mode_label (mode op) ++ js " · " ++ target.

Definition getOperationModeTagColor (m : OpMode) : jsstr :=
  let has s := includes (js s) (mode_value m) in
  if has "header" then js "cyan"
  else if has "replace" || has "trim" then js "violet"
  else if has "copy" || has "move" then js "blue"
  else if has "error" || has "prune" then js "red"
  else if has "sync" then js "green" else js "grey".

(** ** Blank operations *)

Definition blank (s : jsstr) : bool := negb (str_truthy (trim s)).

Definition isOperationBlank (op : Operation) : bool :=
  let hasCondition := existsb (fun c =>
    negb (blank (c_path c)) || negb (blank (c_value_text c)) || negb (bool_decide (c_mode c = CFull))
    || invert c || pass_missing_key c) (conditions op) in
  bool_decide (mode op = OpSet) && blank (path op) && blank (from op) && blank (to op)
  && blank (value_text op) && negb (keep_origin op) && negb hasCondition.

(** ** Validation *)

Variable t : jsstr -> list (jsstr * jsstr) -> jsstr.

(** [JSON.parse(raw.trim())] when it is an object that is not an array *)
Definition parsed_object (text : jsstr) : option jsval :=
  match JSON_parse (trim text) with
  | Some (VObj o) => Some (VObj o)
  | _ => None
  end.

(** An object of [prune_objects] has something to match. *)
Definition prune_matches (v : jsval) : bool :=
  let field k := vget v (js k) in
  let nonempty v := match v with VObj (_ :: _) => true | _ => false end in
  (defined (field "type") && negb (blank (to_str (field "type"))))
  || nonempty (field "where")
  || match field "conditions" with VArr (_ :: _) => true | _ => false end
  || nonempty (field "conditions").

(** The message for one operation; [None] when it is in order. *)
Definition operation_error (line : Z) (op : Operation) : option jsstr :=
  let meta := MODE_META (mode op) in
  let tl s := Some (t (js s) [(js "line", dec_digits line)]) in
  let alias := m_pathAlias meta && negb (blank (path op)) in
  if m_path meta && blank (path op) then tl "第 {{line}} 条操作缺少目标路径"
  else if FROM_REQUIRED_MODES (mode op) && blank (from op) && negb alias
  then tl "第 {{line}} 条操作缺少来源字段"
  else if TO_REQUIRED_MODES (mode op) && blank (to op) && negb alias
  then tl "第 {{line}} 条操作缺少目标字段"
  else if m_from meta && blank (from op) then tl "第 {{line}} 条操作缺少来源字段"
  else if m_to meta && blank (to op) then tl "第 {{line}} 条操作缺少目标字段"
  else if VALUE_REQUIRED_MODES (mode op) && blank (value_text op) then tl "第 {{line}} 条操作缺少值"
  else
    match mode op with
    | OpReturnError =>
        if blank (value_text op) then tl "第 {{line}} 条操作缺少值"
        else match parsed_object (value_text op) with
             | Some v =>
                 if str_truthy (trimmed_or_empty (vget v (js "message"))) then None
                 else tl "第 {{line}} 条 return_error 需要 message 字段"
             | None => None
             end
    | OpPruneObjects =>
        if blank (value_text op) then tl "第 {{line}} 条 prune_objects 缺少条件"
        else match parsed_object (value_text op) with
             | Some v => if prune_matches v then None
                         else tl "第 {{line}} 条 prune_objects 需要至少一个匹配条件"
             | None => None
             end
    | OpPassHeaders =>
        if blank (value_text op) then tl "第 {{line}} 条请求头透传缺少请求头名称"
        else match parsePassHeaderNames (parseLooseValue (trim (value_text op))) with
             | [] => tl "第 {{line}} 条请求头透传格式无效"
             | _ => None
             end
    | _ => None
    end.

Fixpoint validate_from (line : Z) (ops : list Operation) : jsstr :=
  match ops with
  | [] => []
  | op :: rest =>
      match operation_error line op with
      | Some msg => msg
      | None => validate_from (line + 1) rest
      end
  end.

Definition validateOperations (ops : list Operation) : jsstr := validate_from 1 ops.

(** ** The payload *)

Definition buildConditionPayload (c : Condition) : option jsval :=
  let path := trim (c_path c) in
  if negb (str_truthy path) then None
  else Some (VObj ([(js "path", VStr path); (js "mode", VStr (cond_value (c_mode c)));
                    (js "value", parseLooseValue (c_value_text c))]
                   ++ (if invert c then [(js "invert", VBool true)] else [])
                   ++ (if pass_missing_key c then [(js "pass_missing_key", VBool true)] else []))).

(** [payload.k || (meta.pathAlias && path)] *)
Definition aliased (meta : Meta) (value path : jsstr) : jsstr :=
  if m_pathAlias meta && negb (str_truthy value) && str_truthy path then path else value.

Definition operation_payload (op : Operation) : jsval :=
  let meta := MODE_META (mode op) in
  let descriptionValue := trim (description op) in
  let pathValue := trim (path op) in
  let fromValue := trim (from op) in
  let toValue := trim (to op) in
  let conds := omap buildConditionPayload (conditions op) in
  VObj ([(js "mode", VStr (mode_value (mode op)))]
    ++ (if str_truthy descriptionValue then [(js "description", VStr descriptionValue)] else [])
    ++ (if m_path meta || (m_pathOptional meta && str_truthy pathValue)
        then [(js "path", VStr pathValue)] else [])
    ++ (if m_value meta then [(js "value", parseLooseValue (value_text op))] else [])
    ++ (if m_keepOrigin meta && keep_origin op then [(js "keep_origin", VBool true)] else [])
    ++ (if m_from meta then [(js "from", VStr (aliased meta fromValue pathValue))] else [])
    ++ (if m_to meta || str_truthy toValue then [(js "to", VStr (aliased meta toValue pathValue))] else [])
    ++ (match conds with
        | [] => []
        | _ => [(js "conditions", VArr conds); (js "logic", VStr (logic_value (logic op)))]
        end)).

Definition operations_val (ops : list jsval) : jsval := VObj [(js "operations", VArr ops)].

(** [JSON.stringify(v, null, 2)] *)
Definition pretty (v : jsval) : jsstr := default [] (JSON_stringify 2 v).

(** [buildOperationsJson]: the text, or the message of the error thrown. *)
Definition buildOperationsJson (ops : list Operation) (validate : bool) : jsstr + jsstr :=
  let filteredOps := base.filter (fun op => isOperationBlank op = false) ops in
  match filteredOps with
  | [] => inr []
  | _ =>
      let msg := if validate then validateOperations filteredOps else [] in
      if str_truthy msg then inl msg
      else inr (pretty (operations_val (map operation_payload filteredOps)))
  end.

Inductive VisualMode := VOperations | VLegacy.

Definition buildVisualJson (visualMode : VisualMode) (legacyValue : jsstr) (ops : list Operation)
    : jsstr + jsstr :=
  match visualMode with
  | VLegacy =>
      let trimmed := trim legacyValue in
      if negb (str_truthy trimmed) then inr []
      else match JSON_parse trimmed with
           | None => inl (t (js "参数覆盖必须是合法的 JSON 格式！") [])
           | Some (VObj o) => inr (pretty (VObj o))
           | Some _ => inl (t (js "旧格式必须是 JSON 对象") [])
           end
  | VOperations => buildOperationsJson ops true
  end.

(** ** Loading *)

Inductive EditMode := Visual | Json.

Record InitialState := {
  i_editMode : EditMode;
  i_visualMode : VisualMode;
  i_legacyValue : jsstr;
  i_operations : list Operation;
  i_jsonText : jsstr;
  i_jsonError : jsstr
}.

(** The operations of a payload, or one default operation. *)
Definition load_operations (l : list jsval) : Gen (list Operation) :=
  match l with
  | [] => op <-- createDefaultOperation ;; gret [op]
  | _ => gmap_list normalizeOperation l
  end.

Definition one_default (editMode : EditMode) (visualMode : VisualMode)
    (legacyValue jsonText jsonError : jsstr) : Gen InitialState :=
  op <-- createDefaultOperation ;;
  gret {| i_editMode := editMode; i_visualMode := visualMode; i_legacyValue := legacyValue;
          i_operations := [op]; i_jsonText := jsonText; i_jsonError := jsonError |}.

Definition parseInitialState (text : jsstr) : Gen InitialState :=
  let trimmed := trim text in
  if negb (str_truthy trimmed) then one_default Visual VOperations [] [] []
  else
    match JSON_parse trimmed with
    | None => one_default Json VOperations [] text (js "JSON 格式不正确")
    | Some (VObj o) =>
        let printed := pretty (VObj o) in
        match vget (VObj o) (js "operations") with
        | VArr l =>
            ops <-- load_operations l ;;
            gret {| i_editMode := Visual; i_visualMode := VOperations; i_legacyValue := [];
                    i_operations := ops; i_jsonText := printed; i_jsonError := [] |}
        | _ => one_default Visual VLegacy printed printed []
        end
    | Some v => one_default Json VOperations [] (pretty v) []
    end.
End Editor.

(** ** Values through their texts *)

Lemma JSON_parse_nonblank s v : JSON_parse s = Some v -> str_truthy (trim s) = true.
Proof. intros E%JSON_parse_trim. by destruct (trim s). Qed.

Lemma parseLooseValue_json s v : JSON_parse s = Some v -> parseLooseValue s = v.
Proof. intros E. unfold parseLooseValue. by rewrite (JSON_parse_nonblank s v E), E. Qed.

(** The content of a string literal is shorter than the literal. *)
Lemma parse_string_shorter s x r : parse_string s = Some (x, r) -> (length x < length s)%nat.
Proof.
  revert x. induction s as [s IH] using (induction_ltof1 _ (@length Z)); intros x.
  unfold ltof in IH. destruct s as [|c s]; [done|]. cbn [parse_string].
  repeat case_match; try done; [intros [= <- <-]; cbn; lia|..];
    intros E; apply fmap_Some in E as ([y r0] & E & X); cbn in X; injection X as -> ->;
    apply IH in E; cbn in *; lia.
Qed.

Lemma JSON_parse_shorter s u : JSON_parse s = Some (VStr u) -> (length u < length s)%nat.
Proof.
  unfold JSON_parse, json_fuel. cbn [parse_value]. pose proof (skip_ws_length s) as L.
  destruct (skip_ws s) as [|c t]; [done|]. cbn in L.
  destruct (c =? 34).
  - destruct (parse_string t) as [[x r]|] eqn:E; [|done]. cbn. apply parse_string_shorter in E.
    case_match; [|done]. intros [= <-]. lia.
  - unfold keyword. repeat case_match; intros; simplify_eq;
      repeat match goal with
      | X : _ <$> _ = Some _ |- _ => apply fmap_Some in X as ([] & ? & X); cbn in X; simplify_eq
      end.
Qed.

(** When a string value is shown and read back unchanged. *)
Definition kept_string (s : jsstr) : Prop := s = [] \/ (trim s <> [] /\ JSON_parse s = None).

Lemma kept_string_loose s : kept_string s -> parseLooseValue s = VStr s.
Proof.
  intros [->|[T N]]; [done|]. unfold parseLooseValue. destruct (trim s); [done|]. by rewrite N.
Qed.

Lemma printed_loose v : json_ok v -> (forall s, v <> VStr s) -> parseLooseValue (toValueText v) = v.
Proof.
  intros O N. destruct (JSON_parse_stringify 0 v O) as (text & S & P).
  assert (toValueText v = text) as ->.
  { unfold toValueText. rewrite S. destruct v; try done. by destruct (N s). }
  by apply parseLooseValue_json.
Qed.

(** C17. A JSON value of an override is shown as a text and read back from it.
    It comes back unchanged exactly when it is not a string, or is the empty
    string, or is a string that is not blank and is not itself the text of a
    JSON value: the string "1" comes back as the number 1. *)
Theorem value_text_roundtrip_iff v : json_ok v ->
  parseLooseValue (toValueText v) = v <-> forall s, v = VStr s -> kept_string s.
Proof.
  intros O. split.
  - intros E s ->. cbn [toValueText] in E. unfold parseLooseValue in E.
    destruct (trim s) as [|c r] eqn:T; cbn [str_truthy] in E; [left; congruence|].
    right. split; [by rewrite T|]. destruct (JSON_parse s) as [v'|] eqn:P; [|done]. cbn in E. subst.
    apply JSON_parse_shorter in P. lia.
  - intros K. destruct v as [| | | |s| |]; try by apply printed_loose.
    by apply kept_string_loose, K.
Qed.

(** ** Validation is exact *)

Definition nonblank (s : jsstr) : Prop := trim s <> [].

Lemma blank_spec s : blank s = true <-> ~ nonblank s.
Proof.
  unfold blank, nonblank. destruct (trim s); cbn; [by split; [intros _ X; apply X|]|].
  split; [done|]. intros X. by destruct X.
Qed.

Lemma blank_false s : blank s = false <-> nonblank s.
Proof. unfold blank, nonblank. by destruct (trim s). Qed.

(** What an operation must have, by its mode. *)
Definition operation_ok (op : Operation) : Prop :=
  let meta := MODE_META (mode op) in
  (m_path meta = true -> nonblank (path op)) /\
  (m_from meta = true -> nonblank (from op)) /\
  (m_to meta = true -> nonblank (to op)) /\
  (VALUE_REQUIRED_MODES (mode op) = true -> nonblank (value_text op)) /\
  match mode op with
  | OpReturnError => forall v, parsed_object (value_text op) = Some v ->
      trimmed_or_empty (vget v (js "message")) <> []
  | OpPruneObjects => forall v, parsed_object (value_text op) = Some v -> prune_matches v = true
  | OpPassHeaders => parsePassHeaderNames (parseLooseValue (trim (value_text op))) <> []
  | _ => True
  end.

Section Validation.
Context (t : jsstr -> list (jsstr * jsstr) -> jsstr).

(** The modes that need a source or target are those that have one: that a
    path may stand for it, as the messages before allow, never applies. *)
Lemma required_fields m :
  FROM_REQUIRED_MODES m = m_from (MODE_META m) /\ TO_REQUIRED_MODES m = m_to (MODE_META m).
Proof. by destruct m. Qed.

Lemma operation_error_None line op : operation_error t line op = None <-> operation_ok op.
Proof.
  unfold operation_error, operation_ok. destruct (required_fields (mode op)) as [-> ->].
  destruct (m_path (MODE_META (mode op)) && blank (path op)) eqn:P.
  { apply andb_true_iff in P as [M B%blank_spec]. split; [done|]. intros (X & _). by destruct B; apply X. }
  destruct (m_from (MODE_META (mode op)) && blank (from op)) eqn:F.
  { cbn. apply andb_true_iff in F as [M B%blank_spec]. split.
    - repeat case_match; done.
    - intros (_ & X & _). by destruct B; apply X. }
  destruct (m_to (MODE_META (mode op)) && blank (to op)) eqn:T.
  { cbn. apply andb_true_iff in T as [M B%blank_spec]. split.
    - repeat case_match; done.
    - intros (_ & _ & X & _). by destruct B; apply X. }
  cbn [andb].
  destruct (VALUE_REQUIRED_MODES (mode op) && blank (value_text op)) eqn:V.
  { apply andb_true_iff in V as [M B%blank_spec]. split; [done|].
    intros (_ & _ & _ & X & _). by destruct B; apply X. }
  assert (N : forall b s, b && blank s = false -> b = true -> nonblank s).
  { intros b s E ->. by apply blank_false. }
  pose proof (N _ _ P) as P'. pose proof (N _ _ F) as F'. pose proof (N _ _ T) as T'.
  pose proof (N _ _ V) as V'. clear N P F T V.
  destruct (mode op); try (split; [intros _; split_and!|]; done);
    rewrite (proj2 (blank_false _) (V' eq_refl)).
  - destruct (parsed_object (value_text op)) as [v|]; [|split; [intros _; split_and!|]; done].
    destruct (trimmed_or_empty (vget v (js "message"))) as [|c r] eqn:E; cbn [str_truthy].
    + split; [done|]. intros (_ & _ & _ & _ & X). by destruct (X v eq_refl).
    + split; [|done]. intros _. split_and!; try done. intros v' [= <-]. by rewrite E.
  - destruct (parsed_object (value_text op)) as [v|]; [|split; [intros _; split_and!|]; done].
    destruct (prune_matches v) eqn:E.
    + split; [|done]. intros _. split_and!; try done. by intros v' [= <-].
    + split; [done|]. intros (_ & _ & _ & _ & X). by rewrite (X v eq_refl) in E.
  - destruct (parsePassHeaderNames _) as [|h hs].
    + split; [done|]. by intros (_ & _ & _ & _ & X).
    + split; [|done]. intros _. split_and!; done.
Qed.

Hypothesis t_nonempty : forall s a, t s a <> [].

Lemma operation_error_nonempty line op msg : operation_error t line op = Some msg -> msg <> [].
Proof.
  unfold operation_error. repeat case_match; intros [= <-]; apply t_nonempty.
Qed.

Lemma validate_from_spec line ops : validate_from t line ops = [] <-> Forall operation_ok ops.
Proof.
  revert line. induction ops as [|op ops IH]; intros line; cbn; [by split; [constructor|]|].
  rewrite Forall_cons, <- (operation_error_None line op). destruct (operation_error t line op) eqn:E.
  - apply operation_error_nonempty in E. split; [done|by intros []].
  - rewrite IH. tauto.
Qed.

(** The message is that of the first operation that is refused. *)
Lemma validate_from_error line ops msg : validate_from t line ops = msg -> msg <> [] ->
  exists l op r, ops = l ++ op :: r /\ Forall operation_ok l /\
    operation_error t (line + Z.of_nat (length l)) op = Some msg.
Proof.
  revert line. induction ops as [|op ops IH]; intros line; cbn; [by intros <-|].
  destruct (operation_error t line op) as [e|] eqn:E.
  - intros -> _. exists [], op, ops. cbn. by rewrite Z.add_0_r.
  - intros V N. destruct (IH _ V N) as (l & op' & r & -> & F & X). exists (op :: l), op', r.
    split_and!; [done|constructor; [by eapply operation_error_None|done]|].
    rewrite <- X. cbn [length]. f_equal. lia.
Qed.

Lemma nonblank_operations P ops :
  (forall op, op ∈ ops -> isOperationBlank op = false -> P op) <->
  Forall P (base.filter (fun op => isOperationBlank op = false) ops).
Proof.
  rewrite Forall_forall. split; intros A op;
    [intros [B I]%list_elem_of_filter|intros I B; apply A, list_elem_of_filter]; auto.
Qed.

Lemma saved_operations_ok ops text : buildOperationsJson t ops true = inr text ->
  Forall operation_ok (base.filter (fun op => isOperationBlank op = false) ops).
Proof.
  unfold buildOperationsJson. destruct (base.filter _ ops) as [|op F]; [constructor|].
  intros B. apply (validate_from_spec 1). unfold validateOperations in B.
  by destruct (validate_from t 1 (op :: F)).
Qed.
End Validation.

(** C16. The rules can be saved from the form exactly when every rule that is
    not blank has what its mode needs: a target path, a source, a target, a
    value, and for return_error, prune_objects and pass_headers a usable
    value.  Otherwise the message is the one of the first rule that lacks
    something, with its number among the rules that are not blank. *)
Theorem override_saved_iff_valid t ops :
  (forall s a, t s a <> []) ->
  ((exists text, buildOperationsJson t ops true = inr text) <->
   forall op, op ∈ ops -> isOperationBlank op = false -> operation_ok op) /\
  (forall msg, buildOperationsJson t ops true = inl msg ->
   exists l op r, base.filter (fun op => isOperationBlank op = false) ops = l ++ op :: r /\
     Forall operation_ok l /\ ~ operation_ok op /\
     operation_error t (1 + Z.of_nat (length l)) op = Some msg).
Proof.
  intros T. split.
  - rewrite nonblank_operations. split; [intros [text B]; by eapply saved_operations_ok|].
    unfold buildOperationsJson. destruct (base.filter _ ops) as [|op F]; [by eexists|].
    intros V%(validate_from_spec t T 1). unfold validateOperations. rewrite V. by eexists.
  - intros msg. unfold buildOperationsJson. destruct (base.filter _ ops) as [|op F]; [done|].
    unfold validateOperations. destruct (validate_from t 1 (op :: F)) as [|c e] eqn:V; [done|].
    intros [= <-]. destruct (validate_from_error t 1 _ _ V) as (l & o & r & -> & O & X); [done|].
    exists l, o, r. split_and!; [done|done| |exact X].
    intros Y%(operation_error_None t (1 + Z.of_nat (length l))). congruence.
Qed.

(** ** Instances *)

Lemma value_text_roundtrip_iff_witness :
  parseLooseValue (toValueText (VStr (js "gpt-4"))) = VStr (js "gpt-4") /\
  parseLooseValue (toValueText (VStr (js "1"))) = VNum n1.
Proof.
  split; [|vm_compute; reflexivity].
  refine (proj2 (value_text_roundtrip_iff (VStr (js "gpt-4")) _) _).
  - apply js_literal_ok. vm_compute. reflexivity.
  - intros s [= <-]. right. split; [discriminate|vm_compute; reflexivity].
Defined.

Definition sample_operation : Operation := {|
  id_ := js "a"; description := js "Set default temperature."; path := js "temperature";
  mode := OpSet; value_text := js " true"; keep_origin := true; from := []; to := [];
  logic := LAnd;
  conditions := [{| c_id := js "b"; c_path := js "model "; c_mode := CPrefix;
                    c_value_text := js "openai/"; invert := true; pass_missing_key := false |}] |}.

Definition sample_invalid : Operation := {|
  id_ := js "c"; description := []; path := js "X-Id"; mode := OpCopyHeader; value_text := [];
  keep_origin := false; from := []; to := []; logic := LOr; conditions := [] |}.

Lemma override_saved_iff_valid_witness :
  (forall op, op ∈ [sample_operation] -> isOperationBlank op = false -> operation_ok op) /\
  ~ (forall op, op ∈ [sample_operation; sample_invalid] -> isOperationBlank op = false -> operation_ok op).
Proof.
  pose proof (fun ops => proj1 (override_saved_iff_valid (fun s _ => 33 :: s) ops
    ltac:(discriminate))) as T.
  split.
  - apply (proj1 (T [sample_operation])).
    destruct (buildOperationsJson _ _ _) as [e|text] eqn:B; [vm_compute in B; discriminate|by exists text].
  - intros X. apply (proj2 (T [sample_operation; sample_invalid])) in X as [text X].
    vm_compute in X. discriminate.
Defined.
