(* ===== verification/ParamReload.v ===== *)
(** * A parameter override saved and opened again

    What the editor shows after saving: each operation of the payload is
    normalised to the operation it was built from ([reloaded]), so that the
    same text is built again. *)

From Stdlib Require Import SpecFloat.
From stdpp Require Import base list numbers strings.
From S2P Require Import Prelude JsNumber JsString JsValue JsJson JsReprint ParamOverride.
Local Open Scope Z_scope.
Local Open Scope js_scope.

(** ** Value texts *)

(** A value text that survives: its value fits in JSON, and if it is a string
    literal its content is plain text. *)
Definition keeps (s : jsstr) : Prop :=
  json_ok (parseLooseValue s) /\
  forall u, JSON_parse s = Some (VStr u) -> u <> [] /\ trim u = u /\ JSON_parse u = None.

(** The text shown after saving and reloading. *)
Definition reload (s : jsstr) : jsstr := toValueText (parseLooseValue s).

Lemma parsed_object_trim s v : JSON_parse s = Some v ->
  parsed_object s = match v with VObj o => Some (VObj o) | _ => None end.
Proof. intros E%JSON_parse_trim. unfold parsed_object. by rewrite E. Qed.

Lemma reload_spec s : keeps s ->
  parseLooseValue (reload s) = parseLooseValue s /\ blank (reload s) = blank s /\
  parsed_object (reload s) = parsed_object s /\
  parseLooseValue (trim (reload s)) = parseLooseValue (trim s).
Proof.
  intros [O L]. unfold reload. destruct (JSON_parse s) as [v|] eqn:P.
  - rewrite (parseLooseValue_json s v P) in *.
    pose proof (parseLooseValue_json _ _ (JSON_parse_trim _ _ P)) as T.
    pose proof (JSON_parse_nonblank _ _ P) as B. pose proof (parsed_object_trim _ _ P) as PO.
    assert ((exists u, v = VStr u) \/ forall u, v <> VStr u) as [[u ->]|N]
      by (destruct v; first [by right|left; by eexists]).
    + destruct (L u eq_refl) as (U & Tu & Pu). cbn [toValueText]. rewrite Tu.
      assert (K : parseLooseValue u = VStr u) by (apply kept_string_loose; right; by rewrite Tu).
      split_and!; [done| | |by rewrite K, T].
      * unfold blank. rewrite B, Tu. by destruct u.
      * rewrite PO. unfold parsed_object. by rewrite Tu, Pu.
    + assert (R : JSON_parse (toValueText v) = Some v).
      { destruct (JSON_parse_stringify 0 v O) as (text & S & R). rewrite <- R. f_equal.
        destruct v; cbn [toValueText]; rewrite ?S; try done. by destruct (N s0). }
      split_and!.
      * by apply parseLooseValue_json.
      * unfold blank. by rewrite B, (JSON_parse_nonblank _ _ R).
      * by rewrite PO, (parsed_object_trim _ _ R).
      * by rewrite T, (parseLooseValue_json _ _ (JSON_parse_trim _ _ R)).
  - assert (E : parseLooseValue s = if str_truthy (trim s) then VStr s else VStr [])
      by (unfold parseLooseValue; by rewrite P).
    destruct (trim s) as [|c r] eqn:Ts; cbn [str_truthy] in E; rewrite E; cbn [toValueText].
    + unfold blank, parsed_object. by rewrite Ts.
    + by rewrite E, Ts.
Qed.

(** Comparisons of literal keys. *)
Ltac key_eqs :=
  repeat match goal with
  | |- context [bool_decide (js ?a = js ?b)] =>
      let r := eval vm_compute in (bool_decide (js a = js b)) in
      change (bool_decide (js a = js b)) with r
  end.

Ltac read_fields :=
  cbn [vget];
  repeat first
    [ progress cbn [assoc_get from_option id app andb] | progress key_eqs
    | rewrite assoc_get_app | rewrite assoc_get_if
    | rewrite andb_false_r | rewrite andb_true_r ].

Lemma cond_mode_of_value m : cond_mode_of (VStr (cond_value m)) = m.
Proof. by destruct m; vm_compute. Qed.

Lemma mode_of_value m : mode_of (VStr (mode_value m)) = m.
Proof. by destruct m; vm_compute. Qed.

Section Reload.
Context `{Unicode} (now : Z -> Z).

(** The condition after a reload. *)
Definition reloaded_condition (n : Z) (c : Condition) : Condition := {|
  c_id := local_id now n; c_path := trim (c_path c); c_mode := c_mode c;
  c_value_text := reload (c_value_text c); invert := invert c;
  pass_missing_key := pass_missing_key c |}.

Lemma normalizeCondition_payload c pl n : buildConditionPayload c = Some pl ->
  normalizeCondition now pl n = (Some (reloaded_condition n c), n + 1).
Proof.
  unfold buildConditionPayload. destruct (str_truthy (trim (c_path c))); [|done].
  cbn [negb]. intros [= <-]. unfold normalizeCondition, nextLocalId, not_null, gbind, gret.
  read_fields.
  rewrite cond_mode_of_value. cbn [str_of].
  destruct (invert c) eqn:I, (pass_missing_key c) eqn:P; cbn;
    unfold reloaded_condition; rewrite I, P; done.
Qed.

Lemma reloaded_condition_payload n c : keeps (c_value_text c) ->
  buildConditionPayload (reloaded_condition n c) = buildConditionPayload c.
Proof.
  intros K. unfold buildConditionPayload, reloaded_condition. cbn. rewrite trim_idem.
  by destruct (reload_spec _ K) as (-> & _).
Qed.

Lemma conditions_reload cs : Forall (fun c => keeps (c_value_text c)) cs -> forall n,
  exists cs' n', gmap_list (normalizeCondition now) (omap buildConditionPayload cs) n = (Some cs', n') /\
    omap buildConditionPayload cs' = omap buildConditionPayload cs.
Proof.
  induction 1 as [|c cs K F IH]; intros n; [by exists [], n|].
  cbn [omap list_omap]. destruct (buildConditionPayload c) as [pl|] eqn:P; [|apply IH].
  destruct (IH (n + 1)) as (cs' & n' & E & O). exists (reloaded_condition n c :: cs'), n'.
  cbn [gmap_list]. unfold gbind. rewrite (normalizeCondition_payload c pl n P), E.
  split; [done|]. cbn [omap list_omap]. rewrite reloaded_condition_payload, P, O by done. done.
Qed.

(** An operation after a reload, but for its identifiers. *)
Record reloaded (op op' : Operation) : Prop := {
  r_mode : mode op' = mode op;
  r_description : description op' = trim (description op);
  r_path : path op' = (if m_path (MODE_META (mode op)) || m_pathOptional (MODE_META (mode op))
                       then trim (path op) else []);
  r_value : value_text op' = (if m_value (MODE_META (mode op)) then reload (value_text op) else []);
  r_keep : keep_origin op' = m_keepOrigin (MODE_META (mode op)) && keep_origin op;
  r_from : from op' = (if m_from (MODE_META (mode op)) then trim (from op) else []);
  r_to : to op' = trim (to op);
  r_logic : omap buildConditionPayload (conditions op) <> [] -> logic op' = logic op;
  r_conditions : omap buildConditionPayload (conditions op')
                 = omap buildConditionPayload (conditions op)
}.

Lemma if_truthy s : (if str_truthy s then s else []) = s.
Proof. by destruct s. Qed.

Lemma aliased_nonblank meta s p : trim s <> [] -> aliased meta (trim s) p = trim s.
Proof. unfold aliased. destruct (trim s); [done|]. cbn. by rewrite andb_false_r. Qed.

Lemma logic_of_value l : toUpperCase (to_str (VStr (logic_value l) ||| VStr (js "OR"))) = logic_value l.
Proof. by destruct l; vm_compute. Qed.

(** The fields of the payload of an operation. *)
Lemma payload_fields op :
  let meta := MODE_META (mode op) in
  let conds := omap buildConditionPayload (conditions op) in
  let opt (b : bool) v := if b then v else VUndef in
  let field k := vget (operation_payload op) (js k) in
  field "mode" = VStr (mode_value (mode op)) /\
  field "description" = opt (str_truthy (trim (description op))) (VStr (trim (description op))) /\
  field "path" = opt (m_path meta || (m_pathOptional meta && str_truthy (trim (path op))))
                   (VStr (trim (path op))) /\
  field "value" = opt (m_value meta) (parseLooseValue (value_text op)) /\
  field "keep_origin" = opt (m_keepOrigin meta && keep_origin op) (VBool true) /\
  field "from" = opt (m_from meta) (VStr (aliased meta (trim (from op)) (trim (path op)))) /\
  field "to" = opt (m_to meta || str_truthy (trim (to op)))
                 (VStr (aliased meta (trim (to op)) (trim (path op)))) /\
  field "conditions" = match conds with [] => VUndef | _ => VArr conds end /\
  field "logic" = match conds with [] => VUndef | _ => VStr (logic_value (logic op)) end.
Proof.
  cbn zeta. unfold operation_payload.
  destruct (omap buildConditionPayload (conditions op)) as [|c cs]; split_and!; read_fields;
    repeat match goal with |- context [if ?b then _ else _] => destruct b end; reflexivity.
Qed.

(** What [normalizeOperation] makes of these fields. *)
Definition reload_operation (n : Z) (lg : Logic) (cs : list Condition) (op : Operation) : Operation :=
  let meta := MODE_META (mode op) in
  let opt (b : bool) v := if b then v else VUndef in
  {| id_ := local_id now n;
     description := str_of (opt (str_truthy (trim (description op))) (VStr (trim (description op))));
     path := str_of (opt (m_path meta || m_pathOptional meta && str_truthy (trim (path op)))
                       (VStr (trim (path op))));
     mode := mode_of (VStr (mode_value (mode op)));
     value_text := toValueText (opt (m_value meta) (parseLooseValue (value_text op)));
     keep_origin := is_true (opt (m_keepOrigin meta && keep_origin op) (VBool true));
     from := str_of (opt (m_from meta) (VStr (aliased meta (trim (from op)) (trim (path op)))));
     to := str_of (opt (m_to meta || str_truthy (trim (to op)))
                     (VStr (aliased meta (trim (to op)) (trim (path op)))));
     logic := lg; conditions := cs |}.

Lemma str_of_opt (b : bool) s : str_of (if b then VStr s else VUndef) = if b then s else [].
Proof. by destruct b. Qed.

Lemma target_kept meta (b : bool) s p : (b = true -> nonblank s) ->
  (if b || str_truthy (trim s) then aliased meta (trim s) p else []) = trim s.
Proof.
  intros B. destruct (trim s) as [|c r] eqn:T.
  - destruct b; [|done]. by destruct (B eq_refl).
  - rewrite orb_true_r, <- T. apply aliased_nonblank. by rewrite T.
Qed.

Lemma reload_operation_reloaded n lg cs op : operation_ok op ->
  (omap buildConditionPayload (conditions op) <> [] -> lg = logic op) ->
  omap buildConditionPayload cs = omap buildConditionPayload (conditions op) ->
  reloaded op (reload_operation n lg cs op).
Proof.
  intros (_ & Fr & To & _) Lg O.
  split; unfold reload_operation;
    cbn [mode description path value_text keep_origin from to logic conditions];
    rewrite ?mode_of_value, ?str_of_opt, ?target_kept, ?if_truthy by auto; auto.
  - destruct (m_path _), (m_pathOptional _), (trim (path op)); done.
  - by destruct (m_value _).
  - by destruct (m_keepOrigin _ && keep_origin op).
  - destruct (m_from _) eqn:Mf; [|done]. by apply aliased_nonblank, Fr.
Qed.

Lemma normalizeOperation_payload op n :
  operation_ok op -> Forall (fun c => keeps (c_value_text c)) (conditions op) ->
  exists op' n', normalizeOperation now (operation_payload op) n = (Some op', n') /\ reloaded op op'.
Proof.
  intros V K. destruct (conditions_reload (conditions op) K (n + 1)) as (cs & n' & E & O).
  destruct (payload_fields op) as (M & D & P & Va & Ko & Fm & T & C & L). cbn zeta in *.
  pose proof (fun lg Lg => reload_operation_reloaded n lg cs op V Lg O) as R.
  unfold normalizeOperation, nextLocalId, gbind, gret. rewrite M, D, P, Va, Ko, Fm, T, C, L.
  change (not_null (operation_payload op) (n + 1)) with (Some tt, n + 1). cbn iota beta.
  destruct (omap buildConditionPayload (conditions op)) as [|c l] eqn:Cs.
  - cbn in E. injection E as <- <-. eexists _, _. split; [reflexivity|]. by apply R.
  - rewrite E. eexists _, _. split; [reflexivity|]. apply R. intros _.
    rewrite logic_of_value. by destruct (logic op).
Qed.

(** The reloaded operation is in order, and has the payload of the first. *)
Lemma reloaded_payload op op' : reloaded op op' -> operation_ok op ->
  (m_value (MODE_META (mode op)) = true -> keeps (value_text op)) ->
  operation_payload op' = operation_payload op.
Proof.
  intros [M D P V Ko Fr To L C] (Pn & Frn & Ton & _) K. unfold operation_payload.
  rewrite M, D, P, V, Ko, Fr, To, C, trim_idem, (trim_idem (to op)).
  assert (forall (b : bool) s, trim (if b then trim s else []) = if b then trim s else []) as Ti
    by (intros [] s; [apply trim_idem|done]).
  rewrite !Ti.
  f_equal. repeat (apply (f_equal2 app); [try reflexivity|]).
  - destruct (m_path _), (m_pathOptional _), (trim (path op)); done.
  - destruct (m_value _); [|done]. by destruct (reload_spec _ (K eq_refl)) as (-> & _).
  - by destruct (m_keepOrigin _), (keep_origin op).
  - destruct (m_from _) eqn:E; [|done]. by rewrite !aliased_nonblank by by apply Frn.
  - destruct (m_to _ || str_truthy (trim (to op))) eqn:E; [|done].
    assert (trim (to op) <> []).
    { destruct (m_to _) eqn:X; [by apply Ton|]. by destruct (trim (to op)). }
    by rewrite !aliased_nonblank by done.
  - destruct (omap buildConditionPayload (conditions op)); [done|]. by rewrite L by done.
Qed.

Lemma value_required_has_value m : VALUE_REQUIRED_MODES m = true -> m_value (MODE_META m) = true.
Proof. by destruct m. Qed.

Lemma reloaded_ok op op' : reloaded op op' -> operation_ok op ->
  (m_value (MODE_META (mode op)) = true -> keeps (value_text op)) -> operation_ok op'.
Proof.
  intros [M _ P V _ Fr To _ _] (Pn & Frn & Ton & Vn & X) K. unfold operation_ok, nonblank in *.
  rewrite M, P, V, Fr, To, trim_idem.
  assert (R : m_value (MODE_META (mode op)) = true ->
    blank (reload (value_text op)) = blank (value_text op) /\
    parsed_object (reload (value_text op)) = parsed_object (value_text op) /\
    parseLooseValue (trim (reload (value_text op))) = parseLooseValue (trim (value_text op))).
  { intros Mv. destruct (reload_spec _ (K Mv)) as (_ & ? & ? & ?). done. }
  split_and!.
  - intros Mp. rewrite Mp. cbn. rewrite trim_idem. auto.
  - intros Mf. rewrite Mf, trim_idem. auto.
  - done.
  - intros Vr. rewrite (value_required_has_value _ Vr). apply blank_false.
    destruct (R (value_required_has_value _ Vr)) as (-> & _). by apply blank_false, Vn.
  - clear P V Fr To M. destruct (mode op); try done; destruct (R eq_refl) as (_ & RO & RL);
      replace (m_value (MODE_META _)) with true by reflexivity.
    + rewrite RO. done.
    + rewrite RO. done.
    + rewrite RL. done.
Qed.

Lemma reloaded_not_blank op op' : reloaded op op' -> operation_ok op -> isOperationBlank op' = false.
Proof.
  intros [M _ P _ _ _ _ _ _] (Pn & _). unfold isOperationBlank. rewrite M, P.
  destruct (decide (mode op = OpSet)) as [E|N].
  - rewrite E in *. specialize (Pn eq_refl). rewrite bool_decide_true by done.
    change (m_path (MODE_META OpSet)) with true. cbn [orb].
    assert (blank (trim (path op)) = false) as -> by (apply blank_false; unfold nonblank; by rewrite trim_idem).
    done.
  - by rewrite bool_decide_false.
Qed.

(** ** The payload is well formed *)

Lemma mode_value_ok m : str_ok (mode_value m).
Proof. apply js_literal_ok. by destruct m; vm_compute. Qed.

Lemma cond_value_ok m : str_ok (cond_value m).
Proof. apply js_literal_ok. by destruct m; vm_compute. Qed.

Lemma Forall_if {A} (P : A -> Prop) (b : bool) x : P x -> Forall P (if b then [x] else []).
Proof. destruct b; by repeat constructor. Qed.

(** For values that fit in JSON ([json_ok]) and for any parsed value
    ([parsed_ok]). *)
Section Payload.
Variable Q : jsval -> Prop.
Hypothesis Q_bool : forall b, Q (VBool b).
Hypothesis Q_str : forall s, str_ok s -> Q (VStr s).
Hypothesis Q_arr : forall l, Forall Q l -> Q (VArr l).
Hypothesis Q_obj : forall o, canonical_keys (map fst o) ->
  Forall (fun kv => str_ok (fst kv) /\ Q (snd kv)) o -> Q (VObj o).

(** The texts are sequences of code units, and the values meet [Q]. *)
Definition sound_operation (op : Operation) : Prop :=
  str_ok (description op) /\ str_ok (path op) /\ str_ok (from op) /\ str_ok (to op) /\
  (m_value (MODE_META (mode op)) = true -> Q (parseLooseValue (value_text op))) /\
  Forall (fun c => str_ok (c_path c) /\ Q (parseLooseValue (c_value_text c))) (conditions op).

Lemma literal_entry k v : forallb (fun c => (0 <=? c) && (c <? 65536)) (js k) = true ->
  Q v -> str_ok (fst (js k, v)) /\ Q (snd (js k, v)).
Proof. intros F V. split; [by apply js_literal_ok|done]. Qed.

Lemma condition_payload_ok c pl : str_ok (c_path c) -> Q (parseLooseValue (c_value_text c)) ->
  buildConditionPayload c = Some pl -> Q pl.
Proof.
  intros P V. unfold buildConditionPayload. case_match; [done|]. intros [= <-]. apply Q_obj.
  - apply (canonical_sublist _ (map js ["path"; "mode"; "value"; "invert"; "pass_missing_key"]));
      [vm_compute; reflexivity|vm_compute; reflexivity|].
    destruct (invert c), (pass_missing_key c); cbn [map app fst];
      repeat first [apply sublist_skip|apply sublist_cons|apply sublist_nil].
  - destruct (invert c), (pass_missing_key c); cbn [app];
      repeat apply Forall_cons_2; try apply Forall_nil_2;
      (apply literal_entry; [vm_compute; reflexivity|]);
      first [apply Q_bool|exact V|by apply Q_str, trim_ok|apply Q_str, cond_value_ok].
Qed.

Lemma payload_ok op : sound_operation op -> Q (operation_payload op).
Proof.
  intros (D & P & F & T & V & C).
  assert (A : forall s, str_ok s -> str_ok (aliased (MODE_META (mode op)) (trim s) (trim (path op)))).
  { intros s S. unfold aliased. by case_match; apply trim_ok. }
  assert (Cs : Forall Q (omap buildConditionPayload (conditions op))).
  { apply Forall_forall. intros pl (c & I & E)%list_elem_of_omap. rewrite Forall_forall in C.
    destruct (C c I). by eapply condition_payload_ok. }
  apply Q_obj.
  - apply (canonical_sublist _ (map js ["mode"; "description"; "path"; "value"; "keep_origin"; "from"; "to";
      "conditions"; "logic"])); [vm_compute; reflexivity|vm_compute; reflexivity|].
    change (map js _) with (map js ["mode"] ++ map js ["description"] ++ map js ["path"] ++ map js ["value"]
      ++ map js ["keep_origin"] ++ map js ["from"] ++ map js ["to"] ++ map js ["conditions"; "logic"]).
    rewrite !map_app. repeat apply sublist_app;
      first [reflexivity|case_match; cbn [map fst]; first [reflexivity|apply sublist_nil_l]].
  - repeat (apply Forall_app; split).
    1: apply Forall_singleton.
    8: { destruct (omap buildConditionPayload (conditions op)) as [|pl pls]; [apply Forall_nil_2|].
         repeat apply Forall_cons_2; try apply Forall_nil_2;
           (apply literal_entry; [vm_compute; reflexivity|]); [by apply Q_arr|].
         apply Q_str, js_literal_ok. by destruct (logic op); vm_compute. }
    4: { destruct (m_value _); [|apply Forall_nil_2]. apply Forall_singleton, literal_entry;
         [vm_compute; reflexivity|]. by apply V. }
    all: try apply Forall_if; (apply literal_entry; [vm_compute; reflexivity|]).
    all: first [apply Q_bool|by apply Q_str, A|by apply Q_str, trim_ok|apply Q_str, mode_value_ok].
Qed.

Lemma operations_val_ok ops : Forall sound_operation ops ->
  Q (operations_val (map operation_payload ops)).
Proof.
  intros F. apply Q_obj; [by repeat constructor|]. apply Forall_singleton, literal_entry; [done|].
  apply Q_arr, Forall_map. eapply Forall_impl; [exact F|]. apply payload_ok.
Qed.
End Payload.

(** The operations of the round trip: the values fit in JSON and their texts
    survive. *)
Definition plain_operation (op : Operation) : Prop :=
  sound_operation json_ok op /\
  (m_value (MODE_META (mode op)) = true -> keeps (value_text op)) /\
  Forall (fun c => keeps (c_value_text c)) (conditions op).

Lemma operations_reload ops : Forall operation_ok ops -> Forall plain_operation ops -> forall n,
  exists ops' n', gmap_list (normalizeOperation now) (map operation_payload ops) n = (Some ops', n') /\
    Forall2 reloaded ops ops'.
Proof.
  induction 1 as [|op ops V _ IH]; intros Pl n; [exists [], n; by split|].
  apply Forall_cons in Pl as [(_ & _ & C) Pl].
  destruct (normalizeOperation_payload op n V C) as (op' & n1 & E & R).
  destruct (IH Pl n1) as (ops' & n' & E' & R'). exists (op' :: ops'), n'.
  cbn [map gmap_list]. unfold gbind. rewrite E, E'. split; [done|by constructor].
Qed.

Lemma default_operation_blank n op n' : createDefaultOperation now n = (Some op, n') ->
  isOperationBlank op = true.
Proof. intros E. vm_compute in E. by injection E as <- _. Qed.

Lemma reloaded_operations ops ops' :
  Forall operation_ok ops -> Forall plain_operation ops -> Forall2 reloaded ops ops' ->
  Forall operation_ok ops' /\ map operation_payload ops' = map operation_payload ops /\
  base.filter (fun op => isOperationBlank op = false) ops' = ops'.
Proof.
  intros V P R. induction R as [|op op' ops ops' Re R IH]; [by split_and!; [constructor| |]|].
  apply Forall_cons in V as [V VS]. apply Forall_cons in P as [(_ & K & _) PS].
  destruct (IH VS PS) as (A & B & C). split_and!.
  - constructor; [by eapply reloaded_ok|done].
  - cbn. rewrite B. f_equal. by eapply reloaded_payload.
  - rewrite filter_cons_True, C by by eapply reloaded_not_blank. done.
Qed.

Lemma build_reloaded t ops ops' : (forall s a, t s a <> []) -> ops <> [] ->
  Forall operation_ok ops -> Forall plain_operation ops -> Forall2 reloaded ops ops' ->
  buildOperationsJson t ops' true = inr (pretty (operations_val (map operation_payload ops))).
Proof.
  intros T N V P R. unfold buildOperationsJson.
  destruct (reloaded_operations ops ops' V P R) as (V' & M & F). rewrite F, M. unfold validateOperations. rewrite (proj2 (validate_from_spec t T 1 ops') V').
  cbn [str_truthy]. destruct R; [done|]. done.
Qed.

(** C15. An override saved from the form reloads: opening the saved text shows
    the rules that are not blank again, each with its mode, its trimmed fields
    and conditions, and saving them gives the same text.  The value texts
    must be ones that survive (no string literal whose content reads as
    another value, no number that JSON cannot hold). *)
Theorem saved_override_reloads t ops text n :
  (forall s a, t s a <> []) ->
  (forall op, op ∈ ops -> isOperationBlank op = false -> plain_operation op) ->
  buildOperationsJson t ops true = inr text ->
  exists st n', parseInitialState now text n = (Some st, n') /\
    i_editMode st = Visual /\ i_visualMode st = VOperations /\ i_jsonText st = text /\
    Forall2 reloaded (base.filter (fun op => isOperationBlank op = false) ops)
      (base.filter (fun op => isOperationBlank op = false) (i_operations st)) /\
    buildVisualJson t (i_visualMode st) (i_legacyValue st) (i_operations st) = inr text.
Proof.
  intros T PF%nonblank_operations B. pose proof (saved_operations_ok t T ops text B) as VF.
  unfold buildOperationsJson in B. set (F := base.filter _ ops) in *. clearbody F. destruct F as [|op F].
  { injection B as <-. destruct (createDefaultOperation now n) as [[op|] n1] eqn:E; [|done].
    change (parseInitialState now [] n) with (one_default now Visual VOperations [] [] [] n).
    unfold one_default, gbind. cbv beta. rewrite E. eexists _, _. split; [reflexivity|].
    repeat (split; [reflexivity|]). pose proof (default_operation_blank _ _ _ E) as D.
    cbn [i_operations i_visualMode i_legacyValue buildVisualJson]. unfold buildOperationsJson.
    rewrite !filter_cons_False by by rewrite D. split; [by apply Forall2_nil|reflexivity]. }
  set (ops1 := op :: F) in *.
  assert (O : json_ok (operations_val (map operation_payload ops1))).
  { apply operations_val_ok; try done; [apply json_ok_arr|by intros; apply json_ok_obj|].
    eapply Forall_impl; [exact PF|]. by intros ? [? _]. }
  assert (Et : text = pretty (operations_val (map operation_payload ops1))).
  { destruct (str_truthy _); [done|]. by injection B as <-. }
  destruct (JSON_parse_stringify 2 _ O) as (text' & S & R).
  assert (text = text') as <- by (rewrite Et; unfold pretty; by rewrite S).
  destruct (operations_reload ops1 VF PF n) as (ops' & n' & E & Re).
  eexists {| i_editMode := Visual; i_visualMode := VOperations; i_legacyValue := [];
             i_operations := ops'; i_jsonText := text; i_jsonError := [] |}, n'.
  split; [|split; [reflexivity|split; [reflexivity|split; [reflexivity|split]]]].
  - unfold parseInitialState. rewrite (JSON_parse_nonblank _ _ R), (JSON_parse_trim _ _ R). cbn [negb].
    change (gbind (gmap_list (normalizeOperation now) (map operation_payload ops1)) (fun ops => gret
      {| i_editMode := Visual; i_visualMode := VOperations; i_legacyValue := []; i_operations := ops;
         i_jsonText := pretty (operations_val (map operation_payload ops1)); i_jsonError := [] |}) n
      = (Some {| i_editMode := Visual; i_visualMode := VOperations; i_legacyValue := [];
                 i_operations := ops'; i_jsonText := text; i_jsonError := [] |}, n')).
    unfold gbind. cbv beta. rewrite E, <- Et. reflexivity.
  - cbn [i_operations]. by destruct (reloaded_operations ops1 ops' VF PF Re) as (_ & _ & ->).
  - cbn [i_visualMode i_legacyValue i_operations buildVisualJson].
    rewrite Et. by apply build_reloaded.
Qed.
End Reload.

(** ** Instances *)

Lemma plain_keeps s : JSON_parse s = None -> str_ok s -> keeps s.
Proof.
  intros P O. split; [|by rewrite P]. unfold parseLooseValue. rewrite P.
  destruct (str_truthy (trim s)); [exact O|constructor].
Qed.

Lemma saved_override_reloads_witness :
  exists text st n',
    buildOperationsJson (fun s _ => 33 :: s) [sample_operation] true = inr text /\
    parseInitialState (H := code_unit_unicode) (fun _ => 0) text 0 = (Some st, n') /\
    buildVisualJson (fun s _ => 33 :: s)
      (i_visualMode st) (i_legacyValue st) (i_operations st) = inr text.
Proof.
  destruct (buildOperationsJson (fun s _ => 33 :: s) [sample_operation] true)
    as [e|text] eqn:B; [vm_compute in B; discriminate|].
  destruct (saved_override_reloads (H := code_unit_unicode) (fun _ => 0) (fun s _ => 33 :: s)
    [sample_operation] text 0) as (st & n' & E & _ & _ & _ & _ & R); [discriminate| |exact B|].
  - intros op ->%list_elem_of_singleton _.
    assert (K1 : keeps (value_text sample_operation)).
    { split; [vm_compute; exact I|intros u X; vm_compute in X; discriminate]. }
    assert (K2 : keeps (js "openai/")).
    { apply plain_keeps; [vm_compute; reflexivity|apply js_literal_ok; vm_compute; reflexivity]. }
    split; [|split; [intros _; exact K1|apply Forall_singleton; exact K2]].
    unfold sound_operation, sample_operation. cbn [description path from to mode value_text conditions].
    repeat (split; [first [apply js_literal_ok; vm_compute; reflexivity|intros _; apply K1]|]).
    apply Forall_singleton. split; [apply js_literal_ok; vm_compute; reflexivity|apply K2].
  - exists text, st, n'. auto.
Defined.
