(* ===== verification/ParamOverrideEditor.v ===== *)
(** * The editor of parameter overrides: state and handlers

    The component ParamOverrideEditorModal: its state variables as the record
    [Editor] (with the counter of identifiers and what the editor emits), one
    definition per handler, and its effects ([settle]).  Identifiers are
    fresh, so that rules and conditions can be told apart. *)

From Stdlib Require Import SpecFloat.
From stdpp Require Import base list numbers strings.
From S2P Require Import Prelude JsNumber JsString JsValue JsJson JsReprint ParamOverride ParamReload.
Local Open Scope Z_scope.
Local Open Scope js_scope.

(** ** Templates *)

Local Abbreviation str s := (VStr (js s)).
Local Abbreviation obj l := (VObj (map (fun kv => (js (fst kv), snd kv)) l)).

Definition LEGACY_TEMPLATE : jsval :=
  obj [("temperature", VNum n0); ("max_tokens", VNum (num_of_Z 1000))]%string.

Definition template_condition (p m v : string) : jsval :=
  obj [("path", str p); ("mode", str m); ("value", str v)]%string.

Definition OPERATION_TEMPLATE : jsval :=
  obj [("operations", VArr
    [obj [("description", str "Set default temperature for openai/* models.");
          ("path", str "temperature"); ("mode", str "set"); ("value", VNum (dec_num false 7 (-1)));
          ("conditions", VArr [template_condition "model" "prefix" "openai/"]);
          ("logic", str "AND")]])]%string.

Definition HEADER_PASSTHROUGH_TEMPLATE : jsval :=
  obj [("operations", VArr
    [obj [("description", str "Pass through X-Request-Id header to upstream.");
          ("mode", str "pass_headers"); ("value", VArr [str "X-Request-Id"]);
          ("keep_origin", VBool true)]])]%string.

Definition GEMINI_IMAGE_4K_TEMPLATE : jsval :=
  obj [("operations", VArr
    [obj [("description", str "Set imageSize to 4K when model contains gemini/image and ends with 4k.");
          ("mode", str "set"); ("path", str "generationConfig.imageConfig.imageSize");
          ("value", str "4K");
          ("conditions", VArr [template_condition "original_model" "contains" "gemini";
                               template_condition "original_model" "contains" "image";
                               template_condition "original_model" "suffix" "4k"]);
          ("logic", str "AND")]])]%string.

(** The header tokens with their replacements; null removes one. *)
Definition bedrock_beta_tokens : jsval :=
  let keep k := (k, str k) in
  let drop k := (k, VNull) in
  obj [("advanced-tool-use-2025-11-20", str "tool-search-tool-2025-10-19");
       drop "bash_20241022"; drop "bash_20250124"; drop "code-execution-2025-08-25";
       keep "compact-2026-01-12"; keep "computer-use-2025-01-24"; keep "computer-use-2025-11-24";
       keep "context-1m-2025-08-07"; keep "context-management-2025-06-27";
       drop "effort-2025-11-24"; drop "fast-mode-2026-02-01"; drop "files-api-2025-04-14";
       drop "fine-grained-tool-streaming-2025-05-14"; keep "interleaved-thinking-2025-05-14";
       drop "mcp-client-2025-11-20"; drop "mcp-client-2025-04-04"; drop "mcp-servers-2025-12-04";
       drop "output-128k-2025-02-19"; drop "structured-output-2024-03-01";
       drop "prompt-caching-scope-2026-01-05"; drop "skills-2025-10-02";
       drop "structured-outputs-2025-11-13"; drop "text_editor_20241022"; drop "text_editor_20250124";
       drop "token-efficient-tools-2025-02-19"; keep "tool-search-tool-2025-10-19";
       drop "web-fetch-2025-09-10"; drop "web-search-2025-03-05"; drop "oauth-2025-04-20"]%string.

Definition AWS_BEDROCK_ANTHROPIC_COMPAT_TEMPLATE : jsval :=
  obj [("operations", VArr
    [obj [("description", str "Normalize anthropic-beta header tokens for Bedrock compatibility.");
          ("mode", str "set_header"); ("path", str "anthropic-beta"); ("value", bedrock_beta_tokens)];
     obj [("description", str "Remove all tools[*].custom.input_examples before upstream relay.");
          ("mode", str "delete"); ("path", str "tools.*.custom.input_examples")]])]%string.

(** constants/channel-affinity-template.constants.js *)
Definition buildPassHeadersTemplate (headers : list string) : jsval :=
  obj [("operations", VArr
    [obj [("mode", str "pass_headers"); ("value", VArr (map (fun h => str h) headers));
          ("keep_origin", VBool true)]])]%string.

Definition CODEX_CLI_HEADER_PASSTHROUGH_HEADERS : list string :=
  ["Originator"; "Session_id"; "User-Agent"; "X-Codex-Beta-Features"; "X-Codex-Turn-Metadata"]%string.

Definition CLAUDE_CLI_HEADER_PASSTHROUGH_HEADERS : list string :=
  ["X-Stainless-Arch"; "X-Stainless-Lang"; "X-Stainless-Os"; "X-Stainless-Package-Version";
   "X-Stainless-Retry-Count"; "X-Stainless-Runtime"; "X-Stainless-Runtime-Version";
   "X-Stainless-Timeout"; "User-Agent"; "X-App"; "Anthropic-Beta";
   "Anthropic-Dangerous-Direct-Browser-Access"; "Anthropic-Version"]%string.

Inductive PresetKind := KOperations | KLegacy.

Record Preset := { p_key : jsstr; p_group : jsstr; p_kind : PresetKind; p_payload : jsval }.

Definition TEMPLATE_PRESET_CONFIG : list Preset :=
  let preset k g kind payload := {| p_key := js k; p_group := js g; p_kind := kind; p_payload := payload |} in
  [preset "operations_default" "basic" KOperations OPERATION_TEMPLATE;
   preset "legacy_default" "basic" KLegacy LEGACY_TEMPLATE;
   preset "pass_headers_auth" "scenario" KOperations HEADER_PASSTHROUGH_TEMPLATE;
   preset "gemini_image_4k" "scenario" KOperations GEMINI_IMAGE_4K_TEMPLATE;
   preset "claude_cli_headers_passthrough" "scenario" KOperations
     (buildPassHeadersTemplate CLAUDE_CLI_HEADER_PASSTHROUGH_HEADERS);
   preset "codex_cli_headers_passthrough" "scenario" KOperations
     (buildPassHeadersTemplate CODEX_CLI_HEADER_PASSTHROUGH_HEADERS);
   preset "aws_bedrock_anthropic_beta_override" "scenario" KOperations
     AWS_BEDROCK_ANTHROPIC_COMPAT_TEMPLATE].

(** ** State *)

Inductive FieldTarget := TargetPath | TargetFrom | TargetTo.
Inductive Notice := NError (msg : jsstr) | NSuccess (msg : jsstr).

Record Editor := {
  editMode : EditMode;
  visualMode : VisualMode;
  legacyValue : jsstr;
  operations : list Operation;
  jsonText : jsstr;
  jsonError : jsstr;
  operationSearch : jsstr;
  selectedOperationId : jsstr;
  expandedConditionMap : list (jsstr * list jsstr);
  draggedOperationId : jsstr;
  dragOverOperationId : jsstr;
  dragOverPosition : Position;
  templateGroupKey : jsstr;
  templatePresetKey : jsstr;
  headerValueExampleVisible : bool;
  fieldGuideVisible : bool;
  fieldGuideTarget : FieldTarget;
  fieldGuideKeyword : jsstr;
  (** the counter [localIdSeed] of the module *)
  localIdSeed : Z;
  (** messages shown and texts passed to [onSave], newest first *)
  notices : list Notice;
  saved : list jsstr
}.

#[export] Instance Editor_eta : Eta Editor := fun r => {|
  editMode := editMode r; visualMode := visualMode r; legacyValue := legacyValue r;
  operations := operations r; jsonText := jsonText r; jsonError := jsonError r;
  operationSearch := operationSearch r; selectedOperationId := selectedOperationId r;
  expandedConditionMap := expandedConditionMap r; draggedOperationId := draggedOperationId r;
  dragOverOperationId := dragOverOperationId r; dragOverPosition := dragOverPosition r;
  templateGroupKey := templateGroupKey r; templatePresetKey := templatePresetKey r;
  headerValueExampleVisible := headerValueExampleVisible r;
  fieldGuideVisible := fieldGuideVisible r; fieldGuideTarget := fieldGuideTarget r;
  fieldGuideKeyword := fieldGuideKeyword r; localIdSeed := localIdSeed r;
  notices := notices r; saved := saved r |}.

(** The fields a form control sets. *)
Inductive OperationPatch :=
  | PDescription (x : jsstr) | PPath (x : jsstr) | PMode (m : OpMode) | PValueText (x : jsstr)
  | PKeepOrigin (b : bool) | PFrom (x : jsstr) | PTo (x : jsstr) | PFromTo (x y : jsstr)
  | PLogic (l : Logic).

Definition patch_operation (patch : OperationPatch) (op : Operation) : Operation :=
  match patch with
  | PDescription x => op <| description := x |>
  | PPath x => op <| path := x |>
  | PMode m => op <| mode := m |>
  | PValueText x => op <| value_text := x |>
  | PKeepOrigin b => op <| keep_origin := b |>
  | PFrom x => op <| from := x |>
  | PTo x => op <| to := x |>
  | PFromTo x y => (op <| from := x |>) <| to := y |>
  | PLogic l => op <| logic := l |>
  end.

Inductive ConditionPatch :=
  | CPPath (x : jsstr) | CPMode (m : CondMode) | CPValueText (x : jsstr) | CPInvert (b : bool)
  | CPPassMissing (b : bool).

Definition patch_condition (patch : ConditionPatch) (c : Condition) : Condition :=
  match patch with
  | CPPath x => c <| c_path := x |>
  | CPMode m => c <| c_mode := m |>
  | CPValueText x => c <| c_value_text := x |>
  | CPInvert b => c <| invert := b |>
  | CPPassMissing b => c <| pass_missing_key := b |>
  end.

Inductive ReturnErrorPatch :=
  | RSimpleMode (b : bool) | RMessage (x : jsstr) | RStatusCode (n : spec_float) | RCode (x : jsstr)
  | RType (x : jsstr) | RSkipRetry (b : bool) | RPreset (n : spec_float) (c ty : jsstr).

Definition patch_return_error (patch : ReturnErrorPatch) (d : ReturnErrorDraft) : ReturnErrorDraft :=
  match patch with
  | RSimpleMode b => d <| re_simpleMode := b |>
  | RMessage x => d <| message := x |>
  | RStatusCode n => d <| statusCode := n |>
  | RCode x => d <| code := x |>
  | RType x => d <| type_ := x |>
  | RSkipRetry b => d <| skipRetry := b |>
  | RPreset n c ty => ((d <| statusCode := n |>) <| code := c |>) <| type_ := ty |>
  end.

Inductive PrunePatch :=
  | PRSimpleMode (b : bool) | PRTypeText (x : jsstr) | PRLogic (l : Logic) | PRRecursive (b : bool).

Definition patch_prune (patch : PrunePatch) (d : PruneObjectsDraft) : PruneObjectsDraft :=
  match patch with
  | PRSimpleMode b => d <| simpleMode := b |>
  | PRTypeText x => d <| typeText := x |>
  | PRLogic l => d <| p_logic := l |>
  | PRRecursive b => d <| recursive := b |>
  end.

Section Handlers.
Context `{Unicode} (now : Z -> Z) (t : jsstr -> list (jsstr * jsstr) -> jsstr).
Local Abbreviation tr s := (t (js s) []).

Definition notify (x : Notice) (s : Editor) : Editor := s <| notices := x :: notices s |>.
Definition fail_with (msg : jsstr) (s : Editor) : Editor := notify (NError msg) s.

(** Run a computation that takes identifiers; when it throws, the handler ends
    and no state variable was set. *)
Definition with_ids {A} (g : Gen A) (k : A -> Editor -> Editor) (s : Editor) : Editor :=
  match g (localIdSeed s) with
  | (Some a, n) => k a (s <| localIdSeed := n |>)
  | (None, n) => s <| localIdSeed := n |>
  end.

Definition first_id (ops : list Operation) : jsstr :=
  match ops with op :: _ => id_ op | [] => [] end.

(** Show these operations, the first selected. *)
Definition show_operations (ops : list Operation) (s : Editor) : Editor :=
  (s <| operations := ops |>) <| selectedOperationId := first_id ops |>.

(** The template selection of a visual mode. *)
Definition select_default_preset (mode : VisualMode) (s : Editor) : Editor :=
  (s <| templateGroupKey := js "basic" |>)
    <| templatePresetKey := match mode with
                            | VLegacy => js "legacy_default"
                            | VOperations => js "operations_default"
                            end |>.

(** The effect that opens the dialog on a value; [None] when a TypeError ends
    it. *)
Definition open_dialog (value : jsstr) (s : Editor) : option Editor :=
  match parseInitialState now value (localIdSeed s) with
  | (None, _) => None
  | (Some st, n) => Some (select_default_preset (i_visualMode st) {|
      editMode := i_editMode st; visualMode := i_visualMode st; legacyValue := i_legacyValue st;
      operations := i_operations st; jsonText := i_jsonText st; jsonError := i_jsonError st;
      operationSearch := []; selectedOperationId := first_id (i_operations st);
      expandedConditionMap := []; draggedOperationId := []; dragOverOperationId := [];
      dragOverPosition := Before;
      templateGroupKey := templateGroupKey s; templatePresetKey := templatePresetKey s;
      headerValueExampleVisible := false; fieldGuideVisible := false;
      fieldGuideTarget := TargetPath; fieldGuideKeyword := [];
      localIdSeed := n; notices := notices s; saved := saved s |})
  end.

(** ** Effects after a render *)

(** The selected operation exists. *)
Definition settle_selection (s : Editor) : Editor :=
  match operations s with
  | [] => s <| selectedOperationId := [] |>
  | op :: _ =>
      if existsb (fun o => bool_decide (id_ o = selectedOperationId s)) (operations s) then s
      else s <| selectedOperationId := id_ op |>
  end.

Definition templatePresetOptions (s : Editor) : list jsstr :=
  map p_key (base.filter (fun p => p_group p = templateGroupKey s) TEMPLATE_PRESET_CONFIG).

(** The selected template belongs to the selected group. *)
Definition settle_preset (s : Editor) : Editor :=
  match templatePresetOptions s with
  | [] => s
  | first :: _ =>
      if bool_decide (templatePresetKey s ∈ templatePresetOptions s) then s
      else s <| templatePresetKey := first |>
  end.

Definition settle (s : Editor) : Editor := settle_preset (settle_selection s).

(** ** What is displayed *)

Definition operationCount (s : Editor) : nat :=
  length (base.filter (fun op => isOperationBlank op = false) (operations s)).

Definition searchable_text (op : Operation) : jsstr :=
  toLowerCase (join [32] (base.filter (fun x => str_truthy x = true)
    [description op; mode_value (mode op); path op; from op; to op; value_text op])).

Definition filteredOperations (s : Editor) : list Operation :=
  let keyword := toLowerCase (trim (operationSearch s)) in
  if str_truthy keyword
  then base.filter (fun op => includes keyword (searchable_text op) = true) (operations s)
  else operations s.

Definition selectedOperation (s : Editor) : option Operation :=
  List.find (fun op => bool_decide (id_ op = selectedOperationId s)) (operations s).

Definition returnErrorDraft (s : Editor) : option ReturnErrorDraft :=
  match selectedOperation s with
  | Some op => if bool_decide (mode op = OpReturnError)
               then Some (parseReturnErrorDraft (value_text op)) else None
  | None => None
  end.

(** The rules displayed get their identifiers when they are computed. *)
Definition pruneObjectsDraft (s : Editor) : option (Gen PruneObjectsDraft) :=
  match selectedOperation s with
  | Some op => if bool_decide (mode op = OpPruneObjects)
               then Some (parsePruneObjectsDraft now (value_text op)) else None
  | None => None
  end.

(** [visualValidationError]: the message beside the form. *)
Definition visualValidationError (s : Editor) : jsstr :=
  match editMode s with
  | Json => []
  | Visual =>
      match buildVisualJson t (visualMode s) (legacyValue s) (operations s) with
      | inl msg => str_or msg (tr "参数配置有误")
      | inr _ => []
      end
  end.

(** ** Switching between the form and the text *)

Definition switchToJsonMode (s : Editor) : Editor :=
  match editMode s with
  | Json => s
  | Visual =>
      let s' :=
        match buildVisualJson t (visualMode s) (legacyValue s) (operations s) with
        | inr text => (s <| jsonText := text |>) <| jsonError := [] |>
        | inl msg =>
            ((fail_with msg s)
              <| jsonText := match visualMode s with
                             | VLegacy => legacyValue s
                             | VOperations =>
                                 match buildOperationsJson t (operations s) false with
                                 | inr text => text
                                 | inl _ => []
                                 end
                             end |>)
              <| jsonError := str_or msg (tr "参数配置有误") |>
        end in
      s' <| editMode := Json |>
  end.

(** Back to the form with these operations. *)
Definition enter_visual (mode : VisualMode) (legacy : jsstr) (ops : list Operation) (s : Editor)
    : Editor :=
  ((((show_operations ops s) <| visualMode := mode |>) <| legacyValue := legacy |>)
     <| jsonError := [] |>) <| editMode := Visual |>.

Definition switchToVisualMode (s : Editor) : Editor :=
  match editMode s with
  | Visual => s
  | Json =>
      let trimmed := trim (jsonText s) in
      if negb (str_truthy trimmed) then
        with_ids (createDefaultOperation now)
          (fun op s => enter_visual VOperations [] [op] s) s
      else
        match JSON_parse trimmed with
        | None => fail_with (tr "参数覆盖必须是合法的 JSON 格式！") s
        | Some (VObj o) =>
            match vget (VObj o) (js "operations") with
            | VArr l =>
                with_ids (load_operations now l)
                  (fun ops s => select_default_preset VOperations (enter_visual VOperations [] ops s)) s
            | _ =>
                with_ids (createDefaultOperation now)
                  (fun op s => select_default_preset VLegacy
                                 (enter_visual VLegacy (pretty (VObj o)) [op] s)) s
            end
        | Some _ => fail_with (tr "参数覆盖必须是合法的 JSON 对象") s
        end
  end.

Definition handleJsonChange (nextValue : jsstr) (s : Editor) : Editor :=
  let trimmed := trim nextValue in
  let ok := negb (str_truthy trimmed) || match JSON_parse trimmed with Some _ => true | None => false end in
  (s <| jsonText := nextValue |>) <| jsonError := if ok then [] else tr "JSON格式错误" |>.

Definition formatJson (s : Editor) : Editor :=
  let trimmed := trim (jsonText s) in
  if negb (str_truthy trimmed) then s
  else match JSON_parse trimmed with
       | None => fail_with (tr "参数覆盖必须是合法的 JSON 格式！") s
       | Some v => (s <| jsonText := pretty v |>) <| jsonError := [] |>
       end.

(** The text to save, or the message of the error. *)
Definition save_result (s : Editor) : jsstr + jsstr :=
  match editMode s with
  | Json =>
      let trimmed := trim (jsonText s) in
      if negb (str_truthy trimmed) then inr []
      else match JSON_parse trimmed with
           | None => inl (tr "参数覆盖必须是合法的 JSON 格式！")
           | Some v => inr (pretty v)
           end
  | Visual => buildVisualJson t (visualMode s) (legacyValue s) (operations s)
  end.

Definition handleSave (s : Editor) : Editor :=
  match save_result s with
  | inr result => s <| saved := result :: saved s |>
  | inl msg => fail_with msg s
  end.

(** ** Templates *)

Definition fillLegacyTemplate (legacyPayload : jsval) (s : Editor) : Editor :=
  with_ids (createDefaultOperation now) (fun op s =>
    ((enter_visual VLegacy (pretty legacyPayload) [op] s) <| expandedConditionMap := [] |>)
      <| jsonText := pretty legacyPayload |>) s.

(** [fillOperationsTemplate] leaves the legacy text alone. *)
Definition fillOperationsTemplate (payload : list jsval) (s : Editor) : Editor :=
  with_ids (load_operations now payload) (fun ops s =>
    ((enter_visual VOperations (legacyValue s) ops s) <| expandedConditionMap := [] |>)
      <| jsonText := pretty (operations_val payload) |>) s.

Definition append_merged (legacyPayload : jsval) (current : list (jsstr * jsval)) (s : Editor) : Editor :=
  fillLegacyTemplate (VObj (spread (entries_of legacyPayload) current)) s.

Definition appendLegacyTemplate (legacyPayload : jsval) (s : Editor) : Editor :=
  match visualMode s with
  | VOperations => append_merged legacyPayload [] s
  | VLegacy =>
      let trimmed := trim (legacyValue s) in
      if negb (str_truthy trimmed) then append_merged legacyPayload [] s
      else match JSON_parse trimmed with
           | None => fail_with (tr "当前旧格式 JSON 不合法，无法追加模板") s
           | Some (VObj o) => append_merged legacyPayload o s
           | Some _ => fail_with (tr "当前旧格式不是 JSON 对象，无法追加模板") s
           end
  end.

Definition appendOperationsTemplate (payload : list jsval) (s : Editor) : Editor :=
  with_ids (gmap_list (normalizeOperation now) payload) (fun appended s =>
    let existing := match visualMode s with
                    | VOperations => base.filter (fun op => isOperationBlank op = false) (operations s)
                    | VLegacy => []
                    end in
    ((enter_visual VOperations [] (existing ++ appended) s) <| expandedConditionMap := [] |>)
      <| jsonText := [] |>) s.

Definition clearValue (s : Editor) : Editor :=
  with_ids (createDefaultOperation now) (fun op s =>
    select_default_preset VOperations
      ((((((show_operations [op] s) <| visualMode := VOperations |>) <| legacyValue := [] |>)
          <| expandedConditionMap := [] |>) <| jsonText := [] |>) <| jsonError := [] |>)) s.

Definition resetEditorState (s : Editor) : Editor := (clearValue s) <| editMode := Visual |>.

Definition getSelectedTemplatePreset (s : Editor) : Preset :=
  default {| p_key := js "operations_default"; p_group := js "basic"; p_kind := KOperations;
             p_payload := OPERATION_TEMPLATE |}
    (List.find (fun p => bool_decide (p_key p = templatePresetKey s)) TEMPLATE_PRESET_CONFIG).

Definition fillTemplateFromLibrary (s : Editor) : Editor :=
  let preset := getSelectedTemplatePreset s in
  match p_kind preset with
  | KLegacy => fillLegacyTemplate (p_payload preset) s
  | KOperations => fillOperationsTemplate (as_arr (vget (p_payload preset) (js "operations"))) s
  end.

Definition appendTemplateFromLibrary (s : Editor) : Editor :=
  let preset := getSelectedTemplatePreset s in
  match p_kind preset with
  | KLegacy => appendLegacyTemplate (p_payload preset) s
  | KOperations => appendOperationsTemplate (as_arr (vget (p_payload preset) (js "operations"))) s
  end.

(** ** Editing an operation *)

Definition updateOperation (operationId : jsstr) (patch : OperationPatch) (s : Editor) : Editor :=
  s <| operations := map (fun op => if bool_decide (id_ op = operationId)
                                    then patch_operation patch op else op) (operations s) |>.

Definition applyBuiltinField (fieldKey : jsstr) (target : FieldTarget) (s : Editor) : Editor :=
  match selectedOperation s with
  | None => fail_with (tr "请先选择一条规则") s
  | Some op =>
      let meta := MODE_META (mode op) in
      let sync := bool_decide (mode op = OpSyncFields) in
      let spec := if sync then buildSyncTargetSpec TJson fieldKey else fieldKey in
      match target with
      | TargetPath =>
          if m_path meta || m_pathOptional meta || m_pathAlias meta
          then updateOperation (id_ op) (PPath fieldKey) s
          else fail_with (tr "当前规则不支持写入到该位置") s
      | TargetFrom =>
          if m_from meta || m_pathAlias meta || sync then updateOperation (id_ op) (PFrom spec) s
          else fail_with (tr "当前规则不支持写入到该位置") s
      | TargetTo =>
          if m_to meta || sync then updateOperation (id_ op) (PTo spec) s
          else fail_with (tr "当前规则不支持写入到该位置") s
      end
  end.

Definition openFieldGuide (target : FieldTarget) (s : Editor) : Editor :=
  (s <| fieldGuideTarget := target |>) <| fieldGuideVisible := true |>.

Definition formatSelectedOperationValueAsJson (s : Editor) : Editor :=
  match selectedOperation s with
  | None => s
  | Some op =>
      let raw := trim (value_text op) in
      if negb (str_truthy raw) then s
      else match JSON_parse raw with
           | None => fail_with (tr "当前值不是合法 JSON，无法格式化") s
           | Some v => notify (NSuccess (tr "JSON 已格式化"))
                         (updateOperation (id_ op) (PValueText (pretty v)) s)
           end
  end.

Definition find_operation (operationId : jsstr) (s : Editor) : option Operation :=
  List.find (fun op => bool_decide (id_ op = operationId)) (operations s).

Definition updateReturnErrorDraft (operationId : jsstr) (patch : ReturnErrorPatch) (s : Editor) : Editor :=
  match find_operation operationId s with
  | None => s
  | Some op =>
      let draft := parseReturnErrorDraft (value_text op) in
      updateOperation operationId (PValueText (buildReturnErrorValueText (patch_return_error patch draft))) s
  end.

(** The draft is parsed again from the text, with new identifiers. *)
Definition updatePruneObjectsDraft (operationId : jsstr)
    (updater : PruneObjectsDraft -> Gen PruneObjectsDraft) (s : Editor) : Editor :=
  match find_operation operationId s with
  | None => s
  | Some op =>
      with_ids (gbind (parsePruneObjectsDraft now (value_text op)) updater) (fun draft s =>
        updateOperation operationId (PValueText (buildPruneObjectsValueText draft)) s) s
  end.

Definition updatePruneField (operationId : jsstr) (patch : PrunePatch) : Editor -> Editor :=
  updatePruneObjectsDraft operationId (fun d => gret (patch_prune patch d)).

Definition addPruneRule (operationId : jsstr) : Editor -> Editor :=
  updatePruneObjectsDraft operationId (fun d =>
    rule <-- normalizePruneRule now (VObj []) ;;
    gret ((d <| simpleMode := false |>) <| rules := rules d ++ [rule] |>)).

Definition updatePruneRule (operationId ruleId : jsstr) (patch : ConditionPatch) : Editor -> Editor :=
  updatePruneObjectsDraft operationId (fun d =>
    gret (d <| rules := map (fun r => if bool_decide (c_id r = ruleId) then patch_condition patch r else r)
                          (rules d) |>)).

Definition removePruneRule (operationId ruleId : jsstr) : Editor -> Editor :=
  updatePruneObjectsDraft operationId (fun d =>
    gret (d <| rules := base.filter (fun r => c_id r <> ruleId) (rules d) |>)).

(** ** The list of operations *)

Definition addOperation (s : Editor) : Editor :=
  with_ids (createDefaultOperation now) (fun op s =>
    (s <| operations := operations s ++ [op] |>) <| selectedOperationId := id_ op |>) s.

Definition moveOperation (sourceId targetId : jsstr) (position : Position) (s : Editor) : Editor :=
  if negb (str_truthy sourceId) || negb (str_truthy targetId) || bool_decide (sourceId = targetId)
  then s
  else (s <| operations := reorderOperations (operations s) sourceId targetId position |>)
         <| selectedOperationId := sourceId |>.

Definition resetOperationDragState (s : Editor) : Editor :=
  ((s <| draggedOperationId := [] |>) <| dragOverOperationId := [] |>) <| dragOverPosition := Before |>.

Definition handleOperationDragStart (operationId : jsstr) (s : Editor) : Editor :=
  (s <| draggedOperationId := operationId |>) <| selectedOperationId := operationId |>.

(** [position]: the half of the row the pointer is in. *)
Definition handleOperationDragOver (operationId : jsstr) (position : Position) (s : Editor) : Editor :=
  if negb (str_truthy (draggedOperationId s)) || bool_decide (draggedOperationId s = operationId) then s
  else (s <| dragOverOperationId := operationId |>) <| dragOverPosition := position |>.

(** [data]: the text the drag carries. *)
Definition handleOperationDrop (operationId data : jsstr) (s : Editor) : Editor :=
  let sourceId := str_or (draggedOperationId s) data in
  let position := if bool_decide (dragOverOperationId s = operationId) then dragOverPosition s
                  else Before in
  resetOperationDragState (moveOperation sourceId operationId position s).

(** The object [duplicateOperation] normalises. *)
Definition clone_source (op : Operation) : jsval :=
  VObj [(js "description", VStr (description op)); (js "path", VStr (path op));
        (js "mode", VStr (mode_value (mode op))); (js "value", parseLooseValue (value_text op));
        (js "keep_origin", VBool (keep_origin op)); (js "from", VStr (from op)); (js "to", VStr (to op));
        (js "logic", VStr (logic_value (logic op)));
        (js "conditions", VArr (map (fun c =>
           VObj [(js "path", VStr (c_path c)); (js "mode", VStr (cond_value (c_mode c)));
                 (js "value", parseLooseValue (c_value_text c)); (js "invert", VBool (invert c));
                 (js "pass_missing_key", VBool (pass_missing_key c))]) (conditions op)))].

(** [eager]: React ran the updater before [setOperations] returned, so that the
    new identifier is known. *)
Definition duplicateOperation (operationId : jsstr) (eager : bool) (s : Editor) : Editor :=
  match index_of operationId (operations s) with
  | None => s
  | Some i =>
      match operations s !! i with
      | None => s
      | Some source =>
          with_ids (normalizeOperation now (clone_source source)) (fun cloned s =>
            let s' := s <| operations := take (S i) (operations s) ++ cloned :: drop (S i) (operations s) |> in
            if eager then s' <| selectedOperationId := id_ cloned |> else s') s
      end
  end.

Definition removeOperation (operationId : jsstr) (s : Editor) : Editor :=
  let forget s := s <| expandedConditionMap := assoc_delete (expandedConditionMap s) operationId |> in
  if (length (operations s) <=? 1)%nat
  then with_ids (createDefaultOperation now) (fun op s => forget (s <| operations := [op] |>)) s
  else forget (s <| operations := base.filter (fun op => id_ op <> operationId) (operations s) |>).

(** ** Conditions *)

Definition expanded (operationId : jsstr) (s : Editor) : list jsstr :=
  default [] (assoc_get (expandedConditionMap s) operationId).
Definition set_expanded (operationId : jsstr) (keys : list jsstr) (s : Editor) : Editor :=
  s <| expandedConditionMap := assoc_set (expandedConditionMap s) operationId keys |>.

Definition on_conditions (operationId : jsstr) (f : list Condition -> list Condition) (s : Editor) : Editor :=
  s <| operations := map (fun op => if bool_decide (id_ op = operationId)
                                    then op <| conditions := f (conditions op) |> else op) (operations s) |>.

Definition addCondition (operationId : jsstr) (s : Editor) : Editor :=
  with_ids (createDefaultCondition now) (fun c s =>
    set_expanded operationId (expanded operationId s ++ [c_id c])
      (on_conditions operationId (fun cs => cs ++ [c]) s)) s.

Definition updateCondition (operationId conditionId : jsstr) (patch : ConditionPatch) (s : Editor) : Editor :=
  on_conditions operationId
    (map (fun c => if bool_decide (c_id c = conditionId) then patch_condition patch c else c)) s.

Definition removeCondition (operationId conditionId : jsstr) (s : Editor) : Editor :=
  set_expanded operationId (base.filter (fun k => k <> conditionId) (expanded operationId s))
    (on_conditions operationId (base.filter (fun c => c_id c <> conditionId)) s).

Definition handleConditionCollapseChange (operationId : jsstr) (keys : list jsstr) (s : Editor) : Editor :=
  set_expanded operationId (base.filter (fun k => str_truthy k = true) keys) s.

Definition expandAllSelectedConditions (s : Editor) : Editor :=
  match selectedOperation s with
  | Some op => if str_truthy (selectedOperationId s)
               then set_expanded (selectedOperationId s) (map c_id (conditions op)) s else s
  | None => s
  end.

Definition collapseAllSelectedConditions (s : Editor) : Editor :=
  if str_truthy (selectedOperationId s) then set_expanded (selectedOperationId s) [] s else s.
End Handlers.
