(* ===== verification/ParamMachine.v ===== *)
(** * The editor of parameter overrides as a state machine

    Every handler, the opening of the dialog and every render is a step.
    Identifiers stay distinct in all reachable states; an edit of a rule of
    [prune_objects] names the rule by an identifier that is new at every
    parse, so it never finds the rule. *)

From Stdlib Require Import SpecFloat.
From stdpp Require Import base list numbers strings.
From S2P Require Import Prelude JsNumber JsString JsValue JsJson JsReprint ParamOverride ParamReload ParamOverrideEditor.
Local Open Scope Z_scope.
Local Open Scope js_scope.

(** ** Reordering *)

Lemma index_of_Some x ops i : index_of x ops = Some i ->
  exists op, ops !! i = Some op /\ id_ op = x /\ ops = take i ops ++ op :: drop (S i) ops.
Proof.
  unfold index_of. destruct (list_find _ ops) as [[j op]|] eqn:E; [|done]. intros [= <-].
  apply list_find_Some in E as (L & I & _). exists op. split_and!; [done|done|].
  by rewrite (take_drop_middle ops j op L).
Qed.

Lemma index_of_None x ops : index_of x ops = None <-> x ∉ map id_ ops.
Proof.
  unfold index_of. destruct (list_find _ ops) as [[j op]|] eqn:E; cbn.
  - split; [done|]. apply list_find_Some in E as (L & I & _). intros []. rewrite <- I.
    apply list_elem_of_fmap. exists op. split; [done|]. by eapply list_elem_of_lookup_2.
  - split; [|done]. intros _ I. apply list_find_None in E.
    apply list_elem_of_fmap in I as (op & -> & I). rewrite Forall_forall in E. by apply (E op).
Qed.

(** Without the operation at [i], the operations with other identifiers. *)
Lemma filter_other l op r x : id_ op = x -> NoDup (map id_ (l ++ op :: r)) ->
  base.filter (fun o => id_ o <> x) (l ++ op :: r) = l ++ r.
Proof.
  intros <- N. rewrite map_app in N. cbn in N. apply NoDup_app in N as (_ & Nl & Nr).
  apply NoDup_cons in Nr as [Nr _].
  assert (K : forall k, id_ op ∉ map id_ k -> base.filter (fun o => id_ o <> id_ op) k = k).
  { intros k Nk. apply filter_all, Forall_forall. intros o I E. destruct Nk.
    rewrite <- E. apply list_elem_of_fmap. by exists o. }
  rewrite filter_app, filter_cons_False by naive_solver. rewrite !K; [done|done|].
  intros I. destruct (Nl (id_ op) I). apply list_elem_of_here.
Qed.

(** Dragging a rule onto another moves exactly that rule: the others keep
    their order and it ends up directly before or after the target.  With an
    unknown source or target nothing changes. *)
Theorem reorder_moves ops sourceId targetId position :
  NoDup (map id_ ops) -> sourceId <> [] -> targetId <> [] -> sourceId <> targetId ->
  let others := base.filter (fun o => id_ o <> sourceId) ops in
  (exists a b l r, a ∈ ops /\ id_ a = sourceId /\ id_ b = targetId /\ others = l ++ b :: r /\
     reorderOperations ops sourceId targetId position
     = match position with Before => l ++ a :: b :: r | After => l ++ b :: a :: r end) \/
  ((sourceId ∉ map id_ ops \/ targetId ∉ map id_ ops) /\
   reorderOperations ops sourceId targetId position = ops).
Proof.
  intros N S T ST others. unfold reorderOperations.
  destruct sourceId as [|c0 s0]; [done|]. destruct targetId as [|c1 s1]; [done|].
  rewrite bool_decide_false by done. cbn [str_truthy negb orb].
  set (src := c0 :: s0) in *. set (tgt := c1 :: s1) in *.
  destruct (index_of src ops) as [i|] eqn:Ei; [|right; split; [left; by apply index_of_None|done]].
  destruct (index_of_Some _ _ _ Ei) as (a & La & Ia & Eo). rewrite La.
  assert (O : others = take i ops ++ drop (Datatypes.S i) ops).
  { unfold others. rewrite Eo at 1. apply filter_other; [done|]. by rewrite <- Eo. }
  rewrite <- O. destruct (index_of tgt others) as [j|] eqn:Ej.
  - left. destruct (index_of_Some _ _ _ Ej) as (b & Lb & Ib & Eb).
    exists a, b, (take j others), (drop (Datatypes.S j) others).
    split_and!; [by eapply list_elem_of_lookup_2|done|done|done|].
    destruct position; [by rewrite (drop_S _ _ _ Lb)|].
    by rewrite (take_S_r _ _ _ Lb), <- app_assoc.
  - right. split; [|done]. right. apply index_of_None in Ej. intros I. destruct Ej.
    apply list_elem_of_fmap in I as (b & Eb & I). apply list_elem_of_fmap. exists b. split; [done|].
    apply list_elem_of_filter. split; [congruence|done].
Qed.

Lemma reorder_permutation ops a b p : NoDup (map id_ ops) -> reorderOperations ops a b p ≡ₚ ops.
Proof.
  intros N. unfold reorderOperations. case_match; [done|].
  destruct (index_of a ops) as [i|] eqn:Ei; [|done].
  destruct (index_of_Some _ _ _ Ei) as (op & L & _ & E). rewrite L.
  destruct (index_of b _) as [j|]; [|done]. set (k := match p with Before => _ | After => _ end).
  rewrite <- Permutation_middle, take_drop. rewrite E at 3. by rewrite <- Permutation_middle.
Qed.

(** ** Identifiers *)

Definition op_ids (op : Operation) : list jsstr := id_ op :: map c_id (conditions op).
Definition all_ids (ops : list Operation) : list jsstr := flat_map op_ids ops.

Section Ids.
Context `{Unicode} (now : Z -> Z).

(** Two texts that end alike after their last separator. *)
Lemma dec_digits_no_underscore n : 0 <= n -> 95 ∉ dec_digits n.
Proof.
  intros N I. destruct (dec_digits_spec n N) as (d & ds & E & F & _). rewrite E in I.
  rewrite Forall_forall in F. apply F in I. done.
Qed.

Lemma local_id_inj n m : 0 <= n -> 0 <= m -> local_id now n = local_id now m -> n = m.
Proof.
  intros N M E. unfold local_id in E. rewrite !app_assoc in E.
  apply dec_digits_inj; [done|done|].
  eapply (last_sep 95); [..|exact E]; by apply dec_digits_no_underscore.
Qed.

(** [l]: the identifiers taken while the counter goes from [n] to [n']. *)
Definition taken (n n' : Z) (l : list jsstr) : Prop :=
  n <= n' /\ l = map (local_id now) (seqZ n (n' - n)).

Lemma taken_nil n : taken n n [].
Proof. split; [lia|]. by rewrite Z.sub_diag. Qed.

Lemma taken_one n : taken n (n + 1) [local_id now n].
Proof. split; [lia|]. by replace (n + 1 - n) with 1 by lia. Qed.

Lemma taken_app n m k l l' : taken n m l -> taken m k l' -> taken n k (l ++ l').
Proof.
  intros [L ->] [L' ->]. split; [lia|]. rewrite <- map_app. f_equal.
  replace (k - n) with ((m - n) + (k - m)) by lia. rewrite seqZ_app by lia.
  do 2 f_equal. lia.
Qed.

(** The outcome of a computation that takes identifiers. *)
Definition outcome {A} (ids : A -> list jsstr) (n : Z) (r : option A * Z) : Prop :=
  match r with
  | (Some a, n') => taken n n' (ids a)
  | (None, n') => n <= n'
  end.

Lemma outcome_le {A} (ids : A -> list jsstr) n r : outcome ids n r -> n <= snd r.
Proof. destruct r as [[a|] n']; cbn; [by intros [? _]|done]. Qed.

Lemma gmap_outcome {A B} (f : A -> Gen B) (ids : B -> list jsstr) :
  (forall x n, outcome ids n (f x n)) -> forall l n, outcome (flat_map ids) n (gmap_list f l n).
Proof.
  intros F. induction l as [|x l IH]; intros n; [apply taken_nil|].
  cbn [gmap_list]. unfold gbind. specialize (F x n). destruct (f x n) as [[y|] m]; [|done].
  specialize (IH m). destruct (gmap_list f l m) as [[ys|] k]; cbn in *.
  - by eapply taken_app.
  - destruct F. lia.
Qed.

Lemma normalizeCondition_outcome v n : outcome (fun c => [c_id c]) n (normalizeCondition now v n).
Proof.
  unfold normalizeCondition, gbind, nextLocalId. pose proof (taken_one n).
  destruct v; cbn; first [done|lia].
Qed.

Lemma flat_map_c_id cs : flat_map (fun c => [c_id c]) cs = map c_id cs.
Proof. induction cs; cbn; congruence. Qed.

Lemma normalizeOperation_outcome v n : outcome op_ids n (normalizeOperation now v n).
Proof.
  unfold normalizeOperation. unfold gbind at 1. unfold nextLocalId. unfold gbind at 1.
  destruct (not_null v (n + 1)) as [[[]|] m] eqn:E;
    [|destruct v; cbv [not_null gret gfail] in E; simplify_eq; cbn; lia].
  assert (m = n + 1) as -> by (destruct v; cbv [not_null gret gfail] in E; by simplify_eq).
  unfold gbind. set (g := match vget v (js "conditions") with VArr _ => _ | _ => _ end).
  assert (G : outcome (map c_id) (n + 1) (g (n + 1))).
  { unfold g. destruct (vget v (js "conditions")); try apply taken_nil.
    pose proof (gmap_outcome _ _ normalizeCondition_outcome l (n + 1)) as X.
    destruct (gmap_list _ l (n + 1)) as [[cs|] k]; cbn in *; [|done]. by rewrite <- flat_map_c_id. }
  destruct (g (n + 1)) as [[cs|] k]; cbn in *; [|lia].
  change (taken n k ([local_id now n] ++ map c_id cs)). eapply taken_app; [apply taken_one|done].
Qed.

Lemma load_operations_outcome l n : outcome all_ids n (load_operations now l n).
Proof.
  unfold load_operations. destruct l as [|v l].
  - unfold gbind. pose proof (normalizeOperation_outcome (VObj [(js "mode", VStr (js "set"))]) n) as X.
    unfold createDefaultOperation. destruct (normalizeOperation _ _ n) as [[op|] m]; cbn in *; [|done].
    by rewrite app_nil_r.
  - apply (gmap_outcome _ _ normalizeOperation_outcome).
Qed.

Lemma createDefaultOperation_outcome n :
  exists op, createDefaultOperation now n = (Some op, n + 1) /\ op_ids op = [local_id now n].
Proof. by eexists. Qed.

(** ** Distinct identifiers *)

Definition issued (n n' : Z) (x : jsstr) : Prop := exists k, n <= k < n' /\ x = local_id now k.

Lemma taken_issued n n' l : 0 <= n -> taken n n' l -> NoDup l /\ Forall (issued n n') l.
Proof.
  intros N [L ->]. split.
  - apply NoDup_fmap_2_strong; [|apply NoDup_seqZ]. intros x y X%elem_of_seqZ Y%elem_of_seqZ.
    apply local_id_inj; lia.
  - apply Forall_fmap, Forall_forall. intros k K%elem_of_seqZ. exists k. split; [lia|done].
Qed.

Definition distinct_ids (n : Z) (l : list jsstr) : Prop := NoDup l /\ Forall (issued 0 n) l.

Lemma issued_weaken n m m' l : m <= m' -> Forall (issued n m) l -> Forall (issued n m') l.
Proof. intros L F. eapply Forall_impl; [exact F|]. intros x (k & K & ->). exists k. split; [lia|done]. Qed.

Lemma distinct_weaken n m l : n <= m -> distinct_ids n l -> distinct_ids m l.
Proof. intros L [N F]. split; [done|by eapply issued_weaken]. Qed.

Lemma distinct_taken n n' l : 0 <= n -> taken n n' l -> distinct_ids n' l.
Proof.
  intros N T. destruct (taken_issued n n' l N T) as [D F]. split; [done|].
  eapply Forall_impl; [exact F|]. intros x (k & K & ->). exists k. split; [lia|done].
Qed.

Lemma distinct_app n n' l l' : 0 <= n -> distinct_ids n l -> taken n n' l' -> distinct_ids n' (l ++ l').
Proof.
  intros P [N F] T. destruct (taken_issued n n' l' P T) as [N' F'].
  destruct (distinct_taken n n' l' P T) as [_ F0]. destruct T as [L _].
  split; [|apply Forall_app; split; [by eapply issued_weaken|done]].
  apply NoDup_app. split_and!; [done| |done]. intros x X Y.
  rewrite Forall_forall in F, F'. destruct (F x X) as (k & K & ->), (F' _ Y) as (k' & K' & E).
  apply local_id_inj in E; lia.
Qed.

Lemma distinct_perm n l l' : l ≡ₚ l' -> distinct_ids n l -> distinct_ids n l'.
Proof. intros P [N F]. split; [by rewrite <- P|by rewrite <- P]. Qed.

Lemma distinct_sublist n l l' : sublist l' l -> distinct_ids n l -> distinct_ids n l'.
Proof.
  intros S [N F]. split; [by eapply sublist_NoDup|]. rewrite Forall_forall in *.
  intros x X. apply F. eapply elem_of_submseteq; [exact X|by apply sublist_submseteq].
Qed.
End Ids.

(** ** The machine *)

Inductive Action :=
  | ASwitchToJson | ASwitchToVisual | AJsonChange (x : jsstr) | AFormatJson | ASave
  | AFillTemplate | AAppendTemplate | AClear | AReset
  | ATemplateGroup (k : jsstr) | ATemplatePreset (k : jsstr) | ALegacyValue (x : jsstr)
  | ASearch (x : jsstr) | ASelect (operationId : jsstr)
  | AApplyField (key : jsstr) (target : FieldTarget) | AOpenGuide (target : FieldTarget)
  | AGuideTarget (target : FieldTarget) | AGuideKeyword (x : jsstr) | ACloseGuide
  | AHeaderExample (b : bool)
  | AUpdate (operationId : jsstr) (patch : OperationPatch) | AFormatValue
  | AReturnError (operationId : jsstr) (patch : ReturnErrorPatch)
  | APrune (operationId : jsstr) (patch : PrunePatch) | AAddRule (operationId : jsstr)
  | AUpdateRule (operationId ruleId : jsstr) (patch : ConditionPatch)
  | ARemoveRule (operationId ruleId : jsstr)
  | AAdd | ADragStart (operationId : jsstr) | ADragOver (operationId : jsstr) (p : Position)
  | ADragEnd | ADrop (operationId data : jsstr)
  | ADuplicate (operationId : jsstr) (eager : bool) | ARemove (operationId : jsstr)
  | AAddCondition (operationId : jsstr)
  | AUpdateCondition (operationId conditionId : jsstr) (patch : ConditionPatch)
  | ARemoveCondition (operationId conditionId : jsstr)
  | ACollapse (operationId : jsstr) (keys : list jsstr) | AExpandAll | ACollapseAll.

(** The handlers that keep the identifiers distinct. *)
Create HintDb param_ids discriminated.

Section Machine.
Context `{Unicode} (now : Z -> Z) (t : jsstr -> list (jsstr * jsstr) -> jsstr).

Definition act (a : Action) (s : Editor) : Editor :=
  match a with
  | ASwitchToJson => switchToJsonMode t s
  | ASwitchToVisual => switchToVisualMode now t s
  | AJsonChange x => handleJsonChange t x s
  | AFormatJson => formatJson t s
  | ASave => handleSave t s
  | AFillTemplate => fillTemplateFromLibrary now s
  | AAppendTemplate => appendTemplateFromLibrary now t s
  | AClear => clearValue now s
  | AReset => resetEditorState now s
  | ATemplateGroup k => s <| templateGroupKey := str_or k (js "basic") |>
  | ATemplatePreset k => s <| templatePresetKey := str_or k (js "operations_default") |>
  | ALegacyValue x => s <| legacyValue := x |>
  | ASearch x => s <| operationSearch := x |>
  | ASelect x => s <| selectedOperationId := x |>
  | AApplyField key target => applyBuiltinField t key target s
  | AOpenGuide target => openFieldGuide target s
  | AGuideTarget target => s <| fieldGuideTarget := target |>
  | AGuideKeyword x => s <| fieldGuideKeyword := x |>
  | ACloseGuide => s <| fieldGuideVisible := false |>
  | AHeaderExample b => s <| headerValueExampleVisible := b |>
  | AUpdate x patch => updateOperation x patch s
  | AFormatValue => formatSelectedOperationValueAsJson t s
  | AReturnError x patch => updateReturnErrorDraft x patch s
  | APrune x patch => updatePruneField now x patch s
  | AAddRule x => addPruneRule now x s
  | AUpdateRule x r patch => updatePruneRule now x r patch s
  | ARemoveRule x r => removePruneRule now x r s
  | AAdd => addOperation now s
  | ADragStart x => handleOperationDragStart x s
  | ADragOver x p => handleOperationDragOver x p s
  | ADragEnd => resetOperationDragState s
  | ADrop x data => handleOperationDrop x data s
  | ADuplicate x eager => duplicateOperation now x eager s
  | ARemove x => removeOperation now x s
  | AAddCondition x => addCondition now x s
  | AUpdateCondition x c patch => updateCondition x c patch s
  | ARemoveCondition x c => removeCondition x c s
  | ACollapse x keys => handleConditionCollapseChange x keys s
  | AExpandAll => expandAllSelectedConditions s
  | ACollapseAll => collapseAllSelectedConditions s
  end.

(** A step: the dialog opens on a value, a handler runs, or a render takes
    identifiers (for its initial state and the displayed prune rules). *)
Inductive step : Editor -> Editor -> Prop :=
  | step_open value s s' : open_dialog now value s = Some s' -> step s (settle s')
  | step_act a s : step s (settle (act a s))
  | step_render n s : localIdSeed s <= n -> step s (s <| localIdSeed := n |>).

(** The state of the first render. *)
Definition initial (op : Operation) (n : Z) : Editor := {|
  editMode := Visual; visualMode := VOperations; legacyValue := []; operations := [op];
  jsonText := []; jsonError := []; operationSearch := []; selectedOperationId := [];
  expandedConditionMap := []; draggedOperationId := []; dragOverOperationId := [];
  dragOverPosition := Before; templateGroupKey := js "basic";
  templatePresetKey := js "operations_default"; headerValueExampleVisible := false;
  fieldGuideVisible := false; fieldGuideTarget := TargetPath; fieldGuideKeyword := [];
  localIdSeed := n; notices := []; saved := [] |}.

Inductive reachable : Editor -> Prop :=
  | reachable_initial n op n' : 0 <= n -> createDefaultOperation now n = (Some op, n') ->
      reachable (settle (initial op n'))
  | reachable_step s s' : reachable s -> step s s' -> reachable s'.

(** ** The invariant *)

(** There is a rule, and rules and conditions have distinct identifiers, all
    of them taken from the counter. *)
Definition ids_ok (s : Editor) : Prop :=
  0 <= localIdSeed s /\ operations s <> [] /\
  distinct_ids now (localIdSeed s) (all_ids (operations s)).

Definition editor_ok (s : Editor) : Prop :=
  ids_ok s /\ selectedOperationId s ∈ map id_ (operations s) /\
  (templatePresetOptions s = [] \/ templatePresetKey s ∈ templatePresetOptions s).

Lemma settle_ids s : operations (settle s) = operations s /\ localIdSeed (settle s) = localIdSeed s.
Proof.
  unfold settle, settle_preset, settle_selection.
  destruct (operations s) as [|op ops] eqn:E; [|destruct (existsb _ _)]; case_match; try done;
    by case_bool_decide.
Qed.

Lemma settle_ok s : ids_ok s -> editor_ok (settle s).
Proof.
  intros I. destruct (settle_ids s) as [Eo En]. unfold editor_ok, ids_ok. rewrite Eo, En.
  split; [exact I|]. destruct I as (_ & N & _). unfold settle. split.
  - assert (selectedOperationId (settle_preset (settle_selection s))
      = selectedOperationId (settle_selection s)) as ->.
    { unfold settle_preset. case_match; [done|]. by case_bool_decide. }
    unfold settle_selection. destruct (operations s) as [|op ops] eqn:E; [done|].
    destruct (existsb _ (op :: ops)) eqn:X; [|apply list_elem_of_here].
    apply existsb_exists in X as (o & I & B%bool_decide_eq_true). rewrite <- B.
    apply list_elem_of_fmap. exists o. split; [done|by apply list_elem_of_In].
  - set (u := settle_selection s). unfold settle_preset.
    destruct (templatePresetOptions u) as [|first rest] eqn:O; [by left|].
    case_bool_decide as B.
    + right. by rewrite O.
    + right. change (first ∈ templatePresetOptions u). rewrite O. apply list_elem_of_here.
Qed.

(** A handler that keeps the identifiers. *)
Lemma ids_ok_same s s' : localIdSeed s <= localIdSeed s' ->
  all_ids (operations s') = all_ids (operations s) -> operations s' <> [] -> ids_ok s -> ids_ok s'.
Proof.
  intros L E N (P & _ & D). split; [lia|]. split; [done|]. rewrite E. by eapply distinct_weaken.
Qed.

(** ... and one that shows newly made operations. *)
Lemma ids_ok_fresh s n n' ops : 0 <= n -> taken now n n' (all_ids ops) -> ops <> [] ->
  localIdSeed s = n' -> operations s = ops -> ids_ok s.
Proof.
  intros N T O <- <-. destruct T as [L E] eqn:X. split; [lia|]. split; [done|].
  by eapply distinct_taken.
Qed.

Lemma all_ids_map f ops : (forall op, op_ids (f op) = op_ids op) ->
  all_ids (map f ops) = all_ids ops.
Proof. intros F. unfold all_ids. induction ops as [|op ops IH]; cbn [map flat_map]; [done|]. by rewrite F, IH. Qed.

Lemma map_nonempty {A B} (f : A -> B) l : l <> [] -> map f l <> [].
Proof. by destruct l. Qed.

Lemma updateOperation_ok x patch s : ids_ok s -> ids_ok (updateOperation x patch s).
Proof.
  intros I. apply (ids_ok_same s); [cbn; lia| |apply map_nonempty, I|done].
  apply all_ids_map. intros op. case_bool_decide; [|done]. by destruct patch.
Qed.

Lemma with_ids_ok {A} (ids : A -> list jsstr) (g : Gen A) k s :
  (forall n, outcome now ids n (g n)) -> ids_ok s ->
  (forall a n', taken now (localIdSeed s) n' (ids a) -> g (localIdSeed s) = (Some a, n') ->
     ids_ok (k a (s <| localIdSeed := n' |>))) -> ids_ok (with_ids g k s).
Proof.
  intros G I K. unfold with_ids. specialize (G (localIdSeed s)).
  destruct (g (localIdSeed s)) as [[a|] n]; [by apply K|].
  apply (ids_ok_same s); [done|done|apply I|done].
Qed.

Lemma all_ids_app a b : all_ids (a ++ b) = all_ids a ++ all_ids b.
Proof. apply flat_map_app. Qed.

Lemma all_ids_one op : all_ids [op] = op_ids op.
Proof. apply app_nil_r. Qed.

Lemma ids_sublist ops : sublist (map id_ ops) (all_ids ops).
Proof.
  induction ops as [|op ops IH]; [constructor|]. cbn. apply sublist_skip. by apply sublist_inserts_l.
Qed.

Lemma filter_ids_sublist (P : Operation -> Prop) `{!forall o, Decision (P o)} ops :
  sublist (all_ids (base.filter P ops)) (all_ids ops).
Proof.
  unfold all_ids. induction ops as [|op ops IH]; [constructor|]. rewrite filter_cons.
  cbn [flat_map]. case_decide; cbn [flat_map]; [by apply sublist_app|by apply sublist_inserts_l].
Qed.

Lemma distinct_op_ids n ops : distinct_ids now n (all_ids ops) -> NoDup (map id_ ops).
Proof. intros [N _]. eapply sublist_NoDup; [exact N|apply ids_sublist]. Qed.

Lemma gmap_list_length {A B} (f : A -> Gen B) l n ys n' :
  gmap_list f l n = (Some ys, n') -> length ys = length l.
Proof.
  revert n ys. induction l as [|x l IH]; intros n ys; cbn; [by intros [= <- _]|].
  unfold gbind. destruct (f x n) as [[y|] m]; [|done].
  destruct (gmap_list f l m) as [[zs|] k] eqn:E; [|done]. intros [= <- <-]. cbn. f_equal. by eapply IH.
Qed.

Lemma load_operations_nonempty l n ops n' : load_operations now l n = (Some ops, n') -> ops <> [].
Proof.
  unfold load_operations. destruct l as [|v l].
  - unfold gbind. destruct (createDefaultOperation now n) as [[op|] m]; by intros [= <- _].
  - intros E%gmap_list_length. by destruct ops.
Qed.

(** Handlers that show one default operation, or a loaded list. *)
Lemma with_default_ok k s : ids_ok s ->
  (forall op s', operations (k op s') = [op] /\ localIdSeed (k op s') = localIdSeed s') ->
  ids_ok (with_ids (createDefaultOperation now) k s).
Proof.
  intros I K. apply (with_ids_ok op_ids); [intros; apply normalizeOperation_outcome|done|].
  intros op n' T _. destruct (K op (s <| localIdSeed := n' |>)) as [Ko Kn].
  eapply (ids_ok_fresh _ (localIdSeed s) n' [op]); [apply I|by rewrite all_ids_one|done|exact Kn|exact Ko].
Qed.

Lemma with_load_ok l k s : ids_ok s ->
  (forall ops s', operations (k ops s') = ops /\ localIdSeed (k ops s') = localIdSeed s') ->
  ids_ok (with_ids (load_operations now l) k s).
Proof.
  intros I K. apply (with_ids_ok all_ids); [intros; apply load_operations_outcome|done|].
  intros ops n' T E. destruct (K ops (s <| localIdSeed := n' |>)) as [Ko Kn].
  eapply (ids_ok_fresh _ (localIdSeed s) n' ops); [apply I|exact T| |exact Kn|exact Ko].
  by eapply load_operations_nonempty.
Qed.

Lemma with_ids_mono {A} (g : Gen A) k s : (forall n, n <= snd (g n)) -> ids_ok s ->
  (forall a s', ids_ok s' -> ids_ok (k a s')) -> ids_ok (with_ids g k s).
Proof.
  intros G I K. unfold with_ids. specialize (G (localIdSeed s)).
  destruct (g (localIdSeed s)) as [[a|] n]; [apply K|]; (apply (ids_ok_same s); [done|done|apply I|done]).
Qed.

(** ** Prune rules *)

Lemma entry_rules_outcome v n : outcome now (map c_id) n (entry_rules now v n).
Proof.
  unfold entry_rules. set (f := fun kv => _).
  assert (F : forall x m, outcome now (fun c => [c_id c]) m (f x m)).
  { intros x m. apply normalizeCondition_outcome. }
  pose proof (gmap_outcome now f _ F (entries_of v) n) as X.
  destruct (gmap_list f (entries_of v) n) as [[cs|] k]; cbn in *; [|done]. by rewrite <- flat_map_c_id.
Qed.

Lemma prune_rules_outcome l n : outcome now (map c_id) n (gmap_list (normalizePruneRule now) l n).
Proof.
  pose proof (gmap_outcome now (normalizePruneRule now) _ (normalizeCondition_outcome now) l n) as X.
  destruct (gmap_list _ l n) as [[cs|] k]; cbn in *; [|done]. by rewrite <- flat_map_c_id.
Qed.

Lemma parsePrune_outcome text n :
  outcome now (fun d => map c_id (rules d)) n (parsePruneObjectsDraft now text n).
Proof.
  unfold parsePruneObjectsDraft. case_match; [apply taken_nil|].
  destruct (JSON_parse (trim text)) as [v|]; [|apply taken_nil].
  destruct v as [| | | | | |o]; try apply taken_nil. unfold gbind.
  set (g := if plain_obj (vget (VObj o) (js "where")) then _ else _).
  set (h := match vget (VObj o) (js "conditions") with VArr _ => _ | VObj _ => _ | _ => _ end).
  assert (G : outcome now (map c_id) n (g n)).
  { unfold g. case_match; [apply entry_rules_outcome|apply taken_nil]. }
  destruct (g n) as [[ws|] m]; [|done].
  assert (Hh : outcome now (map c_id) m (h m)).
  { unfold h. destruct (vget (VObj o) (js "conditions")); try apply taken_nil;
      [apply prune_rules_outcome|apply entry_rules_outcome]. }
  destruct (h m) as [[cs|] k]; cbn in *; [|destruct G; lia].
  rewrite map_app. by eapply taken_app.
Qed.

Lemma updatePrune_ok x updater s : (forall d n, n <= snd (updater d n)) -> ids_ok s ->
  ids_ok (updatePruneObjectsDraft now x updater s).
Proof.
  intros U I. unfold updatePruneObjectsDraft. destruct (find_operation x s) as [op|]; [|done].
  apply with_ids_mono; [|done|intros; by apply updateOperation_ok].
  intros n. unfold gbind. pose proof (outcome_le _ _ _ _ (parsePrune_outcome (value_text op) n)) as L.
  destruct (parsePruneObjectsDraft now (value_text op) n) as [[d|] m]; [|done]. cbn in L.
  specialize (U d m). lia.
Qed.

(** ** The list of rules *)

Lemma all_ids_perm a b : a ≡ₚ b -> all_ids a ≡ₚ all_ids b.
Proof. intros P. by apply Permutation_flat_map. Qed.

Lemma ids_ok_add s s' op n' : ids_ok s -> taken now (localIdSeed s) n' (op_ids op) ->
  localIdSeed s' = n' -> operations s' ≡ₚ operations s ++ [op] -> ids_ok s'.
Proof.
  intros (P & N & D) T E O. destruct T as [L X] eqn:Et. split; [lia|]. split.
  - intros Z. rewrite Z in O. apply Permutation_nil_l in O. by destruct (operations s).
  - apply (distinct_perm now _ (all_ids (operations s ++ [op]))); [symmetry; by apply all_ids_perm|].
    rewrite all_ids_app, all_ids_one, E. by eapply distinct_app.
Qed.

Lemma add_ok s : ids_ok s -> ids_ok (addOperation now s).
Proof.
  intros I. apply (with_ids_ok op_ids); [intros; apply normalizeOperation_outcome|done|].
  intros op n' T _. by eapply (ids_ok_add s _ op n').
Qed.

Lemma duplicate_ok x eager s : ids_ok s -> ids_ok (duplicateOperation now x eager s).
Proof.
  intros I. unfold duplicateOperation. destruct (index_of x (operations s)) as [i|]; [|done].
  destruct (operations s !! i) as [source|]; [|done].
  apply (with_ids_ok op_ids); [intros; apply normalizeOperation_outcome|done|].
  intros op n' T _. eapply (ids_ok_add s _ op n'); [done|done|by destruct eager|].
  assert (P : take (S i) (operations s) ++ op :: drop (S i) (operations s) ≡ₚ operations s ++ [op]).
  { rewrite <- Permutation_middle, take_drop. apply Permutation_cons_append. }
  by destruct eager.
Qed.

(** Removing one of several rules leaves a rule. *)
Lemma filter_other_nonempty x ops : NoDup (map id_ ops) -> (1 < length ops)%nat ->
  base.filter (fun o => id_ o <> x) ops <> [].
Proof.
  destruct ops as [|a [|b ops]]; cbn [map length]; [lia|lia|]. intros N _ E.
  apply NoDup_cons in N as [N _]. rewrite !filter_cons in E.
  destruct (decide (id_ a <> x)) as [|A]; [done|]. destruct (decide (id_ b <> x)) as [|B]; [done|].
  apply dec_stable in A, B. apply N. rewrite A, <- B. apply list_elem_of_here.
Qed.

Lemma remove_ok x s : ids_ok s -> ids_ok (removeOperation now x s).
Proof.
  intros I. unfold removeOperation. destruct (Nat.leb_spec (length (operations s)) 1).
  { by apply with_default_ok. }
  destruct I as (P & N & D). split; [done|]. split.
  - cbn. apply filter_other_nonempty; [by eapply distinct_op_ids|lia].
  - cbn. eapply distinct_sublist; [apply filter_ids_sublist|done].
Qed.

Lemma move_ok a b p s : ids_ok s -> ids_ok (moveOperation a b p s).
Proof.
  intros I. unfold moveOperation. case_match; [done|]. destruct I as (P & N & D).
  pose proof (reorder_permutation (operations s) a b p (distinct_op_ids _ _ D)) as R.
  split; [done|]. split.
  - cbn. intros E. rewrite E in R. apply Permutation_nil_l in R. by destruct (operations s).
  - cbn. eapply distinct_perm; [symmetry; by apply all_ids_perm|done].
Qed.

(** ** Conditions *)

Lemma on_conditions_sublist x f s : (forall cs, sublist (map c_id (f cs)) (map c_id cs)) ->
  ids_ok s -> ids_ok (on_conditions x f s).
Proof.
  intros F (P & N & D). split; [done|]. split; [by apply map_nonempty|].
  eapply distinct_sublist; [|exact D]. cbn. clear -F. unfold all_ids.
  induction (operations s) as [|op ops IH]; [constructor|]. cbn [map flat_map].
  apply sublist_app; [|exact IH]. case_bool_decide; [|reflexivity]. apply sublist_skip, F.
Qed.

Lemma map_if_other (f : Operation -> Operation) x ops : x ∉ map id_ ops ->
  map (fun op => if bool_decide (id_ op = x) then f op else op) ops = ops.
Proof.
  induction ops as [|op ops IH]; [done|]. cbn. intros [A B]%not_elem_of_cons.
  rewrite bool_decide_false, IH by done. done.
Qed.

Lemma add_condition_ids x c ops : NoDup (map id_ ops) ->
  let ops' := map (fun op => if bool_decide (id_ op = x)
                             then op <| conditions := conditions op ++ [c] |> else op) ops in
  all_ids ops' = all_ids ops \/ all_ids ops' ≡ₚ all_ids ops ++ [c_id c].
Proof.
  induction ops as [|op ops IH]; intros N ops'; [by left|]. cbn in N. apply NoDup_cons in N as [No N].
  subst ops'. cbn [map]. case_bool_decide as B.
  - right. rewrite map_if_other by by subst. unfold all_ids. cbn [flat_map]. unfold op_ids at 1. cbn.
    rewrite map_app. cbn. constructor. rewrite <- app_assoc. cbn.
    rewrite <- app_assoc. apply Permutation_app_head. apply Permutation_cons_append.
  - unfold all_ids in *. cbn [flat_map]. destruct (IH N) as [E|E]; [left; by rewrite E|].
    right. rewrite E. by rewrite app_assoc.
Qed.

Lemma addCondition_ok x s : ids_ok s -> ids_ok (addCondition now x s).
Proof.
  intros I. apply (with_ids_ok (fun c => [c_id c]));
    [intros; apply normalizeCondition_outcome|done|].
  intros c n' T _. destruct I as (P & N & D). destruct T as [L X] eqn:Et.
  split; [cbn; lia|]. split; [by apply map_nonempty|].
  change (distinct_ids now n' (all_ids (map (fun op => if bool_decide (id_ op = x)
    then op <| conditions := conditions op ++ [c] |> else op) (operations s)))).
  destruct (add_condition_ids x c (operations s) (distinct_op_ids _ _ D)) as [E|E].
  - rewrite E. by eapply distinct_weaken.
  - eapply distinct_perm; [symmetry; exact E|]. by eapply distinct_app.
Qed.

(** ** Every handler *)

Lemma templates_nonempty s : p_kind (getSelectedTemplatePreset s) = KOperations ->
  as_arr (vget (p_payload (getSelectedTemplatePreset s)) (js "operations")) <> [].
Proof.
  unfold getSelectedTemplatePreset. destruct (List.find _ _) as [p|] eqn:E; [|done]. cbn [default].
  apply find_some in E as [I _]. cbn in I.
  repeat (destruct I as [<-|I]; [done|]). done.
Qed.

Lemma append_operations_ok payload s : payload <> [] -> ids_ok s ->
  ids_ok (appendOperationsTemplate now payload s).
Proof.
  intros Np I. apply (with_ids_ok all_ids);
    [intros; apply (gmap_outcome now _ _ (normalizeOperation_outcome now))|done|].
  intros ops n' T E%gmap_list_length. destruct I as (P & N & D). destruct T as [L X] eqn:Et.
  split; [cbn; lia|]. split.
  - cbn. intros Z%app_eq_nil. destruct Z as [_ ->]. by destruct payload.
  - cbn. rewrite all_ids_app. eapply distinct_app; [exact P| |done].
    destruct (visualMode s); [|by split; constructor].
    eapply distinct_sublist; [apply filter_ids_sublist|done].
Qed.

Lemma same_ops_ok s s' : operations s' = operations s -> localIdSeed s' = localIdSeed s ->
  ids_ok s -> ids_ok s'.
Proof. unfold ids_ok. by intros -> ->. Qed.

Lemma filter_c_id_sublist x cs :
  sublist (map c_id (base.filter (fun c => c_id c <> x) cs)) (map c_id cs).
Proof.
  induction cs as [|c cs IH]; [constructor|]. rewrite filter_cons. case_decide; cbn;
    [by apply sublist_skip|by apply sublist_cons].
Qed.

Lemma patch_condition_ids x patch cs :
  map c_id (map (fun c => if bool_decide (c_id c = x) then patch_condition patch c else c) cs) = map c_id cs.
Proof.
  rewrite map_map. apply map_ext. intros c. case_bool_decide; [|done]. by destruct patch.
Qed.

Lemma switch_visual_ok s : ids_ok s -> ids_ok (switchToVisualMode now t s).
Proof.
  intros I. unfold switchToVisualMode. destruct (editMode s); [done|].
  destruct (negb _); [by apply with_default_ok|].
  destruct (JSON_parse (trim (jsonText s))) as [v|]; [|by apply (same_ops_ok s)].
  destruct v as [| | | | | |o]; try by apply (same_ops_ok s).
  destruct (vget (VObj o) (js "operations")); first [by apply with_load_ok|by apply with_default_ok].
Qed.

Lemma fill_template_ok s : ids_ok s -> ids_ok (fillTemplateFromLibrary now s).
Proof.
  intros I. unfold fillTemplateFromLibrary. case_match; [by apply with_load_ok|by apply with_default_ok].
Qed.

Lemma append_template_ok s : ids_ok s -> ids_ok (appendTemplateFromLibrary now t s).
Proof.
  intros I. unfold appendTemplateFromLibrary. destruct (p_kind _) eqn:K.
  - by apply append_operations_ok; [apply templates_nonempty|].
  - unfold appendLegacyTemplate, append_merged, fillLegacyTemplate.
    repeat case_match; first [by apply with_default_ok|by apply (same_ops_ok s)].
Qed.

Lemma return_error_ok x patch s : ids_ok s -> ids_ok (updateReturnErrorDraft x patch s).
Proof. intros I. unfold updateReturnErrorDraft. case_match; [by apply updateOperation_ok|done]. Qed.

Lemma apply_field_ok key target s : ids_ok s -> ids_ok (applyBuiltinField t key target s).
Proof.
  intros I. unfold applyBuiltinField.
  repeat case_match; first [by apply updateOperation_ok|by apply (same_ops_ok s)].
Qed.

Lemma format_value_ok s : ids_ok s -> ids_ok (formatSelectedOperationValueAsJson t s).
Proof.
  intros I. unfold formatSelectedOperationValueAsJson.
  destruct (selectedOperation s) as [op|]; [|done]. case_match; [done|].
  case_match; [|by apply (same_ops_ok s)].
  apply (same_ops_ok (updateOperation (id_ op) (PValueText (pretty j)) s)); [done|done|].
  by apply updateOperation_ok.
Qed.

Lemma drop_ok x data s : ids_ok s -> ids_ok (handleOperationDrop x data s).
Proof.
  intros I. unfold handleOperationDrop. eapply same_ops_ok; [reflexivity|reflexivity|]. by apply move_ok.
Qed.

Lemma update_condition_ok x c patch s : ids_ok s -> ids_ok (updateCondition x c patch s).
Proof. intros I. apply on_conditions_sublist; [|done]. intros cs. by rewrite patch_condition_ids. Qed.

Lemma remove_condition_ok x c s : ids_ok s -> ids_ok (removeCondition x c s).
Proof.
  intros I. unfold removeCondition. eapply same_ops_ok; [reflexivity|reflexivity|].
  apply on_conditions_sublist; [apply filter_c_id_sublist|done].
Qed.

Lemma set_edit_mode_ok m s : ids_ok s -> ids_ok (s <| editMode := m |>).
Proof. done. Qed.

#[local] Hint Resolve updateOperation_ok switch_visual_ok fill_template_ok append_template_ok
  return_error_ok apply_field_ok format_value_ok drop_ok add_ok duplicate_ok remove_ok
  addCondition_ok update_condition_ok remove_condition_ok : param_ids.

Lemma act_ids_ok a s : ids_ok s -> ids_ok (act a s).
Proof.
  intros I. pose proof (fun s' => same_ops_ok s s') as Same.
  destruct a; cbn [act]; try (by apply Same; [reflexivity|reflexivity|]);
    try solve [auto with param_ids nocore].
  - unfold switchToJsonMode. repeat case_match; by apply Same.
  - unfold formatJson. repeat case_match; by apply Same.
  - unfold handleSave. repeat case_match; by apply Same.
  - by apply with_default_ok.
  - unfold resetEditorState. apply set_edit_mode_ok. by apply with_default_ok.
  - apply updatePrune_ok; [|done]. intros d n. cbn. lia.
  - apply updatePrune_ok; [|done]. intros d n. cbn. lia.
  - apply updatePrune_ok; [|done]. intros d n. cbn. lia.
  - apply updatePrune_ok; [|done]. intros d n. cbn. lia.
  - unfold handleOperationDragOver. case_match; by apply Same.
  - unfold expandAllSelectedConditions. repeat case_match; by apply Same.
  - unfold collapseAllSelectedConditions. case_match; by apply Same.
Qed.

Lemma one_default_outcome em vm a b c n :
  exists st, one_default now em vm a b c n = (Some st, n + 1) /\
    all_ids (i_operations st) = [local_id now n] /\ i_operations st <> [].
Proof. by eexists. Qed.

Lemma open_ids_ok value s s' : ids_ok s -> open_dialog now value s = Some s' -> ids_ok s'.
Proof.
  intros I. unfold open_dialog.
  destruct (parseInitialState now value (localIdSeed s)) as [[st|] n] eqn:E; [|done].
  intros [= <-].
  assert (T : taken now (localIdSeed s) n (all_ids (i_operations st)) /\ i_operations st <> []).
  { assert (D : forall em vm a b c, one_default now em vm a b c (localIdSeed s) = (Some st, n) ->
      taken now (localIdSeed s) n (all_ids (i_operations st)) /\ i_operations st <> []).
    { intros em vm a b c X. destruct (one_default_outcome em vm a b c (localIdSeed s)) as (st' & Y & Ids & N).
      rewrite X in Y. injection Y as -> ->. rewrite Ids. split; [apply taken_one|done]. }
    unfold parseInitialState in E. destruct (negb _); [by eapply D|].
    destruct (JSON_parse (trim value)) as [v|]; [|by eapply D].
    destruct v as [| | | | | |o]; try by eapply D.
    destruct (vget (VObj o) (js "operations")) as [| | | | |l|]; try by eapply D.
    unfold gbind in E. pose proof (load_operations_outcome now l (localIdSeed s)) as O.
    destruct (load_operations now l (localIdSeed s)) as [[ops|] m] eqn:L; [|done].
    injection E as <- <-. split; [exact O|by eapply load_operations_nonempty]. }
  destruct T as [T N]. eapply (ids_ok_fresh _ (localIdSeed s) n); [apply I|exact T|exact N|done|done].
Qed.

(** C14. In every reachable state of the editor there is a rule, the rules and
    their conditions have distinct identifiers, the selected rule is one of
    the list, and the selected template belongs to the selected group. *)
Theorem editor_invariant s : reachable s -> editor_ok s.
Proof.
  induction 1 as [n op n' N E|s s' _ I St].
  - apply settle_ok. destruct (createDefaultOperation_outcome now n) as (op' & E' & Ids).
    rewrite E in E'. injection E' as -> ->.
    eapply (ids_ok_fresh _ n (n + 1) [op']); [done| |done|done|done].
    rewrite all_ids_one, Ids. apply taken_one.
  - destruct I as (I & Sel & Pre). destruct St as [value s s' E|a s|n s L].
    + apply settle_ok. by eapply open_ids_ok.
    + by apply settle_ok, act_ids_ok.
    + split; [|done]. by apply (ids_ok_same s); [..|apply I|].
Qed.
End Machine.

(** ** Prune rules are not edited *)

Section Prune.
Context `{Unicode} (now : Z -> Z).

Lemma rules_disjoint n0 n1 m m' l l' x : 0 <= n0 -> n1 <= m ->
  taken now n0 n1 l -> taken now m m' l' -> x ∈ l -> x ∉ l'.
Proof.
  intros N L T T' X X'. assert (n0 <= n1) by apply T.
  destruct (taken_issued now n0 n1 l N T) as [_ F]. destruct (taken_issued now m m' l') as [_ F']; [lia|done|].
  rewrite Forall_forall in F, F'. destruct (F x X) as (k & K & ->), (F' _ X') as (k' & K' & E).
  apply local_id_inj in E; lia.
Qed.

(** An updater that looks for an identifier of an earlier parse. *)
Lemma update_prune_stale operationId f s text n0 d n1 rule :
  0 <= n0 -> parsePruneObjectsDraft now text n0 = (Some d, n1) -> n1 <= localIdSeed s -> rule ∈ rules d ->
  (forall rs, c_id rule ∉ map c_id rs -> f rs = rs) ->
  updatePruneObjectsDraft now operationId (fun d => gret (d <| rules := f (rules d) |>)) s
  = updatePruneObjectsDraft now operationId gret s.
Proof.
  intros N0 P L R F. unfold updatePruneObjectsDraft.
  destruct (find_operation operationId s) as [op|]; [|done]. unfold with_ids, gbind, gret.
  pose proof (parsePrune_outcome now text n0) as T. rewrite P in T. cbn in T.
  pose proof (parsePrune_outcome now (value_text op) (localIdSeed s)) as T'.
  destruct (parsePruneObjectsDraft now (value_text op) (localIdSeed s)) as [[d'|] m]; [|done].
  cbn in T'. rewrite F; [by destruct d'|].
  eapply rules_disjoint; [exact N0|exact L|exact T|exact T'|]. apply list_elem_of_fmap. by exists rule.
Qed.

(** Editing or removing a displayed rule of prune_objects has no effect:
    the handlers parse the value again, which gives every rule a new
    identifier, so the rule that was displayed is never found, whatever the
    edit; and a rule that is added is dropped, since its path is empty. *)
Theorem prune_rule_edits_lost operationId patch s text n0 d n1 rule :
  0 <= n0 -> parsePruneObjectsDraft now text n0 = (Some d, n1) -> n1 <= localIdSeed s -> rule ∈ rules d ->
  updatePruneRule now operationId (c_id rule) patch s = updatePruneObjectsDraft now operationId gret s /\
  removePruneRule now operationId (c_id rule) s = updatePruneObjectsDraft now operationId gret s /\
  operations (addPruneRule now operationId s)
  = operations (updatePruneField now operationId (PRSimpleMode false) s).
Proof.
  intros N0 P L R. split_and!.
  - unfold updatePruneRule. eapply update_prune_stale; [done..|]. intros rs A.
    rewrite <- (map_id rs) at 2. apply map_ext_in. intros r I%list_elem_of_In.
    rewrite bool_decide_false; [done|]. intros E. destruct A. rewrite <- E. apply list_elem_of_fmap. by exists r.
  - unfold removePruneRule.
    apply (update_prune_stale operationId (base.filter (fun r => c_id r <> c_id rule)) s text n0 d n1 rule);
      [done..|]. intros rs A. apply filter_all, Forall_forall. intros r I E. destruct A. rewrite <- E.
    apply list_elem_of_fmap. by exists r.
  - unfold addPruneRule, updatePruneField, updatePruneObjectsDraft.
    destruct (find_operation operationId s) as [op|]; [|done]. unfold with_ids, gbind, gret.
    destruct (parsePruneObjectsDraft now (value_text op) (localIdSeed s)) as [[d'|] m]; [|done].
    cbn. unfold buildPruneObjectsValueText. cbn. rewrite filter_app, app_nil_r. reflexivity.
Qed.
End Prune.

(** ** What is saved *)

(** The texts the save reads are sequences of code units. *)
Definition texts_ok (s : Editor) : Prop :=
  match editMode s, visualMode s with
  | Json, _ => str_ok (jsonText s)
  | Visual, VLegacy => str_ok (legacyValue s)
  | Visual, VOperations => Forall (fun op =>
      str_ok (description op) /\ str_ok (path op) /\ str_ok (from op) /\ str_ok (to op) /\
      str_ok (value_text op) /\
      Forall (fun c => str_ok (c_path c) /\ str_ok (c_value_text c)) (conditions op)) (operations s)
  end.

Lemma parseLooseValue_parsed s : str_ok s -> parsed_ok (parseLooseValue s).
Proof.
  intros O. unfold parseLooseValue. destruct (str_truthy (trim s)); [|constructor].
  destruct (JSON_parse s) as [v|] eqn:P; [by eapply JSON_parse_ok|done].
Qed.

Lemma pretty_reprint v : parsed_ok v ->
  exists w, JSON_parse (pretty v) = Some w /\ pretty w = pretty v.
Proof.
  intros P. destruct (JSON_reprint 2 v P) as (text & S & R & S'). exists (json_image v).
  unfold pretty. by rewrite S, S'.
Qed.

(** Whatever the editor saves is empty or JSON text, in the form the
    editor prints: it parses, and formatting the parsed value gives the same
    text. *)
Theorem saved_text_canonical t s text : texts_ok s -> save_result t s = inr text ->
  text = [] \/ exists v, JSON_parse text = Some v /\ pretty v = text.
Proof.
  intros O. unfold save_result. assert (R : forall v, parsed_ok v -> @inr jsstr jsstr (pretty v) = inr text ->
    text = [] \/ exists v, JSON_parse text = Some v /\ pretty v = text).
  { intros v P [= <-]. right. destruct (pretty_reprint v P) as (w & E & E'). by exists w. }
  unfold texts_ok in O. destruct (editMode s).
  - unfold buildVisualJson. destruct (visualMode s).
    + unfold buildOperationsJson. set (F := base.filter _ (operations s)).
      assert (S : Forall (sound_operation parsed_ok) F).
      { apply Forall_forall. intros op [_ I]%list_elem_of_filter. rewrite Forall_forall in O.
        destruct (O op I) as (D & P & Fr & To & V & C). split_and!; try done.
        - intros _. by apply parseLooseValue_parsed.
        - eapply Forall_impl; [exact C|]. intros c [Cp Cv]. split; [done|by apply parseLooseValue_parsed]. }
      destruct F as [|op F]; [intros [= <-]; by left|]. case_match; [done|]. apply R.
      apply operations_val_ok; try done; [apply parsed_ok_arr|by intros; apply parsed_ok_obj].
    + case_match; [intros [= <-]; by left|].
      destruct (JSON_parse (trim (legacyValue s))) as [v|] eqn:P; [|done].
      apply JSON_parse_ok in P; [|by apply trim_ok]. destruct v; try done. by apply R.
  - case_match; [intros [= <-]; by left|].
    destruct (JSON_parse (trim (jsonText s))) as [v|] eqn:P; [|done].
    apply R. eapply JSON_parse_ok; [|exact P]. by apply trim_ok.
Qed.

(** ** Witnesses *)

Definition clock : Z -> Z := fun _ => 0.
Definition bang : jsstr -> list (jsstr * jsstr) -> jsstr := fun s _ => 33 :: s.

Definition sample_prune_value : jsstr :=
  pretty (VObj [(js "type", VStr (js "redacted")); (js "where", VObj [(js "a", VNum n1)])]).

Definition sample_prune : Operation := {|
  id_ := js "p"; description := []; path := []; mode := OpPruneObjects;
  value_text := sample_prune_value; keep_origin := false; from := []; to := [];
  logic := LOr; conditions := [] |}.

Lemma reorder_moves_witness :
  map id_ (reorderOperations [sample_operation; sample_invalid; sample_prune] (js "a") (js "p") After)
  = [js "c"; js "p"; js "a"].
Proof.
  destruct (reorder_moves [sample_operation; sample_invalid; sample_prune] (js "a") (js "p") After)
    as [(a & b & l & r & _ & Ia & Ib & O & ->)|[[N|N] _]].
  - by apply (bool_decide_unpack _).
  - discriminate.
  - discriminate.
  - discriminate.
  - change ([sample_invalid; sample_prune] = l ++ b :: r) in O.
    destruct l as [|x [|y l]]; [injection O as <- _; discriminate Ib|injection O as <- <- <-; cbn; by rewrite Ia|].
    by destruct l.
  - destruct N. vm_compute. constructor.
  - destruct N. vm_compute. do 2 constructor. constructor.
Defined.

Definition sample_editor : Editor := initial sample_prune 10.

Lemma prune_rule_edits_lost_witness : exists rule d n1,
  parsePruneObjectsDraft (H := code_unit_unicode) clock sample_prune_value 0 = (Some d, n1) /\ rules d = [rule] /\
  removePruneRule (H := code_unit_unicode) clock (js "p") (c_id rule) sample_editor
  = updatePruneObjectsDraft (H := code_unit_unicode) clock (js "p") gret sample_editor.
Proof.
  destruct (parsePruneObjectsDraft (H := code_unit_unicode) clock sample_prune_value 0) as [[d|] m] eqn:P;
    [|vm_compute in P; discriminate].
  destruct (rules d) as [|rule [|rule' rs]] eqn:R; [vm_compute in P; injection P as <- <-; discriminate| |
    vm_compute in P; injection P as <- <-; discriminate].
  exists rule, d, m. split; [done|]. split; [done|].
  apply (prune_rule_edits_lost (H := code_unit_unicode) clock (js "p") (CPPath []) sample_editor
    sample_prune_value 0 d m rule); [done|exact P| |rewrite R; constructor].
  vm_compute in P. injection P as <- <-. vm_compute. discriminate.
Defined.

(** The first render, a second rule, a condition for it, and its copy. *)
Definition sample_edit (s : Editor) : Editor :=
  settle (act (H := code_unit_unicode) clock bang (ADuplicate (js "param_override_0_1") true)
    (settle (act (H := code_unit_unicode) clock bang (AAddCondition (js "param_override_0_1"))
      (settle (act (H := code_unit_unicode) clock bang AAdd s))))).

Lemma editor_invariant_witness : exists op,
  let s := sample_edit (settle (initial op 1)) in
  editor_ok clock s /\ map id_ (operations s)
  = map (fun n => js "param_override_0_" ++ dec_digits n) [0; 1; 3] /\
  selectedOperationId s = js "param_override_0_3".
Proof.
  destruct (createDefaultOperation (H := code_unit_unicode) clock 0) as [[op|] n] eqn:C;
    [|vm_compute in C; discriminate].
  exists op. intros s. split; [|vm_compute in C; injection C as <- <-; vm_compute; done].
  apply (editor_invariant (H := code_unit_unicode) clock bang).
  do 3 (eapply reachable_step; [|apply step_act]).
  assert (n = 1) as -> by (vm_compute in C; by injection C as <- <-).
  by apply (reachable_initial clock bang 0 op 1).
Defined.

Lemma saved_text_canonical_witness : exists text v,
  save_result bang sample_editor = inr text /\ JSON_parse text = Some v /\ pretty v = text.
Proof.
  destruct (save_result bang sample_editor) as [e|text] eqn:S; [vm_compute in S; discriminate|].
  destruct (saved_text_canonical bang sample_editor text) as [->|(v & P & R)].
  - assert (O : str_ok sample_prune_value) by (apply js_literal_ok; vm_compute; reflexivity).
    apply Forall_singleton. split_and!; first [exact O|by constructor].
  - exact S.
  - vm_compute in S. discriminate.
  - exists text, v. exact (conj eq_refl (conj P R)).
Defined.
