(* ===== verification/UpstreamSync.v ===== *)
(** * Synchronising prices with upstreams (pages/Setting/Ratio/UpstreamRatioSync.jsx)

    The page compares the stored prices with those of upstream channels; the
    administrator ticks values, and a save merges the ticked values into the
    option maps.  This file holds the values and keys, the merge
    ([performSync] up to its requests) and the conflict check of
    [applySync]; [UpstreamSyncPage] holds the page's state. *)

From Stdlib Require Import SpecFloat.
From stdpp Require Import base list numbers strings.
From S2P Require Import Prelude JsNumber JsString JsValue JsJson JsReprint.
Local Open Scope Z_scope.
Local Open Scope js_scope.

(** ** Constants *)

Definition OFFICIAL_RATIO_PRESET_ID : spec_float := num_of_Z (-100).
Definition OFFICIAL_RATIO_PRESET_NAME : jsstr := js "官方倍率预设".
Definition OFFICIAL_RATIO_PRESET_BASE_URL : jsstr := js "https://basellm.github.io".
Definition OFFICIAL_RATIO_PRESET_ENDPOINT : jsstr :=
  js "/llm-metadata/api/newapi/ratio_config-v1-base.json".
Definition MODELS_DEV_PRESET_ID : spec_float := num_of_Z (-101).
Definition MODELS_DEV_PRESET_NAME : jsstr := js "models.dev 价格预设".
Definition MODELS_DEV_PRESET_BASE_URL : jsstr := js "https://models.dev".
Definition MODELS_DEV_PRESET_ENDPOINT : jsstr := js "https://models.dev/api.json".

Definition CHANNEL_PRICING_OPTION_KEYS : list jsstr :=
  [js "ChannelModelPrice"; js "ChannelModelRatio"; js "ChannelCompletionRatio";
   js "ChannelCacheRatio"; js "ChannelCreateCacheRatio"; js "ChannelModelTierRatio";
   js "ChannelCompletionTierRatio"; js "ChannelCacheTierRatio"; js "ChannelCreateCacheTierRatio"].

Definition CHANNEL_EXTRA_OPTION_TO_PAYLOAD : list (jsstr * jsstr) :=
  [(js "ChannelImageRatio", js "ImageRatio"); (js "ChannelAudioRatio", js "AudioRatio");
   (js "ChannelAudioCompletionRatio", js "AudioCompletionRatio")].

(** The keys of [global] in [buildPricingBaseline], in order. *)
Definition GLOBAL_KEYS : list jsstr :=
  [js "ModelRatio"; js "CompletionRatio"; js "CacheRatio"; js "CreateCacheRatio"; js "ModelPrice";
   js "ModelTierRatio"; js "CompletionTierRatio"; js "CacheTierRatio"; js "CreateCacheTierRatio"].

(** ** Names and keys *)

(** The text after an opening parenthesis: [-?\d+\)\s*$]. *)
Definition match_id (s : jsstr) : option Z :=
  let '(neg, r) := match s with c :: r => if c =? 45 then (true, r) else (false, s) | [] => (false, s) end in
  match span_digits r with
  | ([], _) => None
  | (d, c :: w) =>
      if (c =? 41) && forallb is_ws w then Some (signed neg (digits_val d)) else None
  | _ => None
  end.

(** [/\((-?\d+)\)\s*$/]: the leftmost match. *)
Fixpoint match_upstream_id (s : jsstr) : option Z :=
  match s with
  | [] => None
  | c :: r =>
      match (if c =? 40 then match_id r else None) with
      | Some n => Some n
      | None => match_upstream_id r
      end
  end.

(** [String(upstreamDisplayName)], where the name may be missing. *)
Definition parseUpstreamListChannelId (upstreamDisplayName : option jsstr) : option spec_float :=
  num_of_Z <$> match_upstream_id (default (js "null") upstreamDisplayName).

Definition parseNestedOption (json : jsstr) : list (jsstr * jsval) :=
  match JSON_parse (str_or json (js "{}")) with Some (VObj o) => o | _ => [] end.

Definition extractNestedChannelModelMap (optionJson channelIdStr : jsstr) : list (jsstr * jsval) :=
  match assoc_get (parseNestedOption optionJson) channelIdStr with Some (VObj o) => o | _ => [] end.

Section Case.
Context `{Unicode}.

(** [word.charAt(0).toUpperCase() + word.slice(1)] *)
Definition capitalize (word : jsstr) : jsstr :=
  match word with [] => toUpperCase [] | c :: r => toUpperCase [c] ++ r end.

Definition ratioTypeToPascal (ratioType : jsstr) : jsstr :=
  join [] (map capitalize (split_on 95 ratioType)).

Definition channelOptionKeyForRatioType (ratioType : jsstr) : jsstr :=
  js "Channel" ++ ratioTypeToPascal ratioType.
End Case.

Inductive SyncMode := Official | Channel.
#[export] Instance SyncMode_eq : EqDecision SyncMode.
Proof. solve_decision. Defined.

(** The mode before the first fetch is null. *)
Definition is_channel (m : option SyncMode) : bool := bool_decide (m = Some Channel).

Definition CHANNEL_SELECTION_KEY_SEPARATOR : jsstr := js "@@".

Definition buildResolutionKey (ratioType srcName : jsstr) (syncMode : option SyncMode) : jsstr :=
  if is_channel syncMode && str_truthy srcName
  then ratioType ++ CHANNEL_SELECTION_KEY_SEPARATOR ++ srcName else ratioType.

(** [key.indexOf('@@')] splits the key. *)
Fixpoint split_at_separator (key : jsstr) : option (jsstr * jsstr) :=
  match key with
  | [] => None
  | c :: r =>
      if starts_with CHANNEL_SELECTION_KEY_SEPARATOR key then Some ([], drop 2 key)
      else match split_at_separator r with Some (a, b) => Some (c :: a, b) | None => None end
  end.

Definition parseResolutionKey (key : jsstr) : jsstr * option jsstr :=
  match split_at_separator key with
  | None => (key, None)
  | Some (ratioType, srcName) => (ratioType, Some srcName)
  end.

(** ** Values *)

Definition cloneDeep (obj : jsval) : option jsval :=
  match JSON_stringify 0 obj with Some text => JSON_parse text | None => None end.

Definition is_nan (x : spec_float) : bool := match x with S754_nan => true | _ => false end.

(** References are not modelled: whether two values that are objects are the
    same object is a parameter of the comparisons. *)
Section Compare.
Context (same_object : jsval -> jsval -> bool).

(** [a === b] *)
Definition js_strict_eq (a b : jsval) : bool :=
  match a, b with
  | VUndef, VUndef | VNull, VNull => true
  | VBool x, VBool y => Bool.eqb x y
  | VNum x, VNum y => neqb x y
  | VStr x, VStr y => bool_decide (x = y)
  | VArr _, VArr _ | VObj _, VObj _ => same_object a b
  | _, _ => false
  end.

Definition resolutionMatchesUpstream (selected upstreamVal : jsval) : bool :=
  if nullish selected then false
  else if js_strict_eq selected upstreamVal then true
  else
    let ns := to_num selected in
    let nu := to_num upstreamVal in
    negb (is_nan ns) && negb (is_nan nu) && neqb ns nu.

Definition isUpstreamCellSelectable (oldVal newVal : jsval) : bool :=
  if nullish newVal || is_str newVal (js "same") then false
  else if is_obj newVal then negb (resolutionMatchesUpstream oldVal newVal)
  else if is_nan (to_num newVal) then false
  else if nullish oldVal then true
  else negb (resolutionMatchesUpstream oldVal newVal).
End Compare.

(** ** Numbers *)

(** [10 ** 4], [10 ** 6] and [1e-9] *)
Definition RATIO_TO_PRICE_FACTOR : spec_float := num_of_Z 2.
Definition PRICE_DECIMAL_PLACES : Z := 4.
Definition RATIO_DECIMAL_PLACES : Z := 6.
Definition epsilon : spec_float := dec_num false 1 (-9).

Definition toFiniteNumber (value : jsval) : option spec_float :=
  let n := to_num value in if isFinite n then Some n else None.

(** [roundToPlaces] of a number; the callers' other arguments are null. *)
Definition round_number (n : spec_float) (places : Z) : spec_float :=
  let factor := num_of_Z (10 ^ places) in
  ndiv (math_round (nmul n factor)) factor.

Definition roundToPlaces (value : jsval) (places : Z) : option spec_float :=
  n ← toFiniteNumber value; Some (round_number n places).

Definition normalizeStoredNumber (value : jsval) : option spec_float :=
  rounded ← roundToPlaces value RATIO_DECIMAL_PLACES;
  let nearestInt := math_round rounded in
  Some (if nltb (nabs (nsub rounded nearestInt)) epsilon then nearestInt else rounded).

Definition ratioToDisplayPrice (ratio : jsval) : option spec_float :=
  n ← toFiniteNumber ratio;
  roundToPlaces (VNum (nmul n RATIO_TO_PRICE_FACTOR)) PRICE_DECIMAL_PLACES.

(** [normalizeStoredNumber(value) ?? value] *)
Definition stored_number (value : jsval) : jsval :=
  match normalizeStoredNumber value with Some n => VNum n | None => value end.

Definition isTierRatioType (ratioType : jsstr) : bool :=
  bool_decide (ratioType ∈ [js "model_tier_ratio"; js "completion_tier_ratio"; js "cache_tier_ratio";
                            js "create_cache_tier_ratio"]).

(** ** Ticked values *)

Record Resolution := { r_value : jsval; r_srcName : jsstr; r_ratioType : jsstr }.

(** By model, then by resolution key. *)
Definition Resolutions : Type := list (jsstr * list (jsstr * Resolution)).

Definition getBillingCategory (ratioType : jsstr) : jsstr :=
  if bool_decide (ratioType = js "model_price") then js "price" else js "ratio".

(** [res.ratioType || parsed.ratioType] and [res.srcName || parsed.srcNameFromKey] *)
Definition resolved_type (resKey : jsstr) (res : Resolution) : jsstr :=
  str_or (r_ratioType res) (fst (parseResolutionKey resKey)).
Definition resolved_source (resKey : jsstr) (res : Resolution) : option jsstr :=
  if str_truthy (r_srcName res) then Some (r_srcName res) else snd (parseResolutionKey resKey).

(** Where a value is written: the channel with this identifier, or the global
    maps.  It is the key of [groups], 'channel:id' or 'global'. *)
Definition Target : Type := option jsstr.

Definition target_of (syncMode : option SyncMode) (src : option jsstr) : Target :=
  match (if is_channel syncMode then parseUpstreamListChannelId src else None) with
  | Some cid => if nltb n0 cid then Some (str_of_num cid) else None
  | None => None
  end.

Record Group := { g_ratios : list (jsstr * jsval); g_srcNames : list (jsstr * option jsstr) }.

Definition add_to_group (ratioType : jsstr) (value : jsval) (src : option jsstr) (g : Group) : Group :=
  {| g_ratios := assoc_set (g_ratios g) ratioType value;
     g_srcNames := assoc_set (g_srcNames g) ratioType src |}.

Fixpoint add_to_groups (target : Target) (add : Group -> Group) (groups : list (Target * Group))
    : list (Target * Group) :=
  match groups with
  | [] => [(target, add {| g_ratios := []; g_srcNames := [] |})]
  | (t, g) :: rest =>
      if bool_decide (t = target) then (t, add g) :: rest
      else (t, g) :: add_to_groups target add rest
  end.

(** The groups of one model, in the order of their first value. *)
Definition group_ratios (syncMode : option SyncMode) (ratios : list (jsstr * Resolution))
    : list (Target * Group) :=
  fold_left (fun groups '(resKey, res) =>
    let src := resolved_source resKey res in
    add_to_groups (target_of syncMode src) (add_to_group (resolved_type resKey res) (r_value res) src)
      groups) ratios [].

(** ** Stored prices *)

Record Baseline := {
  (** option key, model *)
  b_global : list (jsstr * list (jsstr * jsval));
  (** option key, channel, model *)
  b_channel : list (jsstr * list (jsstr * jsval))
}.

(** The option maps as texts. *)
Definition Options : Type := list (jsstr * jsstr).
Definition option_text (options : Options) (k : jsstr) : jsstr := default [] (assoc_get options k).

Definition buildPricingBaseline (options : Options) : Baseline := {|
  b_global := map (fun k => (k, parseNestedOption (option_text options k))) GLOBAL_KEYS;
  b_channel := map (fun k => (k, parseNestedOption (option_text options k))) CHANNEL_PRICING_OPTION_KEYS
|}.

(** [maps[k]], an object *)
Definition map_at (maps : list (jsstr * list (jsstr * jsval))) (k : jsstr) : jsval :=
  VObj (default [] (assoc_get maps k)).
Definition global_at (b : Baseline) (k model : jsstr) : jsval := vget (map_at (b_global b) k) model.
Definition channel_at (b : Baseline) (k channelIdStr model : jsstr) : jsval :=
  vget (vget (map_at (b_channel b) k) channelIdStr) model.

Definition is_defined (v : jsval) : bool := match v with VUndef => false | _ => true end.

(** ** The conflict check of [applySync] *)

Definition billingCategoryForChannel (b : Baseline) (model channelIdStr : jsstr) : option jsstr :=
  if is_defined (channel_at b (js "ChannelModelPrice") channelIdStr model) then Some (js "price")
  else if is_defined (channel_at b (js "ChannelModelRatio") channelIdStr model)
       || is_defined (channel_at b (js "ChannelCompletionRatio") channelIdStr model)
       || is_defined (channel_at b (js "ChannelCacheRatio") channelIdStr model)
  then Some (js "ratio") else None.

Definition billingCategoryGlobal (b : Baseline) (model : jsstr) : option jsstr :=
  if is_defined (global_at b (js "ModelPrice") model) then Some (js "price")
  else if is_defined (global_at b (js "ModelRatio") model)
       || is_defined (global_at b (js "CompletionRatio") model)
       || is_defined (global_at b (js "CacheRatio") model)
  then Some (js "ratio") else None.

Record Conflict := { x_channel : jsstr; x_model : jsstr; x_current : jsstr; x_newVal : jsstr }.

Section Conflicts.
Context (t : jsstr -> jsstr).

Definition fixed_price_line (v : jsval) : jsstr := t (js "固定价格") ++ js " : " ++ to_str v.
Definition ratio_lines (m c : jsval) : jsstr :=
  t (js "模型倍率") ++ js " : " ++ to_str (m ??? VStr (js "-")) ++ [10]
  ++ t (js "输出倍率") ++ js " : " ++ to_str (c ??? VStr (js "-")).

Definition local_category (b : Baseline) (model : jsstr) (target : Target) : option jsstr :=
  match target with
  | Some idStr => billingCategoryForChannel b model idStr
  | None => billingCategoryGlobal b model
  end.

Definition currentDesc (b : Baseline) (model : jsstr) (target : Target) (localCat : jsstr) : jsstr :=
  let at_ k := match target with
               | Some idStr => channel_at b (js "Channel" ++ js k) idStr model
               | None => global_at b (js k) model
               end in
  if bool_decide (localCat = js "price") then fixed_price_line (at_ "ModelPrice"%string)
  else ratio_lines (at_ "ModelRatio"%string) (at_ "CompletionRatio"%string).

(** ['model_price' in r ? 'price' : 'ratio'] *)
Definition new_category (r : list (jsstr * jsval)) : jsstr :=
  if bool_decide (js "model_price" ∈ map fst r) then js "price" else js "ratio".

Definition newDesc (r : list (jsstr * jsval)) : jsstr :=
  if bool_decide (new_category r = js "price") then fixed_price_line (vget (VObj r) (js "model_price"))
  else ratio_lines (vget (VObj r) (js "model_ratio")) (vget (VObj r) (js "completion_ratio")).

Definition group_conflict (b : Baseline) (model : jsstr) (target : Target) (g : Group) : list Conflict :=
  match local_category b model target with
  | Some localCat =>
      if bool_decide (localCat = new_category (g_ratios g)) then []
      else [{| x_channel := join (js ", ")
                 (map (default []) (dedup_by id [] (omap (assoc_get (g_srcNames g)) (map fst (g_ratios g)))));
               x_model := model; x_current := currentDesc b model target localCat;
               x_newVal := newDesc (g_ratios g) |}]
  | None => []
  end.

Definition conflicts (b : Baseline) (syncMode : option SyncMode) (resolutions : Resolutions)
    : list Conflict :=
  flat_map (fun '(model, ratios) =>
    flat_map (fun '(target, g) => group_conflict b model target g) (group_ratios syncMode ratios))
    resolutions.
End Conflicts.

(** ** The merge of [performSync] *)

(** The values of one model and target. *)
Section Normalize.
Context (b : Baseline).

Definition getCurrentEffectiveModelRatio (model : jsstr) (target : Target) : option spec_float :=
  let channelRatio :=
    match target with
    | Some idStr => toFiniteNumber (channel_at b (js "ChannelModelRatio") idStr model)
    | None => None
    end in
  match channelRatio with
  | Some n => Some n
  | None => toFiniteNumber (global_at b (js "ModelRatio") model)
  end.

Definition opt_num (x : option spec_float) : jsval := match x with Some n => VNum n | None => VNull end.

(** The input price rounded to four places, as a ratio again; the ratio in
    force when none is selected. *)
Definition normalize_model_ratio (model : jsstr) (target : Target) (raw : list (jsstr * jsval))
    : list (jsstr * jsval) * option spec_float :=
  match toFiniteNumber (vget (VObj raw) (js "model_ratio")) with
  | Some selected =>
      match ratioToDisplayPrice (VNum selected) with
      | Some price =>
          let ratio := roundToPlaces (VNum (ndiv price RATIO_TO_PRICE_FACTOR)) RATIO_DECIMAL_PLACES in
          (assoc_set raw (js "model_ratio") (opt_num ratio), ratio)
      | None => (raw, Some selected)
      end
  | None => (raw, getCurrentEffectiveModelRatio model target)
  end.

Definition normalizeRatioSelection (model : jsstr) (target : Target) (raw : list (jsstr * jsval))
    : list (jsstr * jsval) :=
  let '(normalized, effective) := normalize_model_ratio model target raw in
  match toFiniteNumber (vget (VObj normalized) (js "completion_ratio")), effective with
  | Some selected, Some ratio =>
      if nltb n0 ratio then
        match ratioToDisplayPrice (VNum (nmul ratio selected)) with
        | Some outputPrice =>
            let inputPrice := nmul ratio RATIO_TO_PRICE_FACTOR in
            if nltb n0 inputPrice
            then assoc_set normalized (js "completion_ratio")
                   (opt_num (roundToPlaces (VNum (ndiv outputPrice inputPrice)) RATIO_DECIMAL_PLACES))
            else normalized
        | None => normalized
        end
      else normalized
  | _, _ => normalized
  end.
End Normalize.

(** [isTierRatioType(ratioType) ? value : (normalizeStoredNumber(value) ?? value)] *)
Definition stored_value (ratioType : jsstr) (value : jsval) : jsval :=
  if isTierRatioType ratioType then value else stored_number value.

(** Writing into a map that is missing throws a TypeError, also into a
    channel's entry that is not an object (the options hold objects). *)
Inductive Thrown := TypeError.

Record Final := {
  f_ratios : list (jsstr * list (jsstr * jsval));
  f_channel : list (jsstr * list (jsstr * jsval))
}.

Definition initial_final (b : Baseline) : Thrown + Final :=
  channel <~ rmap (fun '(k, m) => match cloneDeep (VObj m) with
                                  | Some (VObj m') => inr (k, m')
                                  | _ => inl TypeError
                                  end) (b_channel b) ;;
  inr {| f_ratios := b_global b; f_channel := channel |}.

Definition hasPrice (r : list (jsstr * jsval)) : bool := bool_decide (js "model_price" ∈ map fst r).
Definition hasRatio (r : list (jsstr * jsval)) : bool :=
  existsb (fun rt => negb (bool_decide (rt = js "model_price")) && negb (isTierRatioType rt)) (map fst r).

(** [delete maps[k][model]] *)
Definition delete_global (model k : jsstr) (maps : list (jsstr * list (jsstr * jsval)))
    : list (jsstr * list (jsstr * jsval)) :=
  match assoc_get maps k with Some m => assoc_set maps k (assoc_delete m model) | None => maps end.

Definition set_global (model k : jsstr) (v : jsval) (maps : list (jsstr * list (jsstr * jsval)))
    : list (jsstr * list (jsstr * jsval)) :=
  assoc_set maps k (assoc_set (default [] (assoc_get maps k)) model v).

(** [if (maps[k][id]) delete maps[k][id][model]] *)
Definition delete_channel (model idStr k : jsstr) (maps : list (jsstr * list (jsstr * jsval)))
    : Thrown + list (jsstr * list (jsstr * jsval)) :=
  match assoc_get maps k with
  | None => inl TypeError
  | Some m =>
      match default VUndef (assoc_get m idStr) with
      | VObj o => inr (assoc_set maps k (assoc_set m idStr (VObj (assoc_delete o model))))
      | v => if truthy v then inl TypeError else inr maps
      end
  end.

Definition set_channel (model idStr k : jsstr) (v : jsval) (maps : list (jsstr * list (jsstr * jsval)))
    : Thrown + list (jsstr * list (jsstr * jsval)) :=
  match assoc_get maps k with
  | None => inl TypeError
  | Some m =>
      match default VUndef (assoc_get m idStr) with
      | VObj o => inr (assoc_set maps k (assoc_set m idStr (VObj (assoc_set o model v))))
      | u => if truthy u then inl TypeError
             else inr (assoc_set maps k (assoc_set m idStr (VObj [(model, v)])))
      end
  end.

Fixpoint rfold {A B} (f : B -> A -> Thrown + A) (l : list B) (a : A) : Thrown + A :=
  match l with [] => inr a | x :: r => a' <~ f x a ;; rfold f r a' end.

Section Merge.
Context `{Unicode} (b : Baseline).

Definition apply_global (model : jsstr) (r : list (jsstr * jsval))
    (maps : list (jsstr * list (jsstr * jsval))) : list (jsstr * list (jsstr * jsval)) :=
  let maps := if hasPrice r
              then fold_left (fun maps k => delete_global model k maps)
                     [js "ModelRatio"; js "CompletionRatio"; js "CacheRatio"] maps
              else maps in
  let maps := if hasRatio r then delete_global model (js "ModelPrice") maps else maps in
  fold_left (fun maps '(ratioType, value) =>
    set_global model (ratioTypeToPascal ratioType) (stored_value ratioType value) maps) r maps.

Definition apply_channel (model idStr : jsstr) (r : list (jsstr * jsval))
    (maps : list (jsstr * list (jsstr * jsval))) : Thrown + list (jsstr * list (jsstr * jsval)) :=
  maps <~ (if hasPrice r
           then rfold (delete_channel model idStr)
                  [js "ChannelModelRatio"; js "ChannelCompletionRatio"; js "ChannelCacheRatio";
                   js "ChannelCreateCacheRatio"] maps
           else inr maps) ;;
  maps <~ (if hasRatio r then delete_channel model idStr (js "ChannelModelPrice") maps else inr maps) ;;
  rfold (fun '(ratioType, value) =>
    set_channel model idStr (channelOptionKeyForRatioType ratioType) (stored_value ratioType value)) r maps.

Definition apply_group (model : jsstr) (target : Target) (raw : list (jsstr * jsval)) (f : Final)
    : Thrown + Final :=
  let r := normalizeRatioSelection b model target raw in
  match target with
  | Some idStr =>
      maps <~ apply_channel model idStr r (f_channel f) ;;
      inr {| f_ratios := f_ratios f; f_channel := maps |}
  | None => inr {| f_ratios := apply_global model r (f_ratios f); f_channel := f_channel f |}
  end.

Definition apply_model (syncMode : option SyncMode) (model : jsstr) (ratios : list (jsstr * Resolution))
    (f : Final) : Thrown + Final :=
  rfold (fun '(target, g) => apply_group model target (g_ratios g)) (group_ratios syncMode ratios) f.

(** The maps after the merge. *)
Definition build_final (syncMode : option SyncMode) (resolutions : Resolutions) : Thrown + Final :=
  f <~ initial_final b ;;
  rfold (fun '(model, ratios) => apply_model syncMode model ratios) resolutions f.
End Merge.

(** ** The requests of a save *)

Inductive Request :=
  | PutOption (key value : jsstr)
  | PutSupplierGlobal (body : list (jsstr * jsval))
  | PutSupplierChannel (channelId : jsstr) (body : list (jsstr * jsval)).

(** [JSON.stringify(a) !== JSON.stringify(b)] *)
Definition differ (a c : jsval) : bool := negb (bool_decide (JSON_stringify 0 a = JSON_stringify 0 c)).

(** [JSON.stringify(v, null, 2)] of an object *)
Definition pretty_text (v : jsval) : jsstr := default [] (JSON_stringify 2 v).

(** [finalRatios.K || {}] for the fields of the body, in order *)
Definition supplier_keys : list jsstr :=
  [js "ModelPrice"; js "ModelRatio"; js "CompletionRatio"; js "CacheRatio"; js "CreateCacheRatio";
   js "ModelTierRatio"; js "CompletionTierRatio"; js "CacheTierRatio"; js "CreateCacheTierRatio"].

(** The option writes for the keys whose map changed. *)
Definition option_updates (keys : list jsstr) (before after : list (jsstr * list (jsstr * jsval)))
    : list Request :=
  flat_map (fun key => if differ (map_at before key) (map_at after key)
                       then [PutOption key (pretty_text (map_at after key))] else []) keys.

(** [parseInt(s, 10)] *)
Definition parse_int (s : jsstr) : spec_float :=
  let s := drop_ws s in
  let '(neg, r) := match s with
                   | c :: r => if c =? 45 then (true, r) else if c =? 43 then (false, r) else (false, s)
                   | [] => (false, s)
                   end in
  match span_digits r with
  | ([], _) => nan
  | (d, _) => round_ratio neg (digits_val d) 1
  end.

Section Requests.
Context (options : Options) (b : Baseline) (f : Final).

Definition globalDirty : bool :=
  existsb (fun key => differ (map_at (b_global b) key) (map_at (f_ratios f) key)) GLOBAL_KEYS.

Definition supplier_global_update : list Request :=
  if globalDirty
  then [PutSupplierGlobal (map (fun k => (k, map_at (f_ratios f) k)) supplier_keys
        ++ map (fun k => (k, VObj (parseNestedOption (option_text options k))))
             [js "ImageRatio"; js "AudioRatio"; js "AudioCompletionRatio"])]
  else [].

(** The channels whose entry under [key] changed. *)
Definition changed_channels (key : jsstr) : list jsstr :=
  let before := map_at (b_channel b) key in
  let after := map_at (f_channel f) key in
  base.filter (fun idStr => differ (vget before idStr ||| VObj []) (vget after idStr ||| VObj []) = true)
    (dedup_by id [] (keys_of before ++ keys_of after)).

Definition channelIdsToSave : list jsstr :=
  dedup_by id [] (flat_map changed_channels CHANNEL_PRICING_OPTION_KEYS).

Definition supplier_channel_body (idStr : jsstr) : list (jsstr * jsval) :=
  map (fun k => (k, vget (map_at (f_channel f) (js "Channel" ++ k)) idStr ||| VObj [])) supplier_keys
  ++ map (fun '(optKey, payloadKey) =>
       (payloadKey, VObj (extractNestedChannelModelMap (option_text options optKey) idStr)))
       CHANNEL_EXTRA_OPTION_TO_PAYLOAD.

Definition supplier_channel_update (idStr : jsstr) : list Request :=
  let channelId := parse_int idStr in
  if negb (isFinite channelId) || nleb channelId n0 then []
  else [PutSupplierChannel (str_of_num channelId) (supplier_channel_body idStr)].

Definition updates (useSupplierPricingSave : bool) : list Request :=
  if useSupplierPricingSave
  then supplier_global_update ++ flat_map supplier_channel_update channelIdsToSave
  else option_updates GLOBAL_KEYS (b_global b) (f_ratios f)
       ++ option_updates CHANNEL_PRICING_OPTION_KEYS (b_channel b) (f_channel f).
End Requests.
