(* ===== verification/UpstreamMerge.v ===== *)
(** * What a synchronisation writes

    The merge of [performSync] as a map from locations (target, model, price
    field) to values: the ticked values and nothing else change, apart from
    the fields of the other billing category, which are removed. *)

From Stdlib Require Import SpecFloat.
From stdpp Require Import base list numbers strings.
From S2P Require Import Prelude JsNumber JsString JsValue JsJson JsReprint UpstreamSync.
Local Open Scope Z_scope.
Local Open Scope js_scope.

(** ** Folds that may throw *)

Lemma rbind_assoc {E A B C} (m : E + A) (f : A -> E + B) (g : B -> E + C) :
  rbind (rbind m f) g = rbind m (fun a => rbind (f a) g).
Proof. by destruct m. Qed.

Lemma rbind_ext {E A B} (m : E + A) (f g : A -> E + B) : (forall a, f a = g a) -> rbind m f = rbind m g.
Proof. destruct m; [done|]. intros X. apply X. Qed.

Lemma rfold_app {A B} (f : B -> A -> Thrown + A) l l' a :
  rfold f (l ++ l') a = (a' <~ rfold f l a ;; rfold f l' a').
Proof.
  revert a. induction l as [|x l IH]; intros a; [done|]. cbn. destruct (f x a); [done|]. apply IH.
Qed.

Lemma rfold_flat_map {A B C} (f : B -> A -> Thrown + A) (g : C -> list B) l a :
  rfold f (flat_map g l) a = rfold (fun c => rfold f (g c)) l a.
Proof.
  revert a. induction l as [|c l IH]; intros a; [done|]. cbn. rewrite rfold_app.
  destruct (rfold f (g c) a); [done|]. apply IH.
Qed.

Lemma rfold_map {A B C} (f : B -> A -> Thrown + A) (g : C -> B) l a :
  rfold f (map g l) a = rfold (fun c => f (g c)) l a.
Proof. revert a. induction l as [|c l IH]; intros a; [done|]. cbn. destruct (f (g c) a); [done|]. apply IH. Qed.

Lemma rfold_ext {A B} (f g : B -> A -> Thrown + A) l a :
  (forall x a, f x a = g x a) -> rfold f l a = rfold g l a.
Proof.
  intros E. revert a. induction l as [|x l IH]; intros a; [done|]. cbn. rewrite E.
  destruct (g x a); [done|]. apply IH.
Qed.

Lemma rfold_pure {A B} (f : B -> A -> A) l a : rfold (fun x a => inr (f x a)) l a = inr (fold_left (fun a x => f x a) l a).
Proof. revert a. induction l as [|x l IH]; intros a; [done|]. apply IH. Qed.

(** ** Locations *)

(** The value of field [k] of a model at a target. *)
Definition stored_at (f : Final) (target : Target) (k model : jsstr) : option jsval :=
  match target with
  | None => m ← assoc_get (f_ratios f) k; assoc_get m model
  | Some idStr =>
      m ← assoc_get (f_channel f) (js "Channel" ++ k);
      match assoc_get m idStr with Some (VObj o) => assoc_get o model | _ => None end
  end.

Definition delete_at (target : Target) (model k : jsstr) (f : Final) : Thrown + Final :=
  match target with
  | None => inr {| f_ratios := delete_global model k (f_ratios f); f_channel := f_channel f |}
  | Some idStr =>
      maps <~ delete_channel model idStr (js "Channel" ++ k) (f_channel f) ;;
      inr {| f_ratios := f_ratios f; f_channel := maps |}
  end.

Definition set_at (target : Target) (model k : jsstr) (v : jsval) (f : Final) : Thrown + Final :=
  match target with
  | None => inr {| f_ratios := set_global model k v (f_ratios f); f_channel := f_channel f |}
  | Some idStr =>
      maps <~ set_channel model idStr (js "Channel" ++ k) v (f_channel f) ;;
      inr {| f_ratios := f_ratios f; f_channel := maps |}
  end.

(** Every channel option is there and maps identifiers to objects. *)
Definition channels_ok (maps : list (jsstr * list (jsstr * jsval))) : Prop :=
  forall k, k ∈ GLOBAL_KEYS -> exists m, assoc_get maps (js "Channel" ++ k) = Some m /\
    forall idStr v, assoc_get m idStr = Some v -> exists o, v = VObj o.

(** A write to one location. *)
Definition writes (target : Target) (model k : jsstr) (new : option jsval) (step : Final -> Thrown + Final)
    : Prop :=
  forall f, channels_ok (f_channel f) -> exists f', step f = inr f' /\ channels_ok (f_channel f') /\
    forall target' k' model', k' ∈ GLOBAL_KEYS ->
      stored_at f' target' k' model'
      = if decide (target' = target /\ k' = k /\ model' = model) then new
        else stored_at f target' k' model'.

Ltac split_location := let L := fresh "L" in case_decide as L; [destruct L as (? & ? & ?)|].
Ltac elsewhere := rewrite decide_False by (intros (? & ? & ?); congruence).
Ltac here_or_not :=
  case_decide; subst; [by rewrite decide_True|by rewrite decide_False by (intros (? & ? & ?); congruence)].

Lemma channel_key_inj (k k' : jsstr) : js "Channel" ++ k = js "Channel" ++ k' -> k = k'.
Proof. apply (inj (js "Channel" ++.)). Qed.

Lemma delete_at_writes target model k : k ∈ GLOBAL_KEYS -> writes target model k None (delete_at target model k).
Proof.
  intros K f C. destruct target as [idStr|]; cbn [delete_at].
  - destruct (C k K) as (m & E & O). unfold delete_channel. rewrite E.
    destruct (assoc_get m idStr) as [v|] eqn:I; cbn [default from_option id].
    + destruct (O _ _ I) as [o ->]. cbn [rbind]. eexists. split; [reflexivity|]. split.
      * intros k' K'. destruct (C k' K') as (m' & E' & O'). cbn. rewrite assoc_get_set.
        case_decide as D; [|by exists m'].
        eexists. split; [reflexivity|]. intros i v. rewrite assoc_get_set.
        case_decide; [intros [= <-]; by eexists|apply O].
      * intros [i|] k' model' K'; cbn [stored_at f_ratios f_channel].
        2:{ elsewhere. done. }
        rewrite assoc_get_set. case_decide as D; cbn.
        -- apply channel_key_inj in D as ->. rewrite E. cbn. rewrite assoc_get_set.
           case_decide as D'; [subst|elsewhere; done].
           rewrite I, assoc_get_delete. here_or_not.
        -- rewrite decide_False; [done|]. intros (_ & -> & _). done.
    + cbn [truthy rbind]. eexists. split; [reflexivity|]. split; [done|].
      intros target' k' model' K'. split_location; [|by destruct f]. subst. cbn. rewrite E. cbn. by rewrite I.
  - eexists. split; [reflexivity|]. split; [done|].
    intros [i|] k' model' K'; cbn [stored_at f_ratios f_channel].
    { elsewhere. done. }
    unfold delete_global. destruct (assoc_get (f_ratios f) k) as [m|] eqn:E.
    + rewrite assoc_get_set. case_decide as D; cbn.
      * subst. rewrite E. cbn. rewrite assoc_get_delete. here_or_not.
      * elsewhere. done.
    + split_location; [subst; by rewrite E|done].
Qed.

Lemma set_at_writes target model k v : k ∈ GLOBAL_KEYS -> writes target model k (Some v) (set_at target model k v).
Proof.
  intros K f C. destruct target as [idStr|]; cbn [set_at].
  - destruct (C k K) as (m & E & O). unfold set_channel. rewrite E.
    set (o := match assoc_get m idStr with Some (VObj o) => o | _ => [] end).
    assert (match default VUndef (assoc_get m idStr) with
            | VObj o => inr (assoc_set (f_channel f) (js "Channel" ++ k) (assoc_set m idStr (VObj (assoc_set o model v))))
            | u => if truthy u then inl TypeError
                   else inr (assoc_set (f_channel f) (js "Channel" ++ k) (assoc_set m idStr (VObj [(model, v)])))
            end = inr (assoc_set (f_channel f) (js "Channel" ++ k) (assoc_set m idStr (VObj (assoc_set o model v))))) as ->.
    { subst o. destruct (assoc_get m idStr) as [u|] eqn:I; [|done]. by destruct (O _ _ I) as [o ->]. }
    cbn [rbind]. eexists. split; [reflexivity|]. split.
    + intros k' K'. destruct (C k' K') as (m' & E' & O'). cbn. rewrite assoc_get_set.
      case_decide as D; [|by exists m'].
      eexists. split; [reflexivity|]. intros i u. rewrite assoc_get_set.
      case_decide; [intros [= <-]; by eexists|apply O].
    + intros [i|] k' model' K'; cbn [stored_at f_ratios f_channel].
      2:{ elsewhere. done. }
      rewrite assoc_get_set. case_decide as D; cbn.
      * apply channel_key_inj in D as ->. rewrite E. cbn. rewrite assoc_get_set.
        case_decide as D'; [subst i|elsewhere; done].
        rewrite assoc_get_set. subst o. destruct (decide (model' = model)) as [->|Nm].
        -- by rewrite decide_True.
        -- elsewhere. destruct (assoc_get m idStr) as [[]|]; done.
      * rewrite decide_False; [done|]. intros (_ & -> & _). done.
  - eexists. split; [reflexivity|]. split; [done|].
    intros [i|] k' model' K'; cbn [stored_at f_ratios f_channel].
    { elsewhere. done. }
    unfold set_global. rewrite assoc_get_set. case_decide as D; cbn.
    + subst. rewrite assoc_get_set. destruct (decide (model' = model)) as [->|Nm]; [by rewrite decide_True|].
      elsewhere. by destruct (assoc_get (f_ratios f) k).
    + elsewhere. done.
Qed.

(** ** One group *)

(** The price fields the backend compares. *)
Definition RATIO_TYPES : list jsstr :=
  [js "model_ratio"; js "completion_ratio"; js "cache_ratio"; js "create_cache_ratio"; js "model_price";
   js "model_tier_ratio"; js "completion_tier_ratio"; js "cache_tier_ratio"; js "create_cache_tier_ratio"].

Section Merged.
Context `{Unicode}.

Lemma fields : map ratioTypeToPascal RATIO_TYPES = GLOBAL_KEYS.
Proof. vm_compute. reflexivity. Qed.

Lemma field_known rt : rt ∈ RATIO_TYPES -> ratioTypeToPascal rt ∈ GLOBAL_KEYS.
Proof. intros I. rewrite <- fields. by apply list_elem_of_fmap_2. Qed.

Lemma GLOBAL_KEYS_NoDup : NoDup GLOBAL_KEYS.
Proof. by apply (bool_decide_unpack _). Qed.

Lemma field_inj rt rt' : rt ∈ RATIO_TYPES -> rt' ∈ RATIO_TYPES ->
  ratioTypeToPascal rt = ratioTypeToPascal rt' -> rt = rt'.
Proof.
  intros [i I]%list_elem_of_lookup [j J]%list_elem_of_lookup E.
  pose proof (NoDup_lookup GLOBAL_KEYS i j (ratioTypeToPascal rt) GLOBAL_KEYS_NoDup) as U.
  rewrite <- fields in U. change (map ratioTypeToPascal) with (fmap (M := list) ratioTypeToPascal) in U.
  rewrite !list_lookup_fmap, I, J in U. cbn in U. rewrite E in U.
  destruct (U eq_refl eq_refl). congruence.
Qed.

(** The value ticked for a field. *)
Fixpoint ticked (r : list (jsstr * jsval)) (k : jsstr) : option jsval :=
  match r with
  | [] => None
  | (ratioType, value) :: rest =>
      if bool_decide (ratioTypeToPascal ratioType = k) then Some (stored_value ratioType value)
      else ticked rest k
  end.

(** The fields a merge removes: a ticked fixed price removes three ratios, and
    for a channel the cache creation ratio; a ticked ratio that is no tier
    removes the fixed price.  Tiers are never removed and remove nothing. *)
Definition removed (target : Target) (r : list (jsstr * jsval)) : list jsstr :=
  (if hasPrice r
   then [js "ModelRatio"; js "CompletionRatio"; js "CacheRatio"]
        ++ match target with Some _ => [js "CreateCacheRatio"] | None => [] end
   else [])
  ++ (if hasRatio r then [js "ModelPrice"] else []).

(** The value of a field after the values [r] of its target and model. *)
Definition merged (target : Target) (r : list (jsstr * jsval)) (k : jsstr) (old : option jsval)
    : option jsval :=
  match ticked r k with
  | Some v => Some v
  | None => if bool_decide (k ∈ removed target r) then None else old
  end.

Lemma deletes target model ks f : ks ⊆ GLOBAL_KEYS -> channels_ok (f_channel f) ->
  exists f', rfold (delete_at target model) ks f = inr f' /\ channels_ok (f_channel f') /\
    forall target' k' model', k' ∈ GLOBAL_KEYS ->
      stored_at f' target' k' model'
      = if decide (target' = target /\ k' ∈ ks /\ model' = model) then None
        else stored_at f target' k' model'.
Proof.
  revert f. induction ks as [|k ks IH]; intros f Ks C; cbn.
  - exists f. split_and!; [done|done|]. intros. rewrite decide_False; [done|]. by intros (_ & ?%not_elem_of_nil & _).
  - destruct (delete_at_writes target model k (Ks _ (list_elem_of_here _ _)) f C) as (f1 & -> & C1 & S1).
    destruct (IH f1) as (f' & E & C' & S'); [by intros x X; apply Ks; right|done|].
    exists f'. cbn. split_and!; [done|done|]. intros target' k' model' K'. rewrite S', S1 by done.
    split_location; [subst; symmetry; apply decide_True; split_and!; [done|by right|done]|].
    split_location; subst; [rewrite decide_True; [done|split_and!; [done|left|done]]|].
    rewrite decide_False; [done|]. intros (-> & [->|I]%elem_of_cons & ->); [by apply L0|by apply L].
Qed.

Lemma sets target model (r : list (jsstr * jsval)) f :
  NoDup (map fst r) -> map fst r ⊆ RATIO_TYPES -> channels_ok (f_channel f) ->
  exists f', rfold (fun '(rt, v) => set_at target model (ratioTypeToPascal rt) (stored_value rt v)) r f = inr f' /\
    channels_ok (f_channel f') /\
    forall target' k' model', k' ∈ GLOBAL_KEYS ->
      stored_at f' target' k' model'
      = if decide (target' = target /\ model' = model)
        then match ticked r k' with Some v => Some v | None => stored_at f target' k' model' end
        else stored_at f target' k' model'.
Proof.
  revert f. induction r as [|[rt v] r IH]; intros f N R C; cbn [rfold].
  - exists f. split_and!; [done|done|]. intros. by destruct (decide _).
  - cbn in N, R. apply NoDup_cons in N as [Nr N].
    assert (Rt : rt ∈ RATIO_TYPES) by (apply R; left).
    assert (R' : map fst r ⊆ RATIO_TYPES) by (intros x X; apply R; by right).
    destruct (set_at_writes target model (ratioTypeToPascal rt) (stored_value rt v) (field_known _ Rt) f C)
      as (f1 & -> & C1 & S1).
    destruct (IH f1 N R' C1) as (f' & E & C' & S'). exists f'. cbn [rbind]. split_and!; [done|done|].
    intros target' k' model' K'. rewrite S' by done. cbn [ticked].
    destruct (decide (target' = target /\ model' = model)) as [[-> ->]|D].
    + case_bool_decide as B.
      * assert (ticked r k' = None) as ->; [|by rewrite S1, decide_True by done].
        clear -B Nr R' Rt. induction r as [|[rt' w] r IH]; [done|]. cbn in *.
        apply not_elem_of_cons in Nr as [Ne Nr].
        assert (ratioTypeToPascal rt' <> k').
        { intros Ek. apply Ne, field_inj; [done|apply R'; left|congruence]. }
        rewrite bool_decide_false by done. apply IH; [done|]. intros x X. apply R'. by right.
      * destruct (ticked r k'); [done|]. rewrite S1 by done. by elsewhere.
    + rewrite S1 by done. rewrite decide_False; [done|]. intros (? & _ & ?). by apply D.
Qed.

Lemma rfold_channel {B} (g : B -> list (jsstr * list (jsstr * jsval)) -> Thrown + list (jsstr * list (jsstr * jsval)))
    l f :
  rfold (fun x f => maps <~ g x (f_channel f) ;; inr {| f_ratios := f_ratios f; f_channel := maps |}) l f
  = (maps <~ rfold g l (f_channel f) ;; inr {| f_ratios := f_ratios f; f_channel := maps |}).
Proof.
  revert f. induction l as [|x l IH]; intros f; [by destruct f|]. cbn.
  destruct (g x (f_channel f)); [done|]. cbn. by rewrite IH.
Qed.

Lemma channel_deletes model idStr l maps :
  rfold (fun k => delete_channel model idStr (js "Channel" ++ k)) l maps
  = rfold (delete_channel model idStr) (map (js "Channel" ++.) l) maps.
Proof. symmetry. apply rfold_map. Qed.

Lemma if_map {A B} (b : bool) (f : A -> B) l : map f (if b then l else []) = if b then map f l else [].
Proof. by destruct b. Qed.

Lemma apply_channel_eq model idStr r maps :
  apply_channel model idStr r maps
  = (maps <~ rfold (fun k => delete_channel model idStr (js "Channel" ++ k)) (removed (Some idStr) r) maps ;;
     rfold (fun '(rt, v) => set_channel model idStr (js "Channel" ++ ratioTypeToPascal rt) (stored_value rt v))
       r maps).
Proof.
  rewrite channel_deletes. unfold apply_channel, removed. rewrite map_app, rfold_app, rbind_assoc.
  assert (forall l, (if hasPrice r then rfold (delete_channel model idStr) l maps else inr maps)
    = rfold (delete_channel model idStr) (if hasPrice r then l else []) maps) as -> by (by destruct (hasPrice r)).
  rewrite (if_map (hasPrice r)). apply rbind_ext. intros maps'. destruct (hasRatio r); [|done]. cbn [map rfold].
  change (js "Channel" ++ js "ModelPrice") with (js "ChannelModelPrice").
  by destruct (delete_channel model idStr (js "ChannelModelPrice") maps').
Qed.

Lemma apply_global_eq model r maps :
  apply_global model r maps
  = fold_left (fun m '(rt, v) => set_global model (ratioTypeToPascal rt) (stored_value rt v) m) r
      (fold_left (fun m k => delete_global model k m) (removed None r) maps).
Proof. unfold apply_global, removed. rewrite fold_left_app. by destruct (hasPrice r), (hasRatio r). Qed.

Lemma rfold_global {B} (g : B -> list (jsstr * list (jsstr * jsval)) -> list (jsstr * list (jsstr * jsval))) l f :
  rfold (fun x f => inr {| f_ratios := g x (f_ratios f); f_channel := f_channel f |}) l f
  = inr {| f_ratios := fold_left (fun m x => g x m) l (f_ratios f); f_channel := f_channel f |}.
Proof. revert f. induction l as [|x l IH]; intros f; [by destruct f|]. cbn. by rewrite IH. Qed.

(** A group deletes the removed fields and then sets the ticked ones. *)
Lemma apply_group_eq b model target raw f :
  apply_group b model target raw f
  = (f1 <~ rfold (delete_at target model) (removed target (normalizeRatioSelection b model target raw)) f ;;
     rfold (fun '(rt, v) => set_at target model (ratioTypeToPascal rt) (stored_value rt v))
       (normalizeRatioSelection b model target raw) f1).
Proof.
  unfold apply_group. set (r := normalizeRatioSelection b model target raw).
  destruct target as [idStr|].
  - rewrite apply_channel_eq, rbind_assoc.
    pose proof (rfold_channel (fun k => delete_channel model idStr (js "Channel" ++ k))
      (removed (Some idStr) r) f) as D. cbn beta in D.
    change (rfold (delete_at (Some idStr) model) (removed (Some idStr) r) f) with
      (rfold (fun k f => maps <~ delete_channel model idStr (js "Channel" ++ k) (f_channel f) ;;
         inr {| f_ratios := f_ratios f; f_channel := maps |}) (removed (Some idStr) r) f).
    rewrite D. destruct (rfold _ _ (f_channel f)) as [e|maps]; [done|]. cbn [rbind].
    rewrite <- (rfold_channel (fun '(rt, v) => set_channel model idStr (js "Channel" ++ ratioTypeToPascal rt)
      (stored_value rt v)) r {| f_ratios := f_ratios f; f_channel := maps |}).
    apply rfold_ext. by intros [rt v] a.
  - rewrite apply_global_eq.
    change (rfold (delete_at None model) (removed None r) f) with
      (rfold (fun k f => @inr Thrown _ {| f_ratios := delete_global model k (f_ratios f); f_channel := f_channel f |})
         (removed None r) f).
    rewrite (rfold_global (delete_global model)). cbn [rbind].
    rewrite (rfold_ext _ (fun x f => inr {| f_ratios := (fun '(rt, v) m => set_global model (ratioTypeToPascal rt)
      (stored_value rt v) m) x (f_ratios f); f_channel := f_channel f |})) by (by intros [rt v] a).
    rewrite (rfold_global (fun '(rt, v) m => set_global model (ratioTypeToPascal rt) (stored_value rt v) m)).
    cbn [f_ratios f_channel]. do 2 f_equal. clear. generalize (fold_left (fun m k => delete_global model k m)
      (removed None r) (f_ratios f)). induction r as [|[rt v] r IH]; intros m; [done|]. apply IH.
Qed.

(** Normalising changes values only. *)
Lemma assoc_set_keys (o : list (jsstr * jsval)) k v : is_defined (vget (VObj o) k) = true ->
  map fst (assoc_set o k v) = map fst o.
Proof.
  cbn. unfold assoc_set. destruct (assoc_get o k); [intros _; apply assoc_replace_keys|done].
Qed.

Lemma toFiniteNumber_defined v x : toFiniteNumber v = Some x -> is_defined v = true.
Proof. by destruct v. Qed.

Lemma normalize_keys b model target raw :
  map fst (normalizeRatioSelection b model target raw) = map fst raw.
Proof.
  unfold normalizeRatioSelection. destruct (normalize_model_ratio b model target raw) as [r eff] eqn:E.
  assert (map fst r = map fst raw) as <-.
  { unfold normalize_model_ratio in E. destruct (toFiniteNumber _) as [x|] eqn:T; [|by simplify_eq].
    destruct (ratioToDisplayPrice _); [|by simplify_eq]. injection E as <- _.
    eapply assoc_set_keys, toFiniteNumber_defined, T. }
  destruct (toFiniteNumber (vget (VObj r) _)) as [x|] eqn:T; [|done]. apply toFiniteNumber_defined in T.
  repeat case_match; first [done|by apply assoc_set_keys].
Qed.

Lemma removed_known target r : removed target r ⊆ GLOBAL_KEYS.
Proof.
  assert (K : forall k, k ∈ [js "ModelRatio"; js "CompletionRatio"; js "CacheRatio"; js "CreateCacheRatio";
    js "ModelPrice"] -> k ∈ GLOBAL_KEYS).
  { intros k I. apply list_elem_of_In in I. cbn in I.
    repeat (destruct I as [<-|I]; [by apply (bool_decide_unpack _)|]). done. }
  intros k I. apply K. unfold removed in I.
  destruct (hasPrice r), (hasRatio r), target; cbn in I; apply list_elem_of_In in I; apply list_elem_of_In;
    cbn in *; tauto.
Qed.

Lemma apply_group_spec b model target raw f :
  NoDup (map fst raw) -> map fst raw ⊆ RATIO_TYPES -> channels_ok (f_channel f) ->
  exists f', apply_group b model target raw f = inr f' /\ channels_ok (f_channel f') /\
    forall target' k model', k ∈ GLOBAL_KEYS ->
      stored_at f' target' k model'
      = if decide ((target', model') = (target, model))
        then merged target (normalizeRatioSelection b model target raw) k (stored_at f target' k model')
        else stored_at f target' k model'.
Proof.
  intros N R C. rewrite apply_group_eq. rewrite <- (normalize_keys b model target) in N, R.
  set (r := normalizeRatioSelection b model target raw) in *.
  destruct (deletes target model (removed target r) f (removed_known _ _) C) as (f1 & -> & C1 & S1).
  destruct (sets target model r f1 N R C1) as (f' & E & C' & S'). exists f'. cbn [rbind].
  split_and!; [done|done|]. intros target' k model' K. rewrite S', S1 by done.
  destruct (decide (target' = target /\ model' = model)) as [[-> ->]|D].
  - rewrite (decide_True (P := (target, model) = (target, model))) by done. unfold merged.
    destruct (ticked r k); [done|]. case_bool_decide; [by rewrite decide_True|by rewrite decide_False by tauto].
  - rewrite !decide_False; [done|..]; [intros [= -> ->]|intros (-> & _ & ->)]; by apply D.
Qed.

(** ** All groups *)

Definition all_groups (syncMode : option SyncMode) (resolutions : Resolutions)
    : list (Target * jsstr * list (jsstr * jsval)) :=
  flat_map (fun '(model, ratios) =>
    map (fun '(target, g) => (target, model, g_ratios g)) (group_ratios syncMode ratios)) resolutions.

(** The values ticked for a model and a target. *)
Definition ticked_values (syncMode : option SyncMode) (resolutions : Resolutions) (target : Target)
    (model : jsstr) : list (jsstr * jsval) :=
  match list_find (fun x => x.1 = (target, model)) (all_groups syncMode resolutions) with
  | Some (_, (_, r)) => r
  | None => []
  end.

Definition group_ok (g : Group) : Prop :=
  canonical_keys (map fst (g_ratios g)) /\ Forall (fun kv => fst kv ∈ RATIO_TYPES) (g_ratios g).

Lemma add_to_group_ok rt v src g : rt ∈ RATIO_TYPES -> group_ok g -> group_ok (add_to_group rt v src g).
Proof. intros R [C F]. split; cbn; [by apply assoc_set_canonical|by apply assoc_set_Forall]. Qed.

Lemma add_to_groups_targets target add gs t :
  t ∈ map fst (add_to_groups target add gs) -> t = target \/ t ∈ map fst gs.
Proof.
  induction gs as [|[t' g] gs IH]; cbn.
  - intros ->%list_elem_of_singleton. by left.
  - case_bool_decide; cbn; [by right|]. intros [->|I]%elem_of_cons; [right; left|].
    destruct (IH I); [by left|right; by right].
Qed.

Lemma add_to_groups_ok target add gs : (forall g, group_ok g -> group_ok (add g)) ->
  NoDup (map fst gs) -> Forall (fun x => group_ok (snd x)) gs ->
  NoDup (map fst (add_to_groups target add gs)) /\
  Forall (fun x => group_ok (snd x)) (add_to_groups target add gs).
Proof.
  intros A N F. induction gs as [|[t g] gs IH]; cbn.
  - split; [apply NoDup_singleton|]. constructor; [|constructor]. apply A. split; constructor.
  - cbn in N. apply NoDup_cons in N as [Nt N]. apply Forall_cons in F as [G F].
    destruct (IH N F) as [N' F']. case_bool_decide as B; cbn.
    + split; [by constructor|]. constructor; [by apply A|done].
    + split; [|by constructor]. constructor; [|done]. intros [->|I]%add_to_groups_targets; done.
Qed.

Lemma group_ratios_ok syncMode ratios :
  Forall (fun x => resolved_type x.1 x.2 ∈ RATIO_TYPES) ratios ->
  NoDup (map fst (group_ratios syncMode ratios)) /\
  Forall (fun x => group_ok (snd x)) (group_ratios syncMode ratios).
Proof.
  intros R. unfold group_ratios.
  assert (G : forall gs, NoDup (map fst gs) -> Forall (fun x => group_ok (snd x)) gs ->
    let gs' := fold_left (fun groups '(resKey, res) =>
      let src := resolved_source resKey res in
      add_to_groups (target_of syncMode src) (add_to_group (resolved_type resKey res) (r_value res) src)
        groups) ratios gs in
    NoDup (map fst gs') /\ Forall (fun x => group_ok (snd x)) gs'); [|apply G; constructor].
  induction R as [|[k res] ratios Rt R IH]; intros gs N F; [done|]. cbn [fold_left].
  edestruct add_to_groups_ok as [N' F']; [|exact N|exact F|]; [|by apply IH].
  intros g. by apply add_to_group_ok.
Qed.

(** The ticked values name known fields and every model once. *)
Definition resolutions_ok (resolutions : Resolutions) : Prop :=
  NoDup (map fst resolutions) /\
  Forall (fun x => Forall (fun y => resolved_type y.1 y.2 ∈ RATIO_TYPES) (snd x)) resolutions.

Lemma all_groups_ok syncMode resolutions : resolutions_ok resolutions ->
  NoDup (map fst (all_groups syncMode resolutions)) /\
  Forall (fun x => NoDup (map fst x.2) /\ map fst x.2 ⊆ RATIO_TYPES) (all_groups syncMode resolutions).
Proof.
  intros [N R]. unfold all_groups. induction R as [|[model ratios] rs Rt R IH]; [split; constructor|].
  cbn in N. apply NoDup_cons in N as [Nm N]. destruct (IH N) as [N1 F1]. cbn [flat_map].
  destruct (group_ratios_ok syncMode ratios Rt) as [Ng Fg]. split.
  - rewrite map_app. apply NoDup_app. split_and!; [| |done].
    + rewrite map_map. rewrite (map_ext _ (fun x => (x.1, model))) by (by intros []).
      rewrite <- (map_map fst (fun t => (t, model))). apply NoDup_fmap_2; [|done]. by intros ?? [= ->].
    + intros [t m] I J. apply list_elem_of_fmap in I as ([[t' m'] r] & [= -> ->] & I).
      apply list_elem_of_fmap in I as ([t'' g] & [= -> -> ->] & _).
      apply list_elem_of_fmap in J as ([[t2 m2] r2] & [= -> ->] & J).
      apply list_elem_of_In, in_flat_map in J as ([m3 ratios3] & J & J3).
      apply in_map_iff in J3 as ([t4 g4] & [= -> -> <-] & _). destruct Nm.
      apply list_elem_of_fmap. exists (m2, ratios3). split; [done|]. by apply list_elem_of_In.
  - apply Forall_app. split; [|done]. apply Forall_map. eapply Forall_impl; [exact Fg|].
    intros [t g] [C F]. split; [by apply canonical_NoDup|]. intros x I.
    apply list_elem_of_fmap in I as (kv & -> & I). rewrite Forall_forall in F. by apply F.
Qed.

(** Groups write to different locations, so each acts on the stored value. *)
Lemma groups_independent b (groups : list (Target * jsstr * list (jsstr * jsval))) f :
  NoDup (map fst groups) ->
  Forall (fun x => NoDup (map fst x.2) /\ map fst x.2 ⊆ RATIO_TYPES) groups ->
  channels_ok (f_channel f) ->
  exists f', rfold (fun '(target, model, raw) => apply_group b model target raw) groups f = inr f' /\
    channels_ok (f_channel f') /\
    forall target k model, k ∈ GLOBAL_KEYS ->
      stored_at f' target k model
      = match list_find (fun x => x.1 = (target, model)) groups with
        | Some (_, (_, raw)) =>
            merged target (normalizeRatioSelection b model target raw) k (stored_at f target k model)
        | None => stored_at f target k model
        end.
Proof.
  revert f. induction groups as [|[[t m] raw] gs IH]; intros f N F C; [by exists f|].
  cbn in N. apply NoDup_cons in N as [Nt N]. apply Forall_cons in F as [[Nr R] F]. cbn in Nr, R.
  destruct (apply_group_spec b m t raw f Nr R C) as (f1 & E1 & C1 & S1). cbn [rfold]. rewrite E1. cbn [rbind].
  destruct (IH f1 N F C1) as (f' & E' & C' & S'). exists f'. split_and!; [done|done|].
  intros target k model K. rewrite S' by done. cbn [list_find fst].
  destruct (decide ((t, m) = (target, model))) as [[= -> ->]|D].
  - destruct (list_find _ gs) as [[j [l r]]|] eqn:L.
    + apply list_find_Some in L as (L & Lx & _). cbn in Lx. subst. destruct Nt.
      apply list_elem_of_fmap. eexists. split; [|by eapply list_elem_of_lookup_2]. done.
    + rewrite S1 by done. by rewrite decide_True.
  - rewrite S1 by done. rewrite decide_False by congruence.
    by destruct (list_find _ gs) as [[j [l r]]|].
Qed.

Lemma normalize_nil b model target : normalizeRatioSelection b model target [] = [].
Proof. done. Qed.

Lemma build_final_eq b syncMode resolutions :
  build_final b syncMode resolutions
  = (f <~ initial_final b ;;
     rfold (fun '(target, model, raw) => apply_group b model target raw) (all_groups syncMode resolutions) f).
Proof.
  unfold build_final, all_groups. apply rbind_ext. intros f. rewrite rfold_flat_map. apply rfold_ext.
  intros [model ratios] a. unfold apply_model. rewrite rfold_map. apply rfold_ext. by intros [target g] a'.
Qed.

(** ** The stored options *)

(** The channel options hold JSON objects of objects. *)
Definition channel_options_ok (options : Options) : Prop :=
  Forall (fun k => let m := parseNestedOption (option_text options k) in
    json_ok (VObj m) /\ Forall (fun kv => exists o, snd kv = VObj o) m) CHANNEL_PRICING_OPTION_KEYS.

Lemma cloneDeep_id v : json_ok v -> cloneDeep v = Some v.
Proof. intros O. unfold cloneDeep. by destruct (JSON_parse_stringify 0 v O) as (text & -> & ->). Qed.

Definition stored_baseline (b : Baseline) : Final := {| f_ratios := b_global b; f_channel := b_channel b |}.

Lemma initial_final_ok options : channel_options_ok options ->
  initial_final (buildPricingBaseline options) = inr (stored_baseline (buildPricingBaseline options)).
Proof.
  intros O. unfold initial_final, stored_baseline.
  assert (rmap (fun '(k, m) => match cloneDeep (VObj m) with Some (VObj m') => inr (k, m') | _ => inl TypeError end)
    (b_channel (buildPricingBaseline options)) = inr (b_channel (buildPricingBaseline options))) as ->; [|done].
  apply rmap_inr. cbn [b_channel buildPricingBaseline]. unfold channel_options_ok in O.
  induction O as [|k ks [J _] O IH]; constructor; [by rewrite cloneDeep_id|done].
Qed.

Lemma assoc_get_tabulate {A} (F : jsstr -> A) ks k : k ∈ ks -> assoc_get (map (fun k => (k, F k)) ks) k = Some (F k).
Proof.
  induction ks as [|k' ks IH]; [by intros ?%not_elem_of_nil|]. cbn. intros [->|I]%elem_of_cons.
  - by rewrite bool_decide_true.
  - case_bool_decide; [by subst|]. by apply IH.
Qed.

Lemma channel_key_known k : k ∈ GLOBAL_KEYS -> js "Channel" ++ k ∈ CHANNEL_PRICING_OPTION_KEYS.
Proof.
  intros I. assert (map (js "Channel" ++.) GLOBAL_KEYS ⊆ CHANNEL_PRICING_OPTION_KEYS) as S.
  { apply (bool_decide_unpack _). vm_compute. exact Logic.I. }
  apply S. by apply list_elem_of_fmap_2.
Qed.

Lemma baseline_channels_ok options : channel_options_ok options ->
  channels_ok (b_channel (buildPricingBaseline options)).
Proof.
  intros O k K. pose proof (channel_key_known k K) as I. cbn [b_channel buildPricingBaseline].
  rewrite assoc_get_tabulate by done. eexists. split; [reflexivity|]. intros idStr v E%assoc_get_Some_In.
  unfold channel_options_ok in O. rewrite Forall_forall in O. destruct (O _ I) as [_ F].
  rewrite Forall_forall in F. by apply (F (idStr, v)).
Qed.

(** The merge never throws and acts on every location by itself. *)
Lemma build_final_spec options syncMode resolutions :
  channel_options_ok options -> resolutions_ok resolutions ->
  let b := buildPricingBaseline options in
  exists f, build_final b syncMode resolutions = inr f /\
    forall target k model, k ∈ GLOBAL_KEYS ->
      stored_at f target k model
      = merged target
          (normalizeRatioSelection b model target (ticked_values syncMode resolutions target model))
          k (stored_at (stored_baseline b) target k model).
Proof.
  intros O R b. rewrite build_final_eq. unfold b. rewrite initial_final_ok by done. cbn [rbind]. fold b.
  destruct (all_groups_ok syncMode resolutions R) as [N F].
  destruct (groups_independent b (all_groups syncMode resolutions) (stored_baseline b) N F)
    as (f & E & _ & S); [by apply baseline_channels_ok|].
  exists f. split; [exact E|]. intros target k model K. rewrite S by done. unfold ticked_values.
  destruct (list_find _ _) as [[j [l raw]]|]; [done|]. by rewrite normalize_nil.
Qed.

(** ** Ticked values *)

Lemma ticked_In r rt v : NoDup (map fst r) -> map fst r ⊆ RATIO_TYPES -> (rt, v) ∈ r ->
  ticked r (ratioTypeToPascal rt) = Some (stored_value rt v).
Proof.
  intros N R I. induction r as [|[rt' v'] r IH]; [by apply not_elem_of_nil in I|]. cbn in *.
  apply NoDup_cons in N as [Nr N]. assert (R' : map fst r ⊆ RATIO_TYPES) by (intros x X; apply R; by right).
  apply elem_of_cons in I as [[= -> ->]|I]; [by rewrite bool_decide_true|].
  assert (rt ∈ map fst r) by (apply list_elem_of_fmap; by exists (rt, v)).
  rewrite bool_decide_false; [by apply IH|]. intros E%field_inj; [by subst|apply R; left|by apply R'].
Qed.

Lemma ticked_None r k : (forall rt, rt ∈ map fst r -> ratioTypeToPascal rt <> k) -> ticked r k = None.
Proof.
  induction r as [|[rt v] r IH]; [done|]. cbn. intros N. rewrite bool_decide_false by (apply N; left).
  apply IH. intros rt' I. apply N. by right.
Qed.

Lemma ticked_values_ok syncMode resolutions target model : resolutions_ok resolutions ->
  NoDup (map fst (ticked_values syncMode resolutions target model)) /\
  map fst (ticked_values syncMode resolutions target model) ⊆ RATIO_TYPES.
Proof.
  intros [_ F]%(all_groups_ok syncMode). unfold ticked_values.
  destruct (list_find _ _) as [[j [l raw]]|] eqn:L; [|split; [constructor|by intros x ?%not_elem_of_nil]].
  apply list_find_Some in L as (L & _ & _). rewrite Forall_forall in F.
  by apply (F (l, raw)), list_elem_of_lookup_2 with j.
Qed.

(** C18. What a synchronisation changes, when the stored channel options are
    objects of objects and the ticks name known fields.  The merge does not
    throw; afterwards each ticked field of a model, at its channel or in the
    global options, holds the stored form of its value.  A ticked fixed price
    removes ModelRatio, CompletionRatio and CacheRatio (for a channel
    CreateCacheRatio too), a ticked ratio that is no tier removes ModelPrice
    ([removed]); every other field, in particular the tiers, and every field of
    models and channels where nothing was ticked, holds what it held. *)
Theorem sync_writes_exact options syncMode resolutions :
  channel_options_ok options -> resolutions_ok resolutions ->
  let b := buildPricingBaseline options in
  exists f, build_final b syncMode resolutions = inr f /\
    forall target model,
      let r := normalizeRatioSelection b model target (ticked_values syncMode resolutions target model) in
      map fst r = map fst (ticked_values syncMode resolutions target model) /\
      (forall ratioType value, (ratioType, value) ∈ r ->
         stored_at f target (ratioTypeToPascal ratioType) model = Some (stored_value ratioType value)) /\
      (forall k, k ∈ GLOBAL_KEYS ->
         (forall ratioType, ratioType ∈ map fst r -> ratioTypeToPascal ratioType <> k) ->
         stored_at f target k model
         = if bool_decide (k ∈ removed target r) then None
           else stored_at (stored_baseline b) target k model).
Proof.
  intros O R b. destruct (build_final_spec options syncMode resolutions O R) as (f & E & S). fold b in E, S.
  exists f. split; [exact E|]. intros target model r.
  destruct (ticked_values_ok syncMode resolutions target model R) as [N K].
  pose proof (normalize_keys b model target (ticked_values syncMode resolutions target model)) as Ks.
  fold r in Ks. rewrite <- Ks in N, K. split_and!; [done| |].
  - intros rt v I. assert (rt ∈ RATIO_TYPES) by (apply K, list_elem_of_fmap; by exists (rt, v)).
    rewrite S by by apply field_known. unfold merged. fold r. by rewrite (ticked_In r rt v).
  - intros k Kk N'. rewrite S by done. unfold merged. fold r. by rewrite ticked_None.
Qed.
End Merged.
