(* ===== verification/UpstreamSave.v ===== *)
(** * Saving a synchronisation and reading it back

    The option requests of [performSync], what the page shows after them, the
    channel a column stands for, and a conflict that is announced but not
    resolved. *)

From Stdlib Require Import SpecFloat.
From stdpp Require Import base list numbers strings.
From S2P Require Import Prelude JsNumber JsString JsValue JsJson JsReprint UpstreamSync UpstreamMerge.
Local Open Scope Z_scope.
Local Open Scope js_scope.

(** ** Maps that JSON can hold *)

Lemma json_ok_assoc_delete o k : json_ok (VObj o) -> json_ok (VObj (assoc_delete o k)).
Proof.
  rewrite !json_ok_obj. intros [C F]. split; [by apply assoc_delete_canonical|by apply assoc_delete_Forall].
Qed.

Lemma json_ok_assoc_get o k v : json_ok (VObj o) -> assoc_get o k = Some v -> json_ok v.
Proof.
  rewrite json_ok_obj. intros [_ F] I%assoc_get_Some_In. rewrite Forall_forall in F.
  by destruct (F _ I).
Qed.

Lemma json_ok_nil : json_ok (VObj []).
Proof. by split; [constructor|]. Qed.

Create HintDb json discriminated.
#[export] Hint Resolve json_ok_assoc_set json_ok_assoc_delete json_ok_assoc_get json_ok_nil : json.

Definition maps_ok (maps : list (jsstr * list (jsstr * jsval))) : Prop :=
  forall k m, assoc_get maps k = Some m -> json_ok (VObj m).

Lemma maps_ok_set maps k m : maps_ok maps -> json_ok (VObj m) -> maps_ok (assoc_set maps k m).
Proof. intros M J k' m'. rewrite assoc_get_set. case_decide; [by intros [= <-]|apply M]. Qed.

Lemma assoc_set_same_keys {A} (o : list (jsstr * A)) k v : is_Some (assoc_get o k) ->
  map fst (assoc_set o k v) = map fst o.
Proof. intros [w E]. unfold assoc_set. rewrite E. apply assoc_replace_keys. Qed.

Lemma assoc_get_known {A} (o : list (jsstr * A)) k : k ∈ map fst o -> is_Some (assoc_get o k).
Proof.
  intros I. destruct (assoc_get o k) eqn:E; [done|]. by apply assoc_get_None_fresh in E.
Qed.

(** The maps of a save: the known options, each a JSON object. *)
Record final_ok (f : Final) : Prop := {
  ratios_keys : map fst (f_ratios f) = GLOBAL_KEYS;
  channel_keys : map fst (f_channel f) = CHANNEL_PRICING_OPTION_KEYS;
  ratios_json : maps_ok (f_ratios f);
  channel_json : maps_ok (f_channel f)
}.

Definition target_ok (target : Target) : Prop := match target with Some idStr => str_ok idStr | None => True end.

(** The three ways a step changes the maps. *)
Lemma final_ok_ratios f k m : final_ok f -> k ∈ GLOBAL_KEYS -> json_ok (VObj m) ->
  final_ok {| f_ratios := assoc_set (f_ratios f) k m; f_channel := f_channel f |}.
Proof.
  intros [R C J Jc] K M. constructor; cbn [f_ratios f_channel];
    [|exact C|by apply maps_ok_set|exact Jc].
  rewrite assoc_set_same_keys; [exact R|]. apply assoc_get_known. rewrite R. exact K.
Qed.

Lemma final_ok_channel f k m : final_ok f -> js "Channel" ++ k ∈ CHANNEL_PRICING_OPTION_KEYS -> json_ok (VObj m) ->
  final_ok {| f_ratios := f_ratios f; f_channel := assoc_set (f_channel f) (js "Channel" ++ k) m |}.
Proof.
  intros [R C J Jc] K M. constructor; cbn [f_ratios f_channel];
    [exact R| |exact J|by apply maps_ok_set].
  rewrite assoc_set_same_keys; [exact C|]. apply assoc_get_known. rewrite C. exact K.
Qed.

Lemma delete_at_final target model k f f' : final_ok f -> target_ok target -> k ∈ GLOBAL_KEYS ->
  delete_at target model k f = inr f' -> final_ok f'.
Proof.
  intros F T K. pose proof (channel_key_known k K) as Kc. destruct target as [idStr|]; cbn [delete_at].
  - unfold delete_channel. destruct (assoc_get (f_channel f) _) as [m|] eqn:E; [|done].
    assert (J : json_ok (VObj m)) by by eapply (channel_json f).
    destruct (assoc_get m idStr) as [[]|] eqn:I; cbn; repeat case_match; try done; intros [= <-];
      try (by destruct f); apply final_ok_channel; eauto with json.
  - intros [= <-]. unfold delete_global. destruct (assoc_get (f_ratios f) k) as [m|] eqn:E; [|by destruct f].
    assert (J : json_ok (VObj m)) by by eapply (ratios_json f). apply final_ok_ratios; [exact F|exact K|auto with json nocore].
Qed.

Lemma set_at_final target model k v f f' : final_ok f -> target_ok target -> k ∈ GLOBAL_KEYS ->
  str_ok model -> json_ok v -> set_at target model k v f = inr f' -> final_ok f'.
Proof.
  intros F T K M V. pose proof (channel_key_known k K) as Kc.
  assert (J1 : json_ok (VObj [(model, v)])) by (apply (json_ok_assoc_set [] model v); eauto with json).
  destruct target as [idStr|]; cbn [set_at].
  - unfold set_channel. destruct (assoc_get (f_channel f) _) as [m|] eqn:E; [|done].
    assert (J : json_ok (VObj m)) by by eapply (channel_json f).
    destruct (assoc_get m idStr) as [[]|] eqn:I; cbn; repeat case_match; try done; intros [= <-];
      apply final_ok_channel; eauto 6 with json.
  - intros [= <-]. apply final_ok_ratios; [exact F|exact K|]. apply json_ok_assoc_set; [|done|done].
    destruct (assoc_get (f_ratios f) k) as [m|] eqn:E; [by eapply (ratios_json f)|apply json_ok_nil].
Qed.

Lemma rfold_inv {A B} (P : A -> Prop) (f : B -> A -> Thrown + A) l a a' :
  (forall x a a', x ∈ l -> P a -> f x a = inr a' -> P a') -> P a -> rfold f l a = inr a' -> P a'.
Proof.
  revert a. induction l as [|x l IH]; intros a S Pa; cbn; [by intros [= <-]|].
  destruct (f x a) as [e|a1] eqn:E; [done|]. cbn. apply IH; [|by eapply S; [left|..]].
  intros y b b' I. apply S. by right.
Qed.

Section Save.
Context `{Unicode}.

(** ** Targets *)

Lemma number_char_unit c : number_char c = true -> code_unit c.
Proof. unfold number_char, is_digit, code_unit. lia. Qed.

Lemma str_of_num_ok x : valid x -> str_ok (str_of_num x).
Proof.
  intros V. destruct (isFinite x) eqn:F.
  - destruct (str_of_num_token x V F) as (_ & N & _). eapply Forall_impl; [exact N|apply number_char_unit].
  - destruct x as [|[]| |]; try done; apply js_literal_ok; vm_compute; reflexivity.
Qed.

Lemma target_of_ok syncMode src : target_ok (target_of syncMode src).
Proof.
  unfold target_of. destruct (is_channel syncMode); [|done].
  unfold parseUpstreamListChannelId. destruct (match_upstream_id _) as [z|]; cbn; [|done].
  case_match; [apply str_of_num_ok, num_of_Z_valid|done].
Qed.

Lemma group_targets_ok syncMode ratios : Forall (fun x => target_ok x.1) (group_ratios syncMode ratios).
Proof.
  assert (A : forall target add (gs : list (Target * Group)), target_ok target ->
    Forall (fun x => target_ok x.1) gs -> Forall (fun x => target_ok x.1) (add_to_groups target add gs)).
  { intros target add gs T F. induction F as [|[t g] gs G F IH]; cbn; [by constructor|].
    case_bool_decide; by constructor. }
  unfold group_ratios. assert (N : Forall (fun x : Target * Group => target_ok x.1) []) by constructor.
  revert N. generalize (@nil (Target * Group)). induction ratios as [|[k res] ratios IH]; [done|].
  intros gs F. cbn. apply IH, A; [apply target_of_ok|done].
Qed.

(** ** The merged maps are JSON objects *)

(** The values to be stored, the models and the global options fit in JSON. *)
Definition values_ok (options : Options) (syncMode : option SyncMode) (resolutions : Resolutions) : Prop :=
  Forall (fun k => json_ok (VObj (parseNestedOption (option_text options k)))) GLOBAL_KEYS /\
  Forall (fun x => str_ok x.1) resolutions /\
  Forall (fun '(target, model, raw) =>
    Forall (fun x => json_ok (stored_value x.1 x.2))
      (normalizeRatioSelection (buildPricingBaseline options) model target raw))
    (all_groups syncMode resolutions).

Lemma all_groups_where syncMode resolutions target model raw : (target, model, raw) ∈ all_groups syncMode resolutions ->
  target_ok target /\ model ∈ map fst resolutions.
Proof.
  intros I. apply list_elem_of_In, in_flat_map in I as ([m ratios] & I & J).
  apply in_map_iff in J as ([t g] & [= -> -> <-] & J). split.
  - pose proof (group_targets_ok syncMode ratios) as G. rewrite Forall_forall in G.
    by apply (G (target, g)), list_elem_of_In.
  - apply list_elem_of_fmap. exists (model, ratios). split; [done|]. by apply list_elem_of_In.
Qed.

Lemma apply_group_final b model target raw f f' :
  final_ok f -> target_ok target -> str_ok model -> map fst raw ⊆ RATIO_TYPES ->
  Forall (fun x => json_ok (stored_value x.1 x.2)) (normalizeRatioSelection b model target raw) ->
  apply_group b model target raw f = inr f' -> final_ok f'.
Proof.
  intros F T M R V. rewrite apply_group_eq. rewrite <- (normalize_keys b model target) in R.
  destruct (rfold (delete_at _ _) _ f) as [e|f1] eqn:D; [done|]. cbn [rbind].
  assert (F1 : final_ok f1).
  { eapply (rfold_inv final_ok); [|exact F|exact D]. intros k a a' I A.
    apply delete_at_final; [done|done|]. by eapply removed_known. }
  intros S. eapply (rfold_inv final_ok); [|exact F1|exact S]. intros [rt v] a a' I A.
  rewrite Forall_forall in V. apply set_at_final; [done|done| |done|by apply (V (rt, v))].
  apply field_known, R, list_elem_of_fmap. by exists (rt, v).
Qed.

Lemma baseline_final options : channel_options_ok options ->
  Forall (fun k => json_ok (VObj (parseNestedOption (option_text options k)))) GLOBAL_KEYS ->
  final_ok (stored_baseline (buildPricingBaseline options)).
Proof.
  intros C G. unfold channel_options_ok in C.
  constructor; cbn [f_ratios f_channel stored_baseline b_global b_channel buildPricingBaseline].
  - rewrite map_map. apply map_id.
  - rewrite map_map. apply map_id.
  - intros k m I%assoc_get_Some_In. apply list_elem_of_fmap in I as (k' & [= -> ->] & I).
    rewrite Forall_forall in G. by apply G.
  - intros k m I%assoc_get_Some_In. apply list_elem_of_fmap in I as (k' & [= -> ->] & I).
    rewrite Forall_forall in C. by apply C.
Qed.

Lemma build_final_ok options syncMode resolutions f :
  channel_options_ok options -> resolutions_ok resolutions -> values_ok options syncMode resolutions ->
  build_final (buildPricingBaseline options) syncMode resolutions = inr f -> final_ok f.
Proof.
  intros C R (G & M & V). rewrite build_final_eq, (initial_final_ok options C). cbn [rbind].
  destruct (all_groups_ok syncMode resolutions R) as [_ K].
  pose proof (proj1 (Forall_forall _ _) M) as M'. pose proof (proj1 (Forall_forall _ _) V) as V'.
  pose proof (proj1 (Forall_forall _ _) K) as K'. apply (rfold_inv final_ok); [|exact (baseline_final options C G)].
  intros [[target model] raw] a a' I A. destruct (all_groups_where _ _ _ _ _ I) as [T Im].
  apply apply_group_final; [done|done| |apply (K' _ I)|apply (V' _ I)].
  apply list_elem_of_fmap in Im as (x & -> & Ix). by apply M'.
Qed.

(** ** Reading back *)

(** The options after the requests: each write replaces the text of its key. *)
Definition after_save (options : Options) (requests : list Request) : Options :=
  fold_left (fun o r => match r with PutOption key value => assoc_set o key value | _ => o end)
    requests options.

Lemma after_save_app options l l' : after_save options (l ++ l') = after_save (after_save options l) l'.
Proof. apply fold_left_app. Qed.

Lemma option_text_set options k v k' :
  option_text (assoc_set options k v) k' = if decide (k' = k) then v else option_text options k'.
Proof. unfold option_text. rewrite assoc_get_set. by case_decide. Qed.

Lemma option_updates_text keys before after options k : NoDup keys ->
  option_text (after_save options (option_updates keys before after)) k
  = if bool_decide (k ∈ keys) && differ (map_at before k) (map_at after k)
    then pretty_text (map_at after k) else option_text options k.
Proof.
  revert options. induction keys as [|key keys IH]; intros options N; [done|].
  apply NoDup_cons in N as [Nk N]. unfold option_updates. cbn [flat_map]. fold (option_updates keys before after).
  rewrite after_save_app, IH by done. destruct (decide (k = key)) as [->|Ne].
  - rewrite (bool_decide_false (key ∈ keys)), (bool_decide_true (key ∈ key :: keys)) by (done || left).
    cbn [andb]. destruct (differ _ _); [|done]. unfold after_save. cbn [fold_left].
    by rewrite option_text_set, decide_True.
  - assert (option_text (after_save options (if differ (map_at before key) (map_at after key)
      then [PutOption key (pretty_text (map_at after key))] else [])) k = option_text options k) as ->.
    { destruct (differ (map_at before key) _); [|done]. unfold after_save. cbn [fold_left].
      by rewrite option_text_set, decide_False. }
    destruct (decide (k ∈ keys)).
    + by rewrite !bool_decide_true by (done || by right).
    + rewrite !bool_decide_false; [done| |done]. by intros [->|?]%elem_of_cons.
Qed.

Lemma parseNestedOption_pretty m : json_ok (VObj m) -> parseNestedOption (pretty_text (VObj m)) = m.
Proof.
  intros J. destruct (JSON_parse_stringify 2 _ J) as (text & S & P). unfold pretty_text. rewrite S. cbn [default].
  unfold parseNestedOption. destruct text as [|z text]; [by vm_compute in P|].
  change (str_or (id (z :: text)) (js "{}")) with (z :: text). by rewrite P.
Qed.

Lemma not_differ m m' : json_ok (VObj m) -> json_ok (VObj m') -> differ (VObj m) (VObj m') = false -> m = m'.
Proof.
  intros J J' D. unfold differ in D. apply negb_false_iff, bool_decide_eq_true in D.
  destruct (JSON_parse_stringify 0 _ J) as (text & S & P).
  destruct (JSON_parse_stringify 0 _ J') as (text' & S' & P'). congruence.
Qed.

Lemma save_keys_NoDup : NoDup (GLOBAL_KEYS ++ CHANNEL_PRICING_OPTION_KEYS).
Proof. apply (bool_decide_unpack _). vm_compute. exact Logic.I. Qed.

Lemma option_updates_other keys before after options k : k ∉ keys ->
  option_text (after_save options (option_updates keys before after)) k = option_text options k.
Proof.
  revert options. induction keys as [|key keys IH]; intros options N; [done|].
  apply not_elem_of_cons in N as [Ne N]. unfold option_updates. cbn [flat_map].
  fold (option_updates keys before after). rewrite after_save_app, IH by done.
  destruct (differ _ _); [|done]. unfold after_save. cbn [fold_left]. by rewrite option_text_set, decide_False.
Qed.

(** A map is read back from its option after the writes. *)
Lemma updated_map options keys before after k : NoDup keys -> k ∈ keys ->
  maps_ok after -> is_Some (assoc_get after k) ->
  map_at before k = VObj (parseNestedOption (option_text options k)) -> json_ok (map_at before k) ->
  parseNestedOption (option_text (after_save options (option_updates keys before after)) k)
  = default [] (assoc_get after k).
Proof.
  intros N K J [m E] B Jb. rewrite option_updates_text by done. rewrite bool_decide_true by done. cbn [andb].
  unfold map_at at 2 3. rewrite E. cbn [default from_option id]. apply J in E. rewrite B in *.
  destruct (differ _ _) eqn:D; [by apply parseNestedOption_pretty|by apply not_differ].
Qed.

Lemma assoc_ext {A} (o : list (jsstr * A)) (F : jsstr -> A) : NoDup (map fst o) ->
  (forall k, k ∈ map fst o -> assoc_get o k = Some (F k)) -> o = map (fun k => (k, F k)) (map fst o).
Proof.
  induction o as [|[k v] o IH]; [done|]. cbn. intros [Nk N]%NoDup_cons E.
  assert (v = F k) as ->. { specialize (E k (list_elem_of_here _ _)). rewrite bool_decide_true in E by done. congruence. }
  f_equal. apply IH; [done|]. intros k' I. specialize (E k' (list_elem_of_further _ _ _ I)).
  rewrite bool_decide_false in E; [done|]. by intros ->.
Qed.

Lemma final_ext f g : final_ok f -> map fst (f_ratios g) = GLOBAL_KEYS ->
  map fst (f_channel g) = CHANNEL_PRICING_OPTION_KEYS ->
  (forall k, k ∈ GLOBAL_KEYS -> assoc_get (f_ratios g) k = assoc_get (f_ratios f) k) ->
  (forall k, k ∈ CHANNEL_PRICING_OPTION_KEYS -> assoc_get (f_channel g) k = assoc_get (f_channel f) k) -> g = f.
Proof.
  intros [R C _ _] R' C' Er Ec. pose proof save_keys_NoDup as (N & _ & N')%NoDup_app.
  assert (X : forall ks (o o' : list (jsstr * list (jsstr * jsval))), NoDup ks -> map fst o = ks -> map fst o' = ks ->
    (forall k, k ∈ ks -> assoc_get o' k = assoc_get o k) -> o' = o).
  { intros ks o o' Nk K K' E. set (F := fun k => default [] (assoc_get o k)).
    assert (G : forall k, k ∈ ks -> assoc_get o k = Some (F k)).
    { intros k I. rewrite <- K in I. unfold F. by destruct (assoc_get_known o k I) as [m ->]. }
    transitivity (map (fun k => (k, F k)) ks); [rewrite <- K'|rewrite <- K; symmetry]; apply assoc_ext.
    - by rewrite K'.
    - intros k I. rewrite K' in I. rewrite E by done. by apply G.
    - by rewrite K.
    - intros k I. rewrite K in I. by apply G. }
  destruct f as [fr fc], g as [gr gc]. f_equal;
    [exact (X _ fr gr N R R' Er)|exact (X _ fc gc N' C C' Ec)].
Qed.

Lemma baseline_map_at options k :
  (k ∈ GLOBAL_KEYS -> map_at (b_global (buildPricingBaseline options)) k
   = VObj (parseNestedOption (option_text options k))) /\
  (k ∈ CHANNEL_PRICING_OPTION_KEYS -> map_at (b_channel (buildPricingBaseline options)) k
   = VObj (parseNestedOption (option_text options k))).
Proof.
  unfold map_at. cbn [b_global b_channel buildPricingBaseline].
  split; intros K; by rewrite (assoc_get_tabulate (fun k => parseNestedOption (option_text options k))).
Qed.

Lemma baseline_json options k : final_ok (stored_baseline (buildPricingBaseline options)) ->
  k ∈ GLOBAL_KEYS ++ CHANNEL_PRICING_OPTION_KEYS -> json_ok (VObj (parseNestedOption (option_text options k))).
Proof.
  intros [_ _ J Jc] [K|K]%elem_of_app; [eapply J|eapply Jc];
    by apply (assoc_get_tabulate (fun k => parseNestedOption (option_text options k))).
Qed.

(** Each option of a save is read back as the merged map. *)
Lemma saved_maps options f : let b := buildPricingBaseline options in
  final_ok (stored_baseline b) -> final_ok f ->
  let options' := after_save options (updates options b f false) in
  (forall k, k ∈ GLOBAL_KEYS -> Some (parseNestedOption (option_text options' k)) = assoc_get (f_ratios f) k) /\
  (forall k, k ∈ CHANNEL_PRICING_OPTION_KEYS ->
     Some (parseNestedOption (option_text options' k)) = assoc_get (f_channel f) k).
Proof.
  intros b Fb [R C J Jc]. cbv zeta. unfold updates. rewrite after_save_app.
  pose proof save_keys_NoDup as (N & D & N')%NoDup_app. split; intros k K.
  - assert (I : is_Some (assoc_get (f_ratios f) k)) by (apply assoc_get_known; rewrite R; exact K).
    rewrite option_updates_other by (exact (D k K)).
    rewrite (updated_map options GLOBAL_KEYS (b_global b) (f_ratios f) k N K J I);
      [destruct I as [m ->]; reflexivity|exact (proj1 (baseline_map_at options k) K)|].
    unfold b. rewrite (proj1 (baseline_map_at options k) K). apply baseline_json; [exact Fb|]. apply elem_of_app. left. exact K.
  - assert (I : is_Some (assoc_get (f_channel f) k)) by (apply assoc_get_known; rewrite C; exact K).
    assert (Ng : k ∉ GLOBAL_KEYS) by (intros G; exact (D k G K)).
    pose proof (option_updates_other GLOBAL_KEYS (b_global b) (f_ratios f) options k Ng) as O.
    rewrite (updated_map _ CHANNEL_PRICING_OPTION_KEYS (b_channel b) (f_channel f) k N' K Jc I);
      [destruct I as [m ->]; reflexivity| |].
    + rewrite O. exact (proj2 (baseline_map_at options k) K).
    + unfold b. rewrite (proj2 (baseline_map_at options k) K). apply baseline_json; [exact Fb|]. apply elem_of_app. right. exact K.
Qed.

(** Which options are written. *)
Lemma put_option_iff keys before after key value : PutOption key value ∈ option_updates keys before after <->
  key ∈ keys /\ differ (map_at before key) (map_at after key) = true /\ value = pretty_text (map_at after key).
Proof.
  unfold option_updates. rewrite list_elem_of_In, in_flat_map. split.
  - intros (k & I & J). destruct (differ _ _) eqn:D; [|done]. destruct J as [[= <- <-]|[]].
    split_and!; [by apply list_elem_of_In|done|done].
  - intros (I & D & ->). exists key. split; [by apply list_elem_of_In|]. rewrite D. by left.
Qed.

(** C19. After a synchronisation the options read back as the merged maps:
    loading the page again shows exactly what [build_final] computed.  An
    option is written exactly when its map changed, so nothing is sent when
    the merge changed nothing. *)
Theorem sync_reload options syncMode resolutions f :
  channel_options_ok options -> resolutions_ok resolutions -> values_ok options syncMode resolutions ->
  let b := buildPricingBaseline options in
  build_final b syncMode resolutions = inr f ->
  let requests := updates options b f false in
  stored_baseline (buildPricingBaseline (after_save options requests)) = f /\
  (forall key, (exists value, PutOption key value ∈ requests) <->
     (key ∈ GLOBAL_KEYS /\ map_at (f_ratios f) key <> map_at (b_global b) key) \/
     (key ∈ CHANNEL_PRICING_OPTION_KEYS /\ map_at (f_channel f) key <> map_at (b_channel b) key)).
Proof.
  intros C R V b B requests.
  assert (Fb : final_ok (stored_baseline b)) by (apply baseline_final; [done|apply V]).
  pose proof (build_final_ok options syncMode resolutions f C R V B) as F. split.
  - destruct (saved_maps options f Fb F) as [G H']. apply final_ext; [done|..];
      cbn [stored_baseline f_ratios f_channel b_global b_channel buildPricingBaseline].
    + rewrite map_map. apply map_id.
    + rewrite map_map. apply map_id.
    + intros k K. rewrite (assoc_get_tabulate (fun k => parseNestedOption (option_text _ k))) by exact K. by apply G.
    + intros k K. rewrite (assoc_get_tabulate (fun k => parseNestedOption (option_text _ k))) by exact K. by apply H'.
  - intros key. assert (X : forall keys before after, maps_ok before -> maps_ok after ->
      (exists value, PutOption key value ∈ option_updates keys before after) <->
      key ∈ keys /\ map_at after key <> map_at before key).
    { intros keys before after Mb Ma. assert (O : forall maps, maps_ok maps -> json_ok (map_at maps key)).
      { intros maps M. unfold map_at. destruct (assoc_get maps key) eqn:E; [by eapply M|apply json_ok_nil]. }
      specialize (O before Mb) as Ob. specialize (O after Ma) as Oa. unfold map_at in *. split.
      - intros [value (K & D & _)%put_option_iff]. split; [done|]. intros E. unfold differ, map_at in D.
        rewrite E, bool_decide_true in D by done. done.
      - intros [K N]. eexists. apply put_option_iff. split_and!; [done| |reflexivity].
        destruct (differ _ _) eqn:D; [done|]. exfalso. apply N. f_equal. symmetry.
        by apply not_differ. }
    unfold requests, updates. rewrite <- (X GLOBAL_KEYS), <- (X CHANNEL_PRICING_OPTION_KEYS);
      [|apply (channel_json _ Fb)|apply (channel_json _ F)|apply (ratios_json _ Fb)|apply (ratios_json _ F)].
    split; [intros [v I]; apply elem_of_app in I as [I|I]; [left|right]; exact (ex_intro _ v I)|].
    intros [[v I]|[v I]]; exists v; apply elem_of_app; [left|right]; exact I.
Qed.

(** ** A conflict that stays *)

(** The local billing category reads the stored fixed price. *)
Lemma stored_price_category options target model v : channel_options_ok options -> v <> VUndef ->
  stored_at (stored_baseline (buildPricingBaseline options)) target (js "ModelPrice") model = Some v ->
  local_category (buildPricingBaseline options) model target = Some (js "price").
Proof.
  intros O V. destruct target as [idStr|]; cbn [stored_at local_category stored_baseline f_ratios f_channel].
  - change (js "Channel" ++ js "ModelPrice") with (js "ChannelModelPrice").
    unfold billingCategoryForChannel, channel_at, map_at.
    destruct (assoc_get _ (js "ChannelModelPrice")) as [m|]; [|done]. cbn.
    destruct (assoc_get m idStr) as [[]|]; try done. cbn. intros ->. by destruct v.
  - unfold billingCategoryGlobal, global_at, map_at.
    destruct (assoc_get _ (js "ModelPrice")) as [m|]; [|done]. cbn. intros ->. by destruct v.
Qed.

Lemma ticked_values_group syncMode resolutions target model :
  ticked_values syncMode resolutions target model <> [] ->
  exists ratios g, (model, ratios) ∈ resolutions /\ (target, g) ∈ group_ratios syncMode ratios /\
    g_ratios g = ticked_values syncMode resolutions target model.
Proof.
  unfold ticked_values. destruct (list_find _ _) as [[j [l raw]]|] eqn:L; [|done]. intros _.
  apply list_find_Some in L as (L & El & _). cbn in El. subst l. apply list_elem_of_lookup_2 in L.
  apply list_elem_of_In, in_flat_map in L as ([m ratios] & I & J).
  apply in_map_iff in J as ([t g] & [= -> -> <-] & J). exists ratios, g.
  split_and!; [by apply list_elem_of_In|by apply list_elem_of_In|done].
Qed.

(** When only tier prices are ticked for a model that is billed at a
    fixed price, the conflict is announced and must be confirmed, but the
    confirmed synchronisation keeps the fixed price beside the tiers. *)
Theorem tier_sync_keeps_price t options syncMode resolutions target model price :
  channel_options_ok options -> resolutions_ok resolutions ->
  let b := buildPricingBaseline options in
  let r := ticked_values syncMode resolutions target model in
  r <> [] -> Forall (fun x => isTierRatioType x.1 = true) r -> price <> VUndef ->
  stored_at (stored_baseline b) target (js "ModelPrice") model = Some price ->
  conflicts t b syncMode resolutions <> [] /\
  exists f, build_final b syncMode resolutions = inr f /\
    stored_at f target (js "ModelPrice") model = Some price.
Proof.
  intros O R b r N T V S.
  assert (Tk : forall rt, rt ∈ map fst r -> isTierRatioType rt = true).
  { intros rt (x & -> & I)%list_elem_of_fmap. rewrite Forall_forall in T. by apply T. }
  split.
  - destruct (ticked_values_group syncMode resolutions target model N) as (ratios & g & I & J & G).
    intros E. assert (X : In {| x_channel := join (js ", ") (map (default []) (dedup_by id []
        (omap (assoc_get (g_srcNames g)) (map fst (g_ratios g))))); x_model := model;
        x_current := currentDesc t b model target (js "price"); x_newVal := newDesc t (g_ratios g) |}
      (conflicts t b syncMode resolutions)); [|by rewrite E in X].
    apply in_flat_map. exists (model, ratios). split; [by apply list_elem_of_In|].
    apply in_flat_map. exists (target, g). split; [by apply list_elem_of_In|]. unfold group_conflict.
    rewrite (stored_price_category options target model price O V S : local_category b model target = _).
    unfold new_category. rewrite G. fold r.
    rewrite (bool_decide_false (js "model_price" ∈ map fst r)); [by left|].
    intros M%Tk. by vm_compute in M.
  - destruct (build_final_spec options syncMode resolutions O R) as (f & E & Sp). exists f. split; [exact E|].
    rewrite Sp; [|apply (bool_decide_unpack _); vm_compute; exact Logic.I].
    fold b r. set (r' := normalizeRatioSelection b model target r).
    assert (Ks : map fst r' = map fst r) by apply normalize_keys. unfold merged.
    assert (hasRatio r' = false) as Hr.
    { unfold hasRatio. rewrite Ks. destruct (existsb _ _) eqn:X; [|done].
      apply existsb_exists in X as (rt & I%list_elem_of_In & X). rewrite (Tk rt I), andb_false_r in X. done. }
    assert (hasPrice r' = false) as Hp.
    { unfold hasPrice. rewrite Ks. apply bool_decide_false. intros M%Tk. by vm_compute in M. }
    rewrite ticked_None.
    + unfold removed. rewrite Hr, Hp. rewrite bool_decide_false by apply not_elem_of_nil. exact S.
    + rewrite Ks. intros rt I E'. destruct (ticked_values_ok syncMode resolutions target model R) as [_ K].
      assert (rt = js "model_price") as ->.
      { apply field_inj; [by apply K|apply (bool_decide_unpack _); vm_compute; exact Logic.I|]. exact E'. }
      apply Tk in I. by vm_compute in I.
Qed.

(** ** Columns and channels *)

Lemma span_digits_rest s d r : span_digits s = (d, r) -> s = d ++ r /\ Forall (fun c => is_digit c = true) d.
Proof. intros E%span_digits_split. naive_solver. Qed.

(** Between the parentheses there is no other one. *)
Lemma match_id_no_paren s : 40 ∈ s -> match_id s = None.
Proof.
  intros I. unfold match_id.
  destruct (match s with c :: r => if c =? 45 then (true, r) else (false, s) | [] => (false, s) end) as [neg r] eqn:E.
  assert (I' : 40 ∈ r).
  { destruct s as [|c s]; [by apply not_elem_of_nil in I|]. destruct (Z.eqb_spec c 45); simplify_eq; [|done].
    apply elem_of_cons in I as [?|?]; [done|done]. }
  destruct (span_digits r) as [d r'] eqn:S. apply span_digits_rest in S as [-> D].
  destruct d as [|x d]; [done|]. destruct r' as [|c w]; [done|].
  destruct (Z.eqb_spec c 41) as [->|]; [|done]. cbn [andb].
  destruct (forallb is_ws w) eqn:W; [|done]. exfalso. rewrite forallb_forall in W. rewrite Forall_forall in D.
  apply elem_of_app in I' as [I'|[?|I']%elem_of_cons]; [by apply D in I'|done|].
  apply list_elem_of_In, W in I'. done.
Qed.

Lemma dec_digits_digits n : 0 <= n -> Forall (fun c => is_digit c = true) (dec_digits n).
Proof. intros N. destruct (dec_digits_spec n N) as (d & ds & E & F & _). by rewrite E. Qed.

Lemma match_id_digits n : 0 <= n -> match_id (dec_digits n ++ [41]) = Some n.
Proof.
  intros N. destruct (dec_digits_spec n N) as (d & ds & E & F & _ & V). unfold match_id. rewrite E in *.
  cbn [app]. assert (d <> 45) by (apply Forall_inv in F; intros ->; done).
  destruct (Z.eqb_spec d 45); [done|]. change (d :: ds ++ [41]) with ((d :: ds) ++ [41]).
  rewrite span_digits_app by done. cbn [forallb]. rewrite Z.eqb_refl. cbn [andb signed]. by rewrite V.
Qed.

Lemma match_upstream_id_name name n : 0 <= n ->
  match_upstream_id (name ++ 40 :: dec_digits n ++ [41]) = Some n.
Proof.
  intros N. induction name as [|c name IH]; cbn [app match_upstream_id].
  - by rewrite Z.eqb_refl, match_id_digits.
  - destruct (c =? 40); [|exact IH]. rewrite match_id_no_paren; [exact IH|].
    apply elem_of_app. right. left.
Qed.

(** Integers below 2^53 are exact. *)
Lemma num_of_Z_exact n : 0 < n < 2 ^ 53 -> exists m,
  num_of_Z n = S754_finite false m (Z.log2 n - 52) /\ Zpos m = n * 2 ^ (52 - Z.log2 n).
Proof.
  intros N. set (k := 52 - Z.log2 n).
  assert (L : 0 <= Z.log2 n < 53) by (split; [apply Z.log2_nonneg|apply Z.log2_lt_pow2; lia]).
  pose proof (Z.log2_spec n ltac:(lia)) as [Lo Hi]. rewrite Z.pow_succ_r in Hi by lia.
  assert (K : 0 < 2 ^ k) by (apply Z.pow_pos_nonneg; lia).
  assert (P : 2 ^ Z.log2 n * 2 ^ k = 2 ^ 52) by (rewrite <- Z.pow_add_r by lia; f_equal; lia).
  assert (M : 2 ^ 52 <= n * 2 ^ k < 2 ^ 53) by (change (2 ^ 53) with (2 * 2 ^ 52); nia).
  destruct (n * 2 ^ k) as [|m|] eqn:E; [lia| |lia]. exists m. split; [|done].
  rewrite <- (round_ratio_exact false m (Z.log2 n - 52)).
  - unfold num_of_Z. destruct (Z.ltb_spec n 0); [lia|]. rewrite Z.abs_eq by lia.
    apply round_ratio_cross; [lia|apply mag_den_pos|]. unfold mag_num, mag_den.
    rewrite (Z.max_l 0 (Z.log2 n - 52)), (Z.max_r 0 (- (Z.log2 n - 52))) by lia. rewrite <- E.
    replace (- (Z.log2 n - 52)) with k by lia. lia.
  - unfold canonical, min_exp, max_exp. split_and!; lia.
Qed.

Lemma num_of_Z_inj n n' : 0 < n < 2 ^ 53 -> 0 < n' < 2 ^ 53 -> num_of_Z n = num_of_Z n' -> n = n'.
Proof.
  intros N N' E. destruct (num_of_Z_exact n N) as (m & M & P), (num_of_Z_exact n' N') as (m' & M' & P').
  rewrite M, M' in E. injection E as -> L. replace (Z.log2 n') with (Z.log2 n) in P' by lia.
  assert (0 < 2 ^ (52 - Z.log2 n)).
  { apply Z.pow_pos_nonneg; [lia|]. pose proof (proj1 (Z.log2_lt_pow2 n 53 ltac:(lia)) ltac:(lia)). lia. }
  nia.
Qed.

Lemma split_at_separator_name rt src : 64 ∉ rt -> src <> [] ->
  split_at_separator (rt ++ CHANNEL_SELECTION_KEY_SEPARATOR ++ src) = Some (rt, src).
Proof.
  intros N S. induction rt as [|c rt IH]; [done|]. apply not_elem_of_cons in N as [Nc N].
  cbn [app split_at_separator]. replace (starts_with CHANNEL_SELECTION_KEY_SEPARATOR _) with false.
  - by rewrite IH.
  - change CHANNEL_SELECTION_KEY_SEPARATOR with [64; 64]. cbn [starts_with].
    destruct (Z.eqb_spec 64 c); [by subst|]. done.
Qed.

Lemma ratio_types_no_separator rt : rt ∈ RATIO_TYPES -> 64 ∉ rt.
Proof.
  intros R. assert (F : Forall (fun rt : jsstr => 64 ∉ rt) RATIO_TYPES).
  { apply (bool_decide_unpack _). vm_compute. exact Logic.I. }
  rewrite Forall_forall in F. by apply F.
Qed.

(** In the channel mode a ticked cell is written to the channel of its
    column.  The backend names a column after the channel, with the
    identifier in parentheses at the end; the key of the cell gives back its
    field and its column, whatever the channel is called, and columns of
    different channels have different targets. *)
Theorem column_identifies_channel name n ratioType :
  0 < n < 2 ^ 53 -> ratioType ∈ RATIO_TYPES ->
  let column name n := name ++ 40 :: dec_digits n ++ [41] in
  parseResolutionKey (buildResolutionKey ratioType (column name n) (Some Channel))
  = (ratioType, Some (column name n)) /\
  target_of (Some Channel) (Some (column name n)) = Some (str_of_num (num_of_Z n)) /\
  (forall name' n', 0 < n' < 2 ^ 53 ->
     target_of (Some Channel) (Some (column name' n')) = target_of (Some Channel) (Some (column name n)) ->
     n' = n).
Proof.
  intros N R column.
  assert (T : forall name n, 0 < n < 2 ^ 53 ->
    target_of (Some Channel) (Some (column name n)) = Some (str_of_num (num_of_Z n))).
  { intros nm k K. unfold target_of, parseUpstreamListChannelId, column. cbn [is_channel default from_option id].
    change (is_channel (Some Channel)) with true. cbv iota. rewrite match_upstream_id_name by lia.
    destruct (num_of_Z_exact k K) as (m & E & _). cbn. by rewrite E. }
  split_and!; [|by apply T|].
  - unfold parseResolutionKey, buildResolutionKey. change (is_channel (Some Channel)) with true.
    assert (C : column name n <> []) by (unfold column; by destruct name).
    destruct (column name n) as [|c r] eqn:E; [done|]. cbn [str_truthy andb].
    by rewrite (split_at_separator_name ratioType (c :: r) (ratio_types_no_separator _ R) C).
  - intros name' n' N'. rewrite !T by done. intros [= E]. apply num_of_Z_inj; [done|done|].
    destruct (num_of_Z_exact n N) as (m & M & _), (num_of_Z_exact n' N') as (m' & M' & _).
    pose proof (num_of_str_of_num (num_of_Z n) (num_of_Z_valid n)) as Rn.
    pose proof (num_of_str_of_num (num_of_Z n') (num_of_Z_valid n')) as Rn'.
    rewrite E in Rn'. rewrite M in Rn |- *. rewrite M' in Rn' |- *. specialize (Rn eq_refl). specialize (Rn' eq_refl).
    cbv iota in Rn, Rn'. rewrite <- Rn. symmetry. rewrite <- M. exact Rn'.
Qed.
End Save.

(** ** Witnesses *)

Lemma channel_options_empty options :
  Forall (fun k => parseNestedOption (option_text options k) = []) CHANNEL_PRICING_OPTION_KEYS ->
  channel_options_ok options.
Proof.
  intros F. eapply Forall_impl; [exact F|]. intros k ->. split; [apply json_ok_nil|constructor].
Qed.

(** A model with a fixed price. *)
Definition sample_options : Options := [(js "ModelPrice", pretty_text (VObj [(js "gpt", VNum n1)]))].
Definition sample_ticks (ratioType : jsstr) (value : jsval) : Resolutions :=
  [(js "gpt", [(ratioType, {| r_value := value; r_srcName := js "up"; r_ratioType := ratioType |})])].
Definition half : spec_float := dec_num false 5 (-1).
Definition sample_tiers : jsval := VObj [(js "segments", VArr [])].

Lemma sample_options_ok : channel_options_ok sample_options.
Proof. apply channel_options_empty. repeat (apply Forall_cons; split; [vm_compute; reflexivity|]). constructor. Qed.

Lemma sample_ticks_ok ratioType value : ratioType ∈ RATIO_TYPES -> resolutions_ok (sample_ticks ratioType value).
Proof.
  intros R. split; [apply NoDup_singleton|]. apply Forall_singleton, Forall_singleton. cbn [fst snd].
  unfold resolved_type, str_or. cbn [r_ratioType]. by destruct ratioType.
Qed.

Lemma known_type ratioType : bool_decide (ratioType ∈ RATIO_TYPES) = true -> ratioType ∈ RATIO_TYPES.
Proof. apply bool_decide_eq_true. Qed.

Lemma sync_writes_exact_witness : exists f,
  build_final (H := code_unit_unicode) (buildPricingBaseline sample_options) (Some Official)
    (sample_ticks (js "model_ratio") (VNum half)) = inr f /\
  stored_at f None (js "ModelRatio") (js "gpt") = Some (VNum half) /\
  stored_at f None (js "ModelPrice") (js "gpt") = None.
Proof.
  destruct (sync_writes_exact (H := code_unit_unicode) sample_options (Some Official)
    (sample_ticks (js "model_ratio") (VNum half))) as (f & E & S).
  - exact sample_options_ok.
  - apply sample_ticks_ok, known_type. vm_compute. reflexivity.
  - exists f. split; [exact E|]. destruct (S None (js "gpt")) as (_ & T & O). split.
    + refine (T (js "model_ratio") (VNum half) _). vm_compute. constructor.
    + refine (O (js "ModelPrice") _ _).
      * apply (bool_decide_unpack _). vm_compute. exact I.
      * intros rt X. vm_compute in X. apply list_elem_of_singleton in X as ->. vm_compute. discriminate.
Defined.

Lemma tier_sync_keeps_price_witness : exists f,
  conflicts id (buildPricingBaseline sample_options) (Some Official)
    (sample_ticks (js "model_tier_ratio") sample_tiers) <> [] /\
  build_final (H := code_unit_unicode) (buildPricingBaseline sample_options) (Some Official)
    (sample_ticks (js "model_tier_ratio") sample_tiers) = inr f /\
  stored_at f None (js "ModelPrice") (js "gpt") = Some (VNum n1).
Proof.
  destruct (tier_sync_keeps_price (H := code_unit_unicode) id sample_options (Some Official)
    (sample_ticks (js "model_tier_ratio") sample_tiers) None (js "gpt") (VNum n1)) as (C & f & E & S).
  - exact sample_options_ok.
  - apply sample_ticks_ok, known_type. vm_compute. reflexivity.
  - vm_compute. discriminate.
  - vm_compute. repeat constructor.
  - discriminate.
  - vm_compute. reflexivity.
  - exists f. exact (conj C (conj E S)).
Defined.

Lemma column_identifies_channel_witness :
  target_of (Some Channel) (Some (js "a (1)(12)")) = Some (js "12").
Proof.
  destruct (column_identifies_channel (js "a (1)") 12 (js "model_ratio")) as (_ & T & _).
  - lia.
  - apply known_type. vm_compute. reflexivity.
  - exact T.
Defined.

Lemma sample_values_ok :
  values_ok sample_options (Some Official) (sample_ticks (js "model_ratio") (VNum half)).
Proof.
  split; [|split].
  - assert (F : Forall (fun k => parseNestedOption (option_text sample_options k)
      = if bool_decide (k = js "ModelPrice") then [(js "gpt", VNum n1)] else []) GLOBAL_KEYS).
    { repeat (apply Forall_cons; split; [vm_compute; reflexivity|]). constructor. }
    eapply Forall_impl; [exact F|]. intros k ->. case_match; [|apply json_ok_nil].
    apply (json_ok_assoc_set [] (js "gpt") (VNum n1)); [apply json_ok_nil|apply js_literal_ok; vm_compute; reflexivity|].
    split_and!; [apply num_of_Z_valid|reflexivity|discriminate].
  - apply Forall_singleton. apply js_literal_ok. vm_compute. reflexivity.
  - assert (E : map (fun '(target, model, raw) => normalizeRatioSelection (buildPricingBaseline sample_options) model target raw)
      (all_groups (Some Official) (sample_ticks (js "model_ratio") (VNum half)))
      = [[(js "model_ratio", VNum half)]]) by (vm_compute; reflexivity).
    apply Forall_forall. intros [[target model] raw] I%(list_elem_of_fmap_2
      (fun '(target, model, raw) => normalizeRatioSelection (buildPricingBaseline sample_options) model target raw)).
    change (fmap (M := list)) with (@map (Target * jsstr * list (jsstr * jsval)) (list (jsstr * jsval))) in I.
    rewrite E in I. apply list_elem_of_singleton in I as ->. apply Forall_singleton.
    assert (S : stored_value (js "model_ratio") (VNum half) = VNum half) by (vm_compute; reflexivity).
    cbn [fst snd]. rewrite S. split_and!; [apply dec_num_valid|reflexivity|discriminate].
Qed.

Lemma sync_reload_witness : exists f,
  let b := buildPricingBaseline sample_options in
  build_final (H := code_unit_unicode) b (Some Official) (sample_ticks (js "model_ratio") (VNum half)) = inr f /\
  stored_baseline (buildPricingBaseline (after_save sample_options (updates sample_options b f false))) = f.
Proof.
  destruct (build_final (H := code_unit_unicode) (buildPricingBaseline sample_options) (Some Official)
    (sample_ticks (js "model_ratio") (VNum half))) as [e|f] eqn:B; [vm_compute in B; discriminate|].
  destruct (sync_reload (H := code_unit_unicode) sample_options (Some Official)
    (sample_ticks (js "model_ratio") (VNum half)) f) as [S _].
  - exact sample_options_ok.
  - apply sample_ticks_ok, known_type. vm_compute. reflexivity.
  - exact sample_values_ok.
  - exact B.
  - exists f. exact (conj B S).
Defined.
