(* ===== verification/UpstreamSyncPage.v ===== *)
(** * The page that synchronises prices (pages/Setting/Ratio/UpstreamRatioSync.jsx)

    The state of [UpstreamRatioSync] and its handlers, the rows and cells of
    the table of differences, and the asynchronous requests: each one is
    pending until its reply arrives. *)

From Stdlib Require Import SpecFloat.
From stdpp Require Import base list numbers strings.
From S2P Require Import Prelude JsNumber JsString JsValue JsJson JsReprint UpstreamSync.
Local Open Scope Z_scope.
Local Open Scope js_scope.

(** ** Channels *)

(** [_originalData] is the channel; the record has no other field of it. *)
Definition transfer_record (channel : jsval) : jsval :=
  VObj [(js "key", vget channel (js "id")); (js "label", vget channel (js "name"));
        (js "value", vget channel (js "id")); (js "disabled", VBool false);
        (js "_originalData", channel)].

Definition is_number (v : jsval) (x : spec_float) : bool :=
  match v with VNum y => neqb y x | _ => false end.

Definition isOfficialChannelRecord (record : jsval) : bool :=
  let id := vget record (js "key") ??? vget record (js "value") in
  let base := vget (vget record (js "_originalData")) (js "base_url") ||| VStr [] in
  let name := vget record (js "label") ||| VStr [] in
  is_number id OFFICIAL_RATIO_PRESET_ID || is_number id MODELS_DEV_PRESET_ID
  || is_str base OFFICIAL_RATIO_PRESET_BASE_URL || is_str base MODELS_DEV_PRESET_BASE_URL
  || is_str name OFFICIAL_RATIO_PRESET_NAME || is_str name MODELS_DEV_PRESET_NAME.

Definition DEFAULT_ENDPOINT : jsstr := js "/api/ratio_config".

(** The endpoint of a channel without one. *)
Definition default_endpoint (channel : jsval) : jsstr :=
  let channelType := vget (vget channel (js "_originalData")) (js "type") in
  let isModelsDevPreset := is_number (vget channel (js "id")) MODELS_DEV_PRESET_ID
                           || is_str (vget channel (js "base_url")) MODELS_DEV_PRESET_BASE_URL in
  let isOfficialRatioPreset := is_number (vget channel (js "id")) OFFICIAL_RATIO_PRESET_ID
                               || is_str (vget channel (js "base_url")) OFFICIAL_RATIO_PRESET_BASE_URL in
  let isOpenRouter := is_number channelType (num_of_Z 20) in
  let isTokenFactoryOpen := is_number channelType (num_of_Z 60) in
  if isModelsDevPreset then MODELS_DEV_PRESET_ENDPOINT
  else if isOfficialRatioPreset then OFFICIAL_RATIO_PRESET_ENDPOINT
  else if isTokenFactoryOpen then js "tokenfactoryopen"
  else if isOpenRouter then js "openrouter"
  else DEFAULT_ENDPOINT.

Definition endpoint_of (endpoints : list (jsstr * jsstr)) (id : jsval) : jsstr :=
  default [] (assoc_get endpoints (to_str id)).

Definition merge_endpoints (transferData : list jsval) (prev : list (jsstr * jsstr)) : list (jsstr * jsstr) :=
  fold_left (fun merged channel =>
    let id := vget channel (js "key") in
    if str_truthy (endpoint_of merged id) then merged
    else assoc_set merged (to_str id) (default_endpoint channel)) transferData prev.

Definition parseChannelModelNamesFromChannelData (channelData : jsval) : list jsstr :=
  let raw := trim (to_str (vget channelData (js "models") ||| VStr [])) in
  match raw with
  | [] => []
  | _ => dedup_by id [] (base.filter (fun name => name <> []) (map trim (split_on 44 raw)))
  end.

(** ** State *)

Inductive Notice := NError (msg : jsstr) | NWarning (msg : jsstr) | NSuccess (msg : jsstr).

Record Upstream := { u_id : jsval; u_name : jsval; u_base_url : jsval; u_endpoint : jsstr }.

(** The body of '/api/ratio_sync/fetch'; the timeout and [include_aligned]
    are constants. *)
Record FetchPayload := { p_upstreams : list Upstream; p_sync_mode : SyncMode }.

(** The requests in flight, with what their handler captured. *)
Inductive Pending :=
  | PChannels
  | PModelNames (missing : list jsval) (payload : FetchPayload)
  | PRatios (payload : FetchPayload)
  | PSave (requests : list Request) (captured : Resolutions) (mode : option SyncMode).

Record Sync := {
  officialModalVisible : bool;
  channelModalVisible : bool;
  loading : bool;
  syncLoading : bool;
  syncMode : option SyncMode;
  allChannels : list jsval;
  selectedOfficialChannelIds : list jsval;
  selectedChannelChannelIds : list jsval;
  channelEndpoints : list (jsstr * jsstr);
  channelModelNamesMap : list (jsstr * list jsstr);
  differences : jsval;
  resolutions : Resolutions;
  enabledModels : list jsstr;
  hasSynced : bool;
  currentPage : Z;
  pageSize : Z;
  searchKeyword : jsstr;
  ratioTypeFilter : jsstr;
  confirmVisible : bool;
  conflictItems : list Conflict;
  (** the property [options] of the component *)
  options : Options;
  (** requests waiting for their reply, oldest first *)
  pending : list Pending;
  notices : list Notice
}.

#[export] Instance Sync_eta : Eta Sync := fun r => {|
  officialModalVisible := officialModalVisible r; channelModalVisible := channelModalVisible r;
  loading := loading r; syncLoading := syncLoading r; syncMode := syncMode r;
  allChannels := allChannels r; selectedOfficialChannelIds := selectedOfficialChannelIds r;
  selectedChannelChannelIds := selectedChannelChannelIds r; channelEndpoints := channelEndpoints r;
  channelModelNamesMap := channelModelNamesMap r; differences := differences r;
  resolutions := resolutions r; enabledModels := enabledModels r; hasSynced := hasSynced r;
  currentPage := currentPage r; pageSize := pageSize r; searchKeyword := searchKeyword r;
  ratioTypeFilter := ratioTypeFilter r; confirmVisible := confirmVisible r;
  conflictItems := conflictItems r; options := options r; pending := pending r; notices := notices r |}.

Definition initial_sync (props_options : Options) : Sync := {|
  officialModalVisible := false; channelModalVisible := false; loading := false; syncLoading := false;
  syncMode := None; allChannels := []; selectedOfficialChannelIds := []; selectedChannelChannelIds := [];
  channelEndpoints := []; channelModelNamesMap := []; differences := VObj []; resolutions := [];
  enabledModels := []; hasSynced := false; currentPage := 1; pageSize := 10; searchKeyword := [];
  ratioTypeFilter := []; confirmVisible := false; conflictItems := []; options := props_options;
  pending := []; notices := [] |}.

Definition show (n : Notice) (s : Sync) : Sync := s <| notices := n :: notices s |>.
Definition send (p : Pending) (s : Sync) : Sync := s <| pending := pending s ++ [p] |>.

Definition officialChannels (s : Sync) : list jsval :=
  base.filter (fun ch => isOfficialChannelRecord ch = true) (allChannels s).
Definition nonOfficialChannels (s : Sync) : list jsval :=
  base.filter (fun ch => isOfficialChannelRecord ch = false) (allChannels s).

(** ** Fetching *)

Section Handlers.
Context `{Unicode} (t : jsstr -> jsstr).

Definition fetchAllChannels (s : Sync) : Sync := send PChannels (s <| loading := true |>).

Definition openOfficialModal (s : Sync) : Sync :=
  let s := s <| officialModalVisible := true |> in
  match allChannels s with [] => fetchAllChannels s | _ => s end.
Definition openChannelModal (s : Sync) : Sync :=
  let s := s <| channelModalVisible := true |> in
  match allChannels s with [] => fetchAllChannels s | _ => s end.

(** A reply: the data, a refusal with its message, or an exception. *)
Inductive Reply (A : Type) := ROk (data : A) | RFail (message : jsstr) | RError (message : jsstr).
Arguments ROk {A} data.
Arguments RFail {A} message.
Arguments RError {A} message.

Definition channels_arrived (reply : Reply (list jsval)) (s : Sync) : Sync :=
  let s := match reply with
           | ROk channels =>
               let transferData := map transfer_record channels in
               (s <| allChannels := transferData |>)
                 <| channelEndpoints := merge_endpoints transferData (channelEndpoints s) |>
           | RFail message => show (NError message) s
           | RError message => show (NError (t (js "获取渠道失败：") ++ message)) s
           end in
  s <| loading := false |>.

Definition fetch_payload (s : Sync) (channelList : list jsval) (mode : SyncMode) : FetchPayload := {|
  p_upstreams := map (fun ch => {|
    u_id := vget ch (js "id"); u_name := vget ch (js "name"); u_base_url := vget ch (js "base_url");
    u_endpoint := str_or (endpoint_of (channelEndpoints s) (vget ch (js "id"))) DEFAULT_ENDPOINT |}) channelList;
  p_sync_mode := mode |}.

(** The channels whose model names are not loaded. *)
Definition missing_channels (s : Sync) (channelList : list jsval) : list jsval :=
  base.filter (fun ch => assoc_get (channelModelNamesMap s) (to_str (vget ch (js "id"))) = None) channelList.

Definition fetchRatiosFromChannels (channelList : list jsval) (mode : SyncMode) (s : Sync) : Sync :=
  let s := s <| syncLoading := true |> in
  let payload := fetch_payload s channelList mode in
  match mode, missing_channels s channelList with
  | Channel, (_ :: _) as missing => send (PModelNames missing payload) s
  | _, _ => send (PRatios payload) s
  end.

(** [ids.includes(ch.value)] *)
Definition id_in (ids : list jsval) (ch : jsval) : bool :=
  existsb (js_strict_eq (fun _ _ => false) (vget ch (js "value"))) ids.

Definition selected_channels (channels : list jsval) (ids : list jsval) : list jsval :=
  map (fun ch => vget ch (js "_originalData")) (base.filter (fun ch => id_in ids ch = true) channels).

Definition confirmOfficialSelection (s : Sync) : Sync :=
  match selected_channels (officialChannels s) (selectedOfficialChannelIds s) with
  | [] => show (NWarning (t (js "请至少选择一个渠道"))) s
  | selected => fetchRatiosFromChannels selected Official (s <| officialModalVisible := false |>)
  end.
Definition confirmChannelSelection (s : Sync) : Sync :=
  match selected_channels (nonOfficialChannels s) (selectedChannelChannelIds s) with
  | [] => show (NWarning (t (js "请至少选择一个渠道"))) s
  | selected => fetchRatiosFromChannels selected Channel (s <| channelModalVisible := false |>)
  end.

(** The names of one channel, and the message shown when they are missing. *)
Definition model_names_result (reply : Reply jsval) : list jsstr * list Notice :=
  match reply with
  | ROk data => (parseChannelModelNamesFromChannelData data, [])
  | RFail message | RError message => ([], [NError (str_or message (t (js "获取渠道模型列表失败")))])
  end.

Definition model_names_arrived (missing : list jsval) (replies : list (Reply jsval)) (payload : FetchPayload)
    (s : Sync) : Sync :=
  let results := map model_names_result replies in
  let s := s <| notices := flat_map snd results ++ notices s |> in
  let s := s <| channelModelNamesMap :=
    fold_left (fun m '(ch, names) => assoc_set m (to_str (vget ch (js "id"))) names)
      (zip missing (map fst results)) (channelModelNamesMap s) |> in
  send (PRatios payload) s.

(** The differences and the failed channels (name and error). *)
Definition ratios_arrived (payload : FetchPayload) (reply : Reply (list (jsstr * jsval) * list (jsstr * jsstr)))
    (s : Sync) : Sync :=
  let s := match reply with
           | ROk (diffs, errorResults) =>
               let s := match errorResults with
                        | [] => s
                        | _ => show (NWarning (t (js "部分渠道测试失败：")
                                 ++ join (js ", ") (map (fun '(name, e) => name ++ js ": " ++ e) errorResults))) s
                        end in
               let s := (s <| differences := VObj diffs |>) <| resolutions := [] |> in
               let s := (s <| syncMode := Some (p_sync_mode payload) |>) <| hasSynced := true |> in
               match diffs with
               | [] => show (NSuccess (t (js "未找到差异化倍率，无需同步"))) s
               | _ => s
               end
           | RFail message => show (NError (str_or message (t (js "后端请求失败")))) s
           | RError message => show (NError (t (js "请求后端接口失败：") ++ message)) s
           end in
  s <| syncLoading := false |>.

Definition enabled_models_arrived (models : list jsstr) (s : Sync) : Sync := s <| enabledModels := models |>.

(** ** Ticking values *)

(** The new entries of a model: those of the other billing category go, and
    in the official mode those of the same field. *)
Definition select_entries (mode : option SyncMode) (ratioType : jsstr) (value : jsval) (srcName : jsstr)
    (prev : list (jsstr * Resolution)) : list (jsstr * Resolution) :=
  let kept := base.filter (fun x =>
    getBillingCategory (fst (parseResolutionKey (fst x))) = getBillingCategory ratioType) prev in
  let kept := if bool_decide (mode = Some Official)
              then base.filter (fun x => fst (parseResolutionKey (fst x)) <> ratioType) kept else kept in
  assoc_set kept (buildResolutionKey ratioType srcName mode)
    {| r_value := value; r_srcName := srcName; r_ratioType := ratioType |}.

Definition selectValue (model ratioType : jsstr) (value : jsval) (srcName : jsstr) (s : Sync) : Sync :=
  s <| resolutions := assoc_set (resolutions s) model
    (select_entries (syncMode s) ratioType value srcName (default [] (assoc_get (resolutions s) model))) |>.

(** Removing a tick; a model without ticks is removed. *)
Definition deselect (mode : option SyncMode) (model ratioType upName : jsstr) (prev : Resolutions) : Resolutions :=
  let resolutionKey := buildResolutionKey ratioType upName mode in
  match assoc_get prev model with
  | Some entries =>
      match assoc_get entries resolutionKey with
      | Some res =>
          if bool_decide (r_srcName res = upName) then
            match assoc_delete entries resolutionKey with
            | [] => assoc_delete prev model
            | rest => assoc_set prev model rest
            end
          else prev
      | None => prev
      end
  | None => prev
  end.

Definition deselectValue (model ratioType upName : jsstr) (s : Sync) : Sync :=
  s <| resolutions := deselect (syncMode s) model ratioType upName (resolutions s) |>.
End Handlers.

Arguments ROk {A} data.
Arguments RFail {A} message.
Arguments RError {A} message.

(** ** The rows of the table *)

Record Row := {
  w_key : jsstr;
  w_model : jsstr;
  w_ratioType : jsstr;
  w_current : jsval;
  w_upstream_old : jsval;
  w_upstreams : jsval;
  w_confidence : jsval;
  w_billingConflict : bool
}.

Section Table.
Context `{Unicode}.

Definition canonicalMap (models : list jsstr) : list (jsstr * jsstr) :=
  fold_left (fun m name => assoc_set m (toLowerCase name) name) models [].

(** The name under which a model is shown; none when it is not enabled. *)
Definition canonical_name (s : Sync) (model : jsstr) : option jsstr :=
  match enabledModels s with
  | [] => Some model
  | models => assoc_get (canonicalMap models) (toLowerCase model)
  end.

(** Whether the channel of a column has the model; a channel whose list is
    not known or empty is taken to have every model. *)
Definition channel_owns (s : Sync) (modelName upName : jsstr) : bool :=
  match parseUpstreamListChannelId (Some upName) with
  | None => false
  | Some channelId =>
      match assoc_get (channelModelNamesMap s) (str_of_num channelId) with
      | None | Some [] => true
      | Some names => bool_decide (toLowerCase modelName ∈ map toLowerCase names)
      end
  end.

Definition filterChannelOwnedUpstreamMap (s : Sync) (modelName : jsstr) (sourceMap : jsval) : jsval :=
  if is_channel (syncMode s)
  then VObj (base.filter (fun x => channel_owns s modelName (fst x) = true) (entries_of (sourceMap ||| VObj [])))
  else sourceMap.

Definition has_key (v : jsval) (k : jsstr) : bool := bool_decide (k ∈ keys_of v).

Definition billing_conflict (ratioTypes : jsval) : bool :=
  has_key ratioTypes (js "model_price")
  && existsb (has_key ratioTypes)
       [js "model_ratio"; js "completion_ratio"; js "cache_ratio"; js "create_cache_ratio"].

Definition row_of (s : Sync) (canonical : jsstr) (ratioTypes : jsval) (ratioType : jsstr) (diff : jsval)
    : list Row :=
  let upstreams := filterChannelOwnedUpstreamMap s canonical (vget diff (js "upstreams")) in
  if is_channel (syncMode s) && bool_decide (keys_of upstreams = []) then []
  else [{| w_key := canonical ++ js "_" ++ ratioType; w_model := canonical; w_ratioType := ratioType;
           w_current := vget diff (js "current");
           w_upstream_old := filterChannelOwnedUpstreamMap s canonical
                               (vget diff (js "upstream_old") ||| VObj []);
           w_upstreams := upstreams;
           w_confidence := filterChannelOwnedUpstreamMap s canonical
                             (vget diff (js "confidence") ||| VObj []);
           w_billingConflict := billing_conflict ratioTypes |}].

Definition dataSource (s : Sync) : list Row :=
  flat_map (fun '(model, ratioTypes) =>
    match canonical_name s model with
    | None => []
    | Some canonical =>
        flat_map (fun '(ratioType, diff) => row_of s canonical ratioTypes ratioType diff)
          (entries_of ratioTypes)
    end) (entries_of (differences s)).

Definition row_matches (s : Sync) (row : Row) : bool :=
  (negb (str_truthy (trim (searchKeyword s)))
   || includes (trim (toLowerCase (searchKeyword s))) (toLowerCase (w_model row)))
  && (negb (str_truthy (ratioTypeFilter s)) || bool_decide (w_ratioType row = ratioTypeFilter s)).

Definition filteredDataSource (s : Sync) : list Row :=
  if negb (str_truthy (trim (searchKeyword s))) && negb (str_truthy (ratioTypeFilter s))
  then dataSource s
  else base.filter (fun row => row_matches s row = true) (dataSource s).

Definition upstreamNames (s : Sync) : list jsstr :=
  dedup_by id [] (flat_map (fun row => keys_of (w_upstreams row ||| VObj [])) (filteredDataSource s)).

Definition getCurrentPageData (s : Sync) : list Row :=
  let startIndex := (currentPage s - 1) * pageSize s in
  take (Z.to_nat (pageSize s)) (drop (Z.to_nat startIndex) (filteredDataSource s)).

(** ** Cells *)

Section Cells.
Context (same_object : jsval -> jsval -> bool).

Definition getSelectableOldValue (s : Sync) (upName : jsstr) (row : Row) : jsval :=
  if is_channel (syncMode s) then vget (w_upstream_old row) upName else w_current row.

Definition cell_selectable (s : Sync) (upName : jsstr) (row : Row) : bool :=
  isUpstreamCellSelectable same_object (getSelectableOldValue s upName row) (vget (w_upstreams row) upName).

Definition cell_selected (s : Sync) (upName : jsstr) (row : Row) : bool :=
  match entries ← assoc_get (resolutions s) (w_model row);
        assoc_get entries (buildResolutionKey (w_ratioType row) upName (syncMode s)) with
  | Some res => bool_decide (r_srcName res = upName)
                && resolutionMatchesUpstream same_object (r_value res) (vget (w_upstreams row) upName)
  | None => false
  end.

Record ChannelStats := {
  selectableCount : nat;
  selectedCount : nat;
  allSelected : bool;
  partiallySelected : bool;
  hasSelectableItems : bool
}.

Definition channelStats (s : Sync) (upName : jsstr) : ChannelStats :=
  let selectable := base.filter (fun row => cell_selectable s upName row = true) (filteredDataSource s) in
  let selectableCount := length selectable in
  let selectedCount := length (base.filter (fun row => cell_selected s upName row = true) selectable) in
  {| selectableCount := selectableCount; selectedCount := selectedCount;
     allSelected := (0 <? selectableCount)%nat && (selectedCount =? selectableCount)%nat;
     partiallySelected := (0 <? selectedCount)%nat && (selectedCount <? selectableCount)%nat;
     hasSelectableItems := (0 <? selectableCount)%nat |}.

Definition toggleCell (row : Row) (upName : jsstr) (checked : bool) (s : Sync) : Sync :=
  if checked then selectValue (w_model row) (w_ratioType row) (vget (w_upstreams row) upName) upName s
  else deselectValue (w_model row) (w_ratioType row) upName s.

Definition handleBulkSelect (upName : jsstr) (checked : bool) (s : Sync) : Sync :=
  fold_left (fun s' row =>
    if checked then (if cell_selectable s upName row then toggleCell row upName true s' else s')
    else toggleCell row upName false s') (filteredDataSource s) s.
End Cells.
End Table.

(** ** Applying the ticked values *)

(** [o[k] = v] on an object *)
Definition vset (v : jsval) (k : jsstr) (x : jsval) : jsval :=
  match v with VObj o => VObj (assoc_set o k x) | _ => v end.

(** The value a synchronised cell shows. *)
Definition synced_value (value : jsval) : jsval :=
  let num := parse_float (to_str value) in
  if is_nan num then value else stored_number (VNum num).

(** The difference of a ticked field after the save. *)
Definition synced_diff (mode : option SyncMode) (res : Resolution) (diff : jsval) : jsval :=
  let srcName := r_srcName res in
  if negb (truthy diff) || negb (is_obj (vget diff (js "upstreams")))
     || negb (str_truthy srcName) || negb (has_key (vget diff (js "upstreams")) srcName) then diff
  else
    let synced := synced_value (r_value res) in
    let old := vget diff (js "upstream_old") ||| VObj [] in
    let diff := vset diff (js "upstream_old") (vset old srcName synced) in
    let diff := vset diff (js "upstreams") (vset (vget diff (js "upstreams")) srcName synced) in
    if is_channel mode then diff else vset diff (js "current") synced.

Definition synced_differences (mode : option SyncMode) (captured : Resolutions) (prev : jsval) : jsval :=
  fold_left (fun next '(model, ratios) =>
    fold_left (fun next '(resKey, res) =>
      let ratioType := resolved_type resKey res in
      let fields := vget next model in
      if has_key next model && has_key fields ratioType
      then vset next model (vset fields ratioType (synced_diff mode res (vget fields ratioType)))
      else next) ratios next)
    captured (default prev (cloneDeep prev)).

Section Apply.
Context `{Unicode} (t : jsstr -> jsstr) (useSupplierPricingSave : bool).

(** The part of [performSync] up to the requests.  An exception of the merge
    leaves the page as it is. *)
Definition performSync (baseline : Baseline) (s : Sync) : Sync :=
  match build_final baseline (syncMode s) (resolutions s) with
  | inl _ => s
  | inr f =>
      match updates (options s) baseline f useSupplierPricingSave with
      | [] => show (NWarning (t (js "没有需要保存的变更"))) (s <| loading := false |>)
      | requests => send (PSave requests (resolutions s) (syncMode s)) (s <| loading := true |>)
      end
  end.

Definition applySync (s : Sync) : Sync :=
  let baseline := buildPricingBaseline (options s) in
  match conflicts t baseline (syncMode s) (resolutions s) with
  | [] => performSync baseline s
  | items => (s <| conflictItems := items |>) <| confirmVisible := true |>
  end.

Definition confirmConflicts (s : Sync) : Sync :=
  performSync (buildPricingBaseline (options s)) (s <| confirmVisible := false |>).
Definition cancelConflicts (s : Sync) : Sync := s <| confirmVisible := false |>.

(** The answers of all requests, or an exception. *)
Definition save_replied (captured : Resolutions) (mode : option SyncMode) (reply : option (list bool)) (s : Sync)
    : Sync :=
  let s := match reply with
           | Some results =>
               if forallb id results then
                 let s := show (NSuccess (t (js "同步成功"))) s in
                 let s := s <| differences := synced_differences mode captured (differences s) |> in
                 s <| resolutions := [] |>
               else show (NError (t (js "部分保存失败"))) s
           | None => show (NError (t (js "保存失败"))) s
           end in
  s <| loading := false |>.

(** ** Search, pages and dialogs *)

Definition first_page (changed : bool) (s : Sync) : Sync := if changed then s <| currentPage := 1 |> else s.

Definition setSearchKeyword (x : jsstr) (s : Sync) : Sync :=
  first_page (negb (bool_decide (x = searchKeyword s))) (s <| searchKeyword := x |>).
Definition setRatioTypeFilter (x : jsstr) (s : Sync) : Sync :=
  first_page (negb (bool_decide (x = ratioTypeFilter s))) (s <| ratioTypeFilter := x |>).

Definition changePage (page size : Z) (s : Sync) : Sync := (s <| currentPage := page |>) <| pageSize := size |>.
Definition changePageSize (size : Z) (s : Sync) : Sync := (s <| currentPage := 1 |>) <| pageSize := size |>.

Definition updateChannelEndpoint (channelId : jsval) (endpoint : jsstr) (s : Sync) : Sync :=
  s <| channelEndpoints := assoc_set (channelEndpoints s) (to_str channelId) endpoint |>.

Definition handleOfficialModalClose (s : Sync) : Sync := s <| officialModalVisible := false |>.
Definition handleChannelModalClose (s : Sync) : Sync := s <| channelModalVisible := false |>.
End Apply.

(** ** What the cells show *)

(** [s.replace(/(\.\d*?[1-9])0+$/, '$1')] *)
Definition strip_fraction (fraction : jsstr) : jsstr :=
  if forallb is_digit fraction then
    match drop_zeros (reverse fraction) with [] => fraction | r => reverse r end
  else fraction.
Fixpoint drop_fraction_zeros (s : jsstr) : jsstr :=
  match s with
  | [] => []
  | c :: r => if c =? 46 then c :: strip_fraction r else c :: drop_fraction_zeros r
  end.
(** [s.replace(/\.$/, '')] *)
Definition strip_dot (s : jsstr) : jsstr :=
  match reverse s with 46 :: r => reverse r | _ => s end.

(** [String(n)] without trailing zeros, an integer when [n] is near one *)
Definition near_integer_text (n : spec_float) : jsstr :=
  if nltb (nabs (nsub n (math_round n))) epsilon then str_of_num (math_round n)
  else strip_dot (drop_fraction_zeros (str_of_num n)).

Definition dash : jsstr := js "—".
Definition no_value (v : jsval) : bool := nullish v || is_str v (js "same").

Definition formatCellNumber (v : jsval) : jsstr :=
  if no_value v then dash
  else if is_obj v then
    match vget v (js "segments") with
    | VArr segments => str_of_num (num_of_Z (Z.of_nat (length segments))) ++ js "档"
    | _ => default (js "undefined") (JSON_stringify 0 v)
    end
  else
    let n := to_num v in
    if is_nan n then to_str v
    else near_integer_text (ndiv (math_round (nmul n (num_of_Z 1000000))) (num_of_Z 1000000)).

Definition formatPriceNumber (v : jsval) : jsstr :=
  if no_value v then dash
  else match roundToPlaces v PRICE_DECIMAL_PLACES with
       | None => to_str v
       | Some n => near_integer_text n
       end.

Definition isTierValue (value : jsval) : bool := is_obj value && is_arr (vget value (js "segments")).

(** The range and the price of each tier. *)
Fixpoint tier_details (first : bool) (last : jsval) (rows : list jsval) : list (jsstr * jsstr) :=
  match rows with
  | [] => []
  | row :: rest =>
      let lower := if first then VNum n0 else vget last (js "up_to") ||| VNum n0 in
      let upper := vget row (js "up_to") ||| VStr (js "∞") in
      (to_str lower ++ js "～" ++ to_str upper,
       match ratioToDisplayPrice (vget row (js "ratio")) with
       | None => js "-"
       | Some price => js "$" ++ formatPriceNumber (VNum price)
       end) :: tier_details false row rest
  end.

Definition buildTierSegmentDetails (value : jsval) : list (jsstr * jsstr) :=
  if isTierValue value then tier_details true VUndef (as_arr (vget value (js "segments"))) else [].

(** A text, the tiers behind a tooltip, or an old and a new value. *)
Inductive Node := NText (s : jsstr) | NTiers (segments : list (jsstr * jsstr)) | NPair (old new : Node).

Definition renderTierValue (value : jsval) : Node :=
  match buildTierSegmentDetails value with [] => NText dash | segments => NTiers segments end.
Definition renderCellValue (value : jsval) : Node :=
  if isTierValue value then renderTierValue value else NText (formatCellNumber value).

Definition isUnsetOldValue (value : jsval) : bool :=
  nullish value || match toFiniteNumber value with Some n => neqb n n0 | None => false end.

Definition formatPriceWithSymbol (value : jsval) : jsstr :=
  let formatted := formatPriceNumber value in
  if bool_decide (formatted = dash) then dash else js "$" ++ formatted.
Definition formatChannelOldValue (oldVal : jsval) (formatter : jsval -> jsstr) : jsstr :=
  if isUnsetOldValue oldVal then js "未设置" else formatter oldVal.
Definition formatChannelPriceOldNewPair (oldVal newVal : jsval) : jsstr :=
  formatChannelOldValue oldVal formatPriceWithSymbol ++ js "/" ++ formatPriceWithSymbol newVal.

Section Display.
Context (t : jsstr -> jsstr).

Definition renderChannelOldNewPair (oldVal newVal : jsval) : Node :=
  NPair (if isUnsetOldValue oldVal then NText (t (js "未设置")) else renderCellValue oldVal)
    (renderCellValue newVal).

Inductive RatioAge := AgeCurrent | AgeOld | AgeNew.

Definition getModelRatioForDisplay (s : Sync) (model : jsstr) (upstreamName : jsstr) (mode : RatioAge)
    : option spec_float :=
  let modelRatioDiff := vget (vget (differences s) model) (js "model_ratio") in
  if negb (truthy modelRatioDiff) then None
  else
    let current := toFiniteNumber (vget modelRatioDiff (js "current")) in
    let of_ v := if nullish v then current else toFiniteNumber v in
    match mode with
    | AgeCurrent => current
    | AgeOld => of_ (vget (vget modelRatioDiff (js "upstream_old")) upstreamName)
    | AgeNew => of_ (vget (vget modelRatioDiff (js "upstreams")) upstreamName)
    end.

(** The price of a ratio relative to the input price. *)
Definition relative_display_price (value : jsval) (inputRatio : option spec_float) : option spec_float :=
  match toFiniteNumber value, inputRatio with
  | Some x, Some y => ratioToDisplayPrice (VNum (nmul x y))
  | _, _ => None
  end.

Inductive FieldKind := InputPrice | RelativePrice | OtherValue.
Definition field_kind (ratioType : jsstr) : FieldKind :=
  if bool_decide (ratioType = js "model_ratio") then InputPrice
  else if bool_decide (ratioType ∈ [js "completion_ratio"; js "cache_ratio"; js "create_cache_ratio"])
  then RelativePrice else OtherValue.

Definition price_or (missing : jsstr) (price : option spec_float) : jsstr :=
  match price with None => missing | Some p => js "$" ++ formatPriceNumber (VNum p) end.

Definition formatCurrentDisplayValue (s : Sync) (record : Row) : Node :=
  let unset := t (js "未设置") in
  if nullish (w_current record) then NText unset
  else match field_kind (w_ratioType record) with
       | InputPrice => NText (price_or unset (ratioToDisplayPrice (w_current record)))
       | RelativePrice =>
           NText (price_or unset
             (match toFiniteNumber (w_current record), getModelRatioForDisplay s (w_model record) [] AgeCurrent with
              | Some ratio, Some inputRatio => ratioToDisplayPrice (VNum (nmul inputRatio ratio))
              | _, _ => None
              end))
       | OtherValue => renderCellValue (w_current record)
       end.

Definition formatUpstreamSingleDisplay (s : Sync) (record : Row) (upstreamName : jsstr) : Node :=
  let newVal := vget (w_upstreams record) upstreamName in
  match field_kind (w_ratioType record) with
  | InputPrice => NText (price_or dash (ratioToDisplayPrice newVal))
  | RelativePrice =>
      NText (price_or dash (relative_display_price newVal (getModelRatioForDisplay s (w_model record) upstreamName AgeNew)))
  | OtherValue => renderCellValue newVal
  end.

Definition formatUpstreamPairDisplay (s : Sync) (record : Row) (upstreamName : jsstr) : Node :=
  let oldVal := getSelectableOldValue s upstreamName record in
  let newVal := vget (w_upstreams record) upstreamName in
  if bool_decide (syncMode s = Some Official) then formatUpstreamSingleDisplay s record upstreamName
  else match field_kind (w_ratioType record) with
       | InputPrice =>
           NText (formatChannelPriceOldNewPair (opt_num (ratioToDisplayPrice oldVal))
                    (opt_num (ratioToDisplayPrice newVal)))
       | RelativePrice =>
           NText (formatChannelPriceOldNewPair
             (opt_num (relative_display_price oldVal (getModelRatioForDisplay s (w_model record) upstreamName AgeOld)))
             (opt_num (relative_display_price newVal (getModelRatioForDisplay s (w_model record) upstreamName AgeNew))))
       | OtherValue => renderChannelOldNewPair oldVal newVal
       end.

(** Whether every source of a row is trusted, and the others. *)
Definition untrustedSources (record : Row) : list jsstr :=
  map fst (base.filter (fun x => match snd x with VBool false => true | _ => false end = true)
    (entries_of (w_confidence record ||| VObj []))).
End Display.
