(* ===== verification/UpstreamMachine.v ===== *)
(** * The synchronisation page as a state machine

    Handlers and replies are steps.  The ticked values of a model belong to
    one billing category in every reachable state; the page stops loading
    once every request was answered; the presets never get their own
    endpoints. *)

From Stdlib Require Import SpecFloat.
From stdpp Require Import base list numbers strings relations.
From S2P Require Import Prelude JsNumber JsString JsValue JsJson JsReprint UpstreamSync UpstreamMerge UpstreamSave UpstreamSyncPage.
Local Open Scope Z_scope.
Local Open Scope js_scope.

Inductive Action :=
  | AOpenOfficial | AOpenChannel | ACloseOfficial | ACloseChannel
  | AConfirmOfficial | AConfirmChannel
  | ASelectOfficialIds (ids : list jsval) | ASelectChannelIds (ids : list jsval)
  | AEndpoint (channelId : jsval) (endpoint : jsstr)
  | AApply | AConfirmConflicts | ACancelConflicts
  | ASearch (x : jsstr) | AFilter (x : jsstr) | APage (page size : Z) | APageSize (size : Z)
  | AEnabledModels (models : list jsstr) | AOptions (o : Options).

Section Machine.
Context `{Unicode} (same_object : jsval -> jsval -> bool) (t : jsstr -> jsstr) (useSupplierPricingSave : bool).

Definition act (a : Action) (s : Sync) : Sync :=
  match a with
  | AOpenOfficial => openOfficialModal s
  | AOpenChannel => openChannelModal s
  | ACloseOfficial => handleOfficialModalClose s
  | ACloseChannel => handleChannelModalClose s
  | AConfirmOfficial => confirmOfficialSelection t s
  | AConfirmChannel => confirmChannelSelection t s
  | ASelectOfficialIds ids => s <| selectedOfficialChannelIds := ids |>
  | ASelectChannelIds ids => s <| selectedChannelChannelIds := ids |>
  | AEndpoint channelId endpoint => updateChannelEndpoint channelId endpoint s
  | AApply => applySync t useSupplierPricingSave s
  | AConfirmConflicts => confirmConflicts t useSupplierPricingSave s
  | ACancelConflicts => cancelConflicts s
  | ASearch x => setSearchKeyword x s
  | AFilter x => setRatioTypeFilter x s
  | APage page size => changePage page size s
  | APageSize size => changePageSize size s
  | AEnabledModels models => enabled_models_arrived models s
  | AOptions o => s <| options := o |>
  end.

(** The reply to one of the pending requests. *)
Inductive reply : Sync -> Sync -> Prop :=
  | reply_channels pre post r s : pending s = pre ++ PChannels :: post ->
      reply s (channels_arrived t r (s <| pending := pre ++ post |>))
  | reply_names pre post missing payload rs s : pending s = pre ++ PModelNames missing payload :: post ->
      length rs = length missing ->
      reply s (model_names_arrived t missing rs payload (s <| pending := pre ++ post |>))
  | reply_ratios pre post payload r s : pending s = pre ++ PRatios payload :: post ->
      reply s (ratios_arrived t payload r (s <| pending := pre ++ post |>))
  | reply_save pre post requests captured mode r s : pending s = pre ++ PSave requests captured mode :: post ->
      reply s (save_replied t captured mode r (s <| pending := pre ++ post |>)).

(** The backend compares the fields of [RATIO_TYPES] only. *)
Definition known_rows (s : Sync) : Prop := Forall (fun row => w_ratioType row ∈ RATIO_TYPES) (dataSource s).

Inductive step : Sync -> Sync -> Prop :=
  | step_act a s : step s (act a s)
  | step_toggle row upName checked s : known_rows s -> row ∈ filteredDataSource s ->
      (checked = true -> cell_selectable same_object s upName row = true) ->
      step s (toggleCell row upName checked s)
  | step_bulk upName checked s : known_rows s -> step s (handleBulkSelect same_object upName checked s)
  | step_reply s s' : reply s s' -> step s s'.

Inductive reachable : Sync -> Prop :=
  | reachable_initial o : reachable (initial_sync o)
  | reachable_step s s' : reachable s -> step s s' -> reachable s'.

(** ** Ticked values *)

(** The entries of one model: not empty, in property order, each under the
    key of its field and column, all of one billing category. *)
Record entries_ok (mode : option SyncMode) (entries : list (jsstr * Resolution)) : Prop := {
  e_nonempty : entries <> [];
  e_order : canonical_keys (map fst entries);
  e_keys : Forall (fun x => fst x = buildResolutionKey (r_ratioType (snd x)) (r_srcName (snd x)) mode /\
                            r_ratioType (snd x) ∈ RATIO_TYPES) entries;
  e_category : exists category, Forall (fun x => getBillingCategory (r_ratioType (snd x)) = category) entries
}.

Definition ticks_ok (mode : option SyncMode) (rs : Resolutions) : Prop :=
  canonical_keys (map fst rs) /\ Forall (fun x => entries_ok mode (snd x)) rs.

Lemma no_separator rt : 64 ∉ rt -> split_at_separator rt = None.
Proof.
  induction rt as [|c rt IH]; [done|]. intros [Nc N]%not_elem_of_cons. cbn [split_at_separator].
  change CHANNEL_SELECTION_KEY_SEPARATOR with [64; 64]. cbn [starts_with].
  destruct (Z.eqb_spec 64 c); [by subst|]. cbn [andb]. by rewrite IH.
Qed.

Lemma parse_built_key rt src mode : rt ∈ RATIO_TYPES -> fst (parseResolutionKey (buildResolutionKey rt src mode)) = rt.
Proof.
  intros R%ratio_types_no_separator. unfold parseResolutionKey, buildResolutionKey.
  destruct (is_channel mode); cbn [andb]; [|by rewrite no_separator].
  destruct src as [|c src]; [by rewrite no_separator|]. cbn [str_truthy]. by rewrite split_at_separator_name.
Qed.

Lemma filter_canonical {A} (P : jsstr * A -> Prop) `{!forall x, Decision (P x)} (o : list (jsstr * A)) :
  canonical_keys (map fst o) -> canonical_keys (map fst (base.filter P o)).
Proof.
  induction o as [|[k v] o IH]; [done|]. intros C. inversion C as [|? ? C' F]; subst.
  rewrite filter_cons. case_decide; [|by apply IH]. cbn. constructor; [by apply IH|].
  rewrite Forall_map in F |- *. apply Forall_forall. intros x [_ I]%list_elem_of_filter.
  rewrite Forall_forall in F. by apply F.
Qed.

Lemma select_entries_ok mode rt value src prev : rt ∈ RATIO_TYPES ->
  canonical_keys (map fst prev) ->
  Forall (fun x => fst x = buildResolutionKey (r_ratioType (snd x)) (r_srcName (snd x)) mode /\
                   r_ratioType (snd x) ∈ RATIO_TYPES) prev ->
  entries_ok mode (select_entries mode rt value src prev).
Proof.
  intros R C K. unfold select_entries.
  set (kept := base.filter _ prev). set (kept' := if bool_decide _ then _ else kept).
  assert (S : forall x, x ∈ kept' -> x ∈ prev /\ getBillingCategory (r_ratioType (snd x)) = getBillingCategory rt).
  { intros x I. assert (I' : x ∈ kept) by (subst kept'; case_bool_decide; [by apply list_elem_of_filter in I as [_ I]|done]).
    apply list_elem_of_filter in I' as [Cx I']. split; [done|]. rewrite Forall_forall in K.
    destruct (K x I') as [Kx Rx]. by rewrite Kx, parse_built_key in Cx. }
  assert (C' : canonical_keys (map fst kept')) by (subst kept'; case_bool_decide; repeat apply filter_canonical; done).
  split.
  - unfold assoc_set. case_match.
    + destruct kept'; [done|]. cbn. destruct p. by case_match.
    + destruct kept' as [|[k v] l]; [done|]. cbn. repeat case_match; done.
  - by apply assoc_set_canonical.
  - apply assoc_set_Forall; [done|]. rewrite Forall_forall in K |- *. intros x I. by apply K, S.
  - exists (getBillingCategory rt). apply assoc_set_Forall; [done|]. apply Forall_forall. intros x I. by apply S.
Qed.

Lemma assoc_get_Forall {A} (P : A -> Prop) (o : list (jsstr * A)) k v :
  Forall (fun x => P (snd x)) o -> assoc_get o k = Some v -> P v.
Proof. intros F I%assoc_get_Some_In. rewrite Forall_forall in F. by apply (F (k, v)). Qed.

Lemma select_ticks_ok mode model rt value src rs : rt ∈ RATIO_TYPES -> ticks_ok mode rs ->
  ticks_ok mode (assoc_set rs model (select_entries mode rt value src (default [] (assoc_get rs model)))).
Proof.
  intros R [C F]. split; [by apply assoc_set_canonical|]. apply assoc_set_Forall; [|done]. cbn [snd].
  destruct (assoc_get rs model) as [entries|] eqn:E; cbn [default from_option id].
  - destruct (assoc_get_Forall _ _ _ _ F E) as [_ O K _]. by apply select_entries_ok.
  - by apply select_entries_ok; [|constructor|constructor].
Qed.

Lemma deselect_ticks_ok mode model rt upName rs : ticks_ok mode rs -> ticks_ok mode (deselect mode model rt upName rs).
Proof.
  intros [C F]. unfold deselect. destruct (assoc_get rs model) as [entries|] eqn:E; [|done].
  destruct (assoc_get entries _) as [res|]; [|done]. case_bool_decide; [|done].
  destruct (assoc_get_Forall _ _ _ _ F E) as [_ O K [cat Cat]].
  destruct (assoc_delete entries _) as [|x rest] eqn:D.
  - split; [by apply assoc_delete_canonical|by apply assoc_delete_Forall].
  - split; [by apply assoc_set_canonical|]. apply assoc_set_Forall; [|done]. cbn [snd]. rewrite <- D. split.
    + by rewrite D.
    + by apply assoc_delete_canonical.
    + by apply assoc_delete_Forall.
    + exists cat. by apply assoc_delete_Forall.
Qed.

Lemma ticks_ok_nil mode : ticks_ok mode [].
Proof. split; constructor. Qed.

(** ** Steps keep the ticked values in order *)

Definition page_ticks_ok (s : Sync) : Prop := ticks_ok (syncMode s) (resolutions s).

Lemma toggle_ticks_ok row upName checked s : w_ratioType row ∈ RATIO_TYPES -> page_ticks_ok s ->
  page_ticks_ok (toggleCell row upName checked s) /\ syncMode (toggleCell row upName checked s) = syncMode s.
Proof.
  intros R T. destruct checked; (split; [|done]); [by apply select_ticks_ok|by apply deselect_ticks_ok].
Qed.

Lemma filtered_known s : known_rows s -> Forall (fun row => w_ratioType row ∈ RATIO_TYPES) (filteredDataSource s).
Proof.
  unfold known_rows, filteredDataSource. case_match; [done|]. rewrite !Forall_forall.
  intros F x [_ I]%list_elem_of_filter. by apply F.
Qed.

Lemma bulk_ticks_ok upName checked s : known_rows s -> page_ticks_ok s ->
  page_ticks_ok (handleBulkSelect same_object upName checked s).
Proof.
  intros K%filtered_known T. unfold handleBulkSelect.
  assert (G : forall rows s', Forall (fun row => w_ratioType row ∈ RATIO_TYPES) rows -> page_ticks_ok s' ->
    page_ticks_ok (fold_left (fun s' row =>
      if checked then (if cell_selectable same_object s upName row then toggleCell row upName true s' else s')
      else toggleCell row upName false s') rows s')); [|by apply G].
  induction rows as [|row rows IH]; intros s' F T'; [done|]. apply Forall_cons in F as [R F]. cbn [fold_left].
  apply IH; [done|]. destruct checked; [destruct (cell_selectable _ _ _ _); [|done]|]; by apply toggle_ticks_ok.
Qed.

Lemma perform_ticks s b : resolutions (performSync t useSupplierPricingSave b s) = resolutions s /\
  syncMode (performSync t useSupplierPricingSave b s) = syncMode s.
Proof. unfold performSync. repeat case_match; done. Qed.

Lemma act_ticks a s : resolutions (act a s) = resolutions s /\ syncMode (act a s) = syncMode s.
Proof.
  destruct a; cbn [act]; try done.
  - unfold openOfficialModal. by case_match.
  - unfold openChannelModal. by case_match.
  - unfold confirmOfficialSelection, fetchRatiosFromChannels. by repeat case_match.
  - unfold confirmChannelSelection, fetchRatiosFromChannels. by repeat case_match.
  - unfold applySync. case_match; [apply perform_ticks|done].
  - unfold confirmConflicts. by destruct (perform_ticks (s <| confirmVisible := false |>) (buildPricingBaseline (options s))).
  - unfold setSearchKeyword, first_page. by case_match.
  - unfold setRatioTypeFilter, first_page. by case_match.
Qed.

Lemma reply_ticks_ok s s' : reply s s' -> page_ticks_ok s -> page_ticks_ok s'.
Proof.
  intros R T. destruct R as [pre post r s P|pre post missing payload rs s P L|pre post payload r s P|
    pre post requests captured mode r s P].
  - unfold channels_arrived. by destruct r.
  - done.
  - unfold ratios_arrived. destruct r as [[diffs errs]|m|m]; [|done|done].
    unfold page_ticks_ok. destruct errs, diffs; apply ticks_ok_nil.
  - unfold save_replied. destruct r as [results|]; [|done]. destruct (forallb id results); [|done].
    apply ticks_ok_nil.
Qed.

Lemma reachable_ticks_ok s : reachable s -> page_ticks_ok s.
Proof.
  induction 1 as [o|s s' _ T St]; [apply ticks_ok_nil|]. destruct St as [a s|row upName checked s K I _|upName checked s K|s s' R].
  - unfold page_ticks_ok. destruct (act_ticks a s) as [-> ->]. exact T.
  - apply toggle_ticks_ok; [|done]. apply filtered_known in K. rewrite Forall_forall in K. by apply K.
  - by apply bulk_ticks_ok.
  - by eapply reply_ticks_ok.
Qed.

(** A property of all ticked fields of a model holds in each of its groups. *)
Lemma group_ratios_Forall (P : jsstr -> Prop) mode ratios :
  Forall (fun x => P (resolved_type x.1 x.2)) ratios ->
  Forall (fun x => Forall (fun kv => P (fst kv)) (g_ratios (snd x))) (group_ratios mode ratios).
Proof.
  intros F. unfold group_ratios.
  assert (A : forall rt v src target (gs : list (Target * Group)), P rt ->
    Forall (fun x => Forall (fun kv => P (fst kv)) (g_ratios (snd x))) gs ->
    Forall (fun x => Forall (fun kv => P (fst kv)) (g_ratios (snd x))) (add_to_groups target (add_to_group rt v src) gs)).
  { intros rt v src target gs R G. induction G as [|[t' g] gs Gx G IH]; cbn.
    - constructor; [|constructor]. cbn. by constructor.
    - case_bool_decide; constructor; try done. cbn. by apply assoc_set_Forall. }
  assert (N : Forall (fun x : Target * Group => Forall (fun kv => P (fst kv)) (g_ratios (snd x))) []) by constructor.
  revert N. generalize (@nil (Target * Group)). induction F as [|[k res] ratios R F IH]; [done|].
  intros gs G. cbn [fold_left]. by apply IH, A.
Qed.

Lemma ratio_type_nonempty rt : rt ∈ RATIO_TYPES -> str_truthy rt = true.
Proof.
  intros R. assert (F : Forall (fun rt => str_truthy rt = true) RATIO_TYPES) by (repeat constructor).
  rewrite Forall_forall in F. by apply F.
Qed.

Lemma ticks_resolved mode entries : entries_ok mode entries ->
  Forall (fun x => resolved_type x.1 x.2 = r_ratioType x.2 /\ r_ratioType x.2 ∈ RATIO_TYPES) entries.
Proof.
  intros [_ _ K _]. eapply Forall_impl; [exact K|]. intros x [_ R]. split; [|done].
  unfold resolved_type, str_or. by rewrite ratio_type_nonempty.
Qed.

Lemma ticks_resolutions_ok mode rs : ticks_ok mode rs -> resolutions_ok rs.
Proof.
  intros [C F]. split; [by apply canonical_NoDup|]. eapply Forall_impl; [exact F|].
  intros x E%ticks_resolved. eapply Forall_impl; [exact E|]. by intros y [-> R].
Qed.

Lemma price_category rt : getBillingCategory rt = getBillingCategory (js "model_price") -> rt = js "model_price".
Proof. unfold getBillingCategory. rewrite (bool_decide_true (js "model_price" = _)) by done. by case_bool_decide. Qed.

(** C20. In every reachable state the ticked values are in order: each is
    filed under the key of its field and column, they meet the conditions
    under which the merge is exact, and of one model they belong to one
    billing category, so that a fixed price is never written together with
    another field. *)
Theorem one_billing_category s : reachable s ->
  ticks_ok (syncMode s) (resolutions s) /\ resolutions_ok (resolutions s) /\
  forall target model, let r := ticked_values (syncMode s) (resolutions s) target model in
    hasPrice r = true -> map fst r = [js "model_price"].
Proof.
  intros T%reachable_ticks_ok. pose proof (ticks_resolutions_ok _ _ T) as R. split_and!; [done|done|].
  intros target model r Hp. unfold hasPrice in Hp. apply bool_decide_eq_true in Hp.
  destruct (ticked_values_ok (syncMode s) (resolutions s) target model R) as [N _]. fold r in N.
  destruct (ticked_values_group (syncMode s) (resolutions s) target model) as (ratios & g & I & J & G).
  { fold r. intros E. rewrite E in Hp. by apply not_elem_of_nil in Hp. }
  fold r in G. destruct T as [_ F]. rewrite Forall_forall in F. pose proof (F _ I) as E. cbn in E.
  pose proof (ticks_resolved _ _ E) as Rt. destruct (e_category _ _ E) as [cat Cat].
  assert (A : Forall (fun rt => getBillingCategory rt = cat) (map fst r)).
  { assert (Pr : Forall (fun x => getBillingCategory (resolved_type x.1 x.2) = cat) ratios).
    { rewrite Forall_forall in Rt, Cat |- *. intros x Ix. destruct (Rt x Ix) as [-> _]. by apply Cat. }
    rewrite <- G, Forall_map. exact (proj1 (Forall_forall _ _)
      (group_ratios_Forall (fun rt => getBillingCategory rt = cat) _ _ Pr) (target, g) J). }
  assert (P : Forall (fun rt => rt = js "model_price") (map fst r)).
  { rewrite Forall_forall in A |- *. intros rt Ir. apply price_category. by rewrite (A rt Ir), (A _ Hp). }
  clear -N P Hp. destruct (map fst r) as [|a [|b l]]; [by apply not_elem_of_nil in Hp| |].
  - apply Forall_cons in P as [-> _]. done.
  - apply Forall_cons in P as [-> P]. apply Forall_cons in P as [-> _].
    apply NoDup_cons in N as [N _]. destruct N. left.
Qed.

(** ** Loading *)

Definition weight (p : Pending) : nat := match p with PModelNames _ _ => 2 | _ => 1 end.
Definition outstanding (s : Sync) : nat := sum_list_with weight (pending s).

Definition for_loading (p : Pending) : bool := match p with PChannels | PSave _ _ _ => true | _ => false end.

(** A flag is set only while a request that clears it is in flight. *)
Definition flags_ok (s : Sync) : Prop :=
  (loading s = true -> Exists (fun p => for_loading p = true) (pending s)) /\
  (syncLoading s = true -> Exists (fun p => for_loading p = false) (pending s)).

Lemma flags_send p s s' : flags_ok s -> pending s' = pending s ++ [p] ->
  (loading s' = true -> loading s = true \/ for_loading p = true) ->
  (syncLoading s' = true -> syncLoading s = true \/ for_loading p = false) -> flags_ok s'.
Proof.
  intros [L S] P Hl Hs. split; rewrite P, Exists_app; intros X.
  - destruct (Hl X); [left; by apply L|right; by constructor].
  - destruct (Hs X); [left; by apply S|right; by constructor].
Qed.

Lemma flags_same s s' : flags_ok s -> pending s' = pending s ->
  (loading s' = true -> loading s = true) -> (syncLoading s' = true -> syncLoading s = true) -> flags_ok s'.
Proof. intros [L S] P Hl Hs. split; rewrite P; auto. Qed.

Lemma perform_flags b s : flags_ok s -> flags_ok (performSync t useSupplierPricingSave b s).
Proof.
  intros F. unfold performSync. destruct (build_final _ _ _); [done|]. destruct (updates _ _ _ _) as [|r rs].
  - by apply (flags_same s).
  - eapply flags_send; [exact F|reflexivity|by right|by left].
Qed.

Lemma fetch_flags l mode s : flags_ok s -> flags_ok (fetchRatiosFromChannels l mode s).
Proof.
  intros F. unfold fetchRatiosFromChannels.
  destruct mode; [|destruct (missing_channels _ _)]; (eapply flags_send; [exact F|reflexivity|by left|by right]).
Qed.

Lemma act_flags a s : flags_ok s -> flags_ok (act a s).
Proof.
  intros F. pose proof (fun s' => flags_same s s' F) as Same.
  destruct a; cbn [act]; try (by apply Same).
  - unfold openOfficialModal. case_match; [|by apply Same]. by eapply flags_send; [exact F|reflexivity|right|left].
  - unfold openChannelModal. case_match; [|by apply Same]. by eapply flags_send; [exact F|reflexivity|right|left].
  - unfold confirmOfficialSelection. case_match; [by apply Same|]. apply fetch_flags. by apply Same.
  - unfold confirmChannelSelection. case_match; [by apply Same|]. apply fetch_flags. by apply Same.
  - unfold applySync. case_match; [by apply perform_flags|by apply Same].
  - unfold confirmConflicts. apply perform_flags. by apply Same.
  - unfold setSearchKeyword, first_page. by case_match; apply Same.
  - unfold setRatioTypeFilter, first_page. by case_match; apply Same.
Qed.

Lemma toggle_flags row upName checked s : flags_ok s -> flags_ok (toggleCell row upName checked s).
Proof. intros F. destruct checked; by apply (flags_same s). Qed.

Lemma bulk_flags upName checked s : flags_ok s -> flags_ok (handleBulkSelect same_object upName checked s).
Proof.
  intros F. unfold handleBulkSelect. generalize (filteredDataSource s) as rows.
  assert (G : forall rows s', flags_ok s' -> flags_ok (fold_left (fun s' row =>
    if checked then (if cell_selectable same_object s upName row then toggleCell row upName true s' else s')
    else toggleCell row upName false s') rows s')); [|intros rows; by apply G].
  induction rows as [|row rows IH]; intros s' F'; [done|]. apply IH.
  destruct checked; [destruct (cell_selectable _ _ _ _); [|done]|]; by apply toggle_flags.
Qed.

(** Taking a request out of the queue. *)
Lemma Exists_remove {A} (P : A -> Prop) pre x post : ~ P x ->
  Exists P (pre ++ x :: post) -> Exists P (pre ++ post).
Proof. intros N. rewrite !Exists_app, Exists_cons. tauto. Qed.

Lemma outstanding_remove pre p post : sum_list_with weight (pre ++ p :: post)
  = (weight p + sum_list_with weight (pre ++ post))%nat.
Proof. rewrite !sum_list_with_app. cbn. lia. Qed.

(** A reply keeps the flags in order and leaves fewer replies to come. *)
Lemma reply_flags s s' : reply s s' -> flags_ok s -> flags_ok s' /\ (outstanding s' < outstanding s)%nat.
Proof.
  intros R [L S]. unfold outstanding.
  destruct R as [pre post r s P|pre post missing payload rs s P Len|pre post payload r s P|
    pre post requests captured mode r s P]; rewrite P in L, S |- *; rewrite outstanding_remove.
  - assert (pending (channels_arrived t r (s <| pending := pre ++ post |>)) = pre ++ post /\
      loading (channels_arrived t r (s <| pending := pre ++ post |>)) = false /\
      syncLoading (channels_arrived t r (s <| pending := pre ++ post |>)) = syncLoading s) as (Q & Ql & Qs)
      by (by destruct r).
    unfold flags_ok. rewrite Q, Ql, Qs. split; [|cbn; lia]. split; [done|].
    intros X. eapply Exists_remove; [|by apply S]. done.
  - cbn [model_names_arrived]. unfold flags_ok. split.
    + split; cbn; intros X; rewrite Exists_app.
      * left. eapply Exists_remove; [|by apply L]. done.
      * right. by constructor.
    + change (pending (model_names_arrived t missing rs payload (s <| pending := pre ++ post |>)))
        with ((pre ++ post) ++ [PRatios payload]). rewrite sum_list_with_app. cbn. lia.
  - assert (pending (ratios_arrived t payload r (s <| pending := pre ++ post |>)) = pre ++ post /\
      loading (ratios_arrived t payload r (s <| pending := pre ++ post |>)) = loading s /\
      syncLoading (ratios_arrived t payload r (s <| pending := pre ++ post |>)) = false) as (Q & Ql & Qs)
      by (by destruct r as [[[|] [|]]| |]).
    unfold flags_ok. rewrite Q, Ql, Qs. split; [|cbn; lia]. split; [|done].
    intros X. eapply Exists_remove; [|by apply L]. done.
  - assert (pending (save_replied t captured mode r (s <| pending := pre ++ post |>)) = pre ++ post /\
      loading (save_replied t captured mode r (s <| pending := pre ++ post |>)) = false /\
      syncLoading (save_replied t captured mode r (s <| pending := pre ++ post |>)) = syncLoading s) as (Q & Ql & Qs)
      by (unfold save_replied; destruct r as [results|]; [destruct (forallb id results)|]; done).
    unfold flags_ok. rewrite Q, Ql, Qs. split; [|cbn; lia]. split; [done|].
    intros X. eapply Exists_remove; [|by apply S]. done.
Qed.

Lemma reachable_flags s : reachable s -> flags_ok s.
Proof.
  induction 1 as [o|s s' _ F St]; [by split|]. destruct St as [a s|row upName checked s K I _|upName checked s K|s s' R].
  - by apply act_flags.
  - by apply toggle_flags.
  - by apply bulk_flags.
  - by eapply reply_flags.
Qed.

(** Every pending request can be answered. *)
Lemma reply_exists s : pending s <> [] -> exists s', reply s s'.
Proof.
  intros N. destruct (pending s) as [|p post] eqn:P; [done|]. destruct p as [|missing payload|payload|rq cap mode].
  - eexists. by apply (reply_channels [] post (RFail [])).
  - eexists. apply (reply_names [] post missing payload (replicate (length missing) (RFail []))); [done|].
    by rewrite length_replicate.
  - eexists. by apply (reply_ratios [] post payload (RFail [])).
  - eexists. by apply (reply_save [] post rq cap mode None).
Qed.

(** C21. The page does not load for ever.  From every reachable state, replies
    alone arrive a bounded number of times; as long as one is missing another
    can arrive; and when none is missing, neither loading flag is set,
    whatever the replies were. *)
Theorem loading_ends s n s' : reachable s -> nsteps reply n s s' ->
  (n + outstanding s' <= outstanding s)%nat /\
  (pending s' <> [] -> exists s'', reply s' s'') /\
  (pending s' = [] -> loading s' = false /\ syncLoading s' = false).
Proof.
  intros F%reachable_flags N.
  assert (G : flags_ok s' /\ (n + outstanding s' <= outstanding s)%nat).
  { induction N as [s|n s s1 s' R N IH]; [by split; [|lia]|]. destruct (reply_flags s s1 R F) as [F1 D].
    destruct (IH F1) as [F' L]. split; [done|lia]. }
  destruct G as [[L S] D]. split; [done|]. split; [apply reply_exists|]. intros P. rewrite P in L, S.
  split; [destruct (loading s')|destruct (syncLoading s')]; try done.
  - by destruct (proj1 (Exists_nil _) (L eq_refl)).
  - by destruct (proj1 (Exists_nil _) (S eq_refl)).
Qed.
End Machine.

(** ** Endpoints *)

(** The tests for the presets read fields the record does not have. *)
Lemma default_endpoint_record channel : default_endpoint (transfer_record channel)
  = if is_number (vget channel (js "type")) (num_of_Z 60) then js "tokenfactoryopen"
    else if is_number (vget channel (js "type")) (num_of_Z 20) then js "openrouter"
    else DEFAULT_ENDPOINT.
Proof. reflexivity. Qed.

(** The endpoints of channels that are neither of type 20 nor 60. *)
Lemma merge_endpoints_get records prev key e : assoc_get (merge_endpoints records prev) key = Some e ->
  assoc_get prev key = Some e \/
  exists record, record ∈ records /\ to_str (vget record (js "key")) = key /\ e = default_endpoint record.
Proof.
  unfold merge_endpoints. revert prev. induction records as [|r records IH]; intros prev; [by left|]. cbn [fold_left].
  intros E. destruct (IH _ E) as [X|(r' & I & K & D)].
  - destruct (str_truthy (endpoint_of prev (vget r (js "key")))); [by left|]. rewrite assoc_get_set in X.
    case_decide as Dk; [|by left]. right. exists r. injection X as <-. split_and!; [left|done|done].
  - right. exists r'. split_and!; [by right|done|done].
Qed.

Lemma merge_endpoints_known records prev r : r ∈ records ->
  is_Some (assoc_get (merge_endpoints records prev) (to_str (vget r (js "key")))).
Proof.
  unfold merge_endpoints. revert prev. induction records as [|r' records IH]; intros prev; [by intros ?%not_elem_of_nil|].
  intros [->|I]%elem_of_cons; [|by apply IH]. cbn [fold_left]. clear IH.
  assert (G : forall records m, is_Some (assoc_get m (to_str (vget r' (js "key")))) ->
    is_Some (assoc_get (fold_left (fun merged channel =>
      let id := vget channel (js "key") in
      if str_truthy (endpoint_of merged id) then merged
      else assoc_set merged (to_str id) (default_endpoint channel)) records m) (to_str (vget r' (js "key"))))).
  { induction records0 as [|x records0 IH]; intros m [e E]; [by exists e|]. cbn [fold_left]. apply IH.
    cbv zeta. case_match; [by exists e|]. rewrite assoc_get_set. case_decide; by eexists. }
  apply G. cbv zeta. destruct (str_truthy (endpoint_of prev (vget r' (js "key")))) eqn:T.
  - unfold endpoint_of in T. destruct (assoc_get prev _); [by eexists|done].
  - rewrite assoc_get_set, decide_True by done. by eexists.
Qed.

(** The presets are asked at the default endpoint.  After the channels
    were loaded, every channel has an endpoint, which is that of
    TokenFactoryOpen or OpenRouter for channels of these types and the
    default one for all others: the endpoints of the official preset and of
    models.dev are never used, although the code has them. *)
Theorem preset_endpoints_unused t channels s s' channel :
  channelEndpoints s = [] -> s' = channels_arrived t (ROk channels) s -> channel ∈ channels ->
  (forall c, c ∈ channels -> to_str (vget c (js "id")) = to_str (vget channel (js "id")) ->
     vget c (js "type") = vget channel (js "type")) ->
  let endpoint := endpoint_of (channelEndpoints s') (vget channel (js "id")) in
  endpoint = (if is_number (vget channel (js "type")) (num_of_Z 60) then js "tokenfactoryopen"
              else if is_number (vget channel (js "type")) (num_of_Z 20) then js "openrouter"
              else DEFAULT_ENDPOINT) /\
  endpoint <> OFFICIAL_RATIO_PRESET_ENDPOINT /\ endpoint <> MODELS_DEV_PRESET_ENDPOINT.
Proof.
  intros E -> I U endpoint. unfold endpoint, endpoint_of.
  change (channelEndpoints (channels_arrived t (ROk channels) s))
    with (merge_endpoints (map transfer_record channels) (channelEndpoints s)). rewrite E.
  destruct (merge_endpoints_known (map transfer_record channels) [] (transfer_record channel)) as [e K].
  { by apply list_elem_of_fmap_2. }
  change (vget (transfer_record channel) (js "key")) with (vget channel (js "id")) in K. rewrite K.
  cbn [default from_option id]. apply merge_endpoints_get in K as [K|(r & Ir & Kr & ->)]; [done|].
  apply list_elem_of_fmap in Ir as (c & -> & Ic).
  change (vget (transfer_record c) (js "key")) with (vget c (js "id")) in Kr.
  rewrite default_endpoint_record, (U c Ic Kr). split; [done|].
  split; repeat case_match; intros X; vm_compute in X; discriminate.
Qed.

(** ** Witnesses *)

Definition sample_diff : list (jsstr * jsval) :=
  [(js "gpt", VObj [(js "model_ratio", VObj [(js "current", VNum n1);
     (js "upstreams", VObj [(js "up", VNum (num_of_Z 2))])])])].

Definition preset : jsval :=
  VObj [(js "id", VNum MODELS_DEV_PRESET_ID); (js "name", VStr MODELS_DEV_PRESET_NAME);
        (js "base_url", VStr MODELS_DEV_PRESET_BASE_URL)].

Lemma preset_endpoints_unused_witness :
  endpoint_of (channelEndpoints (channels_arrived id (ROk [preset]) (initial_sync []))) (VNum MODELS_DEV_PRESET_ID)
  = DEFAULT_ENDPOINT.
Proof.
  destruct (preset_endpoints_unused id [preset] (initial_sync [])
    (channels_arrived id (ROk [preset]) (initial_sync [])) preset) as [E _].
  - reflexivity.
  - reflexivity.
  - constructor.
  - intros c ->%list_elem_of_singleton _. reflexivity.
  - exact E.
Defined.

Definition opened : Sync := openOfficialModal (initial_sync []).

Lemma loading_ends_witness : exists s,
  nsteps (reply id) 1 opened s /\ loading opened = true /\ loading s = false.
Proof.
  set (s := channels_arrived id (ROk [preset]) (opened <| pending := [] |>)).
  assert (N : nsteps (reply id) 1 opened s).
  { apply nsteps_once. by apply (reply_channels id [] [] (ROk [preset]) opened). }
  exists s. split; [exact N|]. split; [reflexivity|].
  apply (loading_ends (H := code_unit_unicode) (fun _ _ => false) id false opened 1 s); [|exact N|reflexivity].
  apply (reachable_step _ _ _ (initial_sync [])); [constructor|].
  apply (step_act _ _ _ AOpenOfficial (initial_sync [])).
Defined.

(** The preset is chosen, its differences arrive and a ratio is ticked. *)
Definition confirmed : Sync :=
  act (H := code_unit_unicode) id false AConfirmOfficial
    (act (H := code_unit_unicode) id false (ASelectOfficialIds [VNum MODELS_DEV_PRESET_ID])
      (channels_arrived id (ROk [preset]) (opened <| pending := [] |>))).
Definition fetched : Sync :=
  match pending confirmed with
  | [PRatios payload] => ratios_arrived id payload (ROk (sample_diff, [])) (confirmed <| pending := [] |>)
  | _ => confirmed
  end.
Definition sample_row : Row := {|
  w_key := js "gpt_model_ratio"; w_model := js "gpt"; w_ratioType := js "model_ratio"; w_current := VNum n1;
  w_upstream_old := VObj []; w_upstreams := VObj [(js "up", VNum (num_of_Z 2))]; w_confidence := VObj [];
  w_billingConflict := false |}.

Lemma sample_rows : dataSource (H := code_unit_unicode) fetched = [sample_row].
Proof. vm_compute. reflexivity. Qed.

Lemma one_billing_category_witness :
  let s := toggleCell sample_row (js "up") true fetched in
  map fst (resolutions s) = [js "gpt"] /\ ticks_ok (syncMode s) (resolutions s).
Proof.
  intros s. split; [vm_compute; reflexivity|].
  apply (one_billing_category (H := code_unit_unicode) (fun _ _ => false) id false s).
  eapply reachable_step; [|apply step_toggle].
  - apply (reachable_step _ _ _ confirmed).
    + do 2 (eapply reachable_step; [|apply step_act]). eapply reachable_step; [|apply step_reply].
      * eapply reachable_step; [apply (reachable_initial _ _ _ [])|]. apply (step_act _ _ _ AOpenOfficial).
      * by apply (reply_channels id [] [] (ROk [preset]) opened).
    + apply step_reply. destruct (pending confirmed) as [|p ps] eqn:P; [vm_compute in P; discriminate|].
      destruct p as [| |payload|]; try (vm_compute in P; discriminate).
      destruct ps; [|vm_compute in P; discriminate].
      replace fetched with (ratios_arrived id payload (ROk (sample_diff, [])) (confirmed <| pending := [] |>)).
      * by apply (reply_ratios id [] [] payload (ROk (sample_diff, [])) confirmed).
      * unfold fetched. by rewrite P.
  - unfold known_rows. rewrite sample_rows. apply Forall_singleton, known_type. vm_compute. reflexivity.
  - replace (filteredDataSource fetched) with [sample_row] by (symmetry; apply sample_rows). constructor.
  - intros _. vm_compute. reflexivity.
Defined.
