(* ===== verification/QuotaDisplay.v ===== *)
(** * Showing and entering quota amounts

    The helpers of [web/src/helpers/render.jsx] that turn an internal quota
    (an integer number of points) into the amount the console shows in the
    chosen currency, and an amount typed by the user back into a quota.  The
    settings they read from the browser's local storage are a record that
    every function takes as an argument.  Digits are the integers the callers
    pass ([0] to [6]). *)

From Stdlib Require Import SpecFloat.
From stdpp Require Import base list numbers strings.
From S2P Require Import Prelude JsNumber JsString JsValue JsJson JsRound.
Local Open Scope Z_scope.
Local Open Scope js_scope.

(** ** Settings *)

(** The items of [localStorage] the helpers read; [None] is a missing item. *)
Record LocalStorage := {
  quota_per_unit : option jsstr;
  quota_display_type : option jsstr;
  status : option jsstr
}.

(** [localStorage.getItem(k) || d] *)
Definition item_or (item : option jsstr) (d : jsstr) : jsstr :=
  match item with Some s => str_or s d | None => d end.

(** [parseFloat(localStorage.getItem(k))]: a missing item reads as the text
    [null], which is not a number. *)
Definition parse_item (item : option jsstr) : spec_float :=
  parse_float (default (js "null") item).

Definition getQuotaDisplayType (st : LocalStorage) : jsstr := item_or (quota_display_type st) (js "USD").

Definition is_type (st : LocalStorage) (t : jsstr) : bool := bool_decide (getQuotaDisplayType st = t).

(** [d], unless the stored status is JSON: then [s?.k || fallback]. *)
Definition status_field (st : LocalStorage) (k : jsstr) (d fallback : jsval) : jsval :=
  match status st with
  | Some t =>
      if str_truthy t then
        match JSON_parse t with
        | Some s => vget s k ||| fallback
        | None => d
        end
      else d
  | None => d
  end.

Definition getQuotaPerUnit (st : LocalStorage) : spec_float := parse_item (quota_per_unit st).

(** [Math.pow(10, d)] *)
Definition pow10 (d : Z) : spec_float := dec_num false 1 d.

(** ** Texts of numbers *)

(** [s.replace(/\.?0+$/, '')] *)
Definition strip_point_zeros (s : jsstr) : jsstr :=
  let r := reverse s in
  let r' := drop_zeros r in
  if bool_decide (r' = r) then s
  else match r' with
       | c :: r'' => if c =? 46 then reverse r'' else reverse r'
       | [] => []
       end.

Definition toFixedTruncated (num : jsval) (fractionDigits : Z) : jsstr :=
  let n := to_num num in
  if negb (isFinite n) then to_str (num ??? VStr [])
  else
    let factor := pow10 fractionDigits in
    let truncated :=
      ndiv ((if nleb n0 n then math_floor else math_ceil) (nmul n factor)) factor in
    to_fixed fractionDigits truncated.

Definition trimFixedDecimalDisplay (num : jsval) (fractionDigits : Z) : jsstr :=
  let n := to_num num in
  if negb (isFinite n) then to_str (num ??? VStr [])
  else
    let s := toFixedTruncated (VNum n) fractionDigits in
    if includes (js ".") s then strip_point_zeros s else s.

Definition renderNumber (num : jsval) : jsval :=
  let n := to_num num in
  let scaled (d : Z) (unit : jsstr) := VStr (to_fixed 1 (ndiv n (num_of_Z d)) ++ unit) in
  if nleb (num_of_Z 1000000000) n then scaled 1000000000 (js "B")
  else if nleb (num_of_Z 1000000) n then scaled 1000000 (js "M")
  else if nleb (num_of_Z 10000) n then scaled 1000 (js "k")
  else num.

Definition renderQuotaNumberWithDigit (st : LocalStorage) (num : jsval) (digits : Z) : jsval :=
  match num with
  | VNum x =>
      if neqb x x then
        let trimmed := trimFixedDecimalDisplay (VNum (parse_float (to_fixed digits x))) digits in
        if is_type st (js "CNY") then VStr (js "¥" ++ trimmed)
        else if is_type st (js "USD") then VStr (js "$" ++ trimmed)
        else if is_type st (js "CUSTOM") then
          let symbol := status_field st (js "custom_currency_symbol") (VStr (js "¤")) (VStr (js "¤")) in
          VStr (to_str symbol ++ trimmed)
        else VStr trimmed
      else VNum n0
  | _ => VNum n0
  end.

(** [undefined], or a number. *)
Definition renderNumberWithPoint (num : option spec_float) : jsval :=
  match num with
  | None => VStr []
  | Some num =>
      let num := parse_float (to_fixed 2 num) in
      if nleb (num_of_Z 100000) num then
        let numStr := str_of_num num in
        let '(wholePart, decimalPart) :=
          match find_index (fun c => c =? 46) numStr with
          | Some i => (take i numStr, drop i numStr)
          | None => (numStr, [])
          end in
        let shortenedWholePart :=
          take 2 wholePart ++ js ".." ++ drop (length wholePart - 2) wholePart in
        VStr (shortenedWholePart ++ decimalPart)
      else VNum num
  end.

(** ** Amounts typed by the user *)

(** [parseFloat(localStorage.getItem('quota_per_unit') || '500000')] *)
Definition input_unit (st : LocalStorage) : spec_float :=
  parse_float (item_or (quota_per_unit st) (js "500000")).

Definition usd_rate (st : LocalStorage) (d fallback : Z) : spec_float :=
  to_num (status_field st (js "usd_exchange_rate") (VNum (num_of_Z d)) (VNum (num_of_Z fallback))).

Definition custom_rate (st : LocalStorage) : spec_float :=
  to_num (status_field st (js "custom_currency_exchange_rate") (VNum n1) (VNum n1)).

Definition quotaToDisplayInputAmount (st : LocalStorage) (quota : jsval) : spec_float :=
  let q := to_num quota in
  if nullish quota || negb (neqb q q) then n0
  else
    let quotaPerUnit := input_unit st in
    if is_type st (js "TOKENS") then q
    else
      let resultUSD := ndiv q quotaPerUnit in
      if is_type st (js "CNY") then nmul resultUSD (usd_rate st 7 7)
      else if is_type st (js "CUSTOM") then nmul resultUSD (custom_rate st)
      else resultUSD.

Definition displayInputAmountToQuota (st : LocalStorage) (amount : jsval) : spec_float :=
  let a := to_num amount in
  if nullish amount || negb (neqb a a) then n0
  else
    let quotaPerUnit := input_unit st in
    if is_type st (js "TOKENS") then math_round a
    else
      let resultUSD :=
        if is_type st (js "CNY") then ndiv a (usd_rate st 7 7)
        else if is_type st (js "CUSTOM") then ndiv a (custom_rate st)
        else a in
      math_round (nmul resultUSD quotaPerUnit).

Definition renderUnitWithQuota (st : LocalStorage) (quota : jsval) : spec_float :=
  nmul (getQuotaPerUnit st) (parse_float (to_str quota)).

Definition getQuotaWithUnit (st : LocalStorage) (quota : jsval) (digits : Z) : jsstr :=
  to_fixed digits (ndiv (to_num quota) (getQuotaPerUnit st)).

Definition renderQuotaWithAmount (st : LocalStorage) (amount : jsval) : jsval :=
  if is_type st (js "TOKENS") then renderNumber (VNum (renderUnitWithQuota st amount))
  else
    let numericAmount := to_num amount in
    let formattedAmount :=
      if isFinite numericAmount
      then VStr (trimFixedDecimalDisplay (VNum (parse_float (to_fixed 2 numericAmount))) 2)
      else amount in
    if is_type st (js "CNY") then VStr (js "¥" ++ to_str formattedAmount)
    else if is_type st (js "CUSTOM") then
      let symbol := status_field st (js "custom_currency_symbol") (VStr (js "¤")) (VStr (js "¤")) in
      VStr (to_str symbol ++ to_str formattedAmount)
    else VStr (js "$" ++ to_str formattedAmount).

Record DisplayCurrency := { symbol : jsval; rate : jsval; type : jsstr }.

Definition getCurrencyConfig (st : LocalStorage) : DisplayCurrency :=
  if is_type st (js "CNY") then
    {| symbol := VStr (js "¥");
       rate := status_field st (js "usd_exchange_rate") (VNum n1) (VNum (num_of_Z 7));
       type := getQuotaDisplayType st |}
  else if is_type st (js "CUSTOM") then
    {| symbol := status_field st (js "custom_currency_symbol") (VStr (js "$")) (VStr (js "¤"));
       rate := status_field st (js "custom_currency_exchange_rate") (VNum n1) (VNum n1);
       type := getQuotaDisplayType st |}
  else {| symbol := VStr (js "$"); rate := VNum n1; type := getQuotaDisplayType st |}.

Definition convertUSDToCurrency (st : LocalStorage) (usdAmount : jsval) (digits : Z) : jsstr :=
  let config := getCurrencyConfig st in
  let convertedAmount := nmul (to_num usdAmount) (to_num (rate config)) in
  to_str (symbol config) ++ str_of_num (parse_float (to_fixed digits convertedAmount)).

(** ** Quota amounts *)

(** [parseFloat(toFixedTruncated(v, d)) !== 0] *)
Definition shows_nonzero (v : spec_float) (d : Z) : bool :=
  negb (neqb (parse_float (toFixedTruncated (VNum v) d)) n0).

(** [for (let d = ...; d <= maxDigits; d++)]; [None] when the iterations are
    used up before the loop ends. *)
Fixpoint pick_loop (fuel : nat) (v : spec_float) (d maxDigits : Z) : option Z :=
  if d <=? maxDigits then
    if shows_nonzero v d then Some d
    else match fuel with
         | O => None
         | S f => pick_loop f v (d + 1) maxDigits
         end
  else Some maxDigits.

Definition pickDigits (fuel : nat) (displayValue : jsval) (minDigits maxDigits : Z) : option Z :=
  let v := to_num displayValue in
  if negb (isFinite v) || neqb v n0 then Some minDigits
  else if shows_nonzero v minDigits then Some minDigits
  else pick_loop fuel v (minDigits + 1) maxDigits.

(** The loop runs at most [maxDigits - minDigits] times. *)
Definition pickQuotaDisplayFractionDigits (displayValue : jsval) (minDigits maxDigits : Z) : Z :=
  default maxDigits
    (pickDigits (Z.to_nat (maxDigits - minDigits)) displayValue minDigits maxDigits).

(** [None] is the [null] of the token display. *)
Definition quotaToDisplayCurrencyParts (st : LocalStorage) (quota : jsval) : option (jsval * spec_float) :=
  let quotaPerUnit := getQuotaPerUnit st in
  if is_type st (js "TOKENS") then None
  else
    let resultUSD := ndiv (to_num quota) quotaPerUnit in
    if is_type st (js "CNY") then Some (VStr (js "¥"), nmul resultUSD (usd_rate st 1 1))
    else if is_type st (js "CUSTOM") then
      Some (status_field st (js "custom_currency_symbol") (VStr (js "¤")) (VStr (js "¤")),
            nmul resultUSD (custom_rate st))
    else Some (VStr (js "$"), resultUSD).

Definition quotaToRoundedDisplayValue (st : LocalStorage) (quota : jsval) (digits : Z) : spec_float :=
  let q := to_num (quota ||| VNum n0) in
  match quotaToDisplayCurrencyParts st (VNum q) with
  | None => q
  | Some (_, value) =>
      let fixedResult := parse_float (toFixedTruncated (VNum value) digits) in
      if neqb fixedResult n0 && nltb n0 q && nltb n0 value then pow10 (- digits)
      else fixedResult
  end.

Definition renderQuota (st : LocalStorage) (quota : jsval) (digits : Z) : jsval :=
  match quotaToDisplayCurrencyParts st quota with
  | None => renderNumber quota
  | Some (symbol, value) =>
      let fixedResult := parse_float (toFixedTruncated (VNum value) digits) in
      let shown :=
        if neqb fixedResult n0 && nltb n0 (to_num quota) && nltb n0 value
        then pow10 (- digits) else fixedResult in
      VStr (to_str symbol ++ trimFixedDecimalDisplay (VNum shown) digits)
  end.

Definition renderQuotaSum (st : LocalStorage) (quotas : jsval) (digits : Z) : jsval :=
  match quotas with
  | VArr (q0 :: qs) =>
      match quotaToDisplayCurrencyParts st (VNum (to_num (q0 ||| VNum n0))) with
      | None =>
          let total := fold_left (fun acc q => nadd acc (to_num (q ||| VNum n0))) (q0 :: qs) n0 in
          renderQuota st (VNum total) digits
      | Some (symbol, _) =>
          let sum := fold_left (fun sum q => nadd sum (quotaToRoundedDisplayValue st q digits))
                       (q0 :: qs) n0 in
          let totalFixed := parse_float (to_fixed digits sum) in
          VStr (to_str symbol ++ trimFixedDecimalDisplay (VNum totalFixed) digits)
      end
  | _ => renderQuota st (VNum n0) digits
  end.

Definition renderLogStatDisplayQuota (st : LocalStorage) (stat : jsval) (digits : Z) : jsval :=
  let amount := vget stat (js "display_amount") in
  if negb (nullish stat) && negb (nullish amount) && isFinite (to_num amount) then
    if is_type st (js "TOKENS") then renderNumber (VNum (math_round (to_num amount)))
    else renderQuotaWithAmount st (VNum (to_num amount))
  else renderQuota st (vget stat (js "quota") ??? VNum n0) digits.

Definition renderQuotaFlexible (st : LocalStorage) (quota : jsval) (minDigits maxDigits : Z) : jsval :=
  match quotaToDisplayCurrencyParts st quota with
  | None => renderNumber quota
  | Some (symbol, value) =>
      let digits := pickQuotaDisplayFractionDigits (VNum value) minDigits maxDigits in
      let fixedResult := parse_float (toFixedTruncated (VNum value) digits) in
      VStr (to_str symbol ++ trimFixedDecimalDisplay (VNum fixedResult) digits)
  end.
