(* ===== verification/QuotaShown.v ===== *)
(** * What the shown quota amounts mean

    The theorems about [QuotaDisplay]: an amount entered for a quota gives the
    quota back, the text shown for a quota is a decimal close to its value,
    the digits of the flexible display are found after a bounded number of
    steps, and a total agrees with its rows up to one unit per row. *)

From Stdlib Require Import SpecFloat QArith Lqa.
From stdpp Require Import base list numbers strings.
From S2P Require Import Prelude JsNumber JsString JsValue JsJson JsOrder JsRound QuotaDisplay.
Local Open Scope Z_scope.

(** ** Texts with a fixed number of digits *)

Lemma drop_zeros_split r : exists n, r = replicate n 48 ++ drop_zeros r /\
  match drop_zeros r with c :: _ => c <> 48 | [] => True end.
Proof.
  induction r as [|c r (n & E & H)]; [by exists 0%nat|]. cbn.
  destruct (Z.eqb_spec c 48) as [->|N]; [|by exists 0%nat].
  exists (S n). split; [cbn; by f_equal|done].
Qed.

(** The digits of [toFixed]: an integer part, and a fraction of [d] digits. *)
Lemma fixed_digits_parts d n : 0 <= d -> 0 <= n ->
  exists ip fp, Forall (fun c => is_digit c = true) ip /\ ip <> [] /\
    Forall (fun c => is_digit c = true) fp /\ Z.of_nat (length fp) = d /\
    digits_val (ip ++ fp) = n /\
    fixed_digits d n = if d =? 0 then ip else ip ++ 46 :: fp.
Proof.
  intros D N. unfold fixed_digits.
  destruct (dec_digits_spec n N) as (c & ds & E & Hd & _ & V). rewrite E.
  set (z := zeros _). set (all := z ++ c :: ds).
  assert (A : Forall (fun c => is_digit c = true) all)
    by (apply Forall_app; split; [apply zeros_digits|done]).
  assert (L : (Z.to_nat d < length all)%nat).
  { unfold all, z, zeros. rewrite length_app, length_replicate. cbn. lia. }
  assert (V' : digits_val all = n)
    by (unfold all, z; rewrite digits_val_app, digits_val_zeros, V; lia).
  exists (take (length all - Z.to_nat d) all), (drop (length all - Z.to_nat d) all).
  rewrite take_drop, length_drop. split_and!; try done.
  - by apply Forall_take.
  - intros T%(f_equal length). rewrite length_take in T. cbn in T. lia.
  - by apply Forall_drop.
  - lia.
  - destruct (Z.eqb_spec d 0) as [->|]; [|done]. rewrite firstn_all2; [done|lia].
Qed.

Lemma includes_point ip fp : includes (js ".") (ip ++ 46 :: fp) = true.
Proof. induction ip as [|c ip IH]; [done|]. cbn [includes app]. rewrite IH. apply orb_true_r. Qed.

Lemma includes_digits ip : Forall (fun c => is_digit c = true) ip -> includes (js ".") ip = false.
Proof.
  induction 1 as [|c ip C _ IH]; [done|]. cbn [includes]. rewrite IH, orb_false_r.
  change (js ".") with [46]. cbn [starts_with]. destruct (Z.eqb_spec 46 c) as [<-|]; done.
Qed.

(** Reading the text of [toFixed]. *)
Lemma parse_fixed_digits d n : 0 <= d -> 0 <= n -> parse_float (fixed_digits d n) = dec_num false n (- d).
Proof.
  intros D N. destruct (fixed_digits_parts d n D N) as (ip & fp & I & Ne & F & L & V & ->).
  destruct (parse_float_digits ip fp I Ne F) as [P1 P2].
  destruct (Z.eqb_spec d 0) as [->|]; [|by rewrite P1, V, L].
  destruct fp; [|cbn in L; lia]. rewrite app_nil_r in V. by rewrite P2, V.
Qed.

(** Dropping the zeros at the end of the fraction. *)
Lemma strip_parts ip fp : Forall (fun c => is_digit c = true) ip -> ip <> [] ->
  Forall (fun c => is_digit c = true) fp ->
  parse_float (strip_point_zeros (ip ++ 46 :: fp))
  = dec_num false (digits_val (ip ++ fp)) (- Z.of_nat (length fp)).
Proof.
  intros I N F. destruct (drop_zeros_split (reverse fp)) as (n & E & H).
  set (r := drop_zeros (reverse fp)) in *.
  assert (Efp : fp = reverse r ++ replicate n 48)
    by (rewrite <- (reverse_involutive fp), E, reverse_app, reverse_replicate; done).
  assert (R : reverse (ip ++ 46 :: fp) = replicate n 48 ++ r ++ 46 :: reverse ip).
  { rewrite reverse_app, reverse_cons, E, <- !(assoc_L (++)). done. }
  assert (D : drop_zeros (replicate n 48 ++ r ++ 46 :: reverse ip) = r ++ 46 :: reverse ip).
  { clear -H. induction n as [|n IH]; [|exact IH]. cbn [replicate app]. destruct r as [|c r]; [done|].
    cbn [app drop_zeros]. destruct (Z.eqb_spec c 48); done. }
  unfold strip_point_zeros. rewrite R, D.
  destruct (decide (n = 0%nat)) as [->|Nn].
  { rewrite bool_decide_true by done. by apply parse_float_digits. }
  rewrite bool_decide_false.
  2:{ intros X%(f_equal length). rewrite !length_app, length_replicate in X. lia. }
  assert (V : dec_num false (digits_val (ip ++ fp)) (- Z.of_nat (length fp))
              = dec_num false (digits_val (ip ++ reverse r)) (- Z.of_nat (length (reverse r)))).
  { rewrite Efp, (assoc_L (++)), digits_val_app, length_app, length_replicate.
    pose proof (digits_val_zeros (Z.of_nat n)) as Z0. unfold zeros in Z0. rewrite Nat2Z.id in Z0.
    rewrite Z0, Z.add_0_r, dec_num_shift by lia. f_equal. lia. }
  rewrite V. assert (Fr : Forall (fun c => is_digit c = true) (reverse r)).
  { rewrite Efp in F. by apply Forall_app in F as [F _]. }
  destruct r as [|c r].
  - cbn [app Z.eqb Pos.eqb]. rewrite reverse_involutive. cbn [reverse rev_append]. rewrite app_nil_r.
    by apply (parse_float_digits ip []).
  - cbn [app]. rewrite reverse_cons in Fr. apply Forall_app in Fr as Fc. destruct Fc as [_ Fc].
    apply Forall_cons in Fc as [Fc _]. destruct (Z.eqb_spec c 46) as [->|_]; [done|].
    change (c :: r ++ 46 :: reverse ip) with ((c :: r) ++ 46 :: reverse ip).
    rewrite reverse_app, reverse_cons, reverse_involutive, <- (assoc_L (++)). cbn [app].
    apply parse_float_digits; [done|done|]. by rewrite reverse_cons.
Qed.

(** The trimmed text of [n] units of [10^-d]. *)
Definition trimmed (s : jsstr) : jsstr := if includes (js ".") s then strip_point_zeros s else s.

Lemma parse_trimmed d n : 0 <= d -> 0 <= n ->
  parse_float (trimmed (fixed_digits d n)) = dec_num false n (- d).
Proof.
  intros D N. rewrite <- (parse_fixed_digits d n D N) at 1.
  destruct (fixed_digits_parts d n D N) as (ip & fp & I & Ne & F & L & V & ->). unfold trimmed.
  destruct (Z.eqb_spec d 0) as [->|]; [by rewrite includes_digits|].
  rewrite includes_point, strip_parts by done. symmetry. by apply parse_float_digits.
Qed.

(** ** Truncation *)

(** The numbers of digits the console uses. *)
Definition digits_ok (d : Z) : Prop := 0 <= d <= 6.

Local Open Scope Q_scope.

(** [10^d] as a rational. *)
Definition scale (d : Z) : Q := inject_Z (10 ^ d).

Lemma pow10_bounds d : digits_ok d -> (1 <= 10 ^ d <= 1000000)%Z.
Proof.
  intros [L U]. split; [apply (Z.pow_le_mono_r 10 0 d)|apply (Z.pow_le_mono_r 10 d 6)]; lia.
Qed.

Lemma scale_bounds d : digits_ok d -> 1 <= scale d /\ scale d <= 1000000.
Proof. intros D. pose proof (pow10_bounds d D). split; apply inject_le; lia. Qed.

Lemma pow10_num d : digits_ok d -> pow10 d = num_of_Z (10 ^ d) /\ posnum (pow10 d) /\ qv (pow10 d) == scale d.
Proof.
  intros D. pose proof (pow10_bounds d D) as B. destruct D as [L U].
  assert (E : pow10 d = num_of_Z (10 ^ d)).
  { unfold pow10, dec_num, num_of_Z. rewrite (proj2 (Z.ltb_ge _ 0)), Z.abs_eq by lia.
    rewrite (Z.max_r 0 d), (Z.max_l 0 (- d)) by lia. f_equal. lia. }
  rewrite E. split; [done|]. apply num_of_Z_value. lia.
Qed.

Lemma small_pos : 0 < small.
Proof. done. Qed.

Lemma inject_range z q : (0 < z < 2 ^ 60)%Z -> (1 <= q <= 1000000)%Z -> normal (inject_Z z / inject_Z q).
Proof.
  intros Z0 Q0. split.
  - change small with (inject_Z 1 / inject_Z (2 ^ 1000)). apply ratio_le; [done|lia|].
    assert (1000000 < 2 ^ 1000)%Z by (vm_compute; done). nia.
  - change large with (inject_Z (2 ^ 1000) / inject_Z 1). apply ratio_le; [lia|done|].
    assert (2 ^ 60 < 2 ^ 1000)%Z by (vm_compute; done). nia.
Qed.

(** The decimal of [k] units of [10^-d] is within one rounding of it. *)
Lemma dec_num_near k d : (0 < k < 2 ^ 51)%Z -> digits_ok d ->
  posnum (dec_num false k (- d)) /\ near ulp (qv (dec_num false k (- d))) (inject_Z k / scale d).
Proof.
  intros K D. pose proof (pow10_bounds d D). unfold dec_num. destruct D as [L U].
  rewrite (Z.max_l 0 (- d)), Z.opp_involutive, (Z.max_r 0 d), Z.mul_1_r by lia.
  apply round_near; [lia|lia|]. apply inject_range; lia.
Qed.

(** It is the quotient of [k] by the power of ten. *)
Lemma div_pow10 k d : (0 < k < 2 ^ 51)%Z -> digits_ok d ->
  ndiv (num_of_Z k) (pow10 d) = dec_num false k (- d).
Proof.
  intros K D. pose proof (pow10_bounds d D) as B. destruct (pow10_num d D) as (-> & P & _).
  destruct (num_of_Z_value k ltac:(lia)) as [Pk Ek]. destruct (num_of_Z_value (10 ^ d) ltac:(lia)) as [Pd Ed].
  pose proof (vden_pos (num_of_Z k)). pose proof (vden_pos (num_of_Z (10 ^ d))). pose proof (posnum_vnum _ Pd).
  assert (V : forall z, qv (num_of_Z z) == inject_Z z -> vnum (num_of_Z z) = (z * vden (num_of_Z z))%Z).
  { intros z E. apply inject_Z_injective. rewrite inject_Z_mult, <- E. unfold qv. field. apply vden_neq. }
  pose proof (V k Ek) as Vk. pose proof (V _ Ed) as Vd.
  destruct Pk as (? & ? & _), Pd as (? & ? & _ & ?).
  destruct (ndiv_round (num_of_Z k) (num_of_Z (10 ^ d))) as [-> _]; try done.
  unfold dec_num. destruct D as [L U].
  rewrite (Z.max_l 0 (- d)), Z.opp_involutive, (Z.max_r 0 d), Z.mul_1_r by lia.
  apply round_ratio_cross; [nia|lia|]. rewrite Vk, Vd. ring.
Qed.

(** [toFixed] shows a number close to [k] units as exactly [k] units. *)
Lemma to_fixed_units x k d : posnum x -> (0 <= k < 2 ^ 51)%Z -> digits_ok d ->
  inject_Z k - (1 # 2) <= qv x * scale d -> qv x * scale d < inject_Z k + (1 # 2) ->
  to_fixed d x = fixed_digits d k.
Proof.
  intros X K D L U. unfold to_fixed. rewrite posnum_ratio by done.
  pose proof (pow10_bounds d D) as B. pose proof (vden_pos x) as V. pose proof (posnum_vnum x X).
  pose proof (inject_pos _ V) as V'. unfold qv in L, U.
  assert (W : inject_Z (vnum x) / inject_Z (vden x) * inject_Z (vden x) == inject_Z (vnum x))
    by (field; apply vden_neq).
  set (r := inject_Z (vnum x) / inject_Z (vden x)) in *.
  assert (A : (2 * k * vden x - vden x <= 2 * vnum x * 10 ^ d)%Z).
  { rewrite Zle_Qle. unfold Z.sub. rewrite inject_Z_plus, inject_Z_opp, !inject_Z_mult, <- W.
    fold (scale d). change (inject_Z 2) with 2. nra. }
  assert (C : (2 * vnum x * 10 ^ d < 2 * k * vden x + vden x)%Z).
  { rewrite Zlt_Qlt, inject_Z_plus, !inject_Z_mult, <- W. fold (scale d). change (inject_Z 2) with 2. nra. }
  rewrite (proj2 (Z.leb_gt _ _)) by (assert (2 ^ 51 < 10 ^ 21)%Z by done; nia).
  cbn [andb app]. f_equal. apply div_bounds; lia.
Qed.

Lemma scaled_near k d x e : (0 < k < 2 ^ 51)%Z -> digits_ok d ->
  near e x (inject_Z k / scale d) -> near e (x * scale d) (inject_Z k).
Proof.
  intros K D N. destruct (scale_bounds d D). apply (near_scale _ _ _ (scale d)) in N; [|lra].
  assert (E : inject_Z k / scale d * scale d == inject_Z k) by (field; apply pos_neq; lra).
  by rewrite E in N.
Qed.

Lemma to_fixed_dec k d : (0 < k < 2 ^ 51)%Z -> digits_ok d ->
  to_fixed d (dec_num false k (- d)) = fixed_digits d k.
Proof.
  intros K D. destruct (dec_num_near k d K D) as [P N]. apply scaled_near in N as [L U]; [|done|done].
  assert (0 < inject_Z k) by (apply inject_pos; lia).
  assert (inject_Z k <= inject_Z (2 ^ 51)) by (apply inject_le; lia).
  assert (inject_Z k * ulp <= 1 # 4) by (change (inject_Z (2 ^ 51)) with (2251799813685248 # 1) in *;
       change ulp with (1 # 9007199254740992); lra).
  apply to_fixed_units; [done|lia|done|lra|lra].
Qed.

Lemma posnum_finite x : posnum x -> isFinite x = true.
Proof. by intros (_ & ? & _). Qed.

Lemma posnum_sign x : posnum x -> nleb n0 x = true /\ nltb n0 x = true /\ neqb x n0 = false.
Proof. intros (P & F & _ & N). destruct x as [[]|[]| |[] m e]; try done. Qed.

Lemma floor_units x : posnum x -> exists z, (0 <= z)%Z /\ inject_Z z <= qv x /\ qv x < inject_Z z + 1.
Proof.
  intros X. pose proof (vden_pos x) as D. pose proof (vnum_nonneg x).
  pose proof (Z.div_mod (vnum x) (vden x) ltac:(lia)). pose proof (Z.mod_pos_bound (vnum x) (vden x) D).
  exists (vnum x / vden x)%Z. split; [apply Z.div_pos; lia|]. pose proof (inject_pos _ D). unfold qv. split.
  - apply Qle_shift_div_l; [done|]. rewrite <- inject_Z_mult. apply inject_le. nia.
  - change 1 with (inject_Z 1). apply Qlt_shift_div_r; [done|].
    rewrite <- inject_Z_plus, <- inject_Z_mult, <- Zlt_Qlt. nia.
Qed.

(** A positive amount is cut to the [k] whole units of its rounded product
    with [10^d]. *)
Lemma truncated_units v d : posnum v -> digits_ok d -> small <= qv v ->
  qv v * scale d <= inject_Z (2 ^ 50) ->
  exists k, (0 <= k < 2 ^ 51)%Z /\ toFixedTruncated (VNum v) d = fixed_digits d k /\
    qv v * scale d * (1 - ulp) - 1 < inject_Z k /\ inject_Z k <= qv v * scale d * (1 + ulp) /\
    math_floor (nmul v (pow10 d)) = num_of_Z k.
Proof.
  intros X D S B. destruct (pow10_num d D) as (_ & Pp & Ep). destruct (scale_bounds d D) as [S1 S2].
  pose proof small_pos as SP. pose proof (qv_pos v X) as V.
  assert (N : normal (qv v * qv (pow10 d))).
  { rewrite Ep. split; [nra|]. apply (Qle_trans _ (inject_Z (2 ^ 50))); [done|].
    apply inject_le. by vm_compute. }
  destruct (nmul_near v (pow10 d) X Pp N) as [Y [L U]]. rewrite Ep in L, U.
  destruct (floor_units _ Y) as (k & K0 & KL & KU).
  assert (K1 : (k < 2 ^ 51)%Z).
  { rewrite Zlt_Qlt. apply (Qle_lt_trans _ (qv v * scale d * (1 + ulp))); [lra|].
    change (inject_Z (2 ^ 51)) with (2251799813685248 # 1). change (inject_Z (2 ^ 50)) with (1125899906842624 # 1) in B.
    change ulp with (1 # 9007199254740992). lra. }
  pose proof (math_floor_value _ k Y KL KU) as E.
  exists k. split; [lia|]. split; [|split; [lra|split; [lra|exact E]]].
  unfold toFixedTruncated. cbn [to_num]. rewrite posnum_finite by done. cbn [negb].
  destruct (posnum_sign v X) as (-> & _ & _). rewrite E.
  destruct (Z.eq_dec k 0%Z) as [->|Nk].
  - destruct Pp as (? & ? & _ & ?).
    assert (ndiv (num_of_Z 0) (pow10 d) = S754_zero false) as ->
      by (destruct (pow10 d) as [[]|[]| |[] m e]; done).
    unfold to_fixed. cbn [num_ratio]. pose proof (pow10_bounds d D). done.
  - rewrite div_pow10 by (done || lia). apply to_fixed_dec; [lia|done].
Qed.

(** Cutting a decimal of [k] units again may lose one more unit. *)
Lemma truncated_decimal k d : (0 < k < 2 ^ 50)%Z -> digits_ok d ->
  exists k', toFixedTruncated (VNum (dec_num false k (- d))) d = fixed_digits d k' /\
    (k' = k \/ k' = k - 1)%Z /\ (k = 1 -> k' = 1)%Z.
Proof.
  intros K D. destruct (dec_num_near k d ltac:(lia) D) as [P N].
  apply scaled_near in N as [L U]; [|lia|done].
  assert (K0 : 1 <= inject_Z k) by (apply (inject_le 1); lia).
  assert (K1 : inject_Z k <= inject_Z (2 ^ 50 - 1)) by (apply inject_le; lia).
  change (inject_Z (2 ^ 50 - 1)) with (1125899906842623 # 1) in K1.
  change ulp with (1 # 9007199254740992) in *. destruct (scale_bounds d D) as [S1 S2].
  assert (B : qv (dec_num false k (- d)) * scale d <= inject_Z (2 ^ 50))
    by (change (inject_Z (2 ^ 50)) with (1125899906842624 # 1); lra).
  assert (S : small <= qv (dec_num false k (- d))).
  { apply (Qle_trans _ (1 # 10000000)); [done|]. nra. }
  destruct (truncated_units _ d P D S B) as (k' & R & E & L' & U' & F).
  change ulp with (1 # 9007199254740992) in *.
  exists k'. split; [exact E|].
  assert (k' <= k)%Z.
  { apply Z.lt_succ_r. rewrite Zlt_Qlt. unfold Z.succ. rewrite inject_Z_plus. change (inject_Z 1) with 1. lra. }
  assert (k - 2 < k')%Z.
  { rewrite Zlt_Qlt. unfold Z.sub. rewrite inject_Z_plus. change (inject_Z (- (2))) with (- (2)). lra. }
  split; [lia|]. intros ->. clear -F D R.
  assert (d = 0 \/ d = 1 \/ d = 2 \/ d = 3 \/ d = 4 \/ d = 5 \/ d = 6)%Z as C by (destruct D; lia).
  assert (G : math_floor (nmul (dec_num false 1 (- d)) (pow10 d)) = num_of_Z 1)
    by (destruct C as [->|[->|[->|[->|[->|[->| ->]]]]]]; by vm_compute).
  rewrite G in F. destruct (Z.eq_dec k' 0%Z) as [->|N]; [by vm_compute in F|].
  destruct (num_of_Z_value k' ltac:(lia)) as [_ Q1]. rewrite <- F in Q1.
  destruct (num_of_Z_value 1 ltac:(lia)) as [_ Q2]. rewrite Q2 in Q1. symmetry. by apply inject_Z_injective.
Qed.

(** ** The text shown for a quota *)

(** An amount of at most [2^49] units of [10^-d], not absurdly small. *)
Definition showable (v : spec_float) (d : Z) : Prop :=
  posnum v /\ digits_ok d /\ small <= qv v /\ qv v * scale d <= inject_Z (2 ^ 49).

(** The number of units a row shows after its first truncation, one at least. *)
Definition row_units (v : spec_float) (d k : Z) : Prop :=
  (1 <= k < 2 ^ 50)%Z /\ qv v * scale d * (1 - ulp) - 1 < inject_Z k /\
  (k = 1%Z \/ inject_Z k <= qv v * scale d * (1 + ulp)).

Lemma dec_num_zero k d : (0 <= k < 2 ^ 51)%Z -> digits_ok d ->
  neqb (dec_num false k (- d)) n0 = (k =? 0)%Z.
Proof.
  intros K D. destruct (Z.eqb_spec k 0) as [->|N].
  - unfold dec_num. rewrite Z.mul_0_l. done.
  - destruct (dec_num_near k d ltac:(lia) D) as [P _]. by apply posnum_sign.
Qed.

(** The value of a row, before the final formatting. *)
Lemma row_value v d : showable v d ->
  exists k, row_units v d k /\
    (let fixedResult := parse_float (toFixedTruncated (VNum v) d) in
     (if neqb fixedResult n0 && true && nltb n0 v then pow10 (- d) else fixedResult)
     = dec_num false k (- d)).
Proof.
  intros (P & D & S & B).
  change (inject_Z (2 ^ 49)) with (562949953421312 # 1) in B.
  destruct (truncated_units v d P D S) as (k & R & E & L & U & _).
  { change (inject_Z (2 ^ 50)) with (1125899906842624 # 1). lra. }
  assert (K : (k < 2 ^ 50)%Z).
  { rewrite Zlt_Qlt. change (inject_Z (2 ^ 50)) with (1125899906842624 # 1).
    change ulp with (1 # 9007199254740992) in *. lra. }
  cbv zeta. destruct D as [D1 D2]. rewrite E, parse_fixed_digits, dec_num_zero by (done || lia).
  destruct (posnum_sign v P) as (_ & -> & _). rewrite !andb_true_r.
  destruct (Z.eqb_spec k 0) as [->|N].
  - exists 1%Z. split; [|done]. split; [done|]. split; [|by left].
    change (inject_Z 0) with 0 in L. change (inject_Z 1) with 1. lra.
  - exists k. split; [|done]. split; [lia|]. split; [exact L|by right].
Qed.

(** The final formatting of a decimal of [k] units. *)
Lemma row_text k d : (1 <= k < 2 ^ 50)%Z -> digits_ok d ->
  exists k', parse_float (trimFixedDecimalDisplay (VNum (dec_num false k (- d))) d) = dec_num false k' (- d) /\
    (1 <= k')%Z /\ (k' = k \/ k' = k - 1)%Z.
Proof.
  intros K D. destruct (truncated_decimal k d ltac:(lia) D) as (k' & E & C & O).
  destruct (dec_num_near k d ltac:(lia) D) as [P _]. exists k'.
  assert (1 <= k')%Z by (destruct (Z.eq_dec k 1%Z); lia). split; [|done].
  unfold trimFixedDecimalDisplay. cbn [to_num]. rewrite posnum_finite by done. cbn [negb].
  rewrite E. destruct D. apply (parse_trimmed d k'); lia.
Qed.

(** C34. In a currency display, for an amount in the range [showable], a positive
    quota is shown as the currency symbol followed by a decimal of [k >= 1]
    units of the last digit, never as zero.  The amount
    shown exceeds the amount by no more than a rounding (unless it is the
    least amount, one unit) and falls short of it by less than two units. *)
Theorem renderQuota_shows st quota d symbol v :
  quotaToDisplayCurrencyParts st quota = Some (symbol, v) ->
  nltb n0 (to_num quota) = true -> showable v d ->
  exists k t, renderQuota st quota d = VStr (to_str symbol ++ t) /\
    parse_float t = dec_num false k (- d) /\ (1 <= k)%Z /\
    qv v * scale d * (1 - ulp) - 2 < inject_Z k /\
    (k = 1%Z \/ inject_Z k <= qv v * scale d * (1 + ulp)).
Proof.
  intros Q P S. destruct (row_value v d S) as (k & (K & L & U) & E). destruct S as (_ & D & _).
  destruct (row_text k d K D) as (k' & T & K' & C).
  unfold renderQuota. rewrite Q, P. cbv zeta in E. rewrite E.
  exists k', (trimFixedDecimalDisplay (VNum (dec_num false k (- d))) d).
  split; [done|]. split; [exact T|]. split; [done|].
  assert (M : inject_Z k <= inject_Z k' + 1).
  { change 1 with (inject_Z 1). rewrite <- inject_Z_plus. apply inject_le. lia. }
  assert (M' : inject_Z k' <= inject_Z k) by (apply inject_le; lia).
  split; [lra|]. destruct U as [->|U]; [left; lia|right; lra].
Qed.

(** ** Entering an amount *)

(** Positive, between [2^-100] and [2^100]: units and rates of exchange. *)
Definition moderate (x : spec_float) : Prop := posnum x /\ within 100 (qv x).

Lemma nmul_step n m x y : posnum x -> posnum y -> (0 <= n)%Z -> (0 <= m)%Z -> (n + m <= 900)%Z ->
  within n (qv x) -> within m (qv y) ->
  posnum (nmul x y) /\ near ulp (qv (nmul x y)) (qv x * qv y) /\ within (n + m + 1) (qv (nmul x y)).
Proof.
  intros X Y N M B Wx Wy. pose proof (within_mul n m _ _ N M Wx Wy) as W.
  destruct (nmul_near x y X Y) as [P E]; [apply (within_normal (n + m)); [lia|done]|].
  split; [done|]. split; [done|]. apply (within_near _ _ (qv x * qv y)); [lia|done|done].
Qed.

Lemma ndiv_step n m x y : posnum x -> posnum y -> (0 <= n)%Z -> (0 <= m)%Z -> (n + m <= 900)%Z ->
  within n (qv x) -> within m (qv y) ->
  posnum (ndiv x y) /\ near ulp (qv (ndiv x y)) (qv x / qv y) /\ within (n + m + 1) (qv (ndiv x y)).
Proof.
  intros X Y N M B Wx Wy. pose proof (within_div n m _ _ N M Wx Wy) as W.
  destruct (ndiv_near x y X Y) as [P E]; [apply (within_normal (n + m)); [lia|done]|].
  split; [done|]. split; [done|]. apply (within_near _ _ (qv x / qv y)); [lia|done|done].
Qed.

(** Dividing by a unit and multiplying again is within two roundings; so is
    the detour through a rate. *)
Lemma near_mul_div n x y : posnum x -> moderate y -> (0 <= n <= 400)%Z -> within n (qv x) ->
  posnum (nmul (ndiv x y) y) /\ near (roundings 2) (qv (nmul (ndiv x y) y)) (qv x).
Proof.
  intros X [Y Wy] N Wx. pose proof (qv_pos x X). pose proof (qv_pos y Y).
  destruct (ndiv_step n 100 x y) as (P1 & E1 & W1); try done; try lia.
  destruct (nmul_step (n + 100 + 1) 100 (ndiv x y) y) as (P2 & E2 & W2); try done; try lia.
  split; [done|]. apply (near_step 1 _ (qv (ndiv x y) * qv y)); [lia|lra|done|].
  assert (E : qv x / qv y * qv y == qv x) by (field; by apply pos_neq).
  apply (near_scale _ _ _ (qv y)) in E1; [|lra]. rewrite E in E1.
  apply (near_weaken ulp); [done|lra|done].
Qed.

Lemma near_mul_rate n x y r : posnum x -> moderate y -> moderate r -> (0 <= n <= 100)%Z -> within n (qv x) ->
  posnum (nmul (ndiv (nmul (ndiv x y) r) r) y) /\
  near (roundings 4) (qv (nmul (ndiv (nmul (ndiv x y) r) r) y)) (qv x).
Proof.
  intros X [Y Wy] [R Wr] N Wx. pose proof (qv_pos x X). pose proof (qv_pos y Y). pose proof (qv_pos r R).
  destruct (ndiv_step n 100 x y) as (P1 & E1 & W1); try done; try lia.
  destruct (nmul_step (n + 100 + 1) 100 (ndiv x y) r) as (P2 & E2 & W2); try done; try lia.
  destruct (ndiv_step (n + 100 + 1 + 100 + 1) 100 (nmul (ndiv x y) r) r) as (P3 & E3 & W3); try done; try lia.
  destruct (nmul_step (n + 100 + 1 + 100 + 1 + 100 + 1) 100 (ndiv (nmul (ndiv x y) r) r) y)
    as (P4 & E4 & _); try done; try lia.
  split; [done|]. set (a := qv (ndiv x y)) in *. set (b := qv (nmul (ndiv x y) r)) in *.
  set (c := qv (ndiv (nmul (ndiv x y) r) r)) in *.
  assert (Ny : ~ qv y == 0) by (by apply pos_neq). assert (Nr : ~ qv r == 0) by (by apply pos_neq).
  assert (0 <= qv y / qv r) by (apply Qlt_le_weak, Qlt_shift_div_l; lra).
  apply (near_step 3 _ (c * qv y)); [lia|lra|done|].
  apply (near_step 2 _ (b * (qv y / qv r))); [lia|lra| |].
  { apply (near_scale _ _ _ (qv y)) in E3; [|lra].
    assert (E : b / qv r * qv y == b * (qv y / qv r)) by (by field). by rewrite E in E3. }
  apply (near_step 1 _ (a * qv y)); [lia|lra| |].
  { apply (near_scale _ _ _ (qv y / qv r)) in E2; [|done].
    assert (E : a * qv r * (qv y / qv r) == a * qv y) by (by field). by rewrite E in E2. }
  assert (E : qv x / qv y * qv y == qv x) by (by field).
  apply (near_scale _ _ _ (qv y)) in E1; [|lra]. rewrite E in E1.
  apply (near_weaken ulp); [done|lra|done].
Qed.

Lemma round_back x q : posnum x -> (0 < q < 2 ^ 49)%Z -> near (roundings 4) (qv x) (inject_Z q) ->
  math_round x = num_of_Z q.
Proof.
  intros X Q [L U]. assert (inject_Z q <= inject_Z (2 ^ 49 - 1)) by (apply inject_le; lia).
  assert (0 < inject_Z q) by (apply inject_pos; lia).
  change (inject_Z (2 ^ 49 - 1)) with (562949953421311 # 1) in *.
  change (roundings 4) with (4 # 4503599627370496) in *. apply math_round_value; [done|lia|lra|lra].
Qed.

Lemma num_of_Z_within q : (0 < q < 2 ^ 49)%Z -> within 49 (qv (num_of_Z q)).
Proof.
  intros Q. destruct (num_of_Z_value q ltac:(lia)) as [_ E]. unfold within. rewrite E.
  assert (1 <= inject_Z q) by (apply (inject_le 1); lia).
  assert (inject_Z q <= inject_Z (2 ^ 49)) by (apply inject_le; lia).
  change (inject_Z (2 ^ 49)) with (562949953421312 # 1) in *. split; lra.
Qed.

(** C33. A quota of up to [2^49] points turned into the amount of the input box
    and back is the same quota, in every display type, for every unit and
    rate of exchange between [2^-100] and [2^100]. *)
Theorem quota_input_roundtrip st q : (0 <= q < 2 ^ 49)%Z -> moderate (input_unit st) ->
  (is_type st (js "CNY") = true -> moderate (usd_rate st 7 7)) ->
  (is_type st (js "CUSTOM") = true -> moderate (custom_rate st)) ->
  displayInputAmountToQuota st (VNum (quotaToDisplayInputAmount st (VNum (num_of_Z q)))) = num_of_Z q.
Proof.
  intros Q U C1 C2. destruct (Z.eq_dec q 0%Z) as [->|N].
  { assert (Z0 : forall x, moderate x -> ndiv n0 x = n0 /\ nmul n0 x = n0).
    { intros x [(? & ? & _ & ?) _]. by destruct x as [[]|[]| |[] m e]. }
    unfold displayInputAmountToQuota, quotaToDisplayInputAmount.
    change (num_of_Z 0) with n0. cbn [to_num nullish orb].
    destruct (Z0 _ U) as [D M]. change (neqb n0 n0) with true. cbn [negb].
    destruct (is_type st (js "TOKENS")); [done|]. rewrite D.
    destruct (is_type st (js "CNY")); [destruct (Z0 _ (C1 eq_refl)) as [D1 M1]; by rewrite M1, D1, M|].
    destruct (is_type st (js "CUSTOM")); [destruct (Z0 _ (C2 eq_refl)) as [D1 M1]; by rewrite M1, D1, M|].
    by rewrite M. }
  destruct (num_of_Z_value q ltac:(lia)) as [P E]. pose proof (num_of_Z_within q ltac:(lia)) as W.
  assert (R : forall x, posnum x -> neqb x x = true).
  { intros x (? & ? & _). destruct x as [[]|[]| |[] m e]; try done. unfold neqb, SFeqb, SFcompare.
    rewrite Z.compare_refl. change (Pos.compare_cont Eq) with Pos.compare. by rewrite Pos.compare_refl. }
  unfold displayInputAmountToQuota, quotaToDisplayInputAmount. cbn [to_num nullish orb].
  rewrite (R _ P). cbn [negb].
  destruct (is_type st (js "TOKENS")).
  { rewrite (R _ P). cbn [negb]. apply round_back; [done|lia|]. rewrite E.
    apply near_refl; [done|]. apply (inject_le 0). lia. }
  destruct (ndiv_step 49 100 _ _ P (proj1 U)) as (P1 & _ & W1); try done; try lia; [apply U|].
  assert (K : forall r, moderate r ->
    neqb (nmul (ndiv (num_of_Z q) (input_unit st)) r) (nmul (ndiv (num_of_Z q) (input_unit st)) r) = true /\
    math_round (nmul (ndiv (nmul (ndiv (num_of_Z q) (input_unit st)) r) r) (input_unit st)) = num_of_Z q).
  { intros r M. destruct M as [Pr Wr] eqn:H. split.
    - apply R. destruct (nmul_step (49 + 100 + 1) 100 _ _ P1 Pr) as (? & _); try done; lia.
    - destruct (near_mul_rate 49 _ _ r P U M) as [PR NR]; [lia|done|]. rewrite E in NR.
      apply round_back; [done|lia|done]. }
  destruct (is_type st (js "CNY")); [destruct (K _ (C1 eq_refl)) as [-> K2]; exact K2|].
  destruct (is_type st (js "CUSTOM")); [destruct (K _ (C2 eq_refl)) as [-> K2]; exact K2|].
  rewrite (R _ P1). cbn [negb]. destruct (near_mul_div 49 _ _ P U) as [PR NR]; [lia|done|].
  rewrite E in NR. apply round_back; [done|lia|].
  apply (near_weaken (roundings 2)); [done| |done]. apply (inject_le 0). lia.
Qed.

(** ** The digits of the flexible display *)

(** The least number of digits from [d] to [maxDigits] with a digit that is
    not zero, or [maxDigits]. *)
Lemma pick_loop_spec fuel v d maxDigits : (maxDigits + 1 - d <= Z.of_nat fuel)%Z ->
  (d <= maxDigits + 1)%Z ->
  exists r, pick_loop fuel v d maxDigits = Some r /\ (Z.min d maxDigits <= r <= maxDigits)%Z /\
    (forall d', (d <= d' < r)%Z -> shows_nonzero v d' = false) /\
    (shows_nonzero v r = true \/ (r = maxDigits /\
       forall d', (d <= d' <= maxDigits)%Z -> shows_nonzero v d' = false)).
Proof.
  revert d. induction fuel as [|f IH]; intros d F D; cbn [pick_loop].
  - destruct (Z.leb_spec d maxDigits); [lia|]. exists maxDigits. split; [done|]. split; [lia|].
    split; [lia|]. right. split; [done|lia].
  - destruct (Z.leb_spec d maxDigits) as [L|L].
    2:{ exists maxDigits. split; [done|]. split; [lia|]. split; [lia|]. right. split; [done|lia]. }
    destruct (shows_nonzero v d) eqn:S.
    { exists d. split; [done|]. split; [lia|]. split; [lia|]. by left. }
    destruct (IH (d + 1)%Z ltac:(lia) ltac:(lia)) as (r & E & B & Lt & O).
    exists r. split; [exact E|]. split; [lia|].
    assert (H : forall d', (d' = d \/ d + 1 <= d')%Z -> (d' < r \/ d' = d)%Z -> shows_nonzero v d' = false).
    { intros d' [->|A] B'; [done|]. apply Lt. lia. }
    split; [intros d' R; apply H; lia|]. destruct O as [O|[-> O]]; [by left|right].
    split; [done|]. intros d' R. destruct (Z.eq_dec d' d) as [->|]; [done|]. apply O. lia.
Qed.

(** The search for the digits of the flexible display ends after at most
    [maxDigits - minDigits] steps, whatever the value; it finds the least
    number of digits from [minDigits] on that shows a digit other than zero,
    or [maxDigits] if there is none (and [minDigits] for zero and for what is
    not a finite number). *)
Theorem pick_digits_terminates fuel value minDigits maxDigits : (minDigits <= maxDigits)%Z ->
  (maxDigits - minDigits <= Z.of_nat fuel)%Z ->
  let v := to_num value in
  exists d, pickDigits fuel value minDigits maxDigits = Some d /\
    pickQuotaDisplayFractionDigits value minDigits maxDigits = d /\
    (minDigits <= d <= maxDigits)%Z /\
    if negb (isFinite v) || neqb v n0 then d = minDigits
    else (forall d', (minDigits <= d' < d)%Z -> shows_nonzero v d' = false) /\
         (shows_nonzero v d = true \/ (d = maxDigits /\
           forall d', (minDigits <= d' <= maxDigits)%Z -> shows_nonzero v d' = false)).
Proof.
  intros M F v. unfold pickQuotaDisplayFractionDigits, pickDigits. fold v.
  destruct (negb (isFinite v) || neqb v n0).
  { exists minDigits. split; [done|]. split; [done|]. split; [lia|done]. }
  destruct (shows_nonzero v minDigits) eqn:S.
  { exists minDigits. split; [done|]. split; [done|]. split; [lia|]. split; [lia|by left]. }
  destruct (pick_loop_spec fuel v (minDigits + 1) maxDigits) as (d & E & B & L & O); [lia|lia|].
  destruct (pick_loop_spec (Z.to_nat (maxDigits - minDigits)) v (minDigits + 1) maxDigits)
    as (d2 & E2 & B2 & L2 & O2); [lia|lia|].
  assert (U : d2 = d).
  { clear -L O L2 O2 B B2. destruct (Z.lt_trichotomy d2 d) as [H|[H|H]]; [|done|]; exfalso.
    - destruct O2 as [O2|[-> _]]; [|lia]. rewrite L in O2; [done|lia].
    - destruct O as [O|[-> _]]; [|lia]. rewrite L2 in O; [done|lia]. }
  exists d. split; [exact E|]. rewrite E2. split; [exact U|]. split; [lia|].
  assert (H : forall d', (minDigits + 1 <= d')%Z \/ d' = minDigits -> (d' < d)%Z -> shows_nonzero v d' = false).
  { intros d' [A| ->] B'; [|done]. apply L. lia. }
  split; [intros d' R; apply H; lia|]. destruct O as [O|[-> O]]; [by left|right]. split; [done|].
  intros d' R. destruct (Z.eq_dec d' minDigits) as [->|]; [done|]. apply O. lia.
Qed.

(** ** Totals *)

(** The amount a quota is shown as, when quotas are shown in a currency. *)
Definition display_amount (st : LocalStorage) (x : spec_float) : spec_float :=
  match quotaToDisplayCurrencyParts st (VNum x) with Some (_, v) => v | None => n0 end.

Definition display_symbol (st : LocalStorage) : jsval :=
  match quotaToDisplayCurrencyParts st (VNum n0) with Some (s, _) => s | None => VUndef end.

(** A row of a list: a positive quota of at most [2^30] units. *)
Definition row_ok (st : LocalStorage) (d : Z) (x : spec_float) : Prop :=
  posnum x /\ showable (display_amount st x) d /\
  qv (display_amount st x) * scale d <= inject_Z (2 ^ 30).

Definition sum_Z (l : list Z) : Z := fold_right Z.add 0%Z l.

Lemma parts_eq st x : is_type st (js "TOKENS") = false ->
  quotaToDisplayCurrencyParts st (VNum x) = Some (display_symbol st, display_amount st x).
Proof.
  intros T. unfold display_symbol, display_amount, quotaToDisplayCurrencyParts. rewrite T.
  destruct (is_type st (js "CNY")); [done|]. by destruct (is_type st (js "CUSTOM")).
Qed.

Lemma posnum_truthy x : posnum x -> js_or (VNum x) (VNum n0) = VNum x.
Proof. intros (? & ? & _ & ?). by destruct x as [[]|[]| |[] m e]. Qed.

(** A row: its value in a total has [k] units, its text [k] or [k - 1]. *)
Lemma row_spec st d x : is_type st (js "TOKENS") = false -> digits_ok d -> row_ok st d x ->
  exists k r, (1 <= k <= 2 ^ 30)%Z /\ quotaToRoundedDisplayValue st (VNum x) d = dec_num false k (- d) /\
    (k - 1 <= r <= k)%Z /\
    exists t, renderQuota st (VNum x) d = VStr (to_str (display_symbol st) ++ t) /\
      parse_float t = dec_num false r (- d).
Proof.
  intros T D (X & S & B). destruct (row_value _ d S) as (k & (K & L & U) & E).
  destruct (row_text k d K D) as (r & R & R1 & C). destruct (posnum_sign x X) as (_ & Px & _).
  exists k, r. cbv zeta in E.
  split; [|split; [|split; [lia|]]].
  - split; [lia|]. destruct U as [->|U]; [done|]. apply Z.lt_succ_r. rewrite Zlt_Qlt. unfold Z.succ.
    rewrite inject_Z_plus. change (inject_Z 1) with 1.
    change (inject_Z (2 ^ 30)) with (1073741824 # 1) in *. change ulp with (1 # 9007199254740992) in *. lra.
  - unfold quotaToRoundedDisplayValue. rewrite posnum_truthy by done. cbn [to_num].
    rewrite parts_eq, Px by done. exact E.
  - exists (trimFixedDecimalDisplay (VNum (dec_num false k (- d))) d). split; [|exact R].
    unfold renderQuota. rewrite parts_eq by done. cbn [to_num]. rewrite Px, E. done.
Qed.

(** Adding [n] decimals of units is exact up to one rounding per addition. *)
Lemma sum_near d ks : digits_ok d -> Forall (fun k => 1 <= k <= 2 ^ 30)%Z ks -> forall i K s,
  (1 <= i)%Z -> (i + Z.of_nat (length ks) <= 1000)%Z -> (1 <= K <= i * 2 ^ 30)%Z -> posnum s ->
  near (roundings i) (qv s * scale d) (inject_Z K) ->
  let s' := fold_left (fun s k => nadd s (dec_num false k (- d))) ks s in
  let i' := (i + Z.of_nat (length ks))%Z in
  posnum s' /\ (1 <= K + sum_Z ks <= i' * 2 ^ 30)%Z /\ near (roundings i') (qv s' * scale d) (inject_Z (K + sum_Z ks)).
Proof.
  intros D Ks. destruct (scale_bounds d D) as [S1 S2].
  induction Ks as [|k ks Hk Ks IH]; intros i K s I1 I2 HK Ps Ns; cbv zeta.
  { cbn [fold_left sum_Z fold_right length]. rewrite !Z.add_0_r. split; [done|]. split; [lia|done]. }
  destruct (dec_num_near k d) as [Pk Nk]; [lia|done|]. apply scaled_near in Nk; [|lia|done].
  set (t := dec_num false k (- d)) in *.
  assert (K0 : 1 <= inject_Z K) by (apply (inject_le 1); lia).
  assert (k0 : 1 <= inject_Z k) by (apply (inject_le 1); lia).
  assert (KM : inject_Z K <= 1000 * (1073741824 # 1)) by (apply (inject_le K (1000 * 1073741824)); lia).
  assert (kM : inject_Z k <= 1073741824 # 1) by (apply (inject_le k 1073741824); lia).
  assert (Ri : roundings 1 <= roundings i /\ roundings i <= roundings 1000).
  { unfold roundings. split; apply ratio_le; try done; lia. }
  change (roundings 1) with (1 # 4503599627370496) in Ri. change (roundings 1000) with (1000 # 4503599627370496) in Ri.
  assert (A : near (roundings i) ((qv s + qv t) * scale d) (inject_Z (K + k))).
  { rewrite inject_Z_plus. change ulp with (1 # 9007199254740992) in Nk. destruct Ns, Nk. split; nra. }
  pose proof (qv_pos s Ps). pose proof (qv_pos t Pk).
  assert (N : normal (qv s + qv t)).
  { assert (1 # 2 <= (qv s + qv t) * scale d /\ (qv s + qv t) * scale d <= 10000000000000).
    { destruct A as [A1 A2]. rewrite inject_Z_plus in A1, A2. split; nra. }
    split; [apply (Qle_trans _ (1 # 10000000)); [done|nra]|].
    apply (Qle_trans _ 10000000000000); [nra|done]. }
  destruct (nadd_near s t Ps Pk N) as [Pa Na]. apply (near_scale _ _ _ (scale d)) in Na; [|lra].
  assert (KK : (1 <= K + k <= (i + 1) * 2 ^ 30)%Z) by lia.
  specialize (IH (i + 1)%Z (K + k)%Z (nadd s t) ltac:(lia)). cbn [length] in I2.
  cbn [fold_left sum_Z fold_right length]. fold (sum_Z ks).
  replace (i + Z.of_nat (S (length ks)))%Z with (i + 1 + Z.of_nat (length ks))%Z by lia.
  replace (K + (k + sum_Z ks))%Z with (K + k + sum_Z ks)%Z by lia.
  apply IH; [lia|exact KK|exact Pa|].
  apply (near_step i _ ((qv s + qv t) * scale d)); [lia| |done|done]. apply (inject_le 0). lia.
Qed.

Lemma fold_rows st d xs ks s :
  Forall2 (fun x k => quotaToRoundedDisplayValue st (VNum x) d = dec_num false k (- d)) xs ks ->
  fold_left (fun sum q => nadd sum (quotaToRoundedDisplayValue st q d)) (map VNum xs) s
  = fold_left (fun s k => nadd s (dec_num false k (- d))) ks s.
Proof. intros F. revert s. induction F as [|x k xs ks E _ IH]; intros s; cbn; [done|]. by rewrite E, IH. Qed.

(** The rows of a list, as texts of [rs] units and values of [ks] units. *)
Lemma rows_spec st d xs : is_type st (js "TOKENS") = false -> digits_ok d -> Forall (row_ok st d) xs ->
  exists ks rs, Forall (fun k => 1 <= k <= 2 ^ 30)%Z ks /\ length ks = length xs /\
    Forall2 (fun x k => quotaToRoundedDisplayValue st (VNum x) d = dec_num false k (- d)) xs ks /\
    Forall2 (fun x r => exists t, renderQuota st (VNum x) d = VStr (to_str (display_symbol st) ++ t) /\
      parse_float t = dec_num false r (- d)) xs rs /\
    (sum_Z ks - Z.of_nat (length xs) <= sum_Z rs <= sum_Z ks)%Z.
Proof.
  intros T D. induction 1 as [|x xs X _ (ks & rs & A & B & C & E & F)].
  { exists [], []. split_and!; constructor || done. }
  destruct (row_spec st d x T D X) as (k & r & K & V & R & Tx).
  exists (k :: ks), (r :: rs). cbn [length sum_Z fold_right]. fold (sum_Z ks) (sum_Z rs).
  split_and!; try (by constructor); lia.
Qed.

(** The sum of the values of the rows shows as exactly their units. *)
Lemma total_value ks d : digits_ok d -> ks <> [] -> (length ks <= 1000)%nat ->
  Forall (fun k => 1 <= k <= 2 ^ 30)%Z ks ->
  (1 <= sum_Z ks < 2 ^ 50)%Z /\
  parse_float (to_fixed d (fold_left (fun s k => nadd s (dec_num false k (- d))) ks n0))
  = dec_num false (sum_Z ks) (- d).
Proof.
  intros D N L F. destruct F as [|k ks K F]; [done|]. cbn [fold_left length] in *.
  destruct (dec_num_near k d) as [P Nk]; [lia|done|]. apply scaled_near in Nk; [|lia|done].
  assert (nadd n0 (dec_num false k (- d)) = dec_num false k (- d)) as ->.
  { destruct P as (? & ? & _ & ?). by destruct (dec_num false k (- d)) as [[]|[]| |[] m e]. }
  destruct (sum_near d ks D F 1 k (dec_num false k (- d))) as (Ps & B & Ns); [lia|lia|lia|done| |].
  { apply (near_weaken ulp); [done| |done]. apply (inject_le 0). lia. }
  change (sum_Z (k :: ks)) with (k + sum_Z ks)%Z. set (K' := (k + sum_Z ks)%Z) in *.
  set (i := (1 + Z.of_nat (length ks))%Z) in *.
  assert (BK : (K' <= 1000 * 2 ^ 30)%Z) by lia. split; [lia|].
  assert (0 < inject_Z K') by (apply inject_pos; lia).
  assert (inject_Z K' <= 1000 * (1073741824 # 1)) by (apply (inject_le K' (1000 * 1073741824)); lia).
  assert (Ri : roundings i <= roundings 1000) by (unfold roundings; apply ratio_le; try done; lia).
  change (roundings 1000) with (1000 # 4503599627370496) in Ri.
  apply (near_weaken _ (1000 # 4503599627370496)) in Ns as [N1 N2]; [|done|lra].
  rewrite (to_fixed_units _ K' d Ps); [|lia|done|lra|lra]. destruct D. apply parse_fixed_digits; lia.
Qed.

(** C35. The total over up to 1000 positive quotas, in a currency: with [rs] the
    units its rows show, the total shows between one unit less than the sum
    of [rs] and one unit more per row than it. *)
Theorem total_follows_rows st d xs : is_type st (js "TOKENS") = false -> digits_ok d ->
  xs <> [] -> (length xs <= 1000)%nat -> Forall (row_ok st d) xs ->
  exists rs total t,
    Forall2 (fun x r => exists u, renderQuota st (VNum x) d = VStr (to_str (display_symbol st) ++ u) /\
      parse_float u = dec_num false r (- d)) xs rs /\
    renderQuotaSum st (VArr (map VNum xs)) d = VStr (to_str (display_symbol st) ++ t) /\
    parse_float t = dec_num false total (- d) /\
    (sum_Z rs - 1 <= total <= sum_Z rs + Z.of_nat (length xs))%Z.
Proof.
  intros T D N L F. destruct (rows_spec st d xs T D F) as (ks & rs & K & Len & V & R & B).
  destruct (total_value ks d D) as [BK E]; [|lia|done|].
  { intros ->. by destruct xs. }
  destruct (row_text (sum_Z ks) d BK D) as (k' & Tt & _ & C).
  exists rs, k', (trimFixedDecimalDisplay (VNum (dec_num false (sum_Z ks) (- d))) d).
  split; [exact R|]. split; [|split; [exact Tt|lia]].
  unfold renderQuotaSum. destruct xs as [|x xs]; [done|]. cbn [map].
  change (VNum x :: map VNum xs) with (map VNum (x :: xs)).
  rewrite (fold_rows st d (x :: xs) ks n0 V), E.
  apply Forall_inv in F as (X & _). rewrite posnum_truthy by done. cbn [to_num].
  by rewrite parts_eq.
Qed.

(** ** Samples *)

(** 500000 points to the dollar, amounts in dollars. *)
Definition dollars : LocalStorage :=
  {| quota_per_unit := Some (js "500000"); quota_display_type := None; status := None |}.

(** Amounts in yuan, with a stored rate of 7.3. *)
Definition yuan : LocalStorage :=
  {| quota_per_unit := Some (js "500000"); quota_display_type := Some (js "CNY");
     status := JSON_stringify 0 (VObj [(js "usd_exchange_rate", VNum (dec_num false 73 (-1)))]) |}.

Definition quota (z : Z) : jsval := VNum (num_of_Z z).

Lemma dollar_row : showable (display_amount dollars (num_of_Z 575000)) 2.
Proof.
  split; [|split; [done|split; [vm_compute; congruence|vm_compute; congruence]]].
  unfold posnum. split; [by vm_compute|]. split; [by vm_compute|]. split; [apply ndiv_valid|]. by vm_compute.
Qed.

(** 575000 points are 1.15 dollars; the text says 1.13. *)
Lemma renderQuota_shows_witness :
  renderQuota dollars (quota 575000) 2 = VStr (js "$1.13") /\
  exists k t, renderQuota dollars (quota 575000) 2 = VStr (js "$" ++ t) /\
    parse_float t = dec_num false k (- (2)) /\ (1 <= k)%Z /\
    qv (display_amount dollars (num_of_Z 575000)) * scale 2 * (1 - ulp) - 2 < inject_Z k /\
    (k = 1%Z \/ inject_Z k <= qv (display_amount dollars (num_of_Z 575000)) * scale 2 * (1 + ulp)).
Proof.
  split; [vm_compute; reflexivity|].
  apply (renderQuota_shows dollars (quota 575000) 2 (VStr (js "$")) (display_amount dollars (num_of_Z 575000)));
    [vm_compute; reflexivity|vm_compute; reflexivity|exact dollar_row].
Defined.

Lemma yuan_moderate : moderate (input_unit yuan) /\ moderate (usd_rate yuan 7 7).
Proof.
  split; (split; [split; [by vm_compute|]; split; [by vm_compute|]; split; [|by vm_compute]
                 |split; vm_compute; congruence]);
    vm_compute; repeat split; try congruence; by left.
Qed.

Lemma quota_input_roundtrip_witness :
  displayInputAmountToQuota yuan (VNum (quotaToDisplayInputAmount yuan (VNum (num_of_Z 123457)))) = num_of_Z 123457.
Proof.
  apply (quota_input_roundtrip yuan 123457); [lia|exact (proj1 yuan_moderate)| |].
  - intros _. exact (proj2 yuan_moderate).
  - intros H. vm_compute in H. discriminate H.
Defined.

Lemma pick_digits_terminates_witness :
  exists d, pickDigits 4 (VNum (display_amount dollars (num_of_Z 1))) 2 6 = Some d /\ (2 <= d <= 6)%Z /\ d = 6%Z.
Proof.
  destruct (pick_digits_terminates 4 (VNum (display_amount dollars (num_of_Z 1))) 2 6)
    as (d & E & _ & B & _); [lia|lia|].
  exists d. split; [exact E|]. split; [exact B|]. vm_compute in E. congruence.
Defined.

(** Two rows of 1.13 dollars, and a total of 2.27 dollars. *)
Lemma total_follows_rows_witness :
  renderQuotaSum dollars (VArr (map VNum [num_of_Z 575000; num_of_Z 575000])) 2 = VStr (js "$2.27") /\
  exists rs total t,
    Forall2 (fun x r => exists u, renderQuota dollars (VNum x) 2 = VStr (js "$" ++ u) /\
      parse_float u = dec_num false r (- (2))) [num_of_Z 575000; num_of_Z 575000] rs /\
    renderQuotaSum dollars (VArr (map VNum [num_of_Z 575000; num_of_Z 575000])) 2 = VStr (js "$" ++ t) /\
    parse_float t = dec_num false total (- (2)) /\
    (sum_Z rs - 1 <= total <= sum_Z rs + Z.of_nat 2)%Z.
Proof.
  split; [vm_compute; reflexivity|].
  apply (total_follows_rows dollars 2 [num_of_Z 575000; num_of_Z 575000]);
    [vm_compute; reflexivity|done|done|cbn; lia|].
  assert (R : row_ok dollars 2 (num_of_Z 575000)).
  { split; [apply num_of_Z_value; lia|]. split; [exact dollar_row|]. vm_compute. congruence. }
  exact (Forall_cons_2 _ _ _ R (Forall_cons_2 _ _ _ R (Forall_nil_2 _))).
Defined.
