(* ===== verification/PlaygroundText.v ===== *)
(** * Messages of the playground and the texts of an answer

    The message helpers of [helpers/utils.jsx] that the playground uses.  A
    model may wrap its reasoning in [<think>] tags; [processThinkTags] takes
    the tagged parts out of the answer, [processIncompleteThinkTags] does so
    for an answer that was cut off.  The theorem of the file says that the
    parts are separated exactly. *)

From Stdlib Require Import SpecFloat.
From stdpp Require Import base list numbers strings.
From S2P Require Import Prelude JsNumber JsString JsValue.
Local Open Scope Z_scope.
Local Open Scope js_scope.

(** ** Messages *)

(** A message as the page keeps it; an absent field is [undefined]. *)
Record Message := {
  id : jsval;
  role : jsval;
  content : jsval;
  createAt : jsval;
  reasoningContent : jsval;
  isReasoningExpanded : jsval;
  isThinkingComplete : jsval;
  hasAutoCollapsed : jsval;
  status : jsval;
  generatedImages : jsval;
  videoTask : jsval;
  mediaDimensions : jsval
}.

#[export] Instance eta_Message : Eta Message := fun m =>
  {| id := id m; role := role m; content := content m; createAt := createAt m;
     reasoningContent := reasoningContent m; isReasoningExpanded := isReasoningExpanded m;
     isThinkingComplete := isThinkingComplete m; hasAutoCollapsed := hasAutoCollapsed m;
     status := status m; generatedImages := generatedImages m; videoTask := videoTask m;
     mediaDimensions := mediaDimensions m |}.

(** [MESSAGE_ROLES] and [MESSAGE_STATUS] *)
Definition USER : jsstr := js "user".
Definition ASSISTANT : jsstr := js "assistant".
Definition SYSTEM : jsstr := js "system".
Definition LOADING : jsstr := js "loading".
Definition INCOMPLETE : jsstr := js "incomplete".
Definition COMPLETE : jsstr := js "complete".
Definition ERROR : jsstr := js "error".

Definition has_role (m : Message) (r : jsstr) : bool := is_str (role m) r.
Definition has_status (m : Message) (s : jsstr) : bool := is_str (status m) s.

(** [a && b] *)
Definition js_and (a b : jsval) : jsval := if truthy a then b else a.

(** The operands for which [+] concatenates. *)
Definition is_textual (v : jsval) : bool :=
  match v with VStr _ | VArr _ | VObj _ => true | _ => false end.

(** [a + b] *)
Definition js_plus (a b : jsval) : jsval :=
  if is_textual a || is_textual b then VStr (to_str a ++ to_str b)
  else VNum (nadd (to_num a) (to_num b)).

(** [createMessage(role, content)]; the identifier and the time come from
    [generateMessageId] and the clock. *)
Definition createMessage (newId now : jsval) (r : jsstr) (c : jsval) : Message :=
  {| id := newId; role := VStr r; content := c; createAt := now;
     reasoningContent := VUndef; isReasoningExpanded := VUndef; isThinkingComplete := VUndef;
     hasAutoCollapsed := VUndef; status := VUndef; generatedImages := VUndef;
     videoTask := VUndef; mediaDimensions := VUndef |}.

Definition createLoadingAssistantMessage (newId now : jsval) : Message :=
  (createMessage newId now ASSISTANT (VStr [])) <| reasoningContent := VStr [] |>
    <| isReasoningExpanded := VBool true |> <| isThinkingComplete := VBool false |>
    <| hasAutoCollapsed := VBool false |> <| status := VStr LOADING |>.

(** The text part of a list of parts. *)
Definition text_part (items : list jsval) : jsval :=
  default VUndef (List.find (fun item => is_str (vget item (js "type")) (js "text")) items).

(** The result of [getTextContent] is [''] or a truthy value; the texts of
    parts are strings. *)
Definition getTextContent (m : Message) : jsval :=
  if negb (truthy (content m)) then VStr []
  else match content m with
       | VArr items => vget (text_part items) (js "text") ||| VStr []
       | VStr s => VStr s
       | _ => VStr []
       end.

Definition hasImageContent (m : Message) : bool :=
  existsb (fun item => is_str (vget item (js "type")) (js "image_url")) (as_arr (content m)).

Definition formatMessageForAPI (m : Message) : jsval :=
  VObj [(js "role", role m); (js "content", content m)].

Definition isValidMessage (m : Message) : bool :=
  truthy (role m) && (truthy (content m) || is_str (content m) []).

(** [buildMessageContent], for texts and image addresses. *)
Definition buildMessageContent (textContent : jsstr) (imageUrls : list jsstr) (imageEnabled : bool) : jsval :=
  if negb (str_truthy textContent) && bool_decide (imageUrls = []) then VStr []
  else
    let validImageUrls := base.filter (fun url => str_truthy (trim url) = true) imageUrls in
    if imageEnabled && negb (bool_decide (validImageUrls = [])) then
      VArr (VObj [(js "type", VStr (js "text")); (js "text", VStr textContent)]
            :: map (fun url => VObj [(js "type", VStr (js "image_url"));
                                     (js "image_url", VObj [(js "url", VStr (trim url))])]) validImageUrls)
    else VStr textContent.

(** The last message of a role: the loop from the end. *)
Definition last_of_role (r : jsstr) (messages : list Message) : option Message :=
  List.find (fun m => has_role m r) (reverse messages).

Definition getLastUserMessage : list Message -> option Message := last_of_role USER.
Definition getLastAssistantMessage : list Message -> option Message := last_of_role ASSISTANT.

(** ** Tags *)

Definition OPEN : jsstr := js "<think>".
Definition CLOSE : jsstr := js "</think>".
Definition DIVIDER : jsstr := [10; 10; 45; 45; 45; 10; 10].

(** The text before and after the first occurrence of [p]. *)
Fixpoint split_first (p s : jsstr) : option (jsstr * jsstr) :=
  if starts_with p s then Some ([], drop (length p) s)
  else match s with
       | [] => None
       | c :: r => match split_first p r with Some (b, a) => Some (c :: b, a) | None => None end
       end.

(** The same for the last occurrence. *)
Fixpoint split_last (p s : jsstr) : option (jsstr * jsstr) :=
  match s with
  | [] => if starts_with p s then Some ([], []) else None
  | c :: r =>
      match split_last p r with
      | Some (b, a) => Some (c :: b, a)
      | None => if starts_with p s then Some ([], drop (length p) s) else None
      end
  end.

(** The number of matches of [/p/g] for a pattern that does not overlap
    itself. *)
Fixpoint count_matches (p s : jsstr) : nat :=
  ((if starts_with p s then 1 else 0) + match s with [] => 0 | _ :: r => count_matches p r end)%nat.

(** The loop over the matches of [/<think>([\s\S]*?)<\/think>/g]: the parts of
    the answer and the thoughts. *)
Fixpoint think_parts (fuel : nat) (s : jsstr) : list jsstr * list jsstr :=
  match fuel with
  | O => ([s], [])
  | S f =>
      match split_first OPEN s with
      | None => ([s], [])
      | Some (before, rest) =>
          match split_first CLOSE rest with
          | None => ([s], [])
          | Some (thought, after) =>
              let '(replies, thoughts) := think_parts f after in
              (before :: replies, thought :: thoughts)
          end
      end
  end.

(** [s.replace(/<\/?think>/g, '')]; [skip] characters of a match are left. *)
Fixpoint remove_tags (skip : nat) (s : jsstr) : jsstr :=
  match s with
  | [] => []
  | c :: r =>
      match skip with
      | S k => remove_tags k r
      | O =>
          if starts_with OPEN s then remove_tags (length OPEN - 1) r
          else if starts_with CLOSE s then remove_tags (length CLOSE - 1) r
          else c :: remove_tags 0 r
      end
  end.

(** The reasoning followed by the thoughts of the answer. *)
Definition joined_reasoning (reasoning : jsval) (thoughts : jsstr) : jsval :=
  if truthy reasoning && str_truthy thoughts
  then VStr (to_str reasoning ++ DIVIDER ++ thoughts)
  else reasoning ||| VStr thoughts.

(** On a text. *)
Definition separateThinking (s : jsstr) (reasoning : jsval) : jsstr * jsval :=
  let '(replies, thoughts) := think_parts (S (length s)) s in
  (trim (remove_tags 0 (mjoin replies)), joined_reasoning reasoning (join DIVIDER thoughts)).

(** [processThinkTags(content, reasoningContent)]; [None] is the TypeError of
    a value without the method [includes]. *)
Definition processThinkTags (c reasoning : jsval) : option (jsval * jsval) :=
  if negb (truthy c) then Some (c, reasoning)
  else match c with
       | VStr s =>
           if includes OPEN s then
             let '(answer, r) := separateThinking s reasoning in Some (VStr answer, r)
           else Some (c, reasoning)
       | VArr l => if existsb (fun v => is_str v OPEN) l then None else Some (c, reasoning)
       | _ => None
       end.

(** [processIncompleteThinkTags(content, reasoningContent)] *)
Definition processIncompleteThinkTags (c reasoning : jsval) : option (jsval * jsval) :=
  if negb (truthy c) then Some (VStr [], reasoning)
  else match c with
       | VStr s =>
           match split_last OPEN s with
           | None => processThinkTags c reasoning
           | Some (before, fragment) =>
               if negb (includes CLOSE (OPEN ++ fragment)) then
                 let unclosedThought := trim fragment in
                 let processed :=
                   if str_truthy unclosedThought
                   then if truthy reasoning then VStr (to_str reasoning ++ DIVIDER ++ unclosedThought)
                        else VStr unclosedThought
                   else reasoning in
                 processThinkTags (VStr before) processed
               else processThinkTags c reasoning
           end
       | VArr _ => processThinkTags c reasoning
       | _ => None
       end.

(** ** Searching *)

(** A pattern whose first character occurs nowhere else in it. *)
Definition sharp (p : jsstr) : Prop := match p with [] => False | c :: r => c ∉ r end.

Lemma OPEN_sharp : sharp OPEN.
Proof. apply (bool_decide_unpack _). vm_compute. exact Logic.I. Qed.

Lemma CLOSE_sharp : sharp CLOSE.
Proof. apply (bool_decide_unpack _). vm_compute. exact Logic.I. Qed.

Lemma starts_with_spec p s : starts_with p s = true <-> exists r, s = p ++ r.
Proof.
  revert s. induction p as [|c p IH]; intros s; [split; [by eexists|done]|].
  destruct s as [|d s]; cbn [starts_with]; [split; [done|by intros [? ?]]|].
  rewrite andb_true_iff, Z.eqb_eq, IH. split.
  - intros [-> [r ->]]. by exists r.
  - intros [r [= -> ->]]. split; [done|by exists r].
Qed.

Lemma starts_with_app p s : starts_with p (p ++ s) = true.
Proof. apply starts_with_spec. by exists s. Qed.

Lemma includes_app_l p a b : includes p a = true -> includes p (a ++ b) = true.
Proof.
  induction a as [|c a IH]; intros H.
  - destruct p; [by destruct b|done].
  - cbn [includes app] in *. apply orb_true_iff in H as [H|H].
    + apply starts_with_spec in H as [r E]. apply orb_true_intro. left. apply starts_with_spec.
      exists (r ++ b). change (c :: a ++ b) with ((c :: a) ++ b). rewrite E. by rewrite (assoc_L (++)).
    + rewrite IH by done. apply orb_true_r.
Qed.

Lemma includes_app_r p a b : includes p b = true -> includes p (a ++ b) = true.
Proof. intros H. induction a as [|c a IH]; [done|]. cbn [includes app]. rewrite IH. apply orb_true_r. Qed.

(** A sharp pattern appended to a text without it is found at the end. *)
Lemma sharp_overlap p c a s : sharp p -> starts_with p (c :: a) = false ->
  starts_with p (c :: a ++ p ++ s) = false.
Proof.
  intros S N. destruct (starts_with p (c :: a ++ p ++ s)) eqn:E; [exfalso|done].
  apply starts_with_spec in E as [r E].
  destruct p as [|x p]; [done|]. cbn [sharp] in S. cbn [app] in E. injection E as -> E.
  assert (L : (length a < length p)%nat).
  { destruct (Nat.lt_ge_cases (length a) (length p)) as [|G]; [done|exfalso].
    assert (T : take (length p) a = p).
    { rewrite <- (take_app_le a (x :: p ++ s)), E by done. apply take_app_length. }
    assert (starts_with (x :: p) (x :: a) = true); [|congruence]. apply starts_with_spec.
    exists (drop (length p) a). cbn [app]. f_equal. pose proof (take_drop (length p) a) as X. rewrite T in X. done. }
  apply S. assert (T : p !! length a = Some x).
  { assert (H : (a ++ x :: p ++ s) !! length a = Some x) by (by rewrite list_lookup_middle).
    rewrite E, lookup_app_l in H by done. done. }
  by apply list_elem_of_lookup_2 in T.
Qed.

Lemma split_first_found p a s : sharp p -> includes p a = false -> split_first p (a ++ p ++ s) = Some (a, s).
Proof.
  intros S. induction a as [|c a IH]; intros N.
  - assert (E : split_first p (p ++ s) = if starts_with p (p ++ s) then Some ([], drop (length p) (p ++ s))
               else match p ++ s with [] => None | c :: r => match split_first p r with
                    Some (b, a) => Some (c :: b, a) | None => None end end) by (by destruct (p ++ s)).
    cbn [app]. rewrite E, starts_with_app, drop_app_length. done.
  - cbn [includes] in N. apply orb_false_iff in N as [N1 N2]. cbn [app split_first].
    rewrite sharp_overlap, IH by done. done.
Qed.

Lemma split_first_none p s : includes p s = false -> split_first p s = None.
Proof.
  induction s as [|c s IH]; cbn [includes split_first]; intros N; apply orb_false_iff in N as [N1 N2];
    rewrite N1; [done|]. by rewrite IH.
Qed.

Lemma split_last_found p a s : sharp p -> includes p s = false -> split_last p (a ++ p ++ s) = Some (a, s).
Proof.
  intros S N. induction a as [|c a IH]; cbn [app].
  - assert (T : forall q, (forall k, starts_with p (drop k q ++ s) = true -> drop k q = []) ->
      split_last p (q ++ s) = None).
    { intros q. induction q as [|x q IHq]; intros H; cbn [app].
      - clear -N S. induction s as [|c s IH]; cbn [includes split_last] in *; apply orb_false_iff in N as [N1 N2];
          rewrite N1; [done|]. by rewrite IH.
      - cbn [split_last]. rewrite IHq by (intros k; apply (H (Datatypes.S k))).
        destruct (starts_with p (x :: q ++ s)) eqn:E; [|done]. by specialize (H 0%nat E). }
    destruct p as [|x p]; [done|]. cbn [app split_last sharp] in *. rewrite (T p).
    + change (x :: p ++ s) with ((x :: p) ++ s). by rewrite starts_with_app, drop_app_length.
    + intros k E. destruct (drop k p) as [|y q] eqn:D; [done|exfalso].
      cbn [app starts_with] in E. apply andb_true_iff in E as [E _]. apply Z.eqb_eq in E as ->.
      apply S. apply (subseteq_drop k). rewrite D. apply list_elem_of_here.
  - cbn [split_last]. by rewrite IH.
Qed.

Lemma remove_tags_id s : includes OPEN s = false -> includes CLOSE s = false -> remove_tags 0 s = s.
Proof.
  induction s as [|c s IH]; intros A B; [done|]. cbn [includes] in A, B.
  apply orb_false_iff in A as [A1 A2], B as [B1 B2]. cbn [remove_tags]. rewrite A1, B1. f_equal. by apply IH.
Qed.

(** ** Answers with thoughts *)

(** An answer: parts, each followed by a thought in tags, and a last part. *)
Fixpoint tagged (parts : list (jsstr * jsstr)) (final : jsstr) : jsstr :=
  match parts with
  | [] => final
  | (reply, thought) :: rest => reply ++ OPEN ++ thought ++ CLOSE ++ tagged rest final
  end.

Definition replies (parts : list (jsstr * jsstr)) (final : jsstr) : jsstr := mjoin (map fst parts) ++ final.

Definition tag_free (s : jsstr) : Prop := includes OPEN s = false /\ includes CLOSE s = false.

Lemma tag_free_app a b : tag_free (a ++ b) -> tag_free a /\ tag_free b.
Proof.
  intros [A B]. split; split.
  - destruct (includes OPEN a) eqn:E; [|done]. by rewrite (includes_app_l _ _ b E) in A.
  - destruct (includes CLOSE a) eqn:E; [|done]. by rewrite (includes_app_l _ _ b E) in B.
  - destruct (includes OPEN b) eqn:E; [|done]. by rewrite (includes_app_r _ a _ E) in A.
  - destruct (includes CLOSE b) eqn:E; [|done]. by rewrite (includes_app_r _ a _ E) in B.
Qed.

(** The loop finds the parts, with a step per thought and one more. *)
Lemma think_parts_tagged parts final fuel : (length parts < fuel)%nat ->
  Forall (fun p => includes CLOSE (snd p) = false) parts -> tag_free (replies parts final) ->
  think_parts fuel (tagged parts final) = (map fst parts ++ [final], map snd parts).
Proof.
  intros F T R. revert fuel F R. induction T as [|[r t] parts T _ IH]; intros fuel F R;
    (destruct fuel as [|fuel]; [cbn in F; lia|]); cbn [tagged think_parts map app].
  - rewrite split_first_none by apply R. done.
  - unfold replies in R. cbn [map fst] in R.
    change (mjoin (r :: map fst parts)) with (r ++ mjoin (map fst parts)) in R. rewrite <- (assoc_L (++)) in R.
    apply tag_free_app in R as [R1 R2]. cbn [snd] in T.
    rewrite split_first_found by (apply OPEN_sharp || apply R1).
    rewrite split_first_found by (apply CLOSE_sharp || exact T).
    rewrite IH by (done || (cbn in F; lia)). done.
Qed.

Lemma tagged_length parts final : (length parts <= length (tagged parts final))%nat.
Proof.
  induction parts as [|[r t] parts IH]; cbn [tagged length]; [lia|]. rewrite !length_app.
  assert (0 < length OPEN)%nat by (vm_compute; lia). lia.
Qed.

Lemma mjoin_snoc (l : list jsstr) x : mjoin (l ++ [x]) = mjoin l ++ x.
Proof.
  induction l as [|a l IH]; [apply app_nil_r|].
  change (a ++ mjoin (l ++ [x]) = (a ++ mjoin l) ++ x). by rewrite IH, (assoc_L (++)).
Qed.

Lemma separate_tagged parts final reasoning :
  Forall (fun p => includes CLOSE (snd p) = false) parts -> tag_free (replies parts final) ->
  separateThinking (tagged parts final) reasoning
  = (trim (replies parts final), joined_reasoning reasoning (join DIVIDER (map snd parts))).
Proof.
  intros T R. unfold separateThinking.
  rewrite think_parts_tagged by (trivial; pose proof (tagged_length parts final); lia).
  assert (mjoin (map fst parts ++ [final]) = replies parts final) as ->.
  { apply mjoin_snoc. }
  by rewrite remove_tags_id by apply R.
Qed.

Lemma tagged_includes parts final : parts <> [] -> includes OPEN (tagged parts final) = true.
Proof.
  destruct parts as [|[r t] parts]; [done|]. intros _. cbn [tagged]. apply includes_app_r.
  destruct (OPEN ++ t ++ CLOSE ++ tagged parts final) eqn:E; [by vm_compute in E|].
  cbn [includes]. rewrite <- E, starts_with_app. done.
Qed.

Lemma processThinkTags_tagged parts final reasoning : parts <> [] ->
  Forall (fun p => includes CLOSE (snd p) = false) parts -> tag_free (replies parts final) ->
  processThinkTags (VStr (tagged parts final)) reasoning
  = Some (VStr (trim (replies parts final)), joined_reasoning reasoning (join DIVIDER (map snd parts))).
Proof.
  intros N T R. unfold processThinkTags. pose proof (tagged_includes parts final N) as I.
  assert (truthy (VStr (tagged parts final)) = true) as ->.
  { destruct (tagged parts final); [by vm_compute in I|done]. }
  cbn [negb]. rewrite I, separate_tagged by done. done.
Qed.

(** A text and the thoughts added to a reasoning. *)
Definition with_thought (reasoning : jsval) (thought : jsstr) : jsval :=
  if str_truthy thought
  then if truthy reasoning then VStr (to_str reasoning ++ DIVIDER ++ thought) else VStr thought
  else reasoning.

(** C26. The answer and the thoughts are separated exactly: of an answer of parts
    and thoughts in tags (thoughts without a closing tag, parts that do not
    spell a tag) the visible content is the parts without the white space
    around them, and the reasoning is the thoughts in order, after the
    reasoning received apart.  When the answer is cut off inside a further
    thought the same holds of what precedes it, and the unfinished thought is
    kept: it is put before the finished ones. *)
Theorem think_tags_separated parts final cut reasoning :
  parts <> [] -> Forall (fun p => includes CLOSE (snd p) = false) parts ->
  tag_free (replies parts final) -> tag_free cut ->
  processThinkTags (VStr (tagged parts final)) reasoning
  = Some (VStr (trim (replies parts final)), joined_reasoning reasoning (join DIVIDER (map snd parts))) /\
  processIncompleteThinkTags (VStr (tagged parts final ++ OPEN ++ cut)) reasoning
  = Some (VStr (trim (replies parts final)),
          joined_reasoning (with_thought reasoning (trim cut)) (join DIVIDER (map snd parts))).
Proof.
  intros N T R [C1 C2]. split; [by apply processThinkTags_tagged|].
  unfold processIncompleteThinkTags.
  assert (truthy (VStr (tagged parts final ++ OPEN ++ cut)) = true) as ->.
  { pose proof (tagged_includes parts final N) as I. by destruct (tagged parts final); [vm_compute in I|]. }
  cbn [negb]. rewrite split_last_found by (apply OPEN_sharp || exact C1).
  assert (includes CLOSE (OPEN ++ cut) = false) as ->.
  { change OPEN with [60; 116; 104; 105; 110; 107; 62]. change CLOSE with [60; 47; 116; 104; 105; 110; 107; 62] in C2 |- *.
    cbn [app includes starts_with Z.eqb Pos.eqb andb orb]. exact C2. }
  cbn [negb]. fold (with_thought reasoning (trim cut)). by apply processThinkTags_tagged.
Qed.

Lemma think_tags_separated_witness :
  processThinkTags (VStr (js "Hi <think>a</think>there")) (VStr []) = Some (VStr (js "Hi there"), VStr (js "a")) /\
  processIncompleteThinkTags (VStr (js "Hi <think>a</think>there<think>b")) (VStr [])
  = Some (VStr (js "Hi there"), VStr (js "b" ++ DIVIDER ++ js "a")).
Proof.
  apply (think_tags_separated [(js "Hi ", js "a")] (js "there") (js "b") (VStr []));
    [done|repeat constructor|split; vm_compute; reflexivity|split; vm_compute; reflexivity].
Defined.
