(* ===== verification/PlaygroundMedia.v ===== *)
(** * Pictures, videos and requests of the playground

    [helpers/playgroundImageUtils.js] (the picture addresses of a reply and
    the markdown that keeps them in a message),
    [helpers/playgroundVideoUtils.js] and [buildApiPayload] of
    [helpers/api.js] (the request built from a conversation and the
    settings). *)

From Stdlib Require Import SpecFloat.
From stdpp Require Import base list numbers strings.
From S2P Require Import Prelude JsNumber JsString JsValue JsOrder PlaygroundText.
Local Open Scope Z_scope.
Local Open Scope js_scope.

(** ** Picture addresses *)

Definition is_text (v : jsval) : bool := match v with VStr s => str_truthy (trim s) | _ => false end.

(** [typeof v === 'string' && v.trim()], then [v.trim()] *)
Definition trimmed_text (v : jsval) : jsstr := match v with VStr s => trim s | _ => [] end.

Definition normalizeBase64ImageSrc (value : jsval) (mime : jsstr) : jsstr :=
  let s := trim (to_str (value ||| VStr [])) in
  if negb (str_truthy s) then []
  else if starts_with (js "data:") s then s
  else if starts_with (js "http://") s || starts_with (js "https://") s then s
  else js "data:" ++ mime ++ js ";base64," ++ s.

Definition itemToImageSrc (item : jsval) : jsstr :=
  if negb (truthy item) then []
  else match item with
  | VStr text =>
      let s := trim text in
      if negb (str_truthy s) then []
      else if starts_with (js "http://") s || starts_with (js "https://") s || starts_with (js "data:") s then s
      else normalizeBase64ImageSrc (VStr s) (js "image/png")
  | VArr _ | VObj _ =>
      if is_text (vget item (js "url")) then trimmed_text (vget item (js "url"))
      else if is_text (vget item (js "image_url")) then trimmed_text (vget item (js "image_url"))
      else
        let b64 := vget item (js "b64_json") ??? vget item (js "base64") ??? vget item (js "binary")
                   ??? vget item (js "image_base64") ??? vget item (js "data") in
        if is_text b64 then
          let mime := if is_text (vget item (js "mime_type"))
                      then trimmed_text (vget item (js "mime_type")) else js "image/png" in
          normalizeBase64ImageSrc b64 mime
        else []
  | _ => []
  end.

Definition collectSourcesFromList (v : jsval) : list jsstr :=
  base.filter (fun s => str_truthy s = true) (map itemToImageSrc (as_arr v)).

Definition dedupeImageSources (sources : list jsstr) : list jsstr :=
  dedup_by (fun s => s) [] (base.filter (fun s => str_truthy s = true) sources).

(** [extractImageSources(obj, depth)]; [fuel] is [7 - depth]: the code stops
    below a depth of six. *)
Fixpoint extract_sources (fuel : nat) (obj : jsval) : list jsstr :=
  match fuel with
  | O => []
  | S f =>
      if negb (is_obj obj) then []
      else
        let sub (k : jsstr) := if is_obj (vget obj k) then extract_sources f (vget obj k) else [] in
        let results :=
          collectSourcesFromList (vget obj (js "data"))
          ++ collectSourcesFromList (vget obj (js "image_urls"))
          ++ collectSourcesFromList (vget obj (js "images"))
          ++ collectSourcesFromList (vget obj (js "outputs"))
          ++ base.filter (fun s => str_truthy s = true)
               (map (fun b64 => normalizeBase64ImageSrc b64 (js "image/png"))
                  (as_arr (vget obj (js "binary_data_base64"))))
          ++ base.filter (fun s => str_truthy s = true)
               (map (fun k => trimmed_text (vget obj k))
                  [js "url"; js "image_url"; js "output_url"; js "result_url"])
          ++ sub (js "output") ++ sub (js "result")
          ++ (if is_arr (vget obj (js "data")) then [] else sub (js "data")) in
        dedupeImageSources results
  end.

Definition extractImageSources (obj : jsval) : list jsstr := extract_sources 7 obj.

(** ** The markdown of generated pictures *)

Definition PICTURE : jsstr := js "![generated-image-".
Definition TARGET : jsstr := js "](".
Definition RPAREN : jsstr := [41].

Definition picture_markdown (index : nat) (src : jsstr) : jsstr :=
  PICTURE ++ dec_digits (Z.of_nat index + 1) ++ TARGET ++ src ++ RPAREN.

Definition buildImageMarkdown (sources : list jsstr) : jsstr :=
  join [10; 10] (zip_with picture_markdown (seq 0 (length (dedupeImageSources sources)))
                   (dedupeImageSources sources)).

(** [null], or the pictures and their markdown. *)
Definition buildImageMessageContentPatch (sources : list jsstr) : option (list jsstr * jsstr) :=
  let images := dedupeImageSources sources in
  match images with [] => None | _ => Some (images, buildImageMarkdown images) end.

(** A match of [!\[generated-image-\d+\]\((...)\)] at the start of a text:
    the address and the rest. *)
Definition match_picture (s : jsstr) : option (jsstr * jsstr) :=
  if starts_with PICTURE s then
    match span_digits (drop (length PICTURE) s) with
    | ([], _) => None
    | (_, rest) =>
        if starts_with TARGET rest then split_first RPAREN (drop (length TARGET) rest) else None
    end
  else None.

(** The addresses of all matches, [fuel] being the characters left. *)
Fixpoint picture_sources (fuel : nat) (s : jsstr) : list jsstr :=
  match fuel with
  | O => []
  | S f =>
      match match_picture s with
      | Some (src, rest) => src :: picture_sources f rest
      | None => match s with [] => [] | _ :: r => picture_sources f r end
      end
  end.

Definition extractGeneratedImagesFromMarkdown (text : jsval) : list jsstr :=
  match text with
  | VStr s =>
      if str_truthy (trim s)
      then dedupeImageSources (map trim (picture_sources (S (length s)) s)) else []
  | _ => []
  end.

(** The addresses kept in the field are texts. *)
Definition resolveMessageGeneratedImages (m : Message) : list jsstr :=
  let fromField := base.filter (fun v => truthy v = true) (as_arr (generatedImages m)) in
  match fromField with
  | [] => extractGeneratedImagesFromMarkdown (content m)
  | _ => dedupeImageSources (map to_str fromField)
  end.

(** [text.replace(/!\[generated-image-\d+\]\([\s\S]*?\)\s*/g, '')] *)
Fixpoint remove_pictures (fuel : nat) (s : jsstr) : jsstr :=
  match fuel with
  | O => s
  | S f =>
      match match_picture s with
      | Some (_, rest) => remove_pictures f (drop_ws rest)
      | None => match s with [] => [] | c :: r => c :: remove_pictures f r end
      end
  end.

(** [s.replace(/\n{3,}/g, '\n\n')]; [run] line feeds precede. *)
Fixpoint limit_newlines (run : nat) (s : jsstr) : jsstr :=
  match s with
  | [] => []
  | c :: r =>
      if c =? 10 then
        if (run <? 2)%nat then c :: limit_newlines (S run) r else limit_newlines (S run) r
      else c :: limit_newlines 0 r
  end.

Definition stripGeneratedImageMarkdown (text : jsval) : jsstr :=
  match text with
  | VStr s =>
      if str_truthy (trim s)
      then trim (limit_newlines 0 (remove_pictures (S (length s)) s)) else []
  | _ => []
  end.

(** ** Video addresses *)

(** One of the extensions at the start of a text, then nothing or a query:
    the pattern of [isVideoURL], whose dot does not match a line end. *)
Definition line_end (c : Z) : bool := (c =? 10) || (c =? 13) || (c =? 8232) || (c =? 8233).

Definition extension_at (exts : list jsstr) (s : jsstr) : bool :=
  existsb (fun ext =>
    starts_with (46 :: ext) s
    && match drop (S (length ext)) s with
       | [] => true
       | c :: r => (c =? 63) && forallb (fun c => negb (line_end c)) r
       end) exts.

Fixpoint has_extension (exts : list jsstr) (s : jsstr) : bool :=
  extension_at exts s || match s with [] => false | _ :: r => has_extension exts r end.

Definition isVideoURL (url : jsstr) : bool :=
  has_extension [js "mp4"; js "mov"; js "avi"; js "mkv"; js "webm"] (map ascii_lower (trim url)).

Definition isAudioURL (url : jsstr) : bool :=
  has_extension [js "mp3"; js "wav"; js "m4a"; js "aac"; js "ogg"; js "flac"] (map ascii_lower (trim url)).

(** [urls.map(u => String(u || '').trim()).filter(Boolean)] *)
Definition clean_urls (urls : list jsval) : list jsstr :=
  base.filter (fun s => str_truthy s = true) (map (fun u => trim (to_str (u ||| VStr []))) urls).

Definition dedupeUrls (urls : list jsstr) : list jsstr :=
  dedup_by (fun s => s) [] (base.filter (fun s => str_truthy s = true) (map trim urls)).

(** On the formatted messages [{role, content}] of a request. *)
Definition extractImageUrlsFromMessages (messages : list jsval) : list jsstr :=
  match List.find (fun m => is_str (vget m (js "role")) USER) (reverse messages) with
  | Some m =>
      base.filter (fun s => str_truthy s = true)
        (map (fun item =>
           if is_str (vget item (js "type")) (js "image_url") then
             let url := match vget item (js "image_url") with
                        | VStr s => VStr s
                        | v => vget v (js "url")
                        end in
             if truthy url then trim (to_str url) else []
           else []) (as_arr (vget m (js "content"))))
  | None => []
  end.

Record MediaUrls := { images : list jsstr; videos : list jsstr; audios : list jsstr; all : list jsstr }.

Definition collectVideoMediaUrls (sidebarImageUrls sidebarVideoUrls : jsval) (messages : list jsval) : MediaUrls :=
  let fromImages := dedupeUrls (clean_urls (as_arr sidebarImageUrls) ++ extractImageUrlsFromMessages messages) in
  let misclassifiedVideos := base.filter (fun u => isVideoURL u = true) fromImages in
  let images := base.filter (fun u => isVideoURL u = false /\ isAudioURL u = false) fromImages in
  let audios := base.filter (fun u => isAudioURL u = true) fromImages in
  let videos := dedupeUrls (clean_urls (as_arr sidebarVideoUrls) ++ misclassifiedVideos) in
  {| images := images; videos := videos; audios := audios; all := dedupeUrls (images ++ videos ++ audios) |}.

(** The kinds of the frames, first to last. *)
Definition buildImageMediaItems (imageUrls : list jsval) : list (jsstr * jsstr) :=
  match clean_urls imageUrls with
  | [] => []
  | [first] => [(js "first_frame", first)]
  | first :: rest =>
      (js "first_frame", first)
      :: map (fun u => (js "reference_image", u)) (removelast rest)
      ++ [(js "last_frame", List.last rest [])]
  end.

Definition applyVideoFrameMetadata (metadata : list (jsstr * jsval)) (imageUrls : list jsstr)
    : list (jsstr * jsval) :=
  match clean_urls (map VStr imageUrls) with
  | [] => metadata
  | first :: rest =>
      let next := assoc_set metadata (js "first_frame_url") (VStr first) in
      match rest with
      | [] => next
      | _ => assoc_set next (js "last_frame_url") (VStr (List.last rest []))
      end
  end.

Definition buildVideoNativeInput (prompt : jsval) : jsval :=
  VObj [(js "prompt", VStr (trim (to_str (prompt ||| VStr []))))].

Definition formatVideoTaskError (data : jsval) : jsstr :=
  if negb (is_obj data) then []
  else
    let err := vget data (js "error") in
    let msg := vget err (js "message") ||| vget err (js "msg") in
    let code := vget err (js "code") ||| vget err (js "type") in
    if is_obj err && truthy msg then
      if truthy code then to_str msg ++ js "（" ++ to_str code ++ js "）" else to_str msg
    else
      let inner := vget data (js "data") in
      let taskPayload := if is_obj inner && negb (is_arr inner) then inner else data in
      if truthy (vget taskPayload (js "message")) then to_str (vget taskPayload (js "message")) else [].

(** ** Requests *)

(** [Number(v) || d] *)
Definition num_or (v : jsval) (d : Z) : spec_float :=
  let n := to_num v in if num_truthy n then n else num_of_Z d.

(** The messages of a request; a system prompt comes first. *)
Definition processed_messages (messages : list Message) (systemPrompt : jsval) : list jsval :=
  let formatted := map formatMessageForAPI (base.filter (fun m => isValidMessage m = true) messages) in
  match systemPrompt with
  | VStr s =>
      if str_truthy (trim s)
      then VObj [(js "role", VStr SYSTEM); (js "content", VStr (trim s))] :: formatted
      else formatted
  | _ => formatted
  end.

(** The loop of [getLastUserPrompt] passes over a user message whose content
    is neither a text nor a list. *)
Definition getLastUserPrompt (processed : list jsval) : jsval :=
  let usable (m : jsval) := is_str (vget m (js "role")) USER
    && match vget m (js "content") with VStr _ | VArr _ => true | _ => false end in
  match List.find usable (reverse processed) with
  | Some m =>
      match vget m (js "content") with
      | VArr items => vget (text_part items) (js "text") ||| VStr []
      | c => c
      end
  | None => VStr []
  end.

Definition modelWithRoute (inputs : jsval) : jsval :=
  let slug := vget inputs (js "selected_route_slug") in
  let routeSlug := if truthy slug then trim (to_str slug) else [] in
  if str_truthy routeSlug
  then VStr (to_str (vget inputs (js "model")) ++ js "/" ++ routeSlug) else vget inputs (js "model").

(** [Math.max(3, Math.min(30, ...))] *)
Definition videoDuration (inputs : jsval) : spec_float :=
  let raw := to_num (vget inputs (js "video_duration")) in
  nmax (num_of_Z 3) (nmin (num_of_Z 30) (if isFinite raw && nltb n0 raw then math_round raw else num_of_Z 5)).

Definition videoCount (inputs : jsval) : spec_float :=
  nmax n1 (nmin (num_of_Z 3) (num_or (vget inputs (js "video_n")) 1)).

Definition ratioOptions : list (jsstr * spec_float) :=
  [(js "16:9", ndiv (num_of_Z 16) (num_of_Z 9)); (js "9:16", ndiv (num_of_Z 9) (num_of_Z 16)); (js "1:1", n1);
   (js "4:3", ndiv (num_of_Z 4) (num_of_Z 3)); (js "3:4", ndiv (num_of_Z 3) (num_of_Z 4));
   (js "21:9", ndiv (num_of_Z 21) (num_of_Z 9))].

Definition matchedRatio (ratioValue : spec_float) : jsstr :=
  match List.find (fun item => nltb (nabs (nsub ratioValue (snd item))) (dec_num false 3 (-2))) ratioOptions with
  | Some (value, _) => value
  | None => js "adaptive"
  end.

Definition video_resolution (width height : spec_float) : jsstr :=
  let shortSide := nmin width height in
  if nleb (num_of_Z 1080) shortSide then js "1080p"
  else if nleb (num_of_Z 720) shortSide then js "720p" else js "480p".

Definition strings (l : list jsstr) : jsval := VArr (map VStr l).

Definition video_metadata (inputs prompt : jsval) (media : MediaUrls) : jsval :=
  let width := num_or (vget inputs (js "video_width")) 1280 in
  let height := num_or (vget inputs (js "video_height")) 720 in
  let base := [(js "duration", VNum (videoDuration inputs));
               (js "resolution", VStr (video_resolution width height));
               (js "ratio", VStr (matchedRatio (ndiv width height)));
               (js "generate_audio", VBool false)]
              ++ (if bool_decide (videos media = []) then [] else [(js "video_urls", strings (videos media))])
              ++ (if bool_decide (audios media = []) then [] else [(js "audio_urls", strings (audios media))]) in
  let metadata := applyVideoFrameMetadata base (images media) in
  VObj (if truthy prompt || negb (bool_decide (images media = [])) || negb (bool_decide (videos media = []))
        then metadata ++ [(js "input", buildVideoNativeInput prompt)] else metadata).

Definition video_payload (processed : list jsval) (inputs : jsval) : jsval :=
  let width := num_or (vget inputs (js "video_width")) 1280 in
  let height := num_or (vget inputs (js "video_height")) 720 in
  let motionValue := to_num (vget inputs (js "video_motion")) in
  let prompt := getLastUserPrompt processed in
  let media := collectVideoMediaUrls (vget inputs (js "imageUrls")) (vget inputs (js "videoUrls")) processed in
  VObj ([(js "model", modelWithRoute inputs); (js "prompt", prompt); (js "n", VNum (videoCount inputs));
         (js "size", VStr (str_of_num width ++ js "x" ++ str_of_num height));
         (js "fps", VNum (num_or (vget inputs (js "video_fps")) 24));
         (js "duration", VNum (videoDuration inputs));
         (js "motion", VNum (if isFinite motionValue then motionValue else dec_num false 4 (-1)));
         (js "negative_prompt", VStr []); (js "seed", VNull); (js "images", strings (images media))]
        ++ match images media, videos media with
           | [], v :: _ => [(js "input_reference", VStr v)]
           | _, _ => []
           end
        ++ [(js "metadata", video_metadata inputs prompt media); (js "__endpoint", VStr (js "video"))]).

Definition image_payload (processed : list jsval) (inputs : jsval) : jsval :=
  VObj [(js "model", modelWithRoute inputs); (js "prompt", getLastUserPrompt processed);
        (js "size", vget inputs (js "image_size") ||| VStr (js "1024x1024"));
        (js "n", VNum (num_or (vget inputs (js "image_n")) 1)); (js "__endpoint", VStr (js "image"))].

(** [parameterMappings]: every parameter has its own name. *)
Definition parameters : list jsstr :=
  [js "temperature"; js "max_tokens"; js "frequency_penalty"; js "presence_penalty"; js "seed"].

Definition enabled_parameters (inputs parameterEnabled : jsval) : list (jsstr * jsval) :=
  map (fun p => (p, vget inputs p))
    (base.filter (fun p => truthy (vget parameterEnabled p) && negb (nullish (vget inputs p)) = true) parameters).

Definition chat_payload (processed : list jsval) (inputs parameterEnabled : jsval) : jsval :=
  VObj ([(js "model", modelWithRoute inputs); (js "messages", VArr processed);
         (js "stream", vget inputs (js "stream")); (js "__endpoint", VStr (js "chat"))]
        ++ enabled_parameters inputs parameterEnabled).

Definition display_mode (inputs : jsval) : jsval := vget inputs (js "display_mode") ||| VStr (js "text").

Definition buildApiPayload (messages : list Message) (systemPrompt inputs parameterEnabled : jsval) : jsval :=
  let processed := processed_messages messages systemPrompt in
  if is_str (display_mode inputs) (js "video") then video_payload processed inputs
  else if is_str (display_mode inputs) (js "image") then image_payload processed inputs
  else chat_payload processed inputs parameterEnabled.

(** ** Pictures kept in a text *)

(** An address that can be kept: trimmed, not empty, without a closing
    parenthesis. *)
Definition keepable (src : jsstr) : Prop := trim src = src /\ src <> [] /\ 41 ∉ src.

Lemma includes_paren s : 41 ∉ s -> includes RPAREN s = false.
Proof.
  induction s as [|c s IH]; [done|]. intros [N1 N2]%not_elem_of_cons. cbn [includes]. rewrite IH by done.
  unfold RPAREN. cbn [starts_with]. destruct (Z.eqb_spec 41 c); [congruence|done].
Qed.

Lemma match_picture_markdown i src rest : 41 ∉ src ->
  match_picture (picture_markdown i src ++ rest) = Some (src, rest).
Proof.
  intros N. unfold match_picture, picture_markdown. rewrite <- !(assoc_L (++)).
  rewrite starts_with_app, drop_app_length.
  destruct (dec_digits_spec (Z.of_nat i + 1) ltac:(lia)) as (d & ds & E & D & _). rewrite E.
  rewrite span_digits_app by (exact D || reflexivity). rewrite starts_with_app, drop_app_length.
  apply (split_first_found RPAREN); [apply not_elem_of_nil|by apply includes_paren].
Qed.

Definition pictures (i : nat) (l : list jsstr) : list jsstr := zip_with picture_markdown (seq i (length l)) l.

Lemma pictures_cons i src l : pictures i (src :: l) = picture_markdown i src :: pictures (S i) l.
Proof. done. Qed.

Definition picture_text (i : nat) (l : list jsstr) : jsstr := join [10; 10] (pictures i l).

Lemma picture_text_cons i src l :
  picture_text i (src :: l)
  = picture_markdown i src ++ match l with [] => [] | _ => 10 :: 10 :: picture_text (S i) l end.
Proof. unfold picture_text. rewrite pictures_cons. destruct l as [|s l]; [cbn; by rewrite app_nil_r|]. done. Qed.

Lemma picture_head i src rest : exists c r, picture_markdown i src ++ rest = c :: r /\ c = 33.
Proof.
  exists 33, (tail PICTURE ++ dec_digits (Z.of_nat i + 1) ++ TARGET ++ src ++ RPAREN ++ rest). split; [|reflexivity].
  unfold picture_markdown. rewrite <- !(assoc_L (++)).
  assert (PICTURE = 33 :: tail PICTURE) as E by (vm_compute; reflexivity). rewrite E at 1. reflexivity.
Qed.

Lemma picture_length i src : (0 < length (picture_markdown i src))%nat.
Proof.
  unfold picture_markdown. rewrite length_app. assert (length PICTURE = 18%nat) as -> by (vm_compute; reflexivity). lia.
Qed.

Lemma picture_sources_text (l : list jsstr) : Forall (fun s => 41 ∉ s) l -> forall i f,
  (length (picture_text i l) < f)%nat -> picture_sources f (picture_text i l) = l.
Proof.
  induction 1 as [|src l N F IH]; intros i f L; [by destruct f|].
  rewrite picture_text_cons in *. rewrite length_app in L.
  pose proof (picture_length i src) as P.
  destruct f as [|f]; [lia|]. cbn [picture_sources]. rewrite match_picture_markdown by done. f_equal.
  destruct l as [|s l]; [by destruct f|].
  set (text := picture_text (S i) (s :: l)) in *. cbn [length] in L.
  destruct f as [|[|f]]; [lia|lia|].
  change (picture_sources f text = s :: l). apply IH. fold text. lia.
Qed.

Lemma remove_pictures_text (l : list jsstr) : Forall (fun s => 41 ∉ s) l -> forall i f,
  (length l < f)%nat -> remove_pictures f (picture_text i l) = [].
Proof.
  induction 1 as [|src l N F IH]; intros i f L; [by destruct f|].
  rewrite picture_text_cons. destruct f as [|f]; [lia|]. cbn [remove_pictures].
  rewrite match_picture_markdown by done. cbn [length] in L. destruct l as [|s l].
  - cbn [drop_ws]. destruct f; done.
  - assert (drop_ws (10 :: 10 :: picture_text (S i) (s :: l)) = picture_text (S i) (s :: l)) as ->.
    { change (drop_ws (picture_text (S i) (s :: l)) = picture_text (S i) (s :: l)).
      rewrite picture_text_cons. destruct (picture_head (S i) s
        match l with [] => [] | _ => 10 :: 10 :: picture_text (S (S i)) l end) as (c & r & -> & ->). done. }
    apply IH. lia.
Qed.

Lemma dedup_by_id (l : list jsstr) seen : NoDup l -> Forall (fun x => x ∉ seen) l -> dedup_by (fun s => s) seen l = l.
Proof.
  intros N. revert seen. induction N as [|x l X N IH]; intros seen F; cbn; [done|].
  apply Forall_cons in F as [Fx F]. rewrite bool_decide_false by done. f_equal. apply IH.
  rewrite Forall_forall in *. intros y Hy [->|?]%elem_of_cons; [done|]. by apply (F y).
Qed.

Lemma dedupe_id l : NoDup l -> Forall (fun s => s <> []) l -> dedupeImageSources l = l.
Proof.
  intros N F. unfold dedupeImageSources. rewrite filter_all.
  - apply dedup_by_id; [done|]. apply Forall_forall. intros x _. apply not_elem_of_nil.
  - eapply Forall_impl; [exact F|]. by intros [|c s].
Qed.

Lemma picture_text_trim i src l : str_truthy (trim (picture_text i (src :: l))) = true.
Proof.
  rewrite picture_text_cons.
  destruct (picture_head i src match l with [] => [] | _ => 10 :: 10 :: picture_text (S i) l end)
    as (c & r & -> & ->).
  pose proof (trim_non_empty 33 r eq_refl). by destruct (trim (33 :: r)).
Qed.

(** C32. The markdown that a message keeps of its pictures gives back exactly
    the addresses, in order, when they are trimmed, not empty, different and without a
    closing parenthesis; and what is shown beside the gallery is empty. *)
Theorem picture_markdown_roundtrip l : NoDup l -> Forall keepable l ->
  extractGeneratedImagesFromMarkdown (VStr (buildImageMarkdown l)) = l /\
  stripGeneratedImageMarkdown (VStr (buildImageMarkdown l)) = [].
Proof.
  intros N F.
  assert (F1 : Forall (fun s => s <> []) l) by (eapply Forall_impl; [exact F|]; by intros s (_ & ? & _)).
  assert (F2 : Forall (fun s => 41 ∉ s) l) by (eapply Forall_impl; [exact F|]; by intros s (_ & _ & ?)).
  assert (F3 : map trim l = l).
  { clear -F. induction F as [|s l (E & _) _ IH]; [done|]. cbn. by rewrite E, IH. }
  unfold buildImageMarkdown. rewrite (dedupe_id l) by done. fold (pictures 0 l). fold (picture_text 0 l).
  unfold extractGeneratedImagesFromMarkdown, stripGeneratedImageMarkdown.
  destruct l as [|src l]; [done|]. rewrite picture_text_trim.
  rewrite picture_sources_text, F3, dedupe_id by (done || lia). split; [done|].
  rewrite remove_pictures_text; [done|done|].
  assert (P : forall l i, (length l <= length (picture_text i l))%nat).
  { induction l0 as [|s l0 IH]; intros i; [cbn; lia|]. rewrite picture_text_cons, length_app.
    pose proof (picture_length i s).
    specialize (IH (S i)). destruct l0; cbn [length] in *; lia. }
  specialize (P (src :: l) 0%nat). lia.
Qed.

Lemma picture_markdown_roundtrip_witness :
  extractGeneratedImagesFromMarkdown (VStr (buildImageMarkdown [js "https://a/1.png"; js "https://a/2.png"]))
  = [js "https://a/1.png"; js "https://a/2.png"] /\
  extractGeneratedImagesFromMarkdown (VStr (buildImageMarkdown [js "https://a/x(1).png"])) = [js "https://a/x(1"].
Proof.
  split; [|vm_compute; reflexivity].
  refine (proj1 (picture_markdown_roundtrip _ _ _)).
  - apply (bool_decide_unpack _). vm_compute. exact Logic.I.
  - repeat (apply Forall_cons; split); [..|apply Forall_nil_2]; (split; [vm_compute; reflexivity|]; split;
      [vm_compute; congruence|apply (bool_decide_unpack _); vm_compute; exact Logic.I]).
Defined.

(** ** Bounds of a video request *)

Lemma num_of_Z_pos0 z : 0 < z -> pos0 (num_of_Z z) = true.
Proof. intros. unfold num_of_Z. rewrite (proj2 (Z.ltb_ge z 0)) by lia. apply round_ratio_pos0. Qed.

Lemma num_of_Z_mono z z' : 0 < z <= z' -> nleb (num_of_Z z) (num_of_Z z') = true.
Proof.
  intros Z0. unfold num_of_Z. rewrite !(proj2 (Z.ltb_ge _ 0)), !Z.abs_eq by lia. apply round_ratio_mono; lia.
Qed.

(** An equation of numbers for each integer below 32. *)
Ltac small_number z :=
  destruct z as [|p|p]; [lia| |lia];
  do 5 (destruct p as [p|p|]; [lia || idtac|lia || idtac|vm_compute; reflexivity]); lia.

(** A positive integer, limited to [30]. *)
Lemma nmin_num z : 0 < z -> exists k, nmin (num_of_Z 30) (num_of_Z z) = num_of_Z k /\ 1 <= k <= 30.
Proof.
  intros Z0. destruct (Z.le_gt_cases 30 z) as [L|L].
  - exists 30. split; [|lia]. pose proof (num_of_Z_mono 30 z ltac:(lia)) as M.
    pose proof (num_of_Z_pos0 z Z0) as P. unfold nmin. change (num_of_Z 30) with (S754_finite false 8444249301319680 (-48)) in *.
    destruct (num_of_Z z) as [[]|[]| |[] m e]; try done.
    rewrite nltb_nleb in M by done. by destruct (nltb _ _).
  - exists z. split; [|lia]. small_number z.
Qed.

Lemma nmax_num z : 1 <= z <= 30 -> nmax (num_of_Z 3) (num_of_Z z) = num_of_Z (Z.max 3 z).
Proof.
  intros B. small_number z.
Qed.

(** [Math.round] of a positive finite number. *)
Lemma math_round_pos x : isFinite x = true -> nltb n0 x = true ->
  math_round x = S754_zero false \/ exists z, 0 < z /\ math_round x = num_of_Z z.
Proof.
  intros F P. unfold math_round. destruct x as [s|s| |[] m e]; try done. cbn [num_ratio signed].
  set (z := (2 * mag_num (Zpos m) e + mag_den e) / (2 * mag_den e)).
  assert (0 <= z).
  { apply Z.div_pos; pose proof (mag_num_pos (Zpos m) e); pose proof (mag_den_pos e); lia. }
  destruct (Z.eqb_spec z 0); [by left|right]. exists z. split; [lia|done].
Qed.

Lemma videoDuration_spec inputs : exists k, videoDuration inputs = num_of_Z k /\ 3 <= k <= 30.
Proof.
  unfold videoDuration. set (raw := to_num (vget inputs (js "video_duration"))).
  destruct (isFinite raw && nltb n0 raw) eqn:E.
  - apply andb_true_iff in E as [F P].
    destruct (math_round_pos raw F P) as [->|(z & Z0 & ->)]; [exists 3; split; [vm_compute; reflexivity|lia]|].
    destruct (nmin_num z Z0) as (k & -> & B). rewrite nmax_num by done. exists (Z.max 3 k). split; [done|lia].
  - exists 5. split; [vm_compute; reflexivity|lia].
Qed.

Lemma videoCount_spec inputs : wf inputs ->
  nleb n1 (videoCount inputs) = true /\ nleb (videoCount inputs) (num_of_Z 3) = true.
Proof.
  intros W. unfold videoCount, num_or.
  assert (V : valid (to_num (vget inputs (js "video_n")))) by auto with js_num.
  set (x := to_num (vget inputs (js "video_n"))) in *.
  destruct (num_truthy x) eqn:T; [|split; vm_compute; reflexivity].
  assert (A : forall y, (if nltb y (num_of_Z 3) then y else num_of_Z 3) = nmin (num_of_Z 3) y \/ y = nan).
  { intros y. unfold nmin. change (num_of_Z 3) with (S754_finite false 6755399441055744 (-51)).
    destruct y as [s|s| |s m e]; auto. }
  destruct (A x) as [<-|E]; [|by rewrite E in T].
  destruct (nltb x (num_of_Z 3)) eqn:L.
  - assert (nmax n1 x = if nltb n1 x then x else n1) as ->.
    { unfold nmax. change n1 with (S754_finite false 4503599627370496 (-52)). destruct x as [s|s| |s m e]; done. }
    destruct (nltb n1 x) eqn:G; [|split; vm_compute; reflexivity].
    unfold nltb, nleb, SFltb, SFleb in *. by destruct (SFcompare n1 x) as [[]|], (SFcompare x (num_of_Z 3)) as [[]|].
  - split; vm_compute; reflexivity.
Qed.

(** Whatever the settings hold, a video request asks for a whole number of
    seconds between 3 and 30, the same in its metadata, and for between one
    and three videos. *)
Theorem video_request_bounds messages systemPrompt inputs parameterEnabled : wf inputs ->
  is_str (display_mode inputs) (js "video") = true ->
  let payload := buildApiPayload messages systemPrompt inputs parameterEnabled in
  exists k n, 3 <= k <= 30 /\ vget payload (js "duration") = VNum (num_of_Z k) /\
    vget (vget payload (js "metadata")) (js "duration") = VNum (num_of_Z k) /\
    vget payload (js "n") = VNum n /\ nleb n1 n = true /\ nleb n (num_of_Z 3) = true.
Proof.
  intros W V payload. subst payload. unfold buildApiPayload. rewrite V.
  destruct (videoDuration_spec inputs) as (k & E & B). destruct (videoCount_spec inputs W) as [C1 C2].
  exists k, (videoCount inputs). split; [exact B|]. rewrite <- E.
  split; [reflexivity|]. split; [|split; [reflexivity|split; [exact C1|exact C2]]].
  unfold video_payload. set (processed := processed_messages messages systemPrompt).
  set (media := collectVideoMediaUrls _ _ _). set (prompt := getLastUserPrompt processed).
  assert (vget (VObj
    ([(js "model", modelWithRoute inputs); (js "prompt", prompt); (js "n", VNum (videoCount inputs));
      (js "size", VStr (str_of_num (num_or (vget inputs (js "video_width")) 1280) ++ js "x" ++ str_of_num (num_or (vget inputs (js "video_height")) 720)));
      (js "fps", VNum (num_or (vget inputs (js "video_fps")) 24)); (js "duration", VNum (videoDuration inputs));
      (js "motion", VNum (if isFinite (to_num (vget inputs (js "video_motion"))) then to_num (vget inputs (js "video_motion")) else dec_num false 4 (-1)));
      (js "negative_prompt", VStr []); (js "seed", VNull); (js "images", strings (images media))]
     ++ match images media, videos media with [], v :: _ => [(js "input_reference", VStr v)] | _, _ => [] end
     ++ [(js "metadata", video_metadata inputs prompt media); (js "__endpoint", VStr (js "video"))])) (js "metadata")
    = video_metadata inputs prompt media) as ->.
  { destruct (images media), (videos media); reflexivity. }
  unfold video_metadata, applyVideoFrameMetadata.
  destruct (clean_urls _) as [|first rest]; [destruct (_ || _); reflexivity|].
  destruct (bool_decide (videos media = [])), (bool_decide (audios media = [])), rest, (_ || _); reflexivity.
Qed.

Definition sample_settings : jsval := VObj [(js "display_mode", VStr (js "video")); (js "video_duration", VStr (js "99.5"));
  (js "video_n", VNum (num_of_Z (-4)))].

Lemma video_request_bounds_witness :
  let payload := buildApiPayload [] VNull sample_settings (VObj []) in
  exists k n, 3 <= k <= 30 /\ vget payload (js "duration") = VNum (num_of_Z k) /\
    vget (vget payload (js "metadata")) (js "duration") = VNum (num_of_Z k) /\
    vget payload (js "n") = VNum n /\ nleb n1 n = true /\ nleb n (num_of_Z 3) = true.
Proof.
  apply (video_request_bounds [] VNull sample_settings (VObj [])); [|vm_compute; reflexivity].
  cbn. split_and!; try exact Logic.I. apply num_of_Z_valid.
Defined.
