(* ===== verification/PlaygroundChat.v ===== *)
(** * Conversations of the playground

    The updates of a conversation by [hooks/playground/useApiRequest.jsx]
    (streamed and complete answers, polling of video and picture tasks,
    stopping), [useMessageActions.jsx], [useMessageEdit.jsx] and the helpers of
    [usePlaygroundState.js].  A function passed to [setMessage] is an
    [Update]; [run_update] says what it does to a list of messages: the new
    list and the list it schedules for saving, or [None] when it throws.
    What a request handler does on an event is a list of [Command]s.

    Texts of the runtime (messages and stacks of its exceptions, the time) are
    parameters. *)

From Stdlib Require Import SpecFloat.
From stdpp Require Import base list numbers strings.
From S2P Require Import Prelude JsNumber JsString JsValue JsJson PlaygroundText PlaygroundMedia.
Local Open Scope Z_scope.
Local Open Scope js_scope.

(** ** Updates of the last message *)

(** [[...l.slice(0, -1), m]] *)
Definition replace_last (l : list Message) (m : Message) : list Message := removelast l ++ [m].

Definition applyAutoCollapseLogic (m : Message) (thinkingComplete : jsval) : Message :=
  let shouldAutoCollapse := js_and thinkingComplete (VBool (negb (truthy (hasAutoCollapsed m)))) in
  m <| isThinkingComplete := thinkingComplete |>
    <| hasAutoCollapsed := shouldAutoCollapse ||| hasAutoCollapsed m |>
    <| isReasoningExpanded := if truthy shouldAutoCollapse then VBool false else isReasoningExpanded m |>.

Inductive Chunk := ReasoningChunk | ContentChunk.

Definition generating (m : Message) : bool := has_status m LOADING || has_status m INCOMPLETE.

Definition add_reasoning (chunk : jsval) (m : Message) : Message :=
  m <| reasoningContent := js_plus (reasoningContent m ||| VStr []) chunk |>
    <| status := VStr INCOMPLETE |> <| isThinkingComplete := VBool false |>.

(** More closing tags than opening ones, and at least one of each. *)
Definition tags_closed (text : jsstr) : bool :=
  includes CLOSE text && (0 <? count_matches OPEN text)%nat && (0 <? count_matches CLOSE text)%nat
  && (count_matches OPEN text <=? count_matches CLOSE text)%nat.

(** [None] is the TypeError of a content that is not a text. *)
Definition add_content (chunk : jsval) (m : Message) : option Message :=
  let newContent := js_plus (content m ||| VStr []) chunk in
  let finish (closed : bool) :=
    let fromTags := if closed then VBool true else isThinkingComplete m in
    let complete := js_and (reasoningContent m) (VBool (negb (truthy (isThinkingComplete m)))) ||| fromTags in
    let m' := applyAutoCollapseLogic m complete in
    Some (m' <| content := newContent |> <| status := VStr INCOMPLETE |>) in
  if truthy (isReasoningExpanded m) then
    match newContent with VStr s => finish (tags_closed s) | _ => None end
  else finish false.

(** [streamMessageUpdate(textChunk, type)] *)
Definition streamMessageUpdate (type : Chunk) (chunk : jsval) (l : list Message) : option (list Message) :=
  match last l with
  | None => Some l
  | Some m =>
      if negb (has_role m ASSISTANT) || has_status m ERROR || negb (generating m) then Some l
      else match type with
           | ReasoningChunk => Some (replace_last l (add_reasoning chunk m))
           | ContentChunk => m' ← add_content chunk m; Some (replace_last l m')
           end
  end.

(** [completeMessage(status)]: the new list, and the list to save. *)
Definition completeMessage (st : jsstr) (l : list Message) : option (list Message * option (list Message)) :=
  m ← last l;
  if has_status m COMPLETE || has_status m ERROR then Some (l, None)
  else
    let updated := replace_last l ((applyAutoCollapseLogic m (VBool true)) <| status := VStr st |>) in
    Some (updated, if bool_decide (st = COMPLETE) || bool_decide (st = ERROR) then Some updated else None).

(** The update of [onStopGenerator]. *)
Definition stopMessage (l : list Message) : option (list Message * option (list Message)) :=
  match last l with
  | None => Some (l, None)
  | Some m =>
      if generating m then
        processed ← processIncompleteThinkTags (content m ||| VStr []) (reasoningContent m ||| VStr []);
        let m' := applyAutoCollapseLogic (m <| status := VStr COMPLETE |>
                    <| reasoningContent := snd processed ||| VNull |> <| content := fst processed |>) (VBool true) in
        let updated := replace_last l m' in Some (updated, Some updated)
      else Some (l, None)
  end.

(** An answer for the last message, if it still waits for one. *)
Definition answer_last (f : Message -> Message) (l : list Message) : list Message :=
  match last l with
  | Some m => if has_status m LOADING then replace_last l (f (applyAutoCollapseLogic m (VBool true))) else l
  | None => l
  end.

(** What polling sends to [updateMessage]; [None] is an absent property. *)
Record Patch := {
  p_content : option jsval;
  p_images : option jsval;
  p_status : option jsstr;
  p_task : option jsval
}.

(** The patch that the callers apply: a status only when there is one. *)
Definition apply_patch (p : Patch) (m : Message) : Message :=
  m <| content := default (content m) (p_content p) |>
    <| generatedImages := default (generatedImages m) (p_images p) |>
    <| status := match p_status p with Some s => VStr s | None => status m end |>
    <| videoTask := default (videoTask m) (p_task p) |>.

(** Polling started by a request patches the last message. *)
Definition patch_last (p : Patch) (l : list Message) : list Message :=
  match last l with
  | Some m => if has_role m ASSISTANT then replace_last l (apply_patch p m) else l
  | None => l
  end.

(** Polling resumed by the page patches the message it was resumed for. *)
Definition patch_id (p : Patch) (target : jsval) (l : list Message) : list Message :=
  map (fun m => if strict_eq (id m) target then apply_patch p m else m) l.

Inductive Update :=
  | UStream (type : Chunk) (chunk : jsval)
  | UComplete (st : jsstr)
  | UStop
  | UAnswer (answer reasoning : jsval)
  | UImages (answer : jsval) (pictures : option jsval)
  | UTask (answer : jsval) (task : jsval)
  | UFail (text : jsstr)
  | UPatch (p : Patch).

Definition plain (l : list Message) : option (list Message * option (list Message)) := Some (l, None).

Definition run_update (u : Update) (l : list Message) : option (list Message * option (list Message)) :=
  match u with
  | UStream type chunk => l' ← streamMessageUpdate type chunk l; plain l'
  | UComplete st => completeMessage st l
  | UStop => stopMessage l
  | UAnswer answer reasoning =>
      plain (answer_last (fun m => m <| content := answer |> <| reasoningContent := reasoning |>
                                     <| status := VStr COMPLETE |>) l)
  | UImages answer pictures =>
      plain (answer_last (fun m => m <| content := answer |>
                                     <| generatedImages := default (generatedImages m) pictures |>
                                     <| status := VStr COMPLETE |>) l)
  | UTask answer task =>
      plain (answer_last (fun m => m <| content := answer |> <| videoTask := task |>
                                     <| status := VStr COMPLETE |>) l)
  | UFail text =>
      plain (answer_last (fun m => m <| content := VStr text |> <| status := VStr ERROR |>) l)
  | UPatch p => plain (patch_last p l)
  end.

(** ** Requests *)

Inductive Tab := PREVIEW | REQUEST | RESPONSE.

(** The debug panel; [sseMessages] is [None] for [null]. *)
Record Debug := {
  request : jsval;
  response : jsval;
  sseMessages : option (list jsstr);
  isStreaming : bool
}.

#[export] Instance eta_Debug : Eta Debug := fun d =>
  {| request := request d; response := response d; sseMessages := sseMessages d; isStreaming := isStreaming d |}.

Inductive PollKind := PollVideo | PollImage.

(** What a handler does: a [setMessage], a change of the debug panel, closing
    the source of the stream, clearing [sseSourceRef], polling of a task. *)
Inductive Command :=
  | Messages (u : Update)
  | DebugData (f : Debug -> Debug)
  | ActiveTab (tab : Tab)
  | CloseSource
  | ForgetSource
  | StartPoll (kind : PollKind) (taskId : jsval).

Definition pretty_json (v : jsval) : jsstr := default [] (JSON_stringify 2 v).

(** [resolveEndpoint(payload)] and [stripLocalFields(payload)] *)
Definition resolveEndpoint (payload : jsval) : jsstr :=
  if is_str (vget payload (js "__endpoint")) (js "image") then js "/api/playground/images/generations"
  else if is_str (vget payload (js "__endpoint")) (js "video") then js "/api/playground/videos"
  else js "/api/playground/chat/completions".

Definition stripLocalFields (payload : jsval) : jsval :=
  match payload with VObj o => VObj (assoc_delete o (js "__endpoint")) | v => v end.

(** The task inside a reply, flat or under [data]. *)
Definition getVideoTaskPayload (obj : jsval) : jsval :=
  if negb (is_obj obj) then VObj []
  else
    let d := vget obj (js "data") in
    if is_obj d && negb (is_arr d)
       && (truthy (vget d (js "task_id")) || truthy (vget d (js "id"))
           || truthy (vget d (js "status")) || truthy (vget d (js "url")))
    then d else obj.

(** [data?.data && typeof data.data === 'object' ? data.data : data] *)
Definition image_task (data : jsval) : jsval :=
  if is_obj (vget data (js "data")) then vget data (js "data") else data.

(** The first address found by [f] in a list. *)
Definition first_url (f : jsval -> jsstr) (l : list jsval) : jsstr :=
  default [] (List.find str_truthy (map f l)).

(** [extractVideoPlayableURL(obj)]; [fuel] bounds the nesting. *)
Fixpoint playable_url (fuel : nat) (obj : jsval) : jsstr :=
  match fuel with
  | O => []
  | S f =>
      if negb (is_obj obj) then []
      else
        let output := vget obj (js "output") in
        let ou := match vget output (js "video_url"), vget output (js "videoUrl") with
                  | VStr a, _ => a
                  | _, VStr b => b
                  | _, _ => []
                  end in
        let nested (k : jsstr) := if is_obj (vget obj k) then playable_url f (vget obj k) else [] in
        first_url (fun s => match s with VStr s => s | _ => [] end)
          (VStr (if is_obj output then trim ou else [])
           :: map (fun k => VStr (trimmed_text (vget obj k))) [js "url"; js "video_url"; js "content_url"; js "output_url"]
           ++ [VStr (first_url (playable_url f) (as_arr (vget obj (js "data"))));
               VStr (nested (js "video")); VStr (nested (js "result"));
               VStr (if is_arr (vget obj (js "data")) then [] else nested (js "data"))])
  end.

Definition extractVideoPlayableURL (obj : jsval) : jsstr := playable_url (vsize obj) obj.

Section Requests.
Context `{Unicode}.
Context (t : jsstr -> jsstr).
(** Texts of the runtime: the message and the stack of an exception, the
    time. *)
Context (type_error : jsstr) (json_error : jsstr -> jsstr) (stack : jsstr -> jsval) (now_iso : jsstr).

Definition error_details (message : jsstr) : list (jsstr * jsval) :=
  if includes (js "HTTP error") message then [(js "details", VStr (js "服务器返回了错误状态码"))]
  else if includes (js "Failed to fetch") message then [(js "details", VStr (js "网络连接失败或服务器无响应"))]
  else [].

(** [handleApiError(error, response)] *)
Definition handleApiError (message : jsstr) (resp : list (jsstr * jsval)) : list (jsstr * jsval) :=
  [(js "error", VStr (str_or message (js "未知错误"))); (js "timestamp", VStr now_iso); (js "stack", stack message)]
  ++ resp ++ error_details message.

Definition show_response (text : jsval) : list Command :=
  [DebugData (fun d => d <| response := text |>); ActiveTab RESPONSE].

(** *** Streamed answers *)

(** The variables of [handleSSE]. *)
Record Stream := {
  responseData : jsstr;
  hasReceivedFirstResponse : bool;
  isStreamComplete : bool
}.

Definition new_stream : Stream :=
  {| responseData := []; hasReceivedFirstResponse := false; isStreamComplete := false |}.

(** The events of the source: a message, an error, a change of its state. *)
Inductive SseEvent :=
  | SseMessage (data : jsstr)
  | SseError (data : jsval) (readyState : Z)
  | SseState (readyState : Z) (httpStatus : option Z).

Definition sse_start (payload : jsval) : list Command :=
  [DebugData (fun d => {| request := stripLocalFields payload; response := VNull;
                          sseMessages := Some []; isStreaming := true |});
   ActiveTab REQUEST].

Definition add_sse (data : jsstr) (d : Debug) : Debug :=
  d <| sseMessages := Some (default [] (sseMessages d) ++ [data]) |>.

(** [if (delta.x) streamMessageUpdate(delta.x, type)] *)
Definition delta_update (type : Chunk) (chunk : jsval) : list Command :=
  if truthy chunk then [Messages (UStream type chunk)] else [].

Definition delta_commands (payload : jsval) : list Command :=
  let delta := vget (vget (vget payload (js "choices")) (js "0")) (js "delta") in
  if truthy delta then
    delta_update ReasoningChunk (vget delta (js "reasoning_content"))
    ++ delta_update ReasoningChunk (vget delta (js "reasoning"))
    ++ delta_update ContentChunk (vget delta (js "content"))
  else [].

(** The end of a handler that failed: a text and the status. *)
Definition fail_stream (text : jsval) : list Command :=
  [Messages (UStream ContentChunk text); Messages (UComplete ERROR)].

Definition sse_parse_error (s : Stream) (data message : jsstr) : list Command :=
  DebugData (fun d => (add_sse data d)
    <| response := VStr (responseData s ++ [10; 10] ++ js "Error: " ++ js "解析错误: " ++ message) |>
    <| isStreaming := false |>)
  :: ActiveTab RESPONSE :: fail_stream (VStr (t (js "解析响应数据时发生错误"))).

(** The listener of [message]. *)
Definition sse_message (data : jsstr) (s : Stream) : Stream * list Command :=
  if bool_decide (data = js "[DONE]") then
    ({| responseData := responseData s; hasReceivedFirstResponse := hasReceivedFirstResponse s;
        isStreamComplete := true |},
     [CloseSource; ForgetSource;
      DebugData (fun d => (add_sse data d) <| response := VStr (responseData s) |> <| isStreaming := false |>);
      Messages (UComplete COMPLETE)])
  else match JSON_parse data with
       | None => (s, sse_parse_error s data (json_error data))
       | Some payload =>
           let s' := {| responseData := responseData s ++ data ++ [10]; hasReceivedFirstResponse := true;
                        isStreamComplete := isStreamComplete s |} in
           let seen := (if hasReceivedFirstResponse s then [] else [ActiveTab RESPONSE])
                       ++ [DebugData (add_sse data)] in
           (s', seen ++ match payload with
                        | VNull => sse_parse_error s' data type_error
                        | _ => delta_commands payload
                        end)
       end.

(** The listener of [error]. *)
Definition sse_error (data : jsval) (readyState : Z) (s : Stream) : list Command :=
  if isStreamComplete s || (readyState =? 2) then []
  else
    let errorMessage := data ||| VStr (t (js "请求发生错误")) in
    let errorInfo := handleApiError (to_str errorMessage) [] ++ [(js "readyState", VNum (num_of_Z readyState))] in
    show_response (VStr (responseData s ++ [10; 10] ++ js "SSE Error:" ++ [10] ++ pretty_json (VObj errorInfo)))
    ++ fail_stream errorMessage ++ [ForgetSource; CloseSource].

(** The listener of [readystatechange]. *)
Definition sse_state (readyState : Z) (httpStatus : option Z) (s : Stream) : list Command :=
  match httpStatus with
  | Some code =>
      if (2 <=? readyState) && negb (code =? 200) && negb (isStreamComplete s) then
        let errorInfo := handleApiError (js "HTTP状态错误") []
          ++ [(js "status", VNum (num_of_Z code)); (js "readyState", VNum (num_of_Z readyState))] in
        show_response (VStr (responseData s ++ [10; 10] ++ js "HTTP Error:" ++ [10] ++ pretty_json (VObj errorInfo)))
        ++ CloseSource :: fail_stream (VStr (t (js "连接已断开")))
      else []
  | None => []
  end.

Definition sse_event (e : SseEvent) (s : Stream) : Stream * list Command :=
  match e with
  | SseMessage data => sse_message data s
  | SseError data readyState => (s, sse_error data readyState s)
  | SseState readyState code => (s, sse_state readyState code s)
  end.

(** [source.stream()] throws. *)
Definition sse_start_failed (message : jsstr) : list Command :=
  show_response (VStr (js "Stream启动失败:" ++ [10] ++ pretty_json (VObj (handleApiError message []))))
  ++ fail_stream (VStr (t (js "建立连接时发生错误"))).

(** *** Complete answers *)

(** The outcome of a [fetch]: it fails with a message (so does reading the
    body), or a response; [body] is '无法读取错误响应体' when the body of an error
    of a request cannot be read. *)
Inductive FetchReply :=
  | NetworkError (message : jsstr)
  | Response (ok : bool) (httpStatus : Z) (statusText : jsstr) (body : jsstr).

Definition request_start (payload : jsval) : list Command :=
  [DebugData (fun d => {| request := stripLocalFields payload; response := VNull;
                          sseMessages := None; isStreaming := false |});
   ActiveTab REQUEST].

(** The [catch] of [handleNonStreamRequest]. *)
Definition request_failed (message : jsstr) : list Command :=
  show_response (VStr (pretty_json (VObj (handleApiError message []))))
  ++ [Messages (UFail (t (js "请求发生错误: ") ++ message))].

Definition IMAGE_PENDING : list jsstr := [js "queued"; js "processing"; js "in_progress"; js "running"].

Definition in_list (s : jsstr) (l : list jsstr) : bool := bool_decide (s ∈ l).

Definition lower_text (v : jsval) : jsstr := toLowerCase (to_str v).

Definition chat_reply (choice : jsval) : list Command :=
  let message := vget choice (js "message") in
  match processThinkTags (vget message (js "content") ||| VStr [])
          (vget message (js "reasoning_content") ||| vget message (js "reasoning") ||| VStr []) with
  | Some (answer, reasoning) => [Messages (UAnswer answer reasoning)]
  | None => request_failed type_error
  end.

Definition image_reply (data : jsval) : list Command :=
  let imagePatch := buildImageMessageContentPatch (extractImageSources data) in
  let taskData := image_task data in
  let imageTaskId := vget taskData (js "task_id") ||| vget taskData (js "id")
                     ||| vget data (js "task_id") ||| vget data (js "id") in
  let imageStatus := lower_text (vget taskData (js "status") ||| vget data (js "status") ||| VStr []) in
  let shouldPollImage := truthy imageTaskId && in_list imageStatus IMAGE_PENDING in
  let fallback := if shouldPollImage then js "图片生成中，请稍后…"
                  else js "图片生成完成。" ++ [10; 10] ++ pretty_json data in
  Messages (match imagePatch with
            | Some (pics, text) => UImages (VStr (str_or text fallback)) (Some (strings pics))
            | None => UImages (VStr fallback) None
            end)
  :: (if shouldPollImage then [StartPoll PollImage imageTaskId] else []).

Definition other_reply (payload data : jsval) : list Command :=
  let isVideo := is_str (vget payload (js "__endpoint")) (js "video") in
  let taskPayload := getVideoTaskPayload data in
  let taskId := vget taskPayload (js "task_id") ||| vget taskPayload (js "id")
                ||| vget data (js "task_id") ||| vget data (js "id") in
  let task := VObj [(js "taskId", taskId);
                    (js "status", VStr (lower_text (vget taskPayload (js "status") ||| vget data (js "status") ||| VStr (js "queued"))));
                    (js "progress", VNum (to_num (vget taskPayload (js "progress") ||| vget data (js "progress") ||| VNum n0)))] in
  Messages (UTask (VStr (if isVideo then js "视频生成中，请稍后…" else pretty_json data))
              (if isVideo && truthy taskId then task else VUndef))
  :: (if isVideo && truthy taskId then [StartPoll PollVideo taskId] else []).

Definition http_error_text (code : Z) (body : jsstr) : jsstr :=
  js "HTTP error! status: " ++ str_of_num (num_of_Z code) ++ js ", body: " ++ body.

Definition request_reply (payload : jsval) (r : FetchReply) : list Command :=
  match r with
  | NetworkError message => request_failed message
  | Response false code statusText body =>
      show_response (VStr (pretty_json (VObj (handleApiError (http_error_text code body)
        [(js "status", VNum (num_of_Z code)); (js "statusText", VStr statusText)]))))
      ++ request_failed (http_error_text code body)
  | Response true _ _ body =>
      match (if str_truthy body then JSON_parse body else Some (VObj [])) with
      | None =>
          request_failed (js "接口未返回 JSON（endpoint=" ++ resolveEndpoint payload ++ js "），响应片段: " ++ take 120 body)
      | Some data =>
          show_response (VStr (pretty_json data))
          ++ match data with
             | VNull => request_failed type_error
             | _ =>
                 let choice := vget (vget data (js "choices")) (js "0") in
                 if truthy choice then chat_reply choice
                 else if is_str (vget payload (js "__endpoint")) (js "image") then image_reply data
                 else other_reply payload data
             end
      end
  end.

(** *** Polling *)

Definition video_task (taskId : jsval) (st : jsstr) (progress : spec_float) : jsval :=
  VObj [(js "taskId", taskId); (js "status", VStr st); (js "progress", VNum progress)].

Definition video_patch (text : jsstr) (st : option jsstr) (task : jsval) : Patch :=
  {| p_content := Some (VStr text); p_images := None; p_status := st; p_task := Some task |}.

Definition video_error (taskId : jsval) (text : jsstr) : Patch :=
  video_patch (trim text) (Some ERROR) (video_task taskId (js "error") n0).

Definition VIDEO_PENDING : jsstr := js "视频生成中，请稍后…".
Definition SUCCESS : list jsstr := [js "succeeded"; js "success"; js "completed"].
Definition FAILURE : list jsstr := [js "failed"; js "error"; js "cancelled"].

(** What one reply does to the polling of a video task: the patches, and the
    number of network failures in a row when it goes on. *)
Definition video_data (taskId data : jsval) : list Patch * option nat :=
  let taskPayload := getVideoTaskPayload data in
  let st := lower_text (vget taskPayload (js "status") ||| VStr []) in
  let progress := to_num (vget taskPayload (js "progress") ||| VNum n0) in
  let playable := extractVideoPlayableURL data in
  let tick := video_patch VIDEO_PENDING None (video_task taskId (str_or st (js "queued")) progress) in
  let final :=
    if str_truthy playable then
      Some (video_patch (js "视频已生成完成。") (Some COMPLETE)
        (VObj [(js "taskId", taskId); (js "status", VStr (js "completed"));
               (js "progress", VNum (num_of_Z 100)); (js "playableUrl", VStr playable)]))
    else if in_list st SUCCESS then
      Some (video_patch (js "视频已生成完成。" ++ [10; 10] ++ js "任务状态：" ++ st ++ [10; 10] ++ pretty_json taskPayload)
        (Some COMPLETE) (video_task taskId (js "completed") (num_of_Z 100)))
    else if in_list st FAILURE then
      let errDetail := formatVideoTaskError data in
      Some (video_patch
        (if str_truthy errDetail then js "视频生成失败：" ++ errDetail
         else js "视频生成失败（status=" ++ st ++ js "）。" ++ [10; 10] ++ pretty_json data)
        (Some ERROR) (video_task taskId st progress))
    else None in
  match final with Some p => ([tick; p], None) | None => ([tick], Some 0%nat) end.

Definition video_reply (taskId : jsval) (failures : nat) (r : FetchReply) : list Patch * option nat :=
  match r with
  | NetworkError message =>
      let n := S failures in
      if (3 <=? n)%nat then
        ([video_error taskId (js "视频轮询失败（网络异常 " ++ str_of_num (num_of_Z (Z.of_nat n)) ++ js " 次），已停止自动轮询。"
            ++ [10; 10] ++ message)], None)
      else ([video_patch VIDEO_PENDING None (video_task taskId (js "queued") n0)], Some n)
  | Response false code _ body =>
      ([video_error taskId (js "视频轮询失败（HTTP " ++ str_of_num (num_of_Z code) ++ js "），已停止自动轮询。"
          ++ [10; 10] ++ body)], None)
  | Response true _ _ body =>
      match (if str_truthy body then JSON_parse body else Some (VObj [])) with
      | None =>
          ([video_error taskId (js "视频轮询失败（返回非 JSON），已停止自动轮询。" ++ [10; 10] ++ take 300 body)], None)
      | Some data => video_data taskId data
      end
  end.

(** The loop: [left_] attempts are left, [replies i] is the reply to the
    request number [i]. *)
Fixpoint poll_video (taskId : jsval) (replies : nat -> FetchReply) (left_ i failures : nat) : list Patch :=
  match left_ with
  | O => [video_patch (js "视频生成超时，请稍后在任务日志中查看。") (Some ERROR) (video_task taskId (js "timeout") n0)]
  | S left_ =>
      match video_reply taskId failures (replies i) with
      | (patches, None) => patches
      | (patches, Some n) => patches ++ poll_video taskId replies left_ (S i) n
      end
  end.

Definition maxAttempts : nat := 120.

Definition pollVideoTaskUntilReady (taskId : jsval) (replies : nat -> FetchReply) : list Patch :=
  if truthy taskId then poll_video taskId replies maxAttempts 0 0 else [].

Definition image_patch (text : jsstr) (images : option jsval) (st : option jsstr) : Patch :=
  {| p_content := Some (VStr text); p_images := images; p_status := st; p_task := None |}.

(** [`${Math.max(0, Math.min(100, progress))}`] *)
Definition percent_text (progress : spec_float) : jsstr := str_of_num (nmax n0 (nmin (num_of_Z 100) progress)).

(** One reply for a picture task: the patches, and whether it goes on. *)
Definition image_data (data : jsval) : Patch * bool :=
  let taskData := image_task data in
  let st := lower_text (vget taskData (js "status") ||| VStr []) in
  match buildImageMessageContentPatch (extractImageSources data) with
  | Some (pics, text) => (image_patch text (Some (strings pics)) (Some COMPLETE), false)
  | None =>
      if in_list st SUCCESS then
        (image_patch (js "图片生成完成。" ++ [10; 10] ++ pretty_json taskData) None (Some COMPLETE), false)
      else if in_list st FAILURE then
        (image_patch (js "图片生成失败（status=" ++ st ++ js "）。" ++ [10; 10] ++ pretty_json taskData) None (Some ERROR), false)
      else (image_patch (js "图片生成中，请稍后… (" ++ percent_text (to_num (vget taskData (js "progress") ||| VNum n0))
              ++ js "%)") None None, true)
  end.

Definition image_poll_reply (r : FetchReply) : list Patch * bool :=
  match r with
  | NetworkError _ => ([], true)
  | Response false _ _ _ => ([], false)
  | Response true _ _ body =>
      match (if str_truthy body then JSON_parse body else Some (VObj [])) with
      | None => ([], true)
      | Some data => let (p, go) := image_data data in ([p], go)
      end
  end.

Fixpoint poll_image (replies : nat -> FetchReply) (left_ i : nat) : list Patch :=
  match left_ with
  | O => []
  | S left_ =>
      let (patches, go) := image_poll_reply (replies i) in
      patches ++ (if go then poll_image replies left_ (S i) else [])
  end.

Definition pollImageTaskUntilReady (taskId : jsval) (replies : nat -> FetchReply) : list Patch :=
  if truthy taskId then poll_image replies maxAttempts 0 else [].

(** *** Running commands on the conversation of the request *)

Fixpoint run_commands (cs : list Command) (l : list Message) : option (list Message) :=
  match cs with
  | [] => Some l
  | Messages u :: r => p ← run_update u l; run_commands r (fst p)
  | _ :: r => run_commands r l
  end.

Fixpoint run_events (es : list SseEvent) (s : Stream) (l : list Message) : option (Stream * list Message) :=
  match es with
  | [] => Some (s, l)
  | e :: r => let (s', cs) := sse_event e s in l' ← run_commands cs l; run_events r s' l'
  end.

End Requests.

(** ** Streamed answers *)

Section Answers.
Context `{Unicode}.
Context (t : jsstr -> jsstr).
Context (type_error : jsstr) (json_error : jsstr -> jsstr) (stack : jsstr -> jsval) (now_iso : jsstr).

Abbreviation events := (run_events t type_error json_error stack now_iso).
Abbreviation event := (sse_event t type_error json_error stack now_iso).

(** A text of a delta; the page appends it when it is not empty. *)
Definition delta_text (v : jsval) : jsstr := match v with VStr s => s | _ => [] end.

Definition text_or_absent (v : jsval) : Prop := truthy v = false \/ exists s, v = VStr s.

Definition delta_of (data : jsstr) : jsval :=
  vget (vget (vget (default VUndef (JSON_parse data)) (js "choices")) (js "0")) (js "delta").

(** A chunk of a stream: JSON, not [null], whose delta has texts. *)
Record chunk (data : jsstr) : Prop := {
  chunk_open : data <> js "[DONE]";
  chunk_json : exists v, JSON_parse data = Some v /\ v <> VNull;
  chunk_texts : Forall (fun k => text_or_absent (vget (delta_of data) k))
                  [js "reasoning_content"; js "reasoning"; js "content"]
}.

Definition chunk_reasoning (data : jsstr) : jsstr :=
  delta_text (vget (delta_of data) (js "reasoning_content")) ++ delta_text (vget (delta_of data) (js "reasoning")).
Definition chunk_content (data : jsstr) : jsstr := delta_text (vget (delta_of data) (js "content")).

(** The message that receives a stream: reasoning and content so far. *)
Definition receiving (reasoning text : jsstr) (m : Message) : Prop :=
  has_role m ASSISTANT = true /\ generating m = true /\ reasoningContent m = VStr reasoning /\ content m = VStr text.

Lemma last_snoc_msg (l : list Message) m : last (l ++ [m]) = Some m.
Proof. apply last_snoc. Qed.

Lemma replace_last_snoc l m m' : replace_last (l ++ [m]) m' = l ++ [m'].
Proof. unfold replace_last. by rewrite removelast_last. Qed.

Lemma plus_text s c : js_plus (VStr s ||| VStr []) (VStr c) = VStr (s ++ c).
Proof. by destruct s. Qed.

Lemma falsy_get v k : truthy v = false -> k <> js "length" -> vget v k = VUndef.
Proof.
  intros F N. destruct v as [| |b|n|s|l|o]; try done. destruct s; [|done]. cbn [vget].
  rewrite bool_decide_eq_false_2 by done. by destruct (array_index k).
Qed.

Lemma receives r c m : receiving r c m ->
  negb (has_role m ASSISTANT) || has_status m ERROR || negb (generating m) = false.
Proof.
  intros (-> & G & _). rewrite G. destruct (has_status m ERROR) eqn:E; [|done].
  unfold generating, has_status in G, E. destruct (status m); try done.
  apply bool_decide_eq_true in E as ->. by vm_compute in G.
Qed.

Lemma run_app cs cs' l l' : run_commands cs l = Some l' -> run_commands (cs ++ cs') l = run_commands cs' l'.
Proof.
  revert l. induction cs as [|[] cs IH]; cbn [run_commands app]; intros l E; try by apply IH.
  - by injection E as ->.
  - destruct (run_update u l) as [p|]; cbn in E |- *; [by apply IH|done].
Qed.

(** One text of a delta. *)
Lemma delta_step type v l r c m : receiving r c m -> text_or_absent v ->
  exists m', run_commands (delta_update type v) (l ++ [m]) = Some (l ++ [m']) /\ id m' = id m /\
    match type with
    | ReasoningChunk => receiving (r ++ delta_text v) c m'
    | ContentChunk => receiving r (c ++ delta_text v) m'
    end.
Proof.
  intros R T. unfold delta_update. destruct (truthy v) eqn:V.
  2: { exists m. split; [done|split; [done|]].
       assert (delta_text v = []) as -> by (destruct v as [| | | |[]| |]; done).
       by destruct type; rewrite app_nil_r. }
  destruct T as [T|[s ->]]; [congruence|]. cbn [run_commands run_update]. unfold streamMessageUpdate.
  rewrite last_snoc_msg, (receives r c) by done. pose proof R as (A & G & E1 & E2).
  destruct type; cbn [mbind option_bind plain].
  - rewrite replace_last_snoc. eexists. split; [done|split; [done|]].
    split; [exact A|]. cbn. rewrite E1. unfold generating, has_status. cbn. by rewrite plus_text, E2.
  - unfold add_content. rewrite E2, plus_text. destruct (truthy (isReasoningExpanded m)); cbn [mbind option_bind plain];
      rewrite replace_last_snoc; eexists; (split; [done|split; [done|]]); by repeat split.
Qed.

Lemma run_other c cs l : match c with Messages _ => False | _ => True end ->
  run_commands (c :: cs) l = run_commands cs l.
Proof. by destruct c. Qed.

(** One chunk. *)
Lemma chunk_step d s l r c m : chunk d -> receiving r c m ->
  exists m' s' cs, event (SseMessage d) s = (s', cs) /\ run_commands cs (l ++ [m]) = Some (l ++ [m']) /\
    responseData s' = responseData s ++ d ++ [10] /\ isStreamComplete s' = isStreamComplete s /\
    id m' = id m /\ receiving (r ++ chunk_reasoning d) (c ++ chunk_content d) m'.
Proof.
  intros [O (v & J & N) T] R. cbn [sse_event]. unfold sse_message. rewrite bool_decide_eq_false_2, J by done.
  set (cs := delta_commands v).
  assert (D : exists m', run_commands cs (l ++ [m]) = Some (l ++ [m']) /\ id m' = id m /\
                receiving (r ++ chunk_reasoning d) (c ++ chunk_content d) m').
  { subst cs. unfold delta_commands, chunk_reasoning, chunk_content, delta_of in *. rewrite J in *. cbn [default] in *.
    destruct (truthy (vget _ (js "delta"))) eqn:V.
    - inversion_clear T as [|? ? T1 T']. inversion_clear T' as [|? ? T2 T'']. inversion_clear T'' as [|? ? T3 _].
      destruct (delta_step ReasoningChunk _ l r c m R T1) as (m1 & E1 & I1 & R1).
      destruct (delta_step ReasoningChunk _ l _ _ m1 R1 T2) as (m2 & E2 & I2 & R2).
      destruct (delta_step ContentChunk _ l _ _ m2 R2 T3) as (m3 & E3 & I3 & R3).
      exists m3. split; [|split; [congruence|by rewrite (assoc_L (++))]].
      by rewrite (run_app _ _ _ _ E1), (run_app _ _ _ _ E2).
    - exists m. rewrite !falsy_get by done. cbn [delta_text]. by rewrite !app_nil_r. }
  destruct D as (m' & E & I & R'). exists m'. do 2 eexists. split; [done|].
  split; [|by destruct v]. rewrite <- E. destruct (hasReceivedFirstResponse s); cbn [app run_commands]; by destruct v.
Qed.

Lemma chunks_run ds s l r c m rest : Forall chunk ds -> receiving r c m ->
  exists m' s', events (map SseMessage ds ++ rest) s (l ++ [m]) = events rest s' (l ++ [m']) /\
    responseData s' = responseData s ++ mjoin (map (fun d => d ++ [10]) ds) /\
    isStreamComplete s' = isStreamComplete s /\ id m' = id m /\
    receiving (r ++ mjoin (map chunk_reasoning ds)) (c ++ mjoin (map chunk_content ds)) m'.
Proof.
  intros C. revert s r c m. induction C as [|d ds D _ IH]; intros s r c m R.
  - exists m, s. cbn [map app]. change (mjoin (@nil jsstr)) with (@nil Z). by rewrite !app_nil_r.
  - destruct (chunk_step d s l r c m D R) as (m1 & s1 & cs & E & X & A & B & I & R1).
    destruct (IH s1 _ _ m1 R1) as (m' & s' & E' & A' & B' & I' & R').
    exists m', s'. cbn [map app run_events]. rewrite E, X. cbn [mbind option_bind].
    change (mjoin (?x :: ?y)) with (x ++ mjoin y). rewrite A in A'. rewrite <- !(assoc_L (++)) in A', R'.
    split; [done|]. split; [by rewrite A', <- (assoc_L (++))|]. by repeat split; try congruence; apply R'.
Qed.

(** A message that is complete or failed. *)
Definition finished (m : Message) : bool := has_status m COMPLETE || has_status m ERROR.

Lemma finished_quiet m : finished m = true -> generating m = false.
Proof.
  unfold finished, generating, has_status. destruct (status m); try done. cbn [is_str].
  intros [E|E]%orb_true_iff; apply bool_decide_eq_true in E as ->; by vm_compute.
Qed.

(** Updates of a stream: they leave a finished message. *)
Definition stream_command (c : Command) : bool :=
  match c with Messages (UStream _ _) | Messages (UComplete _) => true | Messages _ => false | _ => true end.

Lemma stream_quiet cs l m : forallb stream_command cs = true -> finished m = true ->
  run_commands cs (l ++ [m]) = Some (l ++ [m]).
Proof.
  intros S F. induction cs as [|c cs IH]; [done|]. cbn [forallb] in S. apply andb_true_iff in S as [S1 S2].
  destruct c as [u| | | | |]; try by apply IH. destruct u; try done; cbn [run_commands run_update].
  - unfold streamMessageUpdate. rewrite last_snoc_msg, (finished_quiet m F), orb_true_r. by apply IH.
  - unfold completeMessage. rewrite last_snoc_msg. cbn [mbind option_bind]. unfold finished in F. rewrite F. by apply IH.
Qed.

Lemma event_stream e s : forallb stream_command (snd (event e s)) = true.
Proof.
  destruct e as [d|d st|st code]; cbn [sse_event snd].
  - unfold sse_message. case_bool_decide; [done|]. destruct (JSON_parse d) as [v|]; [|done].
    cbn [snd]. rewrite forallb_app. apply andb_true_iff. split; [by destruct (hasReceivedFirstResponse s)|].
    assert (D : forallb stream_command (delta_commands v) = true).
    { unfold delta_commands, delta_update. by repeat case_match. }
    by destruct v.
  - unfold sse_error. by case_match.
  - unfold sse_state. by repeat case_match.
Qed.

(** Events after the end change nothing. *)
Lemma late_events es s l m : finished m = true ->
  exists s', events es s (l ++ [m]) = Some (s', l ++ [m]).
Proof.
  intros F. revert s. induction es as [|e es IH]; intros s; [by exists s|]. cbn [run_events].
  pose proof (event_stream e s) as S. destruct (event e s) as [s1 cs]. cbn [snd] in S.
  rewrite stream_quiet by done. apply IH.
Qed.

Lemma complete_step st cs l r c m : receiving r c m -> st = COMPLETE \/ st = ERROR ->
  exists m', run_commands (Messages (UComplete st) :: cs) (l ++ [m]) = run_commands cs (l ++ [m']) /\
    id m' = id m /\ status m' = VStr st /\ reasoningContent m' = VStr r /\ content m' = VStr c.
Proof.
  intros (A & G & E1 & E2) S. assert (F : finished m = false).
  { destruct (finished m) eqn:F; [|done]. by rewrite (finished_quiet m F) in G. }
  cbn [run_commands run_update]. unfold completeMessage. rewrite last_snoc_msg. cbn [mbind option_bind].
  fold (finished m). rewrite F, replace_last_snoc. cbn [fst]. eexists. by repeat split.
Qed.

(** A failure appends its text. *)
Lemma fail_step e cs l r c m : receiving r c m ->
  exists m', run_commands (fail_stream (VStr e) ++ cs) (l ++ [m]) = run_commands cs (l ++ [m']) /\
    id m' = id m /\ status m' = VStr ERROR /\ reasoningContent m' = VStr r /\ content m' = VStr (c ++ e).
Proof.
  intros R. unfold fail_stream. cbn [app].
  assert (D : exists m1, run_commands [Messages (UStream ContentChunk (VStr e))] (l ++ [m]) = Some (l ++ [m1]) /\
    id m1 = id m /\ receiving r (c ++ e) m1).
  { destruct e as [|x e]; [|apply (delta_step ContentChunk (VStr (x :: e)) l r c m R); right; by eexists].
    pose proof R as (A & G & E1 & E2). cbn [run_commands run_update]. unfold streamMessageUpdate.
    rewrite last_snoc_msg, (receives r c) by done. unfold add_content. rewrite E2, plus_text.
    destruct (truthy (isReasoningExpanded m)); cbn [mbind option_bind plain]; rewrite replace_last_snoc;
      eexists; (split; [done|split; [done|]]); by repeat split. }
  destruct D as (m1 & E1 & I1 & R1). destruct (complete_step ERROR cs l r (c ++ e) m1 R1) as (m2 & E2 & I2 & S2 & A2 & B2);
    [by right|]. exists m2. rewrite I2, I1. split; [|done]. rewrite <- E2. by apply (run_app [_]) with (1 := E1).
Qed.

(** C7. A streamed answer is assembled exactly: whatever the chunks are cut
    into, after the end mark the last message is complete, its content and its
    reasoning are what it had followed by the texts of the chunks in order, its
    identifier and all earlier messages are unchanged, the debug panel has
    received the data of every chunk, and no later event of the stream changes
    the conversation. *)
Theorem streamed_answer_assembled ds l r c m : Forall chunk ds -> receiving r c m ->
  exists m' s', events (map SseMessage ds ++ [SseMessage (js "[DONE]")]) new_stream (l ++ [m]) = Some (s', l ++ [m']) /\
    content m' = VStr (c ++ mjoin (map chunk_content ds)) /\
    reasoningContent m' = VStr (r ++ mjoin (map chunk_reasoning ds)) /\
    status m' = VStr COMPLETE /\ id m' = id m /\
    responseData s' = mjoin (map (fun d => d ++ [10]) ds) /\
    forall late, exists s'', events late s' (l ++ [m']) = Some (s'', l ++ [m']).
Proof.
  intros C R. destruct (chunks_run ds new_stream l r c m [SseMessage (js "[DONE]")] C R) as (m1 & s1 & E & A & _ & I & R1).
  rewrite E. cbn [run_events sse_event]. unfold sse_message. rewrite bool_decide_eq_true_2 by done.
  rewrite !run_other by done.
  destruct (complete_step COMPLETE [] l _ _ m1 R1) as (m2 & X & I2 & S2 & A2 & B2); [by left|].
  rewrite X. cbn [run_commands mbind option_bind]. do 2 eexists. split; [done|].
  repeat split; try done; [by rewrite I2|]. intros late. apply late_events.
  unfold finished, has_status. rewrite S2. cbn [is_str]. by rewrite bool_decide_eq_true_2.
Qed.

(** How a stream fails, and the text it shows. *)
Inductive failure : SseEvent -> jsstr -> Prop :=
  | BadJson d : d <> js "[DONE]" -> JSON_parse d = None ->
      failure (SseMessage d) (t (js "解析响应数据时发生错误"))
  | NullJson d : d <> js "[DONE]" -> JSON_parse d = Some VNull ->
      failure (SseMessage d) (t (js "解析响应数据时发生错误"))
  | Broken text st : st <> 2 -> failure (SseError (VStr text) st) (str_or text (t (js "请求发生错误")))
  | Refused st code : 2 <= st -> code <> 200 -> failure (SseState st (Some code)) (t (js "连接已断开")).

(** C22. A stream that fails keeps what was received: after any chunks, data that
    is not JSON, an error of the open source or a status other than 200 leave
    the last message with status error, its reasoning as received and its
    content as received followed by the text of the failure; no later event,
    the end mark included, changes the conversation. *)
Theorem stream_failure_keeps_answer ds e text l r c m : Forall chunk ds -> receiving r c m -> failure e text ->
  exists m' s', events (map SseMessage ds ++ [e]) new_stream (l ++ [m]) = Some (s', l ++ [m']) /\
    content m' = VStr (c ++ mjoin (map chunk_content ds) ++ text) /\
    reasoningContent m' = VStr (r ++ mjoin (map chunk_reasoning ds)) /\
    status m' = VStr ERROR /\ id m' = id m /\
    forall late, exists s'', events late s' (l ++ [m']) = Some (s'', l ++ [m']).
Proof.
  intros C R F. destruct (chunks_run ds new_stream l r c m [e] C R) as (m1 & s1 & E & _ & B & I & R1).
  rewrite E. cbn [isStreamComplete new_stream] in B.
  assert (X : exists m' s', events [e] s1 (l ++ [m1]) = Some (s', l ++ [m']) /\ id m' = id m1 /\ status m' = VStr ERROR /\
    reasoningContent m' = VStr (r ++ mjoin (map chunk_reasoning ds)) /\
    content m' = VStr ((c ++ mjoin (map chunk_content ds)) ++ text)).
  { pose proof (fun cs e => fail_step e cs l _ _ m1 R1) as P. cbn [run_events].
    destruct F as [d N J|d N J|tx st N|st code L N]; cbn [sse_event].
    - unfold sse_message, sse_parse_error. rewrite bool_decide_eq_false_2, J, !run_other by done.
      destruct (P [] (t (js "解析响应数据时发生错误"))) as (m2 & X & Y). rewrite app_nil_r in X. rewrite X. by do 2 eexists.
    - unfold sse_message, sse_parse_error. rewrite bool_decide_eq_false_2, J by done.
      destruct (P [] (t (js "解析响应数据时发生错误"))) as (m2 & X & Y). rewrite app_nil_r in X.
      exists m2. eexists. split; [|exact Y].
      destruct (hasReceivedFirstResponse s1); cbn [app]; rewrite !run_other by done; by rewrite X.
    - unfold sse_error. rewrite B. assert ((st =? 2) = false) as -> by lia. unfold show_response. cbn [orb app]. rewrite !run_other by done.
      assert (VStr tx ||| VStr (t (js "请求发生错误")) = VStr (str_or tx (t (js "请求发生错误")))) as -> by by destruct tx.
      destruct (P [ForgetSource; CloseSource] (str_or tx (t (js "请求发生错误")))) as (m2 & X & Y).
      rewrite X. by do 2 eexists.
    - unfold sse_state. rewrite B. assert ((2 <=? st) && negb (code =? 200) && negb false = true) as -> by lia. unfold show_response.
      cbn [app]. rewrite !run_other by done.
      destruct (P [] (t (js "连接已断开"))) as (m2 & X & Y). rewrite app_nil_r in X. rewrite X. by do 2 eexists. }
  destruct X as (m2 & s2 & X & I2 & S2 & A2 & B2). exists m2, s2. rewrite <- (assoc_L (++)) in B2.
  repeat split; try done; [congruence|]. intros late. apply late_events.
  unfold finished, has_status. rewrite S2. cbn [is_str]. apply orb_true_intro. right. by rewrite bool_decide_eq_true_2.
Qed.

(** ** Polling *)

Definition TERMINAL : list jsstr := [js "completed"; js "succeeded"; js "success"; js "failed"; js "error"; js "cancelled"; js "timeout"].

(** A patch that ends polling: a status, and a task in a final state. *)
Definition final_patch (taskId : jsval) (p : Patch) : Prop :=
  (p_status p = Some COMPLETE \/ p_status p = Some ERROR) /\ (exists s, p_content p = Some (VStr s)) /\
  exists task st, p_task p = Some task /\ vget task (js "taskId") = taskId /\
    vget task (js "status") = VStr st /\ st ∈ TERMINAL.

Lemma final_video_patch taskId text st task_st progress : st = COMPLETE \/ st = ERROR -> task_st ∈ TERMINAL ->
  final_patch taskId (video_patch text (Some st) (video_task taskId task_st progress)).
Proof.
  intros S T. split; [|split; [by eexists|]].
  - destruct S as [->| ->]; [by left|by right].
  - by exists (video_task taskId task_st progress), task_st.
Qed.

Lemma terminal_dec st : bool_decide (st ∈ TERMINAL) = true -> st ∈ TERMINAL.
Proof. apply bool_decide_eq_true. Qed.

Lemma failure_terminal st : st ∈ FAILURE -> st ∈ TERMINAL.
Proof.
  unfold FAILURE. rewrite !elem_of_cons. intros [->|[->|[->|E]]]; [apply terminal_dec; by vm_compute..|].
  by apply not_elem_of_nil in E.
Qed.

(** One reply: ticks without a status, and a final patch when it ends. *)
Lemma video_reply_spec taskId n r : match video_reply taskId n r with
  | (ps, Some _) => exists p, ps = [p] /\ p_status p = None
  | (ps, None) => exists init p, ps = init ++ [p] /\ (length init <= 1)%nat /\
      Forall (fun q => p_status q = None) init /\ final_patch taskId p
  end.
Proof.
  assert (E : forall text, final_patch taskId (video_error taskId text)).
  { intros text. apply final_video_patch; [by right|]. apply terminal_dec. by vm_compute. }
  assert (E1 : forall text, exists init p, [video_error taskId text] = init ++ [p] /\ (length init <= 1)%nat /\
      Forall (fun q => p_status q = None) init /\ final_patch taskId p).
  { intros text. exists [], (video_error taskId text). split; [done|]. split; [cbn; lia|]. split; [constructor|apply E]. }
  unfold video_reply. destruct r as [msg|[] code tx body]; [destruct (3 <=? S n)%nat; [apply E1|by eexists]| |apply E1].
  destruct (if str_truthy body then JSON_parse body else Some (VObj [])) as [data|]; [|apply E1].
  unfold video_data. set (tick := video_patch VIDEO_PENDING None _).
  assert (F : forall p, final_patch taskId p -> exists init q, [tick; p] = init ++ [q] /\ (length init <= 1)%nat /\
      Forall (fun q => p_status q = None) init /\ final_patch taskId q).
  { intros p Q. exists [tick], p. split; [done|]. split; [cbn; lia|]. by split; [repeat constructor|]. }
  destruct (str_truthy (extractVideoPlayableURL data)).
  { apply F. split; [by left|split; [by eexists|]]. do 2 eexists. split; [done|]. split; [done|]. split; [done|].
    apply terminal_dec. by vm_compute. }
  destruct (in_list _ SUCCESS).
  { apply F. apply final_video_patch; [by left|]. apply terminal_dec. by vm_compute. }
  destruct (in_list _ FAILURE) eqn:L; [|by eexists].
  apply F. apply final_video_patch; [by right|]. apply bool_decide_eq_true in L.
  by apply failure_terminal.
Qed.

Lemma poll_video_spec taskId replies left_ i n :
  exists init p, poll_video taskId replies left_ i n = init ++ [p] /\ (length init <= left_)%nat /\
    Forall (fun q => p_status q = None) init /\ final_patch taskId p.
Proof.
  revert i n. induction left_ as [|k IH]; intros i n; cbn [poll_video].
  - exists [], (video_patch (js "视频生成超时，请稍后在任务日志中查看。") (Some ERROR) (video_task taskId (js "timeout") n0)).
    split; [done|]. split; [cbn; lia|]. split; [constructor|]. apply final_video_patch; [by right|].
    apply terminal_dec. by vm_compute.
  - pose proof (video_reply_spec taskId n (replies i)) as S. destruct (video_reply taskId n (replies i)) as [ps [n'|]].
    + destruct S as (p & -> & P). destruct (IH (S i) n') as (init & q & E & L & F & Q). exists (p :: init), q.
      rewrite E. split; [done|]. split; [cbn; lia|]. by split; [constructor|].
    + destruct S as (init & p & -> & L & F & Q). exists init, p. split; [done|]. split; [lia|done].
Qed.

Definition patch_all (ps : list Patch) (l : list Message) : list Message := foldl (fun l p => patch_last p l) l ps.

Lemma patch_all_snoc ps p l m : has_role m ASSISTANT = true ->
  exists m1, has_role m1 ASSISTANT = true /\ id m1 = id m /\ patch_all (ps ++ [p]) (l ++ [m]) = l ++ [apply_patch p m1].
Proof.
  unfold patch_all. revert m. induction ps as [|q ps IH]; intros m A; cbn [app foldl].
  - exists m. unfold patch_last. by rewrite last_snoc_msg, A, replace_last_snoc.
  - unfold patch_last at 2. rewrite last_snoc_msg, A, replace_last_snoc.
    destruct (IH (apply_patch q m) A) as (m1 & A1 & I1 & E). by exists m1.
Qed.

(** C23. Polling of a video task ends, whatever the replies are: it makes at most
    120 progress updates, none of which sets a status, and then exactly one final update;
    in the conversation only the last message changes, and in the end its
    status is complete or error, its content a text, and its task, still the
    polled one, is in a final state. *)
Theorem video_poll_ends taskId replies l m : truthy taskId = true -> has_role m ASSISTANT = true ->
  exists init p m', pollVideoTaskUntilReady taskId replies = init ++ [p] /\ (length init <= 120)%nat /\
    Forall (fun q => p_status q = None) init /\ final_patch taskId p /\
    patch_all (pollVideoTaskUntilReady taskId replies) (l ++ [m]) = l ++ [m'] /\ id m' = id m /\
    finished m' = true /\ Some (content m') = p_content p /\ Some (videoTask m') = p_task p.
Proof.
  intros T A. unfold pollVideoTaskUntilReady. rewrite T.
  destruct (poll_video_spec taskId replies maxAttempts 0 0) as (init & p & -> & L & F & Q).
  destruct (patch_all_snoc init p l m A) as (m1 & _ & I1 & E). exists init, p, (apply_patch p m1).
  split; [done|]. split; [exact L|]. split; [done|]. split; [done|]. split; [done|]. split; [done|].
  destruct Q as (S & (x & X) & task & st & Y & _). unfold finished, has_status. cbn. rewrite X, Y.
  split; [|done]. destruct S as [-> | ->]; vm_compute; reflexivity.
Qed.

End Answers.

(** ** Samples *)

Definition sample_loading : Message := createLoadingAssistantMessage (VStr (js "m1")) (VNum n0).

(** A chunk of a stream, as the server sends it. *)
Definition sample_chunk (k text : jsstr) : jsstr :=
  default [] (JSON_stringify 0 (VObj [(js "choices", VArr [VObj [(js "delta", VObj [(k, VStr text)])]])])).

Definition sample_stream : list jsstr :=
  [sample_chunk (js "reasoning") (js "think"); sample_chunk (js "content") (js "Hel"); sample_chunk (js "content") (js "lo")].

Definition same (s : jsstr) : jsstr := s.

Lemma sample_chunk_ok k text :
  (exists v, JSON_parse (sample_chunk k text) = Some v /\ v <> VNull /\
    delta_of (sample_chunk k text) = VObj [(k, VStr text)]) ->
  sample_chunk k text <> js "[DONE]" -> chunk (sample_chunk k text).
Proof.
  intros (v & J & N & D) E. split; [done|by exists v|]. rewrite D.
  repeat (apply Forall_cons; split); try apply Forall_nil_2; cbn [vget assoc_get];
    (case_decide || idtac); try (by left); right; by eexists.
Qed.

Lemma sample_stream_ok : Forall chunk sample_stream.
Proof.
  repeat (apply Forall_cons; split); try apply Forall_nil_2; apply sample_chunk_ok;
    try (eexists; split; [vm_compute; reflexivity|split; [done|vm_compute; reflexivity]]); by vm_compute.
Qed.

Lemma sample_receiving : receiving [] [] sample_loading.
Proof. repeat split; vm_compute; reflexivity. Qed.

Lemma streamed_answer_assembled_witness :
  exists m' s', run_events same [] same VStr []
      (map SseMessage sample_stream ++ [SseMessage (js "[DONE]")]) new_stream [sample_loading] = Some (s', [m']) /\
    content m' = VStr (js "Hello") /\ reasoningContent m' = VStr (js "think") /\ status m' = VStr COMPLETE.
Proof.
  destruct (streamed_answer_assembled same [] same VStr [] sample_stream [] [] [] sample_loading
    sample_stream_ok sample_receiving) as (m' & s' & E & C & R & S & _).
  exists m', s'. split; [exact E|]. rewrite C, R. split; [vm_compute; reflexivity|]. split; [vm_compute; reflexivity|exact S].
Defined.

Lemma stream_failure_keeps_answer_witness :
  exists m' s', run_events same [] same VStr []
      (map SseMessage sample_stream ++ [SseState 2 (Some 502)]) new_stream [sample_loading] = Some (s', [m']) /\
    content m' = VStr (js "Hello连接已断开") /\ status m' = VStr ERROR.
Proof.
  destruct (stream_failure_keeps_answer same [] same VStr [] sample_stream (SseState 2 (Some 502))
    (js "连接已断开") [] [] [] sample_loading sample_stream_ok sample_receiving) as (m' & s' & E & C & _ & S & _).
  { apply (Refused same 2 502); lia. }
  exists m', s'. split; [exact E|]. rewrite C. split; [vm_compute; reflexivity|exact S].
Defined.

Lemma video_poll_ends_witness :
  exists m', patch_all (pollVideoTaskUntilReady (H := code_unit_unicode) (VStr (js "task-1"))
    (fun i => if (i <? 5)%nat then Response true 200 [] [] else NetworkError (js "offline"))) [sample_loading] = [m'] /\
    finished m' = true.
Proof.
  destruct (video_poll_ends (H := code_unit_unicode) (VStr (js "task-1"))
    (fun i => if (i <? 5)%nat then Response true 200 [] [] else NetworkError (js "offline")) [] sample_loading)
    as (init & p & m' & _ & _ & _ & _ & E & _ & F & _); [vm_compute; reflexivity|vm_compute; reflexivity|].
  exists m'. split; [exact E|exact F].
Defined.
