(* ===== verification/PlaygroundActions.v ===== *)
(** * Messages of the playground: identifiers, loading, actions and sending

    [ensureUniqueMessageIds], the normalisation of a stored conversation and
    the loading of the messages of [hooks/playground/usePlaygroundState.js] and
    [components/playground/configStorage.js]; the actions of
    [useMessageActions.jsx] and [useMessageEdit.jsx]; sending a message, the
    preview of the request and clearing of [pages/Playground/index.jsx]; the
    synchronisation with a custom request body of
    [useSyncMessageAndCustomBody.js].

    An action is a function of the conversation that its updater receives, with
    the commands it schedules.  Messages are values here: where the code first
    looks for a message by reference, the position found is a parameter. *)

From Stdlib Require Import SpecFloat.
From stdpp Require Import base list numbers strings.
From S2P Require Import Prelude JsNumber JsString JsValue JsJson PlaygroundText PlaygroundMedia PlaygroundChat.
Local Open Scope Z_scope.
Local Open Scope js_scope.

(** ** Identifiers *)

Definition dec_nat (n : nat) : jsstr := dec_digits (Z.of_nat n).

(** The suffix of a made-up identifier. *)
Definition stamp (now : jsstr) (index : nat) : jsstr := js "-" ++ now ++ js "-" ++ dec_nat index.

(** The identifier of a message, or one for its position. *)
Definition baseId (now : jsstr) (index : nat) (v : jsval) : jsstr :=
  match v with
  | VUndef | VNull => js "msg" ++ stamp now index
  | v => if str_truthy (to_str v) then to_str v else js "msg" ++ stamp now index
  end.

Fixpoint unique_ids (now : jsstr) (index : nat) (seen : list jsstr) (l : list Message) : list Message :=
  match l with
  | [] => []
  | m :: r =>
      let base := baseId now index (id m) in
      let nextId := if bool_decide (base ∈ seen) then base ++ stamp now index else base in
      (m <| id := VStr nextId |>) :: unique_ids now (S index) (nextId :: seen) r
  end.

(** [ensureUniqueMessageIds] of a list; [now] is the clock as text. *)
Definition ensureUniqueMessageIds (now : jsstr) (l : list Message) : list Message := unique_ids now 0 [] l.

(** ** Stored conversations *)

Definition needsPersistedTailNormalize (l : list Message) : bool :=
  match last l with
  | Some m => has_role m ASSISTANT && generating m
  | None => false
  end.

(** [None] is the TypeError of a content that is not a text. *)
Definition normalizePersistedPlaygroundMessages (l : list Message) : option (list Message) :=
  match last l with
  | Some m =>
      if needsPersistedTailNormalize l then
        processed ← processIncompleteThinkTags (content m ||| VStr []) (reasoningContent m ||| VStr []);
        Some (replace_last l (m <| status := VStr COMPLETE |> <| content := fst processed |>
                <| reasoningContent := snd processed ||| VNull |> <| isThinkingComplete := VBool true |>))
      else Some l
  | None => Some l
  end.

(** [getDefaultMessages(t)] *)
Definition getDefaultMessages (t : jsstr -> jsstr) : list Message :=
  let at_ := VNum (num_of_Z 1715676751919) in
  [createMessage (VStr (js "2")) at_ USER (VStr (t (js "默认用户消息")));
   (createMessage (VStr (js "3")) at_ ASSISTANT (VStr (t (js "默认助手消息"))))
     <| reasoningContent := VStr [] |> <| isReasoningExpanded := VBool false |>].

(** The messages of older versions, in Chinese. *)
Definition old_default (l : list Message) : bool :=
  match l with
  | [a; b] =>
      is_str (id a) (js "2") && is_str (id b) (js "3")
      && (is_str (content a) (js "你好") || is_str (content b) (js "你好，请问有什么可以帮助您的吗？")
          || is_str (content b) (js "你好！很高兴见到你。有什么我可以帮助你的吗？"))
  | _ => false
  end.

(** The initial messages, and the list that is written back. *)
Definition initialMessages (loaded : option (list Message)) : option (option (list Message) * option (list Message)) :=
  match loaded with
  | None => Some (None, None)
  | Some l =>
      if old_default l then Some (None, None)
      else
        normalized ← normalizePersistedPlaygroundMessages l;
        Some (Some normalized, if needsPersistedTailNormalize l then Some normalized else None)
  end.

Definition first_messages (t : jsstr -> jsstr) (now : jsstr) (initial : option (list Message)) : list Message :=
  ensureUniqueMessageIds now (default (getDefaultMessages t) initial).

(** When the user changes: the new list, and what is written back. *)
Definition reload_messages (t : jsstr -> jsstr) (now : jsstr) (loaded : option (list Message))
    : option (list Message * option (list Message)) :=
  match loaded with
  | Some l =>
      normalized ← normalizePersistedPlaygroundMessages l;
      Some (ensureUniqueMessageIds now normalized, if needsPersistedTailNormalize l then Some normalized else None)
  | None => Some (ensureUniqueMessageIds now (getDefaultMessages t), None)
  end.

(** ** Actions on a message *)

Fixpoint index_by_id (target : jsval) (l : list Message) : option nat :=
  match l with
  | [] => None
  | m :: r => if strict_eq (id m) target then Some 0%nat else S <$> index_by_id target r
  end.

(** The position of a message: by reference, otherwise by identifier. *)
Definition message_index (byRef : option nat) (target : jsval) (l : list Message) : option nat :=
  match byRef with Some i => Some i | None => index_by_id target l end.

(** The position of the last user message before [i]. *)
Fixpoint user_before (i : nat) (l : list Message) : option nat :=
  match i with
  | O => None
  | S i =>
      match l !! i with
      | Some m => if has_role m USER then Some i else user_before i l
      | None => None
      end
  end.

(** [handleMessageReset]: the list that is kept, and the text that is sent
    again. *)
Definition handleMessageReset (byRef : option nat) (target : Message) (l : list Message) : list Message * option jsval :=
  match message_index byRef (id target) l with
  | None => (l, None)
  | Some i =>
      if has_role target USER then (take i l, Some (getTextContent target))
      else if has_role target ASSISTANT || has_role target SYSTEM then
        match user_before i l with
        | Some u => (take u l, getTextContent <$> l !! u)
        | None => (l, None)
        end
      else (l, None)
  end.

(** Two messages removed by position; one removed by identifier. *)
Definition drop_pair (i : nat) (l : list Message) : list Message := take i l ++ drop (i + 2) l.
Definition drop_id (target : jsval) (l : list Message) : list Message :=
  base.filter (fun m => strict_eq (id m) target = false) l.

(** [handleMessageDelete], confirmed: the new list, and the list saved. *)
Definition handleMessageDelete (byRef : option nat) (target : Message) (l : list Message)
    : list Message * option (list Message) :=
  match message_index byRef (id target) l with
  | None => (l, None)
  | Some i =>
      let updated :=
        match (if has_role target USER then l !! S i else None) with
        | Some next => if has_role next ASSISTANT then drop_pair i l else drop_id (id target) l
        | None => drop_id (id target) l
        end in
      (updated, Some updated)
  end.

(** [handleRoleToggle]; [None] when the role is not switched. *)
Definition handleRoleToggle (target : Message) (l : list Message) : option (list Message) :=
  if has_role target ASSISTANT || has_role target SYSTEM then
    let newRole := if has_role target ASSISTANT then SYSTEM else ASSISTANT in
    Some (map (fun m => if strict_eq (id m) (id target) && (has_role m ASSISTANT || has_role m SYSTEM)
                        then m <| role := VStr newRole |> else m) l)
  else None.

Definition toggleReasoningExpansion (messageId : jsval) (l : list Message) : list Message :=
  map (fun m => if strict_eq (id m) messageId && has_role m ASSISTANT
                then m <| isReasoningExpanded := VBool (negb (truthy (isReasoningExpanded m))) |> else m) l.

(** The dimensions of a picture or a film once it is shown; the list is saved
    when it has changed. *)
Definition with_dimensions (url : jsstr) (width height : spec_float) (m : Message) : Message :=
  let dims := match mediaDimensions m with VObj o => o | _ => [] end in
  m <| mediaDimensions := VObj (assoc_set dims url (VObj [(js "width", VNum width); (js "height", VNum height)])) |>.

Definition same_dimensions (url : jsstr) (width height : spec_float) (m : Message) : bool :=
  let prev := vget (mediaDimensions m) url in
  neqb (to_num (vget prev (js "width") ||| VNum n0)) width
  && neqb (to_num (vget prev (js "height") ||| VNum n0)) height.

Definition handleMediaDimensionsChange (messageId : jsval) (url : jsstr) (dimensions : jsval) (l : list Message)
    : list Message * option (list Message) :=
  let width := to_num (vget dimensions (js "width") ||| VNum n0) in
  let height := to_num (vget dimensions (js "height") ||| VNum n0) in
  if negb (truthy messageId) || negb (str_truthy url) || negb (truthy (VNum width)) || negb (truthy (VNum height))
  then (l, None)
  else
    let hit m := strict_eq (id m) messageId && negb (same_dimensions url width height m) in
    if existsb hit l then
      let updated := map (fun m => if hit m then with_dimensions url width height m else m) l in
      (updated, Some updated)
    else (l, None).

(** ** Editing a message *)

(** What is edited: the identifier, the position of the message by reference,
    the text. *)
Record Editing := {
  editingMessageId : jsval;
  editingRef : option nat;
  editValue : jsstr
}.

Definition handleMessageEdit (byRef : option nat) (target : Message) : Editing :=
  {| editingMessageId := id target; editingRef := byRef; editValue := to_str (getTextContent target) |}.

(** A part of a content with the new text; [None] for a part without
    properties. *)
Definition edit_part (text : jsstr) (item : jsval) : option jsval :=
  match item with
  | VUndef | VNull => None
  | VObj o => Some (if is_str (vget item (js "type")) (js "text") then VObj (assoc_set o (js "text") (VStr text)) else item)
  | _ => Some item
  end.

Definition edited_content (text : jsstr) (m : Message) : option jsval :=
  match content m with
  | VArr items => VArr <$> mapM (edit_part text) items
  | _ => Some (VStr text)
  end.

(** The result of saving: nothing to do, an exception, a list that is set and
    saved, or a question with the edited list and the number of messages up to
    the edited one. *)
Inductive EditOutcome :=
  | EditIgnored
  | EditThrows
  | EditSaved (l : list Message)
  | EditAsk (updated : list Message) (kept : nat).

Definition handleEditSave (e : Editing) (l : list Message) : EditOutcome :=
  if negb (truthy (editingMessageId e)) || negb (str_truthy (trim (editValue e))) then EditIgnored
  else
    match (i ← message_index (editingRef e) (editingMessageId e) l; m ← l !! i; Some (i, m)) with
    | None => EditThrows
    | Some (i, m) =>
        match edited_content (trim (editValue e)) m with
        | None => EditThrows
        | Some newContent =>
            let updated := map (fun m => if strict_eq (id m) (editingMessageId e) then m <| content := newContent |> else m) l in
            if has_role m USER && match l !! S i with Some next => has_role next ASSISTANT | None => false end
            then EditAsk updated (S i)
            else EditSaved updated
        end
    end.

(** ** Sending *)

(** What sending needs from the page. *)
Record Composer := {
  shown : list Message;              (* [message] of the render *)
  inputs : jsval;
  parameterEnabled : jsval;
  customRequestMode : bool;
  customRequestBody : jsstr
}.

(** A request: what is sent, and how the answer comes. *)
Record Outgoing := {
  payload : jsval;
  streamed : bool;
  target_mode : jsval
}.

(** Sending: the updater, whose result is also saved, and the request; or the
    message that the custom body is not JSON. *)
Inductive Sending :=
  | BadBody
  | Sends (update : list Message -> list Message) (out : Outgoing).

(** [isChatEndpoint ? inputs.stream : false] *)
Definition chat_stream (p inputs : jsval) : bool :=
  is_str (vget p (js "__endpoint")) (js "chat") && truthy (vget inputs (js "stream")).

Definition allow_media (inputs : jsval) : bool :=
  is_str (display_mode inputs) (js "image") || is_str (display_mode inputs) (js "video").

(** [inputs.imageUrls.filter((url) => url.trim() !== '')] *)
Definition valid_image_urls (inputs : jsval) : list jsstr :=
  base.filter (fun url => str_truthy (trim url) = true)
    (omap (fun v => match v with VStr s => Some s | _ => None end) (as_arr (vget inputs (js "imageUrls")))).

(** [onMessageSend(content)]; the identifiers and the clock of the new
    messages are parameters.  A [null] custom body fails when [stream] is read. *)
Definition onMessageSend (userId loadingId now : jsval) (c : Composer) (text : jsstr) : option Sending :=
  let loadingMessage := createLoadingAssistantMessage loadingId now in
  if customRequestMode c && str_truthy (customRequestBody c) then
    match JSON_parse (customRequestBody c) with
    | None => Some BadBody
    | Some VNull => None
    | Some body =>
        Some (Sends (fun prev => prev ++ [createMessage userId now USER (VStr text); loadingMessage])
                {| payload := body; streamed := negb (match vget body (js "stream") with VBool false => true | _ => false end);
                   target_mode := display_mode (inputs c) |})
    end
  else
    let urls := if allow_media (inputs c) then valid_image_urls (inputs c) else [] in
    let messageContent := buildMessageContent text urls (allow_media (inputs c)) in
    let newMessages := shown c ++ [createMessage userId now USER messageContent] in
    let p := buildApiPayload newMessages VNull (inputs c) (parameterEnabled c) in
    Some (Sends (fun _ => newMessages ++ [loadingMessage])
            {| payload := p; streamed := chat_stream p (inputs c); target_mode := display_mode (inputs c) |}).

(** After an edit, "regenerate": the list that is set and saved, and later the
    list with the new answer and the request. *)
Definition edit_regenerate (loadingId now : jsval) (c : Composer) (updated : list Message) (kept : nat)
    : list Message * (list Message -> list Message) * Outgoing :=
  let untilUser := take kept updated in
  let p := buildApiPayload untilUser VNull (inputs c) (parameterEnabled c) in
  (untilUser, fun prev => prev ++ [createLoadingAssistantMessage loadingId now],
   {| payload := p; streamed := chat_stream p (inputs c); target_mode := display_mode (inputs c) |}).

(** [constructPreviewPayload] *)
Definition preview_message (inputs : jsval) (m : Message) : Message :=
  let urls := valid_image_urls inputs in
  if allow_media inputs && negb (bool_decide (urls = [])) then
    m <| content := buildMessageContent (str_or (to_str (getTextContent m)) (js "示例消息")) urls true |>
  else m.

(** The last user message changed, from the end. *)
Fixpoint alter_last_user (f : Message -> Message) (l : list Message) : list Message :=
  match l with
  | [] => []
  | m :: r => if has_role m USER && negb (existsb (fun m => has_role m USER) r) then f m :: r
              else m :: alter_last_user f r
  end.

Definition constructPreviewPayload (c : Composer) : jsval :=
  let fallback := buildApiPayload (alter_last_user (preview_message (inputs c)) (shown c)) VNull (inputs c) (parameterEnabled c) in
  if customRequestMode c && str_truthy (trim (customRequestBody c)) then
    default fallback (JSON_parse (customRequestBody c))
  else fallback.

(** ** The custom request body *)

Record BodySync := {
  lastMessageHash : jsstr;
  lastCustomBodyHash : jsstr
}.

Definition message_key (m : Message) : jsval :=
  VObj [(js "id", id m); (js "role", role m); (js "content", content m)].

Definition getMessageHash (l : list Message) : jsstr := default [] (JSON_stringify 0 (VArr (map message_key l))).

(** The empty text when the body is not JSON (or [null]). *)
Definition getCustomBodyHash (body : jsstr) : jsstr :=
  match JSON_parse body with
  | None | Some VNull => []
  | Some v => default [] (JSON_stringify 0 (vget v (js "messages") ||| VArr []))
  end.

(** The body that is used when the text is not JSON. *)
Definition fresh_body (inputs : jsval) : jsval :=
  VObj [(js "model", vget inputs (js "model") ||| VStr (js "gpt-4o")); (js "messages", VArr []);
        (js "temperature", vget inputs (js "temperature") ||| VNum (dec_num false 7 (-1)));
        (js "stream", VBool (negb (match vget inputs (js "stream") with VBool false => true | _ => false end)))].

(** [syncMessageToCustomBody]: the new body, or [Some None] when there is
    nothing to write; [None] is the TypeError of a body that takes no property.
    An array takes one that its JSON does not show.  (The flags of the hook are
    set and cleared inside one call.) *)
Definition syncMessageToCustomBody (c : Composer) (s : BodySync) : option (option (jsstr * BodySync)) :=
  if negb (customRequestMode c) || bool_decide (getMessageHash (shown c) = lastMessageHash s) then Some None
  else
    let written (v : jsval) :=
      let newBody := pretty_json v in
      Some (Some (newBody, {| lastMessageHash := getMessageHash (shown c); lastCustomBodyHash := getCustomBodyHash newBody |})) in
    match default (fresh_body (inputs c)) (JSON_parse (str_or (customRequestBody c) (js "{}"))) with
    | VObj o => written (VObj (assoc_set o (js "messages") (VArr (map formatMessageForAPI (shown c)))))
    | VArr l => written (VArr l)
    | _ => None
    end.

Definition is_nullish (v : jsval) : bool := match v with VUndef | VNull => true | _ => false end.

(** A message of the custom body; [newId] is the identifier made for position
    [index]. *)
Definition custom_message (newId : nat -> jsstr) (now : jsval) (index : nat) (msg : jsval) : Message :=
  let m := createMessage (vget msg (js "id") ||| VStr (newId index)) now [] (vget msg (js "content") ||| VStr []) in
  let m := m <| role := vget msg (js "role") ||| VStr USER |> in
  if is_str (vget msg (js "role")) ASSISTANT then
    m <| reasoningContent := vget msg (js "reasoningContent") ||| VStr [] |> <| isReasoningExpanded := VBool false |>
  else m.

(** [syncCustomBodyToMessage]: the new messages; [None] when nothing is set. *)
Definition syncCustomBodyToMessage (newId : nat -> jsstr) (now : jsval) (c : Composer) (s : BodySync)
    : option (list Message * BodySync) :=
  if negb (customRequestMode c) || bool_decide (getCustomBodyHash (customRequestBody c) = lastCustomBodyHash s) then None
  else
    match JSON_parse (str_or (customRequestBody c) (js "{}")) with
    | Some body =>
        match vget body (js "messages") with
        | VArr items =>
            if existsb is_nullish items then None
            else
              let newMessages := zip_with (custom_message newId now) (seq 0 (length items)) items in
              Some (newMessages, {| lastMessageHash := getMessageHash newMessages;
                                    lastCustomBodyHash := getCustomBodyHash (customRequestBody c) |})
        | _ => None
        end
    | None => None
    end.

(** ** Identifiers are unique *)

Lemma dec_nat_inj i j : dec_nat i = dec_nat j -> i = j.
Proof.
  unfold dec_nat. intros E.
  destruct (dec_digits_spec (Z.of_nat i)) as (d & ds & E1 & _ & _ & V1); [lia|].
  destruct (dec_digits_spec (Z.of_nat j)) as (d' & ds' & E2 & _ & _ & V2); [lia|].
  rewrite E1, E2 in E. injection E as -> ->. lia.
Qed.

Lemma dec_nat_no_dash i : 45 ∉ dec_nat i.
Proof.
  destruct (dec_digits_spec (Z.of_nat i)) as (d & ds & E & F & _); [lia|]. unfold dec_nat. rewrite E.
  intros I. rewrite Forall_forall in F. by specialize (F 45 I).
Qed.

Definition stamped (now : jsstr) (index : nat) (s : jsstr) : Prop := exists b, s = b ++ stamp now index.

Lemma stamped_inj now i j s : stamped now i s -> stamped now j s -> i = j.
Proof.
  intros [b ->] [b' E]. apply dec_nat_inj. unfold stamp in E. change (js "-") with [45] in E.
  apply (last_sep 45 (b ++ [45] ++ now) (b' ++ [45] ++ now)); try apply dec_nat_no_dash.
  rewrite <- !(assoc_L (++)). exact E.
Qed.

(** The mark of a made-up identifier. *)
Definition made_up (now : jsstr) : jsstr := js "-" ++ now ++ js "-".

Lemma stamped_made now i s : stamped now i s -> includes (made_up now) s = true.
Proof.
  intros [b ->]. apply includes_app_r.
  assert (stamp now i = made_up now ++ dec_nat i) as ->.
  { unfold stamp, made_up. by rewrite <- !(assoc_L (++)). }
  apply includes_app_l. unfold made_up. change (js "-") with [45]. cbn [app includes].
  pose proof (starts_with_app (45 :: now ++ [45]) []) as X. rewrite app_nil_r in X. by rewrite X.
Qed.

(** The own identifier of a message is its text; no other message carries the
    mark of the clock. *)
Definition own_ids (now : jsstr) (l : list Message) : Prop :=
  Forall (fun m => includes (made_up now) (to_str (id m)) = false) l.

Lemma unique_ids_spec now l index seen : own_ids now l ->
  (forall s, s ∈ seen -> includes (made_up now) s = false \/ exists j, (j < index)%nat /\ stamped now j s) ->
  let ids := map id (unique_ids now index seen l) in
  NoDup ids /\ Forall (fun v => exists s, v = VStr s /\ s <> [] /\ s ∉ seen) ids.
Proof.
  intros O. revert index seen. induction O as [|m l M _ IH]; intros index seen S; [by split; constructor|].
  cbn [unique_ids map]. set (base := baseId now index (id m)).
  assert (B : base <> [] /\ (stamped now index base \/ includes (made_up now) base = false)).
  { assert (D : (js "msg" ++ stamp now index <> []) /\ (stamped now index (js "msg" ++ stamp now index)
                \/ includes (made_up now) (js "msg" ++ stamp now index) = false)).
    { split; [done|]. left. by exists (js "msg"). }
    subst base. unfold baseId. destruct (id m) as [| |b|x|s|items|o] eqn:E; try exact D;
      (destruct (str_truthy (to_str _)) eqn:T; [|exact D]); (split; [intros N; by rewrite N in T|by right]). }
  set (next := if bool_decide (base ∈ seen) then base ++ stamp now index else base).
  assert (N : next <> [] /\ (next ∉ seen) /\ (includes (made_up now) next = false \/ stamped now index next)).
  { destruct B as [B1 B2]. subst next. case_bool_decide as I.
    - split; [by destruct base|]. split; [|right; by exists base]. intros J.
      assert (T : stamped now index (base ++ stamp now index)) by by exists base.
      destruct (S _ J) as [X|(j & Lj & X)]; [by rewrite (stamped_made now index) in X|].
      pose proof (stamped_inj _ _ _ _ T X). lia.
    - split; [done|]. split; [done|]. destruct B2; [by right|by left]. }
  destruct N as (N1 & N2 & N3).
  destruct (IH (Datatypes.S index) (next :: seen)) as [H1 H2].
  { intros s [->|J]%elem_of_cons.
    - destruct N3; [by left|right]. exists index. split; [lia|done].
    - destruct (S s J) as [X|(j & Lj & X)]; [by left|right]. exists j. split; [lia|done]. }
  split.
  - constructor; [|exact H1]. cbn. intros J. rewrite Forall_forall in H2.
    destruct (H2 _ J) as (s & [= <-] & _ & X). apply X, list_elem_of_here.
  - constructor; [by exists next|]. eapply Forall_impl; [exact H2|]. cbn. intros v (s & -> & X & Y).
    exists s. split; [done|]. split; [done|]. intros Z. apply Y. by apply list_elem_of_further.
Qed.

(** Conversations whose messages have names: distinct, not empty texts. *)
Definition named (l : list Message) : Prop :=
  NoDup (map id l) /\ Forall (fun v => exists s, v = VStr s /\ s <> []) (map id l).

Lemma with_own_id m s : id m = VStr s -> m <| id := VStr s |> = m.
Proof. destruct m. cbn. by intros ->. Qed.

Lemma unique_ids_named now l index seen : named l -> Forall (fun v => forall s, v = VStr s -> s ∉ seen) (map id l) ->
  unique_ids now index seen l = l.
Proof.
  intros [N F]. revert index seen. induction l as [|m l IH]; intros index seen O; [done|].
  cbn [map] in *. apply NoDup_cons in N as [N1 N2]. apply Forall_cons in F as [(s & Es & Fs) F], O as [Os O].
  assert (B : baseId now index (id m) = s) by (rewrite Es; by destruct s).
  cbn [unique_ids]. rewrite B, bool_decide_eq_false_2 by by apply Os. rewrite with_own_id by done. f_equal.
  apply IH; [done..|]. rewrite Forall_forall in O |- *. intros v V s' -> [->|J]%elem_of_cons.
  - by rewrite Es in N1.
  - by apply (O (VStr s') V s').
Qed.

Lemma ensure_named now l : named l -> ensureUniqueMessageIds now l = l.
Proof.
  intros N. apply unique_ids_named; [done|]. apply Forall_forall. intros v _ s _. apply not_elem_of_nil.
Qed.

(** A message without its identifier. *)
Definition body_of (m : Message) : Message := m <| id := VUndef |>.

Lemma unique_ids_bodies now l index seen : map body_of (unique_ids now index seen l) = map body_of l.
Proof. revert index seen. induction l as [|m l IH]; intros; cbn [unique_ids map]; [done|]. by rewrite IH. Qed.

(** C24. Every list of messages gets distinct identifiers: if no identifier
    carries the mark of the clock, the identifiers of the result are distinct
    texts, none of them empty; nothing but identifiers changes, and a second
    pass, at any time, renames nothing, so an identifier lasts as long as its
    message. *)
Theorem ids_made_unique now later l : own_ids now l ->
  named (ensureUniqueMessageIds now l) /\
  map body_of (ensureUniqueMessageIds now l) = map body_of l /\
  ensureUniqueMessageIds later (ensureUniqueMessageIds now l) = ensureUniqueMessageIds now l.
Proof.
  intros O. destruct (unique_ids_spec now l 0 [] O) as [N F]; [by intros s ?%not_elem_of_nil|].
  assert (M : named (ensureUniqueMessageIds now l)).
  { split; [exact N|]. eapply Forall_impl; [exact F|]. cbn. intros v (s & E & X & _). by exists s. }
  split; [exact M|]. split; [apply unique_ids_bodies|by apply ensure_named].
Qed.

Definition sample_now : jsstr := js "1715676751919".

Lemma ids_made_unique_witness :
  map id (ensureUniqueMessageIds sample_now [sample_loading; sample_loading])
  = [VStr (js "m1"); VStr (js "m1-1715676751919-1")] /\
  named (ensureUniqueMessageIds sample_now [sample_loading; sample_loading]).
Proof.
  split; [vm_compute; reflexivity|]. apply (ids_made_unique sample_now sample_now [sample_loading; sample_loading]).
  repeat constructor; vm_compute; reflexivity.
Defined.

(** ** Stored conversations are settled *)

Lemma process_text_total s r : exists c' r', processThinkTags (VStr s) r = Some (c', r').
Proof. unfold processThinkTags. destruct (negb (truthy (VStr s))); [by do 2 eexists|].
  destruct (includes OPEN s); [|by do 2 eexists]. destruct (separateThinking s r). by do 2 eexists. Qed.

Lemma process_incomplete_total s r : exists c' r', processIncompleteThinkTags (VStr s) r = Some (c', r').
Proof.
  unfold processIncompleteThinkTags. destruct (negb (truthy (VStr s))); [by do 2 eexists|].
  destruct (split_last OPEN s) as [[before fragment]|]; [|apply process_text_total].
  destruct (negb (includes CLOSE (OPEN ++ fragment))); apply process_text_total.
Qed.

(** What is kept of how a message is folded. *)
Definition unfolded (m : Message) : Message :=
  m <| hasAutoCollapsed := VUndef |> <| isReasoningExpanded := VUndef |>.

(** A conversation that was stored while an answer was being generated is
    settled when it is read: only its last message changes, its status becomes
    complete, reading it again changes nothing, and the message is the one that
    the stop button would have left, up to how the reasoning is folded. *)
Theorem restored_like_stopped l m text : has_role m ASSISTANT = true -> generating m = true -> content m = VStr text ->
  exists m1 m2, normalizePersistedPlaygroundMessages (l ++ [m]) = Some (l ++ [m1]) /\
    stopMessage (l ++ [m]) = Some (l ++ [m2], Some (l ++ [m2])) /\
    unfolded m1 = unfolded m2 /\ status m1 = VStr COMPLETE /\
    needsPersistedTailNormalize (l ++ [m1]) = false /\
    normalizePersistedPlaygroundMessages (l ++ [m1]) = Some (l ++ [m1]).
Proof.
  intros A G C. destruct (process_incomplete_total text (reasoningContent m ||| VStr [])) as (c' & r' & P).
  assert (E : content m ||| VStr [] = VStr text) by (rewrite C; by destruct text).
  assert (N : needsPersistedTailNormalize (l ++ [m]) = true).
  { unfold needsPersistedTailNormalize. by rewrite last_snoc_msg, A, G. }
  unfold normalizePersistedPlaygroundMessages, stopMessage. rewrite last_snoc_msg, N, G, E, P.
  cbn [mbind option_bind fst snd]. rewrite !replace_last_snoc. do 2 eexists. split; [done|]. split; [done|].
  split; [done|]. split; [done|].
  assert (Q : needsPersistedTailNormalize (l ++ [m <| status := VStr COMPLETE |> <| content := c' |>
      <| reasoningContent := r' ||| VNull |> <| isThinkingComplete := VBool true |>]) = false).
  { unfold needsPersistedTailNormalize. rewrite last_snoc_msg. cbn [role status]. apply andb_false_iff. right.
    unfold generating, has_status. cbn. by vm_compute. }
  split; [exact Q|]. rewrite last_snoc_msg, Q. done.
Qed.

Definition sample_interrupted : Message := sample_loading <| content := VStr (js "<think>why") |> <| status := VStr INCOMPLETE |>.

Lemma restored_like_stopped_witness :
  exists m1 m2, normalizePersistedPlaygroundMessages [sample_interrupted] = Some [m1] /\
    stopMessage [sample_interrupted] = Some ([m2], Some [m2]) /\ unfolded m1 = unfolded m2 /\ status m1 = VStr COMPLETE.
Proof.
  destruct (restored_like_stopped [] sample_interrupted (js "<think>why")) as (m1 & m2 & E1 & E2 & U & S & _);
    [vm_compute; reflexivity..|]. exists m1, m2. split; [exact E1|]. split; [exact E2|]. split; [exact U|exact S].
Defined.

(** ** Actions *)

Lemma next_message (a b : list Message) m : (a ++ m :: b) !! S (length a) = head b.
Proof. rewrite lookup_app_r by lia. replace (S (length a) - length a)%nat with 1%nat by lia. by destruct b. Qed.
Section Actions.
Context (a b : list Message) (m : Message) (N : named (a ++ m :: b)).

Lemma strict_eq_name x s : strict_eq (VStr x) (VStr s) = bool_decide (x = s).
Proof. done. Qed.

Lemma m_name : exists s, id m = VStr s.
Proof.
  destruct N as [_ F]. rewrite map_app in F. apply Forall_app in F as [_ F].
  apply Forall_cons in F as [(s & E & _) _]. by exists s.
Qed.

Lemma others_differ x : x ∈ a \/ x ∈ b -> strict_eq (id x) (id m) = false.
Proof.
  intros X. destruct m_name as [s Es]. destruct N as [D F]. rewrite map_app in D, F. cbn [map] in D, F.
  apply NoDup_app in D as (_ & D1 & D2). apply NoDup_cons in D2 as [D2 _].
  assert (Q : exists s', id x = VStr s').
  { rewrite Forall_app, Forall_cons, !Forall_forall in F. destruct F as (F1 & _ & F2).
    destruct X as [X|X]; apply (list_elem_of_In) in X;
      [destruct (F1 (id x)) as (s' & E & _)|destruct (F2 (id x)) as (s' & E & _)]; try by exists s'.
    - apply list_elem_of_In, in_map. done.
    - apply list_elem_of_In, in_map. done. }
  destruct Q as [s' E]. rewrite E, Es, strict_eq_name. apply bool_decide_eq_false_2. intros ->.
  destruct X as [X|X]; apply list_elem_of_In, (in_map id), list_elem_of_In in X; rewrite E, <- Es in X.
  - apply (D1 _ X), list_elem_of_here.
  - by apply D2.
Qed.

Lemma self_same : strict_eq (id m) (id m) = true.
Proof. destruct m_name as [s ->]. by apply bool_decide_eq_true_2. Qed.

(** The message at its position, whether it is found by reference or not. *)
Definition found (byRef : option nat) : Prop := byRef = None \/ byRef = Some (length a).

Lemma index_found byRef : found byRef -> message_index byRef (id m) (a ++ m :: b) = Some (length a).
Proof.
  intros [-> | ->]; [|done]. cbn [message_index].
  assert (G : forall x, x ∈ a -> strict_eq (id x) (id m) = false) by (intros; apply others_differ; by left).
  pose proof self_same as R. clear N. induction a as [|x r IH]; cbn [app index_by_id length].
  - by rewrite R.
  - rewrite G by apply list_elem_of_here. rewrite IH; [done|]. intros. apply G. by apply list_elem_of_further.
Qed.

Lemma map_elsewhere (f : Message -> Message) l : (forall x, x ∈ l -> strict_eq (id x) (id m) = false) ->
  map (fun x => if strict_eq (id x) (id m) then f x else x) l = l.
Proof.
  induction l as [|x l IH]; intros G; [done|]. cbn [map]. rewrite G by apply list_elem_of_here. f_equal.
  apply IH. intros. apply G. by apply list_elem_of_further.
Qed.

Lemma map_named (f : Message -> Message) :
  map (fun x => if strict_eq (id x) (id m) then f x else x) (a ++ m :: b) = a ++ f m :: b.
Proof.
  rewrite map_app. cbn [map]. rewrite self_same, !map_elsewhere; [done|..]; intros; apply others_differ; [by right|by left].
Qed.

Lemma drop_id_named : drop_id (id m) (a ++ m :: b) = a ++ b.
Proof.
  assert (G : forall l, (forall x, x ∈ l -> strict_eq (id x) (id m) = false) -> drop_id (id m) l = l).
  { induction l as [|x l IH]; intros G; [done|]. unfold drop_id. rewrite filter_cons_True by (apply G, list_elem_of_here).
    f_equal. apply IH. intros. apply G. by apply list_elem_of_further. }
  unfold drop_id. rewrite filter_app, filter_cons_False by (rewrite self_same; done).
  f_equal; apply G; intros; apply others_differ; [by left|by right].
Qed.

End Actions.

(** Deleting a message deletes exactly it, with its answer: in a
    conversation with distinct identifiers a user message followed by an answer
    is removed together with that answer, any other message alone; all other
    messages stay, in order, and the new conversation is the one saved. *)
Theorem delete_exact a m b byRef : named (a ++ m :: b) -> found a byRef ->
  let rest := match b with
              | n :: b' => if has_role m USER && has_role n ASSISTANT then b' else b
              | [] => []
              end in
  handleMessageDelete byRef m (a ++ m :: b) = (a ++ rest, Some (a ++ rest)).
Proof.
  intros N F. unfold handleMessageDelete. rewrite (index_found a b m N byRef F), next_message.
  assert (D : drop_id (id m) (a ++ m :: b) = a ++ b) by by apply drop_id_named.
  assert (P : forall n b', b = n :: b' -> drop_pair (length a) (a ++ m :: b) = a ++ b').
  { intros n b' ->. unfold drop_pair. rewrite take_app_length, drop_app_add. done. }
  destruct b as [|n b']; cbn [head]; [by destruct (has_role m USER); rewrite D|].
  destruct (has_role m USER); cbn [andb]; [|by rewrite D].
  destruct (has_role n ASSISTANT); [by rewrite (P n b')|by rewrite D].
Qed.

(** Editing a text message changes exactly its content; when the message is
    a user message with an answer the user is asked, and regenerating then
    keeps the messages up to the edited one, sends exactly these, and appends
    only the new answer: the old answer and everything after it are gone. *)
Theorem edit_replaces_answer a m b byRef text v loadingId now c :
  named (a ++ m :: b) -> found a byRef -> content m = VStr text -> trim v <> [] ->
  let e := {| editingMessageId := id m; editingRef := byRef; editValue := v |} in
  let m' := m <| content := VStr (trim v) |> in
  handleEditSave e (a ++ m :: b)
  = (if has_role m USER && match head b with Some n => has_role n ASSISTANT | None => false end
     then EditAsk (a ++ m' :: b) (S (length a)) else EditSaved (a ++ m' :: b)) /\
  exists upd out, edit_regenerate loadingId now c (a ++ m' :: b) (S (length a)) = (a ++ [m'], upd, out) /\
    upd (a ++ [m']) = a ++ [m'; createLoadingAssistantMessage loadingId now] /\
    payload out = buildApiPayload (a ++ [m']) VNull (inputs c) (parameterEnabled c).
Proof.
  intros N F C T e m'. split.
  - assert (I : truthy (id m) = true).
    { destruct N as [_ Q]. rewrite map_app, Forall_app in Q. destruct Q as [_ Q]. apply Forall_cons in Q as [(s & -> & ?) _].
      by destruct s. }
    assert (V : str_truthy (trim v) = true) by (by destruct (trim v)).
    unfold handleEditSave. cbn [editingMessageId editingRef editValue e].
    rewrite I, V, (index_found a b m N byRef F). cbn [negb orb mbind option_bind].
    rewrite list_lookup_middle by done. cbn [mbind option_bind]. unfold edited_content. rewrite C, next_message.
    rewrite (map_named a b m N (fun x => x <| content := VStr (trim v) |>)). by destruct b.
  - do 2 eexists. unfold edit_regenerate.
    replace (take (S (length a)) (a ++ m' :: b)) with (a ++ [m']).
    2: { change (m' :: b) with ([m'] ++ b). rewrite (assoc_L (++)), <- (take_app_length (a ++ [m']) b) at 1.
         by rewrite length_app, Nat.add_1_r. }
    split; [done|]. split; [|done]. cbn beta. by rewrite <- (assoc_L (++)).
Qed.

(** ** The custom request body *)

(** A message that a request can carry. *)
Definition sendable (m : Message) : Prop :=
  json_ok (role m) /\ json_ok (content m) /\ truthy (role m) = true /\ (truthy (content m) = true \/ content m = VStr []).

Definition MESSAGES : jsstr := js "messages".

Lemma format_ok m : sendable m -> json_ok (formatMessageForAPI m).
Proof.
  intros (R & C & _). apply json_ok_obj. split.
  - constructor; [repeat constructor|]. constructor; [|constructor]. split; [intros X; by vm_compute in X|exact Logic.I].
  - repeat (apply Forall_cons; split); try apply Forall_nil_2; cbn [fst snd]; split; try done;
      apply (bool_decide_unpack _); vm_compute; exact Logic.I.
Qed.

Lemma format_custom newId now i m : sendable m ->
  formatMessageForAPI (custom_message newId now i (formatMessageForAPI m)) = formatMessageForAPI m.
Proof.
  intros (_ & _ & R & C).
  assert (R' : vget (formatMessageForAPI m) (js "role") = role m) by (vm_compute; reflexivity).
  assert (C' : vget (formatMessageForAPI m) (js "content") = content m) by (vm_compute; reflexivity).
  assert (O1 : role m ||| VStr USER = role m) by (unfold js_or; by rewrite R).
  assert (O2 : content m ||| VStr [] = content m).
  { destruct C as [C| ->]; [unfold js_or; by rewrite C|done]. }
  unfold custom_message. rewrite R', C', O1, O2. by destruct (is_str (role m) ASSISTANT).
Qed.

Lemma parsed_body body v : JSON_parse body = Some v -> str_or body (js "{}") = body.
Proof. destruct body; [intros J; by vm_compute in J|reflexivity]. Qed.

(** C25. Writing the messages into the custom request body and reading them back
    keeps what a request carries: the new body is the old one with other
    messages, every other field is untouched; the body just written is not read
    back as an edit of the user; and a body that is read gives the roles and
    contents that were written, in order. *)
Theorem custom_body_roundtrip newId now c s o :
  customRequestMode c = true -> JSON_parse (str_or (customRequestBody c) (js "{}")) = Some (VObj o) -> json_ok (VObj o) ->
  Forall sendable (shown c) -> getMessageHash (shown c) <> lastMessageHash s ->
  exists body s' o', syncMessageToCustomBody c s = Some (Some (body, s')) /\
    JSON_parse body = Some (VObj o') /\ (forall k, k <> MESSAGES -> assoc_get o' k = assoc_get o k) /\
    let c' := {| shown := shown c; inputs := inputs c; parameterEnabled := parameterEnabled c;
                 customRequestMode := true; customRequestBody := body |} in
    syncCustomBodyToMessage newId now c' s' = None /\
    forall s0, lastCustomBodyHash s0 <> getCustomBodyHash body ->
      exists l s1, syncCustomBodyToMessage newId now c' s0 = Some (l, s1) /\
        map formatMessageForAPI l = map formatMessageForAPI (shown c).
Proof.
  intros M P O F H. set (items := map formatMessageForAPI (shown c)). set (o' := assoc_set o MESSAGES (VArr items)).
  assert (I : Forall json_ok items).
  { apply Forall_map. eapply Forall_impl; [exact F|]. intros m. apply format_ok. }
  assert (O' : json_ok (VObj o')).
  { apply json_ok_assoc_set; [done| |by apply json_ok_arr]. apply (bool_decide_unpack _). vm_compute. exact Logic.I. }
  destruct (JSON_parse_stringify 2 (VObj o') O') as (body & E & J).
  unfold syncMessageToCustomBody. rewrite M, bool_decide_eq_false_2, P by done.
  change (default (fresh_body (inputs c)) (Some (VObj o))) with (VObj o). cbn [negb orb].
  unfold pretty_json. fold MESSAGES items o'. rewrite E. change (default [] (Some body)) with body.
  do 3 eexists. split; [done|]. split; [exact J|]. split.
  { intros k K. subst o'. rewrite assoc_get_set. by case_decide. }
  assert (B : str_or body (js "{}") = body) by (by eapply parsed_body).
  unfold syncCustomBodyToMessage. cbn [customRequestMode customRequestBody lastCustomBodyHash negb orb].
  split; [by rewrite bool_decide_eq_true_2|]. intros s0 S0. rewrite bool_decide_eq_false_2 by congruence.
  assert (V : vget (VObj o') (js "messages") = VArr items).
  { cbn [vget]. subst o'. by rewrite assoc_get_set, decide_True. }
  rewrite B, J, V. assert (N : existsb is_nullish items = false).
  { subst items. clear. induction (shown c) as [|m l IH]; [done|]. cbn [map existsb]. by rewrite IH. }
  rewrite N. do 2 eexists. split; [done|]. subst items. clear -F. generalize 0%nat.
  induction F as [|m l Fm _ IH]; intros i; [done|]. cbn [map length seq zip_with]. rewrite format_custom by done. by rewrite IH.
Qed.

(** ** Samples *)

Definition sample_question : Message := createMessage (VStr (js "q1")) (VNum n0) USER (VStr (js "Why?")).
Definition sample_answer : Message :=
  (createMessage (VStr (js "a1")) (VNum n0) ASSISTANT (VStr (js "Because."))) <| status := VStr COMPLETE |>.
Definition sample_talk : list Message := [sample_question; sample_answer].

Definition sample_composer (custom : bool) (body : jsstr) : Composer :=
  {| shown := sample_talk; inputs := VObj []; parameterEnabled := VObj [];
     customRequestMode := custom; customRequestBody := body |}.

Lemma sample_named : named ([] ++ sample_question :: [sample_answer]).
Proof.
  split.
  - cbn [app map]. apply NoDup_cons. split; [|apply NoDup_singleton]. intros [E|E%not_elem_of_nil]%elem_of_cons; [|done].
    vm_compute in E. discriminate E.
  - repeat constructor; eexists; (split; [reflexivity|vm_compute; discriminate]).
Qed.

Lemma delete_exact_witness : handleMessageDelete None sample_question sample_talk = ([], Some []).
Proof. apply (delete_exact [] sample_question [sample_answer] None sample_named). by left. Defined.

Lemma edit_replaces_answer_witness :
  handleEditSave {| editingMessageId := VStr (js "q1"); editingRef := None; editValue := js " How? " |} sample_talk
  = EditAsk [sample_question <| content := VStr (js "How?") |>; sample_answer] 1.
Proof.
  apply (edit_replaces_answer [] sample_question [sample_answer] None (js "Why?") (js " How? ") VNull VNull
    (sample_composer false []) sample_named); [by left|reflexivity|vm_compute; discriminate].
Defined.

Definition sample_sync : BodySync := {| lastMessageHash := []; lastCustomBodyHash := [] |}.

Lemma custom_body_roundtrip_witness :
  exists body s', syncMessageToCustomBody (sample_composer true []) sample_sync = Some (Some (body, s')) /\
    JSON_parse body = Some (VObj [(js "messages", VArr (map formatMessageForAPI sample_talk))]).
Proof.
  destruct (custom_body_roundtrip (fun _ => []) (VNum n0) (sample_composer true []) sample_sync [])
    as (body & s' & o' & E & J & _); [reflexivity|vm_compute; reflexivity| | | |].
  - apply json_ok_obj. split; constructor.
  - repeat (apply Forall_cons; split); try apply Forall_nil_2; (split; [|split; [|split; [vm_compute; reflexivity|left; vm_compute; reflexivity]]]);
      apply (bool_decide_unpack _); vm_compute; exact Logic.I.
  - vm_compute. discriminate.
  - exists body, s'. split; [exact E|]. vm_compute in E. injection E as <- _. vm_compute. reflexivity.
Defined.
