(* ===== verification/PlaygroundPage.v ===== *)
(** * The page of the playground

    The three conversations of [pages/Playground/index.jsx]: the list that is
    shown (state of React), the lists of the modes (a reference), and the copy
    in the browser's database; switching between modes, restoring, saving,
    clearing, and the polling of video tasks that the page resumes.

    A step of the page is an event together with the effects that React runs
    after it, in the order of the file.  The clock, as text, is a parameter of
    the steps that rename messages. *)

From stdpp Require Import base list numbers strings.
From S2P Require Import Prelude JsNumber JsString JsValue JsJson PlaygroundText PlaygroundMedia PlaygroundChat PlaygroundActions.
Local Open Scope Z_scope.
Local Open Scope js_scope.

Inductive Mode := Text | Image | Video.

#[export] Instance Mode_eq_dec : EqDecision Mode.
Proof. solve_decision. Defined.

(** [{ text, image, video }] *)
Record Modes := { text : list Message; image : list Message; video : list Message }.

Definition mode_get (s : Modes) (m : Mode) : list Message :=
  match m with Text => text s | Image => image s | Video => video s end.

Definition mode_set (m : Mode) (l : list Message) (s : Modes) : Modes :=
  match m with
  | Text => {| text := l; image := image s; video := video s |}
  | Image => {| text := text s; image := l; video := video s |}
  | Video => {| text := text s; image := image s; video := l |}
  end.

(** The load of the stored conversations: none, one that has not read the
    database yet, or one that has, with what it read. *)
Inductive Load := Idle | Asked | Read (saved : option Modes).

(** The shown messages, the mode of the settings, the references
    [previousModeRef], [currentMessagesRef], [modeStoreInitializedRef] and
    [modeMessagesRef], the entry of the database, and the load under way (a new
    one cancels the one before it). *)
Record PlayPage := {
  message : list Message;
  displayMode : Mode;
  previousMode : Mode;
  currentMessages : list Message;
  modeStoreInitialized : bool;
  modeMessages : Modes;
  stored : option Modes;
  load : Load
}.

#[export] Instance eta_PlayPage : Eta PlayPage := fun p =>
  {| message := message p; displayMode := displayMode p; previousMode := previousMode p;
     currentMessages := currentMessages p; modeStoreInitialized := modeStoreInitialized p;
     modeMessages := modeMessages p; stored := stored p; load := load p |}.

(** ** Effects *)

(** [currentMessagesRef.current = message] *)
Definition track_effect (p : PlayPage) : PlayPage := p <| currentMessages := message p |>.

(** The first run fills the store of the modes. *)
Definition init_effect (p : PlayPage) : PlayPage :=
  if modeStoreInitialized p then p
  else p <| modeMessages := mode_set (displayMode p) (message p) (modeMessages p) |>
         <| previousMode := displayMode p |> <| modeStoreInitialized := true |>.

(** The shown messages are copied to the store of their mode. *)
Definition mirror_effect (p : PlayPage) : PlayPage :=
  p <| modeMessages := mode_set (previousMode p) (message p) (modeMessages p) |>.

(** The effects after a change of the messages. *)
Definition message_effects (p : PlayPage) : PlayPage := mirror_effect (init_effect (track_effect p)).

(** ** Messages *)

(** [setMessage(updater)]: the identifiers are made unique. *)
Definition setMessage (now : jsstr) (next : list Message) (p : PlayPage) : PlayPage :=
  message_effects (p <| message := ensureUniqueMessageIds now next |>).

Definition persistModeMessages (p : PlayPage) : PlayPage := p <| stored := Some (modeMessages p) |>.

(** [mode || previousModeRef.current] *)
Definition target_mode_of (mode : option Mode) (p : PlayPage) : Mode := default (previousMode p) mode.

Definition saveMessagesForMode (l : list Message) (mode : option Mode) (p : PlayPage) : PlayPage :=
  persistModeMessages (p <| modeMessages := mode_set (target_mode_of mode p) l (modeMessages p) |>).

(** [setMessageForMode(updater, mode)]; [None] when the updater throws. *)
Definition setMessageForMode (now : jsstr) (updater : list Message -> option (list Message)) (mode : option Mode) (p : PlayPage)
    : option PlayPage :=
  let target := target_mode_of mode p in
  if bool_decide (target = previousMode p) then
    next ← updater (message p); Some (setMessage now next p)
  else
    next ← updater (mode_get (modeMessages p) target);
    Some (persistModeMessages (p <| modeMessages := mode_set target next (modeMessages p) |>)).

(** A [setMessage] of a request handler for its mode: the new page, and what is
    scheduled for saving. *)
Definition request_update (now : jsstr) (u : Update) (mode : Mode) (p : PlayPage) : option (PlayPage * option (list Message)) :=
  let l := if bool_decide (mode = previousMode p) then message p else mode_get (modeMessages p) mode in
  r ← run_update u l;
  p' ← setMessageForMode now (fun _ => Some (fst r)) (Some mode) p;
  Some (p', snd r).

(** ** Switching, restoring, clearing *)

Definition switch_effect (now : jsstr) (p : PlayPage) : PlayPage :=
  let nextMode := displayMode p in
  let prevMode := previousMode p in
  if negb (modeStoreInitialized p) || bool_decide (nextMode = prevMode) then p
  else
    let modes := mode_set prevMode (currentMessages p) (modeMessages p) in
    setMessage now (mode_get modes nextMode) (p <| modeMessages := modes |> <| previousMode := nextMode |>).

(** The display mode changes: the effects of the store, of the load of the
    stored conversations (which starts here and ends in [finish_load]), of the
    mirror and of the switch, and then those of the new messages.  Nothing runs
    when the mode is the same. *)
Definition switchMode (now : jsstr) (next : Mode) (p : PlayPage) : PlayPage :=
  let asked := if bool_decide (next = displayMode p) then load p else Asked in
  switch_effect now (mirror_effect (init_effect (p <| displayMode := next |>) <| load := asked |>)).

(** The same effect starts a load when the user or the language changes. *)
Definition start_load (p : PlayPage) : PlayPage := p <| load := Asked |>.

(** [await loadModeMessages(...)]: the database is read. *)
Definition read_load (p : PlayPage) : PlayPage :=
  match load p with Asked => p <| load := Read (stored p) |> | _ => p end.

(** What the effect restores from: the entry of the database, the older entry
    of the modes in [localStorage], the messages of the oldest version. *)
Definition parsed_modes (defaults : list Message) (saved legacyModes : option Modes) (legacyMessages : option (list Message))
    : option Modes :=
  match saved, legacyModes, legacyMessages with
  | Some s, _, _ => Some s
  | None, Some s, _ => Some s
  | None, None, Some l => Some {| text := l; image := defaults; video := defaults |}
  | None, None, None => None
  end.

Definition or_default (defaults l : list Message) : list Message := match l with [] => defaults | _ => l end.

Definition restored_modes (defaults : list Message) (parsed : option Modes) : Modes :=
  match parsed with
  | Some s => {| text := or_default defaults (text s); image := or_default defaults (image s); video := or_default defaults (video s) |}
  | None => {| text := defaults; image := defaults; video := defaults |}
  end.

(** The end of [restoreModeMessages], when it was not cancelled; an older
    version's data is also written to the database. *)
Definition restoreModeMessages (now : jsstr) (defaults : list Message) (saved legacyModes : option Modes)
    (legacyMessages : option (list Message)) (p : PlayPage) : PlayPage :=
  let parsed := parsed_modes defaults saved legacyModes legacyMessages in
  let restored := restored_modes defaults parsed in
  let p := match saved, parsed with None, Some s => p <| stored := Some s |> | _, _ => p end in
  setMessage now (mode_get restored (displayMode p))
    (p <| modeMessages := restored |> <| previousMode := displayMode p |> <| modeStoreInitialized := true |>
       <| load := Idle |>).

(** The load that has read the database ends. *)
Definition finish_load (now : jsstr) (defaults : list Message) (legacyModes : option Modes)
    (legacyMessages : option (list Message)) (p : PlayPage) : PlayPage :=
  match load p with
  | Read saved => restoreModeMessages now defaults saved legacyModes legacyMessages p
  | _ => p
  end.

(** The load throws: the exception is caught and nothing is restored. *)
Definition fail_load (p : PlayPage) : PlayPage := p <| load := Idle |>.

(** [handleClearMessages], confirmed. *)
Definition handleClearMessages (now : jsstr) (p : PlayPage) : PlayPage :=
  let p := persistModeMessages (p <| modeMessages := mode_set (displayMode p) [] (modeMessages p) |> <| currentMessages := [] |>) in
  saveMessagesForMode [] (Some (displayMode p)) (setMessage now [] p).

(** ** Video tasks that the page resumes *)

Definition RESUMED : list jsstr :=
  [js "queued"; js "processing"; js "in_progress"; js "running"; js "pending"; js "submitted"; []].

Section Resume.
Context `{Unicode}.

Definition resumable (m : Message) : bool :=
  let task := videoTask m in
  let st := lower_text (vget task (js "status") ||| VStr []) in
  has_role m ASSISTANT && truthy (vget task (js "taskId")) && negb (truthy (vget task (js "playableUrl")))
  && negb (in_list st TERMINAL) && in_list st RESUMED.

(** The tasks whose polling the effect starts, with the message each is for,
    and the set of active tasks afterwards. *)
Fixpoint resume_tasks (active : list jsval) (l : list Message) : list (jsval * jsval) * list jsval :=
  match l with
  | [] => ([], active)
  | m :: r =>
      let taskId := vget (videoTask m) (js "taskId") in
      if resumable m && negb (existsb (strict_eq taskId) active) then
        let (started, active') := resume_tasks (taskId :: active) r in ((taskId, id m) :: started, active')
      else resume_tasks active r
  end.

(** A patch of a resumed task ends it. *)
Definition ends_task (p : Patch) : bool :=
  let st := lower_text (vget (default VUndef (p_task p)) (js "status") ||| VStr []) in
  let ms := match p_status p with Some s => toLowerCase s | None => [] end in
  in_list st TERMINAL || bool_decide (ms = COMPLETE) || bool_decide (ms = ERROR).

(** A patch of a resumed task: the page, the active tasks, and the list that is
    saved for the video mode. *)
Definition resumed_patch (now : jsstr) (taskId target : jsval) (patch : Patch) (active : list jsval) (p : PlayPage)
    : option (PlayPage * list jsval) :=
  let active' := if ends_task patch then base.filter (fun x => strict_eq taskId x = false) active else active in
  let l := if bool_decide (Video = previousMode p) then message p else mode_get (modeMessages p) Video in
  let updated := patch_id patch target l in
  p' ← setMessageForMode now (fun _ => Some updated) (Some Video) p;
  Some (saveMessagesForMode updated (Some Video) p', active').
End Resume.

(** ** The three conversations *)

(** The conversations of a page: the shown one and the stored others. *)
Definition conversations (p : PlayPage) : Modes := mode_set (previousMode p) (message p) (modeMessages p).

Lemma mode_get_set m l s : mode_get (mode_set m l s) m = l.
Proof. by destruct m. Qed.

Lemma mode_get_other m m' l s : m <> m' -> mode_get (mode_set m l s) m' = mode_get s m'.
Proof. by destruct m, m'. Qed.

Lemma mode_set_get m s : mode_set m (mode_get s m) s = s.
Proof. by destruct m, s. Qed.

Lemma mode_set_set m l l' s : mode_set m l (mode_set m l' s) = mode_set m l s.
Proof. by destruct m. Qed.


(** A page between two events: its references agree, and the messages of every
    conversation have distinct identifiers. *)
Record page_ok (p : PlayPage) : Prop := {
  ok_initialized : modeStoreInitialized p = true;
  ok_mode : displayMode p = previousMode p;
  ok_current : currentMessages p = message p;
  ok_mirror : mode_get (modeMessages p) (previousMode p) = message p;
  ok_named : forall m, named (mode_get (modeMessages p) m)
}.

Lemma ok_conversations p : page_ok p -> conversations p = modeMessages p.
Proof. intros O. unfold conversations. rewrite <- (ok_mirror p O). apply mode_set_get. Qed.

Definition view (p : PlayPage) : Mode * Modes := (previousMode p, conversations p).

(** An update of a conversation, a change of the mode, a new load, its read of
    the database, its end and its failure, a save of a conversation as it is, the delayed
    save of all of them, and clearing. *)
Inductive Event :=
  | EUpdate (m : Mode) (u : list Message -> list Message)
  | ESwitch (m : Mode)
  | EReload
  | ERead
  | ELoaded (legacyModes : option Modes) (legacyMessages : option (list Message))
  | EFailed
  | ESave (m : Mode)
  | EPersist
  | EClear.

Section Machine.
Context (now : jsstr) (defaults : list Message).

Definition page_step (e : Event) (p : PlayPage) : PlayPage :=
  match e with
  | EUpdate m u => default p (setMessageForMode now (fun l => Some (u l)) (Some m) p)
  | ESwitch m => switchMode now m p
  | EReload => start_load p
  | ERead => read_load p
  | ELoaded legacyModes legacyMessages => finish_load now defaults legacyModes legacyMessages p
  | EFailed => fail_load p
  | ESave m => saveMessagesForMode (mode_get (conversations p) m) (Some m) p
  | EPersist => persistModeMessages p
  | EClear => handleClearMessages now p
  end.

(** The specification: the mode in view and three lists, the saved copy of the
    lists, and the load under way. *)
Record Talks := { shown : Mode * Modes; saved_copy : option Modes; loading : Load }.

Definition set_talk (m : Mode) (l : list Message) (v : Mode * Modes) : Mode * Modes := (fst v, mode_set m l (snd v)).

Definition spec_step (e : Event) (s : Talks) : Talks :=
  match e with
  | EUpdate m u =>
      let v := set_talk m (u (mode_get (snd (shown s)) m)) (shown s) in
      {| shown := v; saved_copy := if bool_decide (m = fst (shown s)) then saved_copy s else Some (snd v);
         loading := loading s |}
  | ESwitch m =>
      {| shown := (m, snd (shown s)); saved_copy := saved_copy s;
         loading := if bool_decide (m = fst (shown s)) then loading s else Asked |}
  | EReload => {| shown := shown s; saved_copy := saved_copy s; loading := Asked |}
  | ERead =>
      {| shown := shown s; saved_copy := saved_copy s;
         loading := match loading s with Asked => Read (saved_copy s) | l => l end |}
  | ELoaded legacyModes legacyMessages =>
      match loading s with
      | Read read =>
          let found := parsed_modes defaults read legacyModes legacyMessages in
          {| shown := (fst (shown s), restored_modes defaults found);
             saved_copy := match read with None => match found with Some x => Some x | None => saved_copy s end | Some _ => saved_copy s end;
             loading := Idle |}
      | _ => s
      end
  | EFailed => {| shown := shown s; saved_copy := saved_copy s; loading := Idle |}
  | ESave _ | EPersist => {| shown := shown s; saved_copy := Some (snd (shown s)); loading := loading s |}
  | EClear =>
      let v := set_talk (fst (shown s)) [] (shown s) in
      {| shown := v; saved_copy := Some (snd v); loading := loading s |}
  end.

Definition all_named (s : Modes) : Prop := forall m, named (mode_get s m).


End Machine.

Definition talks_of (p : PlayPage) : Talks := {| shown := view p; saved_copy := stored p; loading := load p |}.



(** [setMessage] on a page whose other references agree. *)
Lemma setMessage_ok now l p : modeStoreInitialized p = true -> displayMode p = previousMode p ->
  (forall m, m <> previousMode p -> named (mode_get (modeMessages p) m)) -> named l ->
  let p' := setMessage now l p in
  page_ok p' /\ message p' = l /\ previousMode p' = previousMode p /\ modeMessages p' = mode_set (previousMode p) l (modeMessages p).
Proof.
  intros I D N L. unfold setMessage, message_effects, init_effect, mirror_effect, track_effect.
  rewrite (ensure_named now l L). cbn. rewrite I. cbn. split; [|done].
  split; cbn; try done; [apply mode_get_set|]. intros m. destruct (decide (m = previousMode p)) as [->|E].
  - by rewrite mode_get_set.
  - rewrite mode_get_other by congruence. by apply N.
Qed.

Lemma setMessage_rest now l p :
  stored (setMessage now l p) = stored p /\ load (setMessage now l p) = load p.
Proof. unfold setMessage, message_effects, mirror_effect, init_effect, track_effect. cbn. by destruct (modeStoreInitialized p). Qed.

Lemma view_ok p : page_ok p -> view p = (previousMode p, modeMessages p).
Proof. intros O. unfold view. by rewrite (ok_conversations p O). Qed.

Section Simulation.
Context (now : jsstr) (defaults : list Message).
Local Abbreviation step := (page_step now defaults).
Local Abbreviation spec := (spec_step defaults).

(** A step of the page is a step of the specification. *)
Definition simulated (e : Event) (p : PlayPage) : Prop :=
  page_ok (step e p) /\ talks_of (step e p) = spec e (talks_of p).

Lemma talks_eq p v s l : view p = v -> stored p = s -> load p = l ->
  talks_of p = {| shown := v; saved_copy := s; loading := l |}.
Proof. by intros <- <- <-. Qed.


Lemma switch_ok m p : page_ok p -> simulated (ESwitch m) p.
Proof.
  intros O. unfold simulated. cbn [page_step spec_step talks_of shown saved_copy loading]. rewrite (view_ok p O). cbn [fst snd].
  unfold switchMode, init_effect. cbn. rewrite (ok_initialized p O).
  unfold switch_effect, mirror_effect. cbn. rewrite (ok_initialized p O), (ok_mode p O). cbn [negb orb].
  pose proof (mode_set_get (previousMode p) (modeMessages p)) as G. rewrite (ok_mirror p O) in G. rewrite G.
  case_bool_decide as E.
  - split; [split; cbn; try apply O; done|]. apply talks_eq; [|done|done]. unfold view, conversations. cbn. by rewrite E, G.
  - rewrite (ok_current p O), G.
    match goal with |- context [setMessage now ?l ?q'] =>
      destruct (setMessage_ok now l q') as (O' & M & P & S); [..|destruct (setMessage_rest now l q') as [K1 K2]] end;
      try apply O; try done; [intros; by apply O|].
    split; [exact O'|]. apply talks_eq; [|done|done]. unfold view, conversations. rewrite M, P, S. cbn. f_equal.
    by rewrite mode_set_set, mode_set_get.
Qed.



Lemma restore_spec saved legacyModes legacyMessages p :
  let found := parsed_modes defaults saved legacyModes legacyMessages in
  all_named (restored_modes defaults found) ->
  let p' := restoreModeMessages now defaults saved legacyModes legacyMessages p in
  page_ok p' /\ view p' = (displayMode p, restored_modes defaults found) /\ load p' = Idle /\
  stored p' = match saved with None => match found with Some x => Some x | None => stored p end | Some _ => stored p end.
Proof.
  intros found N p'. unfold p', restoreModeMessages. fold found. cbv zeta.
  set (q := match saved, found with None, Some s => p <| stored := Some s |> | _, _ => p end).
  assert (D : displayMode q = displayMode p) by (unfold q; by repeat case_match).
  match goal with |- context [setMessage now ?l ?q'] =>
    destruct (setMessage_ok now l q') as (O' & M & P & S); [..|destruct (setMessage_rest now l q') as [K1 K2]] end;
    try done; try (by intros; apply N).
  split; [exact O'|]. split; [|split; [exact K2|]].
  - unfold view, conversations. rewrite M, P, S. cbn. by rewrite mode_set_set, mode_set_get, D.
  - rewrite K1. cbn. unfold q. by destruct saved, found.
Qed.

Hypothesis defaults_named : named defaults.







End Simulation.

(** ** Restoring *)

Lemma restored_full defaults s : (forall m, mode_get s m <> []) -> restored_modes defaults (Some s) = s.
Proof.
  intros N. pose proof (N Text). pose proof (N Image). pose proof (N Video). destruct s as [a b c]. cbn in *.
  by destruct a, b, c.
Qed.

Lemma restore_view now defaults s p : (forall m, mode_get s m <> [] /\ named (mode_get s m)) ->
  let p' := restoreModeMessages now defaults (Some s) None None p in
  page_ok p' /\ view p' = (displayMode p, s).
Proof.
  intros N. pose proof (restored_full defaults s (fun m => proj1 (N m))) as F.
  destruct (restore_spec now defaults (Some s) None None p) as (O & V & _).
  - cbn [parsed_modes]. rewrite F. intros m. apply N.
  - cbn [parsed_modes] in V. by rewrite F in V.
Qed.

(** C27. A change of the mode loads the stored conversations over the current
    ones: when the load finishes, every conversation is the one last saved, and
    whatever was not saved, such as the part of an answer that arrived since
    the message was sent, is gone (only when everything was saved nothing is
    lost).  The conversation is shown as it was stored: an answer stored while
    it was loading is shown as loading again, although its request may be
    gone. *)
Theorem switch_loads_stored now next defaults saved p : page_ok p -> stored p = Some saved ->
  (forall m, mode_get saved m <> [] /\ named (mode_get saved m)) ->
  let p' := restoreModeMessages now defaults (stored p) None None (switchMode now next p) in
  page_ok p' /\ view p' = (next, saved) /\ message p' = mode_get saved next /\
  needsPersistedTailNormalize (message p') = needsPersistedTailNormalize (mode_get saved next).
Proof.
  intros O S N. cbv zeta. rewrite S. destruct (restore_view now defaults saved (switchMode now next p) N) as [O' V].
  destruct (switch_ok now defaults next p O) as [Q W]. cbn [page_step] in Q, W. apply (f_equal shown) in W. cbn [talks_of shown spec_step fst snd] in W.
  assert (D : displayMode (switchMode now next p) = next) by (rewrite (ok_mode _ Q); by injection W).
  rewrite D in V. generalize dependent (restoreModeMessages now defaults (Some saved) None None (switchMode now next p)).
  intros p' O' V. assert (M : message p' = mode_get saved next).
  { rewrite <- (ok_mirror p' O'), <- (ok_conversations p' O'). unfold view in V. by injection V as -> ->. }
  rewrite M. by repeat split; try apply O'.
Qed.

Lemma last_body now l m : last l = Some m ->
  exists m', last (ensureUniqueMessageIds now l) = Some m' /\ body_of m' = body_of m.
Proof.
  intros E. pose proof (unique_ids_bodies now l 0 []) as B. fold (ensureUniqueMessageIds now l) in B.
  assert (X : last (map body_of (ensureUniqueMessageIds now l)) = Some (body_of m)).
  { rewrite B. change (map body_of l) with (body_of <$> l). by rewrite fmap_last, E. }
  change (map body_of (ensureUniqueMessageIds now l)) with (body_of <$> ensureUniqueMessageIds now l) in X.
  rewrite fmap_last in X. destruct (last (ensureUniqueMessageIds now l)) as [m'|]; [|done].
  change (Some (body_of m') = Some (body_of m)) in X. exists m'. split; [done|congruence].
Qed.

Lemma message_set now l p : message (setMessage now l p) = ensureUniqueMessageIds now l.
Proof. unfold setMessage, message_effects, mirror_effect, init_effect, track_effect. cbn. by destruct (modeStoreInitialized p). Qed.

(** A reload does not settle an answer that was being generated: the page
    shows the conversation as the database has it, so a message stored while it
    was loading is shown as loading although no request will ever finish it,
    while the messages of the older storage are settled when they are read. *)
Theorem reload_keeps_loading now defaults saved p l m t answer :
  mode_get saved (displayMode p) = l ++ [m] -> has_role m ASSISTANT = true -> generating m = true -> content m = VStr answer ->
  needsPersistedTailNormalize (message (restoreModeMessages now defaults (Some saved) None None p)) = true /\
  exists l' w, reload_messages t now (Some (l ++ [m])) = Some (l', w) /\ needsPersistedTailNormalize l' = false.
Proof.
  intros S A G C. split.
  - unfold restoreModeMessages. cbn [parsed_modes].
    assert (E : mode_get (restored_modes defaults (Some saved)) (displayMode p) = l ++ [m]).
    { unfold restored_modes. destruct (displayMode p); cbn [mode_get text image video] in S |- *; rewrite S; by destruct l. }
    rewrite message_set, E.
    destruct (last_body now (l ++ [m]) m) as (m' & L & B); [apply last_snoc_msg|].
    unfold needsPersistedTailNormalize. rewrite L.
    assert (R : role m' = role m) by (by apply (f_equal role) in B).
    assert (T : status m' = status m) by (by apply (f_equal status) in B).
    unfold has_role, generating, has_status in *. by rewrite R, T, A, G.
  - destruct (process_incomplete_total answer (reasoningContent m ||| VStr [])) as (c' & r' & P).
    assert (E : content m ||| VStr [] = VStr answer) by (rewrite C; by destruct answer).
    cbn [reload_messages]. unfold normalizePersistedPlaygroundMessages, needsPersistedTailNormalize.
    rewrite last_snoc_msg, A, G, E, P. cbn [andb mbind option_bind fst snd]. do 2 eexists. split; [done|].
    rewrite replace_last_snoc. match goal with |- context [l ++ [?x]] => destruct (last_body now (l ++ [x]) x) as (m' & L & B) end;
      [apply last_snoc_msg|]. rewrite L.
    assert (T : status m' = VStr COMPLETE) by (by apply (f_equal status) in B).
    apply andb_false_iff. right. unfold generating, has_status. rewrite T. by vm_compute.
Qed.

(** ** Video tasks *)

Section Tasks.
Context `{Unicode}.
Context (t : jsstr -> jsstr) (type_error : jsstr) (stack : jsstr -> jsval) (now_iso : jsstr).

(** The task of a reply. *)
Definition reply_task (data : jsval) : jsval :=
  let task := getVideoTaskPayload data in
  vget task (js "task_id") ||| vget task (js "id") ||| vget data (js "task_id") ||| vget data (js "id").

Definition reply_status (data : jsval) : jsstr :=
  lower_text (vget (getVideoTaskPayload data) (js "status") ||| vget data (js "status") ||| VStr (js "queued")).

Lemma lower_resumed st : st ∈ RESUMED -> lower_text (VStr st ||| VStr []) = st /\ in_list st TERMINAL = false.
Proof.
  unfold RESUMED. rewrite !elem_of_cons.
  intros [->|[->|[->|[->|[->|[->|[->|E]]]]]]]; [split; vm_compute; reflexivity..|]. by apply not_elem_of_nil in E.
Qed.

Lemma resume_new l m active : Forall (fun m => resumable m = false) l -> resumable m = true ->
  existsb (strict_eq (vget (videoTask m) (js "taskId"))) active = false ->
  fst (resume_tasks active (l ++ [m])) = [(vget (videoTask m) (js "taskId"), id m)].
Proof.
  intros F R A. induction F as [|x l X _ IH]; cbn [app resume_tasks].
  - by rewrite R, A.
  - rewrite X. cbn [andb]. exact IH.
Qed.

(** The polling of a new video task is started twice: a successful reply
    with a task that still runs starts polling from the request, and the
    message it leaves is one that the page resumes, because the request does
    not register its task as active: two loops poll the same task and write the
    same message. *)
Theorem video_task_polled_twice payload code st body o l m active :
  is_str (vget payload (js "__endpoint")) (js "video") = true -> str_truthy body = true -> JSON_parse body = Some (VObj o) ->
  truthy (vget (vget (VObj o) (js "choices")) (js "0")) = false ->
  truthy (reply_task (VObj o)) = true -> reply_status (VObj o) ∈ RESUMED ->
  has_role m ASSISTANT = true -> has_status m LOADING = true -> Forall (fun m => resumable m = false) l ->
  existsb (strict_eq (reply_task (VObj o))) active = false ->
  let cs := request_reply t type_error stack now_iso payload (Response true code st body) in
  StartPoll PollVideo (reply_task (VObj o)) ∈ cs /\
  exists m', run_commands cs (l ++ [m]) = Some (l ++ [m']) /\
    fst (resume_tasks active (l ++ [m'])) = [(reply_task (VObj o), id m)].
Proof.
  intros V B J C T S A L F N. cbn [request_reply]. rewrite B, J.
  assert (I : is_str (vget payload (js "__endpoint")) (js "image") = false).
  { destruct (vget payload (js "__endpoint")); try done. apply bool_decide_eq_true in V as ->. by vm_compute. }
  rewrite C, I. unfold other_reply. rewrite V. fold (reply_task (VObj o)) (reply_status (VObj o)).
  set (task := VObj [_; _; _]). rewrite T. cbn [andb].
  split; [apply elem_of_app; right; apply list_elem_of_further, list_elem_of_here|].
  unfold show_response. cbn [app]. rewrite !run_other by done. cbn [run_commands run_update plain]. unfold answer_last.
  rewrite last_snoc_msg, L, replace_last_snoc. cbn [mbind option_bind fst]. eexists. split; [reflexivity|].
  assert (K1 : vget task (js "taskId") = reply_task (VObj o)) by reflexivity.
  assert (K2 : vget task (js "status") = VStr (reply_status (VObj o))) by reflexivity.
  assert (K3 : vget task (js "playableUrl") = VUndef) by reflexivity.
  destruct (lower_resumed _ S) as [S1 S2]. generalize dependent task. intros task K1 K2 K3.
  rewrite resume_new; [|done| |]; cbn [videoTask id].
  - cbn. by rewrite K1.
  - unfold resumable. cbn. unfold has_role in *. cbn. rewrite A, K1, K2, K3, T, S1, S2. by apply bool_decide_eq_true_2.
  - cbn. by rewrite K1.
Qed.
End Tasks.

(** ** Samples *)

Definition sample_sent : list Message := [sample_question; sample_loading].
Definition sample_partial : Message := sample_loading <| content := VStr (js "Hel") |> <| status := VStr INCOMPLETE |>.

Definition sample_saved : Modes := {| text := sample_sent; image := sample_talk; video := sample_talk |}.

(** A part of the answer has arrived since the message was saved. *)
Definition sample_page : PlayPage :=
  let modes := mode_set Text [sample_question; sample_partial] sample_saved in
  {| message := text modes; displayMode := Text; previousMode := Text; currentMessages := text modes;
     modeStoreInitialized := true; modeMessages := modes; stored := Some sample_saved; load := Idle |}.

Lemma named_pair a b x y : id a = VStr x -> id b = VStr y -> x <> [] -> y <> [] -> x <> y -> named [a; b].
Proof.
  intros A B X Y D. split; cbn [map]; rewrite A, B.
  - apply NoDup_cons. split; [|apply NoDup_singleton]. rewrite list_elem_of_singleton. by intros [= ->].
  - repeat constructor; by eexists.
Qed.

Lemma sample_sent_named : named sample_sent.
Proof. by apply (named_pair _ _ (js "q1") (js "m1")). Qed.

Lemma sample_talk_named : named sample_talk.
Proof. by apply (named_pair _ _ (js "q1") (js "a1")). Qed.

Lemma sample_page_ok : page_ok sample_page.
Proof.
  split; try reflexivity. intros []; [|apply sample_talk_named..]. by apply (named_pair _ _ (js "q1") (js "m1")).
Qed.



(** The rest of the answer is then added to the message without its start. *)
Lemma switch_loads_stored_witness :
  let p' := restoreModeMessages sample_now [] (stored sample_page) None None (switchMode sample_now Image sample_page) in
  view p' = (Image, sample_saved) /\ text (conversations sample_page) = [sample_question; sample_partial] /\
  exists m, (fun r => text (conversations (fst r))) <$> request_update sample_now (UStream ContentChunk (VStr (js "lo"))) Text p'
            = Some [sample_question; m] /\ content m = VStr (js "lo").
Proof.
  cbv zeta. destruct (switch_loads_stored sample_now Image [] sample_saved sample_page sample_page_ok) as (_ & V & _).
  - reflexivity.
  - intros []; (split; [discriminate|]); [apply sample_sent_named|apply sample_talk_named..].
  - split; [exact V|]. split; [reflexivity|]. eexists. split; [vm_compute; reflexivity|vm_compute; reflexivity].
Defined.

Lemma reload_keeps_loading_witness :
  needsPersistedTailNormalize (message (restoreModeMessages sample_now [] (Some sample_saved) None None sample_page)) = true.
Proof.
  apply (reload_keeps_loading sample_now [] sample_saved sample_page [sample_question] sample_loading same []);
    vm_compute; reflexivity.
Defined.

Definition sample_task : list (jsstr * jsval) := [(js "task_id", VStr (js "task-1")); (js "status", VStr (js "QUEUED"))].
Definition sample_task_text : jsstr := default [] (JSON_stringify 0 (VObj sample_task)).
Definition sample_video_request : jsval := VObj [(js "__endpoint", VStr (js "video"))].

Lemma video_task_polled_twice_witness :
  let cs := request_reply (H := code_unit_unicode) same [] VStr [] sample_video_request (Response true 200 [] sample_task_text) in
  StartPoll PollVideo (reply_task (VObj sample_task)) ∈ cs /\ reply_task (VObj sample_task) = VStr (js "task-1") /\
  exists m', run_commands cs [sample_question; sample_loading] = Some [sample_question; m'] /\
    fst (resume_tasks (H := code_unit_unicode) [] [sample_question; m']) = [(reply_task (VObj sample_task), id sample_loading)].
Proof.
  cbv zeta.
  destruct (video_task_polled_twice (H := code_unit_unicode) same [] VStr [] sample_video_request 200 [] sample_task_text
    sample_task [sample_question] sample_loading []) as [P (m' & R & E)];
    [vm_compute; reflexivity..| |vm_compute; reflexivity|vm_compute; reflexivity| |vm_compute; reflexivity|].
  - apply (bool_decide_unpack _). vm_compute. exact Logic.I.
  - repeat constructor.
  - split; [exact P|]. split; [vm_compute; reflexivity|]. exists m'. split; [exact R|exact E].
Defined.
