(* ===== verification/PlaygroundSettings.v ===== *)
(** * The settings of the playground

    The stored configuration of [components/playground/configStorage.js], the
    handlers of the settings in [hooks/playground/usePlaygroundState.js], and
    the loading of models, types, routes and groups of
    [hooks/playground/useDataLoader.js] with [processModelsData] and
    [processGroupsData] of [helpers/api.js].

    The settings ([inputs]) are a JavaScript object.  [localStorage] is read as
    the text of an entry, or [None]. *)

From Stdlib Require Import SpecFloat.
From stdpp Require Import base list numbers strings.
From S2P Require Import Prelude JsNumber JsString JsValue JsJson JsReprint PlaygroundText PlaygroundMedia PlaygroundChat PlaygroundActions.
Local Open Scope Z_scope.
Local Open Scope js_scope.

(** ** The configuration *)

Record Config := {
  c_inputs : jsval;
  c_parameterEnabled : jsval;
  c_showDebugPanel : jsval;
  c_customRequestMode : jsval;
  c_customRequestBody : jsval
}.

#[export] Instance eta_Config : Eta Config := fun c =>
  {| c_inputs := c_inputs c; c_parameterEnabled := c_parameterEnabled c; c_showDebugPanel := c_showDebugPanel c;
     c_customRequestMode := c_customRequestMode c; c_customRequestBody := c_customRequestBody c |}.

Definition num (z : Z) : jsval := VNum (num_of_Z z).

Definition default_inputs : list (jsstr * jsval) :=
  [(js "display_mode", VStr (js "text")); (js "model", VStr (js "gpt-4o")); (js "model_type", VStr []);
   (js "selected_route_slug", VStr []); (js "group", VStr []); (js "temperature", VNum (dec_num false 7 (-1)));
   (js "top_p", num 1); (js "max_tokens", num 4096); (js "frequency_penalty", num 0); (js "presence_penalty", num 0);
   (js "seed", VNull); (js "stream", VBool true); (js "imageEnabled", VBool false); (js "imageUrls", VArr [VStr []]);
   (js "videoUrls", VArr [VStr []]); (js "selected_model_tags", VArr []); (js "image_size", VStr (js "1280x720"));
   (js "image_n", num 1); (js "image_quality", VStr (js "standard")); (js "image_response_format", VStr (js "url"));
   (js "image_style", VStr (js "vivid")); (js "video_duration", num 5); (js "video_resolution_preset", VStr (js "1280x720"));
   (js "video_width", num 1280); (js "video_height", num 720); (js "video_fps", num 24);
   (js "video_motion", VNum (dec_num false 4 (-1))); (js "video_n", num 1)].

Definition default_parameters : list (jsstr * jsval) :=
  [(js "temperature", VBool true); (js "top_p", VBool true); (js "max_tokens", VBool false);
   (js "frequency_penalty", VBool true); (js "presence_penalty", VBool true); (js "seed", VBool false)].

(** [systemPrompt], an empty text that nothing reads, is left out. *)
Definition DEFAULT_CONFIG : Config :=
  {| c_inputs := VObj default_inputs; c_parameterEnabled := VObj default_parameters; c_showDebugPanel := VBool false;
     c_customRequestMode := VBool false; c_customRequestBody := VStr [] |}.

Definition config_fields (c : Config) : list (jsstr * jsval) :=
  [(js "inputs", c_inputs c); (js "parameterEnabled", c_parameterEnabled c); (js "showDebugPanel", c_showDebugPanel c);
   (js "customRequestMode", c_customRequestMode c); (js "customRequestBody", c_customRequestBody c)].

(** [saveConfig(config)]: the text that is stored; [timestamp] is the time. *)
Definition saveConfig (timestamp : jsstr) (c : Config) : jsstr :=
  default [] (JSON_stringify 0 (VObj (config_fields c ++ [(js "timestamp", VStr timestamp)]))).

(** The properties that a spread copies. *)
Definition own_fields (v : jsval) : list (jsstr * jsval) := match v with VObj o => o | _ => [] end.

(** [loadConfig()]; a stored [null] or text that is not JSON gives the default
    (the exception is caught). *)
Definition loadConfig (saved : option jsstr) : Config :=
  match saved with
  | Some text =>
      if str_truthy text then
        match JSON_parse text with
        | None | Some VNull => DEFAULT_CONFIG
        | Some parsed =>
            {| c_inputs := VObj (spread default_inputs (own_fields (vget parsed (js "inputs"))));
               c_parameterEnabled := VObj (spread default_parameters (own_fields (vget parsed (js "parameterEnabled"))));
               c_showDebugPanel := vget parsed (js "showDebugPanel") ||| c_showDebugPanel DEFAULT_CONFIG;
               c_customRequestMode := vget parsed (js "customRequestMode") ||| c_customRequestMode DEFAULT_CONFIG;
               c_customRequestBody := vget parsed (js "customRequestBody") ||| c_customRequestBody DEFAULT_CONFIG |}
        end
      else DEFAULT_CONFIG
  | None => DEFAULT_CONFIG
  end.

(** [saveMessages(messages, userId)]: the text that is stored *)
Definition saveMessages (timestamp : jsstr) (messages userId : jsval) : jsstr :=
  default [] (JSON_stringify 0 (VObj [(js "messages", messages); (js "timestamp", VStr timestamp); (js "userId", userId)])).

(** [loadMessages(userId)] on the stored text; the messages are a value. *)
Definition loadMessages (userId : jsval) (saved : option jsstr) : jsval :=
  match saved with
  | Some text =>
      if str_truthy text then
        match JSON_parse text with
        | Some (VObj o) =>
            let owner := vget (VObj o) (js "userId") in
            match assoc_get o (js "messages") with
            | Some messages =>
                if negb (truthy userId) || nullish owner || bool_decide (to_str owner = to_str userId)
                then messages else VNull
            | None => VNull
            end
        | _ => VNull
        end
      else VNull
  | None => VNull
  end.

(** [exportConfig]: the text of the file; [loaded] is the result of
    [loadMessages(userId)], which stands in for missing messages. *)
Definition exportConfig (exportTime : jsstr) (c : Config) (messages loaded : jsval) : jsstr :=
  pretty_json (VObj (config_fields c ++ [(js "messages", messages ||| loaded); (js "exportTime", VStr exportTime);
                                         (js "version", VStr (js "1.0"))])).

(** The messages of a configuration, when it has some. *)
Definition config_messages (v : jsval) : option (list jsval) :=
  match vget v (js "messages") with VArr l => Some l | _ => None end.

(** [importConfig]: the configuration and the messages that are stored, or an
    error. *)
Definition importConfig (text : jsstr) : option (jsval * option (list jsval)) :=
  match JSON_parse text with
  | None | Some VNull => None
  | Some v =>
      if truthy (vget v (js "inputs")) && truthy (vget v (js "parameterEnabled")) then Some (v, config_messages v) else None
  end.

(** ** Handlers of the settings *)

Definition handleInputChange (name : jsstr) (v : jsval) (inputs : jsval) : jsval :=
  VObj (assoc_set (own_fields inputs) name v).

Definition handleParameterToggle (paramName : jsstr) (parameterEnabled : jsval) : jsval :=
  VObj (assoc_set (own_fields parameterEnabled) paramName (VBool (negb (truthy (vget parameterEnabled paramName))))).

(** [ensureUniqueMessageIds] on the values of a file *)
Fixpoint unique_value_ids (now : jsstr) (index : nat) (seen : list jsstr) (l : list jsval) : list jsval :=
  match l with
  | [] => []
  | m :: r =>
      let base := baseId now index (vget m (js "id")) in
      let nextId := if bool_decide (base ∈ seen) then base ++ stamp now index else base in
      VObj (assoc_set (own_fields m) (js "id") (VStr nextId)) :: unique_value_ids now (S index) (nextId :: seen) r
  end.

(** [handleConfigImport]: the new configuration and the messages to set, if any;
    [now] is the clock as text. *)
Definition handleConfigImport (now : jsstr) (imported : jsval) (c : Config) : Config * option (list jsval) :=
  let field (k : jsstr) := vget imported k in
  ({| c_inputs := if truthy (field (js "inputs"))
                  then VObj (spread (own_fields (c_inputs c)) (own_fields (field (js "inputs")))) else c_inputs c;
      c_parameterEnabled := if truthy (field (js "parameterEnabled"))
                            then VObj (spread (own_fields (c_parameterEnabled c)) (own_fields (field (js "parameterEnabled"))))
                            else c_parameterEnabled c;
      c_showDebugPanel := match field (js "showDebugPanel") with VBool b => VBool b | _ => c_showDebugPanel c end;
      c_customRequestMode := field (js "customRequestMode") ||| c_customRequestMode c;
      c_customRequestBody := field (js "customRequestBody") ||| c_customRequestBody c |},
   unique_value_ids now 0 [] <$> config_messages imported).

(** [handleConfigReset]: the configuration; the messages are set to none and
    then to the defaults when asked for. *)
Definition handleConfigReset (t : jsstr -> jsstr) (resetMessages : bool) : Config * list (list Message) :=
  (DEFAULT_CONFIG, if resetMessages then [[]; getDefaultMessages t] else []).

(** Pictures and films are not streamed. *)
Definition stream_effect (inputs : jsval) : jsval :=
  if allow_media inputs && truthy (vget inputs (js "stream"))
  then handleInputChange (js "stream") (VBool false) inputs else inputs.

(** [handlePasteImage] *)
Definition handlePasteImage (base64 : jsstr) (inputs : jsval) : jsval :=
  if allow_media inputs
  then handleInputChange (js "imageUrls") (VArr (as_arr (vget inputs (js "imageUrls")) ++ [VStr base64])) inputs
  else inputs.

(** The older storage, moved to the conversations of the modes: what is saved
    ([None]: nothing) and whether the old entry is removed.  A text that is not
    JSON leaves everything (the exception is caught). *)
Definition migrateLegacyMessages (defaults : jsval) (existing : bool) (legacy : option jsstr) : option jsval * bool :=
  match existing, legacy with
  | false, Some text =>
      if negb (str_truthy text) then (None, false)
      else match JSON_parse text with
           | None => (None, false)
           | Some parsed =>
               match vget parsed (js "messages") with
               | VArr (m :: l) =>
                   (Some (VObj [(js "text", VArr (m :: l)); (js "image", defaults); (js "video", defaults)]), true)
               | _ => (None, true)
               end
           end
  | _, _ => (None, false)
  end.

(** ** Models, types and routes *)

(** An entry of a drop-down list. *)
Record Choice := { label : jsstr; value : jsval }.











(** [loadGroups], the options: the groups of the reply as (name, description,
    ratio). *)
Record GroupOption := { g_label : jsstr; g_value : jsstr; g_ratio : jsval; g_fullLabel : option jsstr }.

Definition short_label (desc : jsstr) : jsstr :=
  if (20 <? length desc)%nat then take 20 desc ++ js "..." else desc.

Definition processGroupsData (data : list (jsstr * (jsstr * jsval))) (userGroup : jsstr) : list GroupOption :=
  let options := map (fun e => {| g_label := short_label (fst (snd e)); g_value := fst e; g_ratio := snd (snd e);
                                  g_fullLabel := Some (fst (snd e)) |}) data in
  match options with
  | [] => [{| g_label := js "用户分组"; g_value := []; g_ratio := num 1; g_fullLabel := None |}]
  | _ =>
      match (if str_truthy userGroup then find_index (fun g => bool_decide (g_value g = userGroup)) options else None) with
      | Some i =>
          match options !! i with
          | Some g => g :: take i options ++ drop (S i) options
          | None => options
          end
      | None => options
      end
  end.

(** The group that stays selected. *)
Definition group_effect (options : list GroupOption) (inputs : jsval) : jsval :=
  if existsb (fun g => is_str (vget inputs (js "group")) (g_value g)) options then inputs
  else handleInputChange (js "group") (VStr (default [] (g_value <$> head options))) inputs.

Section Loader.
Context `{Unicode}.
Context (t : jsstr -> jsstr).

(** *** The reply of the models *)

(** A name alone stands for a row. *)
Definition normalized_item (item : jsval) : jsval :=
  match item with
  | VStr s => VObj [(js "model_name", VStr s); (js "vendor_id", num 0); (js "vendor", VStr []); (js "tested_success", VBool true)]
  | v => v
  end.

Definition reply_items (data : jsval) : list jsval :=
  map normalized_item (match data with VArr l => l | v => as_arr (vget v (js "items") ||| VArr []) end).

Definition playground_rows (data : jsval) : list jsval :=
  base.filter (fun item => truthy (vget item (js "model_name")) = true) (reply_items data).

Definition api_types (data : jsval) : list Choice :=
  base.filter (fun o => str_truthy (label o) && isFinite (to_num (value o)) && nleb n0 (to_num (value o)) = true)
    (map (fun item => {| label := trim (to_str (vget item (js "name") ||| VStr [])); value := VNum (to_num (vget item (js "id"))) |})
       (as_arr (vget data (js "vendor_options")))).

(** A [Map] keyed by the identifier: a later entry takes the place of the first. *)
Fixpoint put_type (o : Choice) (l : list Choice) : list Choice :=
  match l with
  | [] => [o]
  | x :: r => if neqb (to_num (value x)) (to_num (value o)) then o :: r else x :: put_type o r
  end.

Definition fallback_type (l : list Choice) (item : jsval) : list Choice :=
  let vendorName := trim (to_str (vget item (js "vendor") ||| VStr [])) in
  let vendorID := to_num (vget item (js "vendor_id") ??? num 0) in
  if neqb vendorID n0 then put_type {| label := t (js "未知模型类型"); value := num 0 |} l
  else if str_truthy vendorName && isFinite vendorID && nltb n0 vendorID
       then put_type {| label := vendorName; value := VNum vendorID |} l else l.

(** The types of a reply, after "all types". *)
Definition model_types (data : jsval) : list Choice :=
  let raw := match api_types data with [] => fold_left fallback_type (reply_items data) [] | l => l end in
  {| label := t (js "全部类型"); value := VStr [] |}
  :: sort_by (fun a b => localeCompare (label a) (label b) <=? 0) raw.

(** *** The effect that keeps the selection valid *)














End Loader.

(** ** The selection is settled by one run of the effect *)

Lemma assoc_set_same (o : list (jsstr * jsval)) k v : assoc_get o k = Some v -> assoc_set o k v = o.
Proof.
  intros G. unfold assoc_set. rewrite G. induction o as [|[k' w] o IH]; [done|]. cbn [assoc_get assoc_replace] in *.
  case_bool_decide as E; [by simplify_eq|]. by rewrite IH.
Qed.





Section Selection.
Context (t : jsstr -> jsstr).
Context (rows : list jsval) (types : list Choice).
Hypothesis rows_named : Forall (fun row => exists s, vget row (js "model_name") = VStr s) rows.



End Selection.







(** ** The configuration is kept *)

Lemma assoc_get_fold (b acc : list (jsstr * jsval)) k : NoDup (map fst b) ->
  assoc_get (fold_left (fun acc kv => assoc_set acc (fst kv) (snd kv)) b acc) k
  = match assoc_get b k with Some v => Some v | None => assoc_get acc k end.
Proof.
  revert acc. induction b as [|[k' v] b IH]; intros acc N; [done|]. cbn [map fst] in N. apply NoDup_cons in N as [N1 N2].
  cbn [fold_left fst snd assoc_get]. rewrite IH, assoc_get_set by done. case_bool_decide as E.
  - subst k'. rewrite decide_True by done. destruct (assoc_get b k) as [w|] eqn:G; [|done].
    destruct N1. apply assoc_get_Some_In in G. by apply (list_elem_of_fmap_2 fst) in G.
  - by rewrite decide_False.
Qed.

Lemma assoc_get_spread a b k : NoDup (map fst a) -> NoDup (map fst b) ->
  assoc_get (spread a b) k = match assoc_get b k with Some v => Some v | None => assoc_get a k end.
Proof.
  intros A B. unfold spread. rewrite !assoc_get_fold by done. by destruct (assoc_get b k), (assoc_get a k).
Qed.

(** A configuration that the page can hold. *)
Record config_ok (c : Config) : Prop := {
  ok_inputs : exists i, c_inputs c = VObj i /\ json_ok (VObj i);
  ok_parameters : exists p, c_parameterEnabled c = VObj p /\ json_ok (VObj p);
  ok_debug : exists b, c_showDebugPanel c = VBool b;
  ok_custom : exists b, c_customRequestMode c = VBool b;
  ok_body : exists s, c_customRequestBody c = VStr s /\ str_ok s
}.

Lemma fields_canonical c rest : bool_decide (NoDup (map fst (config_fields c ++ rest))) = true ->
  forallb (fun k => match array_index k with None => true | _ => false end) (map fst (config_fields c ++ rest)) = true ->
  canonical_keys (map fst (config_fields c ++ rest)).
Proof. intros N F. by apply (canonical_sublist _ _ F N). Qed.

Lemma fields_ok c : config_ok c -> Forall (fun kv => str_ok (fst kv) /\ json_ok (snd kv)) (config_fields c).
Proof.
  intros [(i & I & Io) (p & P & Po) (d & D) (m & M) (s & S & So)]. unfold config_fields. rewrite I, P, D, M, S.
  repeat (apply Forall_cons; split); try apply Forall_nil_2; cbn [fst snd]; split; try done;
    apply (bool_decide_unpack _); vm_compute; exact Logic.I.
Qed.

(** The settings over other ones: what they have, otherwise the others. *)
Definition over (a b : jsval) (k : jsstr) : option jsval :=
  match assoc_get (own_fields a) k with Some v => Some v | None => assoc_get (own_fields b) k end.

Lemma obj_NoDup o : json_ok (VObj o) -> NoDup (map fst o).
Proof. rewrite json_ok_obj. intros [C _]. by apply canonical_NoDup. Qed.

Lemma parsed_fields c rest : config_ok c -> Forall (fun kv => str_ok (fst kv) /\ json_ok (snd kv)) rest ->
  canonical_keys (map fst (config_fields c ++ rest)) -> forall gap, exists text,
  JSON_stringify gap (VObj (config_fields c ++ rest)) = Some text /\ JSON_parse text = Some (VObj (config_fields c ++ rest)) /\
  str_truthy text = true.
Proof.
  intros O R C gap. destruct (JSON_parse_stringify gap (VObj (config_fields c ++ rest))) as (text & E & J).
  { apply json_ok_obj. split; [exact C|]. apply Forall_app. split; [by apply fields_ok|done]. }
  exists text. split; [exact E|]. split; [exact J|]. clear E. destruct text; [|done].
  assert (X : JSON_parse [] = None) by (vm_compute; reflexivity). rewrite X in J. discriminate J.
Qed.

Lemma config_get c rest k v : assoc_get (config_fields c) k = Some v -> vget (VObj (config_fields c ++ rest)) k = v.
Proof. intros G. cbn [vget]. rewrite assoc_get_app, G. done. Qed.

Lemma or_bool b d : VBool b ||| VBool d = VBool (b || d).
Proof. by destruct b. Qed.

(** Settings read from fields, over others. *)
Lemma spread_over o d : NoDup (map fst d) -> json_ok (VObj o) ->
  forall k, assoc_get (spread d o) k = over (VObj o) (VObj d) k.
Proof. intros D O k. apply assoc_get_spread; [done|by apply obj_NoDup]. Qed.

Lemma default_inputs_NoDup : NoDup (map fst default_inputs).
Proof. apply (bool_decide_unpack _). vm_compute. exact Logic.I. Qed.

Lemma default_parameters_NoDup : NoDup (map fst default_parameters).
Proof. apply (bool_decide_unpack _). vm_compute. exact Logic.I. Qed.

Lemma config_fields_get c : assoc_get (config_fields c) (js "inputs") = Some (c_inputs c) /\
  assoc_get (config_fields c) (js "parameterEnabled") = Some (c_parameterEnabled c) /\
  assoc_get (config_fields c) (js "showDebugPanel") = Some (c_showDebugPanel c) /\
  assoc_get (config_fields c) (js "customRequestMode") = Some (c_customRequestMode c) /\
  assoc_get (config_fields c) (js "customRequestBody") = Some (c_customRequestBody c).
Proof. repeat split; vm_compute; reflexivity. Qed.

(** A configuration that is stored and loaded again is the same, with the
    default of every setting that it does not have. *)
Lemma stored_config_loads timestamp c : config_ok c -> str_ok timestamp ->
  let c' := loadConfig (Some (saveConfig timestamp c)) in
  (forall k, assoc_get (own_fields (c_inputs c')) k = over (c_inputs c) (VObj default_inputs) k) /\
  (forall k, assoc_get (own_fields (c_parameterEnabled c')) k = over (c_parameterEnabled c) (VObj default_parameters) k) /\
  c_showDebugPanel c' = c_showDebugPanel c /\ c_customRequestMode c' = c_customRequestMode c /\
  c_customRequestBody c' = c_customRequestBody c.
Proof.
  intros O T. destruct (parsed_fields c [(js "timestamp", VStr timestamp)] O) with (gap := 0%nat) as (text & E & J & X).
  - apply Forall_cons. split; [|apply Forall_nil_2]. split; [|exact T]. apply (bool_decide_unpack _). vm_compute. exact Logic.I.
  - apply fields_canonical; vm_compute; reflexivity.
  - cbv zeta. unfold saveConfig. rewrite E. change (default [] (Some text)) with text. cbn [loadConfig]. rewrite X, J.
    destruct (config_fields_get c) as (G1 & G2 & G3 & G4 & G5).
    rewrite !(config_get c _ _ _ G1), !(config_get c _ _ _ G2), !(config_get c _ _ _ G3), !(config_get c _ _ _ G4), !(config_get c _ _ _ G5).
    cbn [c_inputs c_parameterEnabled c_showDebugPanel c_customRequestMode c_customRequestBody DEFAULT_CONFIG].
    destruct O as [(i & -> & Io) (p & -> & Po) (d & ->) (m & ->) (s & -> & So)]. cbn [own_fields].
    split; [by apply spread_over; [apply default_inputs_NoDup|]|]. split; [by apply spread_over; [apply default_parameters_NoDup|]|].
    rewrite !or_bool, !orb_false_r. by destruct s.
Qed.

(** The messages of a page are objects with distinct identifiers. *)
Definition message_id (m : jsval) : jsstr := to_str (vget m (js "id")).
Definition has_id (m : jsval) : Prop :=
  exists o, m = VObj o /\ assoc_get o (js "id") = Some (VStr (message_id m)) /\ message_id m <> [].

Lemma unique_value_ids_same now l index seen : Forall has_id l -> NoDup (map message_id l) ->
  (forall m, m ∈ l -> message_id m ∉ seen) -> unique_value_ids now index seen l = l.
Proof.
  revert index seen. induction l as [|m l IH]; intros index seen F N S; [done|].
  apply Forall_cons in F as [(o & E & I & T) F]. apply NoDup_cons in N as [N0 N]. cbn [unique_value_ids].
  assert (V : vget m (js "id") = VStr (message_id m)) by (rewrite E at 1; cbn [vget]; by rewrite I).
  rewrite V. unfold baseId. cbn [to_str]. assert (str_truthy (message_id m) = true) as -> by (by destruct (message_id m)).
  rewrite bool_decide_false by (apply S, list_elem_of_here).
  rewrite IH; [..|].
  - f_equal. rewrite E at 1. cbn [own_fields]. rewrite assoc_set_same by exact I. by rewrite E.
  - done.
  - done.
  - intros m' M [Q|Q]%elem_of_cons.
    + apply N0. rewrite <- Q. by apply (list_elem_of_fmap_2 message_id).
    + revert Q. apply S. by apply list_elem_of_further.
Qed.

(** C29. A configuration exported to a file and imported into a page gives the page
    its settings and messages: every setting of the file is taken, a setting
    the file does not have is kept, and the messages are the exported ones
    (with their identifiers, which are distinct).
    The custom request mode and its body are taken only when they are on and
    not empty: importing a configuration in which they are off leaves them on. *)
Theorem exported_config_reimports time now c c0 messages loaded : config_ok c -> config_ok c0 -> str_ok time ->
  Forall json_ok messages -> Forall has_id messages -> NoDup (map message_id messages) ->
  exists v c1, importConfig (exportConfig time c (VArr messages) loaded) = Some (v, Some messages) /\
    handleConfigImport now v c0 = (c1, Some messages) /\
    (forall k, assoc_get (own_fields (c_inputs c1)) k = over (c_inputs c) (c_inputs c0) k) /\
    (forall k, assoc_get (own_fields (c_parameterEnabled c1)) k = over (c_parameterEnabled c) (c_parameterEnabled c0) k) /\
    c_showDebugPanel c1 = c_showDebugPanel c /\
    c_customRequestMode c1 = c_customRequestMode c ||| c_customRequestMode c0 /\
    c_customRequestBody c1 = c_customRequestBody c ||| c_customRequestBody c0.
Proof.
  intros O O0 T Ms Ids N. set (rest := [(js "messages", VArr messages); (js "exportTime", VStr time); (js "version", VStr (js "1.0"))]).
  destruct (parsed_fields c rest O) with (gap := 2%nat) as (text & E & J & X).
  - repeat (apply Forall_cons; split); try apply Forall_nil_2; cbn [fst snd]; split; try exact T; try (by apply json_ok_arr);
      apply (bool_decide_unpack _); vm_compute; exact Logic.I.
  - apply fields_canonical; vm_compute; reflexivity.
  - destruct (config_fields_get c) as (G1 & G2 & G3 & G4 & G5). unfold exportConfig, pretty_json.
    change (VArr messages ||| loaded) with (VArr messages). fold rest. rewrite E.
    change (default [] (Some text)) with text. unfold importConfig. rewrite J.
    rewrite (config_get c rest _ _ G1), (config_get c rest _ _ G2).
    assert (M : vget (VObj (config_fields c ++ rest)) (js "messages") = VArr messages).
    { cbn [vget]. rewrite assoc_get_app. assert (assoc_get (config_fields c) (js "messages") = None) as -> by (vm_compute; reflexivity).
      reflexivity. }
    destruct O as [(i & I & Io) (p & P & Po) (d & D) (m & Mo) (s & S & So)].
    destruct O0 as [(i0 & I0 & Io0) (p0 & P0 & Po0) _ _ _]. rewrite I, P. cbn [truthy andb].
    do 2 eexists. unfold config_messages. rewrite M. split; [done|]. unfold handleConfigImport, config_messages. rewrite M.
    cbn [fmap option_fmap option_map]. rewrite unique_value_ids_same by (done || (intros ? _; apply not_elem_of_nil)).
    rewrite (config_get c rest _ _ G1), (config_get c rest _ _ G2), (config_get c rest _ _ G3), (config_get c rest _ _ G4), (config_get c rest _ _ G5).
    split; [done|]. rewrite I, P, I0, P0, D. cbn [truthy own_fields c_inputs c_parameterEnabled c_showDebugPanel c_customRequestMode c_customRequestBody].
    split; [by apply spread_over; [apply obj_NoDup|]|]. by split; [apply spread_over; [apply obj_NoDup|]|].
Qed.

(** ** Samples *)

Definition sample_config (custom : bool) : Config :=
  {| c_inputs := VObj [(js "model", VStr (js "m"))]; c_parameterEnabled := VObj []; c_showDebugPanel := VBool false;
     c_customRequestMode := VBool custom; c_customRequestBody := VStr [] |}.

Lemma sample_config_ok custom : config_ok (sample_config custom).
Proof.
  split; cbn [sample_config c_inputs c_parameterEnabled c_showDebugPanel c_customRequestMode c_customRequestBody];
    try (eexists; reflexivity); (eexists; split; [reflexivity|]).
  - apply json_ok_obj. split; [repeat constructor|]. apply Forall_cons. split; [|apply Forall_nil_2].
    split; apply (bool_decide_unpack _); vm_compute; exact Logic.I.
  - apply json_ok_obj. split; constructor.
  - constructor.
Qed.

Definition sample_messages : list jsval := [VObj [(js "id", VStr (js "1")); (js "role", VStr (js "user"))]].

(** The messages come back, and the mode stays on. *)
Lemma exported_config_reimports_witness :
  exists v c1, importConfig (exportConfig [] (sample_config false) (VArr sample_messages) VNull) = Some (v, Some sample_messages) /\
    handleConfigImport [] v (sample_config true) = (c1, Some sample_messages) /\ c_customRequestMode c1 = VBool true.
Proof.
  destruct (exported_config_reimports [] [] (sample_config false) (sample_config true) sample_messages VNull)
    as (v & c1 & I & E & _ & _ & _ & M & _).
  - apply sample_config_ok.
  - apply sample_config_ok.
  - constructor.
  - apply Forall_cons. split; [|constructor]. apply json_ok_obj. split; [repeat constructor; apply (bool_decide_unpack _); vm_compute; exact Logic.I|].
    repeat (apply Forall_cons; split); try apply Forall_nil_2; split; apply (bool_decide_unpack _); vm_compute; exact Logic.I.
  - repeat constructor. eexists. split; [reflexivity|]. split; [vm_compute; reflexivity|discriminate].
  - apply (bool_decide_unpack _). vm_compute. exact Logic.I.
  - exists v, c1. split; [exact I|]. split; [exact E|]. rewrite M. reflexivity.
Defined.


